(* ===== verification/_CoqProject ===== *)
-Q . S2P
Prelude.v
GoStrings.v
Regexp.v
Logging.v
Api.v
Memory.v
DeepCopy.v
ConfigGen.v
TestUtils.v
HostapdConf.v
Controller.v
ControllerSpec.v
ControllerTheorems.v
Fleet.v
Manifests.v
MonitorArgs.v
Labels.v
Sys.v
LinkEvents.v
TrafficControl.v
TrafficControlSpec.v
Hostap.v
ClientSpec.v
HostapSpec.v
HostapReport.v
HostapLife.v
HostapSteps.v
Confined.v
Demo.v
TrafficControlTheorems.v
HostapTheorems.v
LifecycleTheorems.v
MonitorMain.v
Process.v
Startup.v
Stopping.v
Life.v
Shutdown.v
Restart.v
EndToEnd.v
Operator.v
Serving.v
