(* ===== verification/Prelude.v ===== *)
(** * eapol-operator: a verification library

    The repository is a Kubernetes operator for IEEE 802.1X.  An [Authenticator]
    resource (src/api/v1) names interfaces of a node; the operator
    (src/controllers) generates a ConfigMap and a DaemonSet from it
    (src/pkg/configgen); each pod of the DaemonSet runs hostapd and, beside it,
    the monitor (src/monitor/main.go).  The monitor prepares the interfaces with
    tc (src/internal/trafficcontrol), and for each interface runs a state machine
    (src/pkg/hostap) that listens to hostapd and to the kernel's link events
    (src/pkg/netlink) and lets authenticated stations through.

    The development follows this structure: every program file of the repository
    has the file of the library that models it, named below, and the definitions
    have the names of the Go functions.

    ** Files

    - [Prelude]: errors, the state monad with Go's panics, loops with early exit,
      weakest preconditions and their tactics.  [wp m Q s] is total correctness:
      [m] started in [s] does not panic and ends with a result and state in [Q];
      [wpx P m Q s] allows a panic when [P] does not hold.
    - [GoStrings]: the functions of Go's strings, strconv and path/filepath that
      the program uses.
    - [Api]: the types of src/api/v1/authenticator_types.go.
    - [ConfigGen]: src/pkg/configgen/configgen.go, the DaemonSet generator.
    - [MonitorArgs]: the settings part of src/monitor/main.go, and how it reads
      the environment that [ConfigGen] generates.
    - [Sys]: the environment.  Everything the program does to the outside or asks
      of it is an event of a trace; every answer is an arbitrary function of the
      trace so far (class [Sys]).  It includes the order in which Go ranges over
      a map.  [World] adds the store of PFs, which the program shares by pointer.
    - [TrafficControl]: src/internal/trafficcontrol (sriov.go, tc.go), one
      definition per function; [TrafficControlSpec] has their specifications,
      [TrafficControlTheorems] the theorems.
    - [Hostap]: src/pkg/hostap (monitor.go, stats.go), the state of an
      [InterfaceMonitor] and one definition per handler.
    - [ClientSpec]: the abstract machine that a monitor implements: a set of
      clients, and the clients on notice since a link failure.
    - [HostapSpec]: the monitor's invariant [Inv], and for every handler that it
      keeps the invariant and takes one step of [ClientSpec].
    - [HostapReport]: the status entry, its update with retries, the counters.
    - [HostapLife]: the timeout round, start and stop.
    - [HostapSteps]: the monitor's goroutines as programs of segments and the
      interleaving machine [sys_run]; what holds the monitor's mutex is one
      segment, everything else is cut at every operation.
    - [Demo]: a concrete environment and a scheduler, for the witnesses.
    - [HostapTheorems], [LifecycleTheorems]: the theorems about the monitor.
    - [MonitorMain]: what src/monitor/main.go does to the interfaces.
    - [HostapdConf]: the ConfigMap generator: the template
      src/pkg/configgen/data/hostapd.conf.tmpl as html/template executes it.
    - [Controller]: src/controllers/authenticator_controller.go over an arbitrary
      API server (class [ApiServer]), with controllerutil's owner references;
      [ControllerSpec] has the specifications of its parts,
      [ControllerTheorems] the theorems and a concrete server; [Fleet]: any run of the
      work queue over many Authenticators.
    - [Manifests]: src/controllers/authenticator_resources.go, the RBAC manifests
      from the files to the reconciler's objects.
    - [Labels]: src/internal/k8s/k8s.go, how the monitor finds its Authenticator
      in the file the kubelet makes of the labels that [ConfigGen] gives a pod.
    - [LinkEvents]: src/pkg/netlink/eventhandle.go, the handler that passes link
      updates to the monitors, as a step relation with their receivers and with the
      kernel's updates; its safety, its progress and its end.
    - [Process]: all monitors of the process at once, and what holds of each beside
      the others; [Startup]: main before its loop, from the generated pod on;
      [Serving]: the metrics, their server, and the error variable that its
      goroutine shares with main.
    - [Confined]: what the monitor's programs can touch in whatever state the clients
      are; [Stopping]: [StopMonitor] as a program of segments, cut at every operation
      on what it shares with the goroutines it stops.
    - [Life]: src/monitor/main.go as a step relation of the whole process: main's
      loop, the goroutines, the signal, the stops, the link handler and the end;
      [Shutdown]: what a stop leaves on the machine.
    - [EndToEnd]: the operator, the pod and the process put together.
    - [Restart]: what the next process finds on the machine, over two runs of [Life].
    - [TestUtils]: src/internal/testutils/authenticator_utils.go, and for every
      Authenticator what the unit tests try on one.
    - [Regexp]: the regular expressions of the program as Go's regexp matches them,
      leftmost-first; [Logging]: src/internal/logging/logging.go with the part of
      klog that it talks to.
    - [Memory], [DeepCopy]: a heap of typed cells, and
      src/api/v1/zz_generated.deepcopy.go over it.
    - [Operator]: src/main.go and the clients of src/internal/k8s/k8s.go as sequences
      of library calls, src/api/v1/groupversion_info.go.

    ** What the theorems show

    - C1 to C5: the interleaved monitor.  Every run refines the abstract machine;
      the VFs are isolated exactly while no station is authenticated; a station is
      let through only after hostapd reported it; nothing panics while the API
      server answers; the clients are the stations reported last as connected.
    - C6 to C13: the whole.  From the operator's work queue over the pod of the
      DaemonSet that it leaves to the isolation of the interfaces; while monitors
      are started and stopped each other one keeps its own VFs isolated; the process
      comes to its end, and the one way in which it can panic; a stop gives the VFs
      back if the goroutines leave them alone meanwhile, and what the next process
      finds then, and after a crash; what a failure of the metrics server can do;
      a disconnection during a stop leaves the VFs closed.
    - C14 to C18: the reconciler.  Whatever the order of its work queue it converges
      for all Authenticators, a repetition changes nothing, two ways in which it
      loses or confuses the owners of what it creates, and the manifests with which
      the operator starts.
    - C19 to C23: handlers of the monitor, its start, status reports.
    - C24 to C26: traffic control: VF programming, VLAN learning, the tc script.
    - C27: any list of two ports makes the monitor leave.
    - C28 to C31: the generated hostapd.conf, what HTML escaping does to a
      passphrase, and the generated DaemonSet.
    - C32 to C34: the link event handler: delivery, progress, and its end.
    - C35 to C37: the lines of klog: they are taken apart within bounds, each once,
      and as they were printed.
    - C38: deep copies share nothing with their original.

    ** Bounds and fuel

    Integers are [Z]: ports, VLANs and VF indices are only compared and printed;
    timestamps are microseconds whose differences stay far from the int64 range;
    [Atoi] checks the range of a Go int on a 64-bit machine.  The only loop
    without a bound in the code is the repeated attach of [StartMonitor]
    ([attachHostapd]); its model takes the number of attempts, and
    [StartMonitor_returns] shows that one suffices unless a write times out.
    The loops of the goroutines are the rounds of [HostapSteps].  Retries of the
    status update are bounded by the library's five steps.  The reading of the log
    has the length of its input as fuel, since every read takes a byte.  The
    matcher of [Regexp] recurses on the expression and the text.

    ** What is not modelled

    - What libraries do behind a call: the manager and its watches, the clients of
      the API server, HTTP, the YAML decoder, the parsing of flags, the delivery of
      signals.  The calls and their results are modelled.
    - What the program writes to its log: every call of the logger.
    - The kernel, hostapd, tc and the API server: they are the environment.  Two
      facts about them are named hypotheses where they are used: [LinkNames] (a
      link found by name has that name) and, for results that need working
      requests, [netlink_ok], [tc_ok] and [api_ok].  The reconciler's theorems
      take an API server with the conventions [served], and where they need one
      that accepts requests, [responsive].
    - Finer interleavings.  A handler that holds the monitor's mutex is one step,
      also towards [StopMonitor], which does not take the mutex; the start of a
      monitor up to its go statements is one step of the process.  The segments of
      different monitors are atomic to each other: they share only the machine, and
      each interface has its own environment.
    - The link handler is modelled twice: [LinkEvents] has all of its operations,
      and assumes that a monitor is done with an update some time; [Life] has it as
      far as the monitors notice it, with their handling of the updates, and with
      its panic on the channel that a stopping monitor has closed.
    - The CRDs, vendored libraries except for the few functions that the manifest
      names, build and bundle files, src/pkg/tools (imports only), and the tests
      themselves, of which [TestUtils] has the shared part. *)
From stdpp Require Export base tactics gmap sets list strings pretty relations.
From stdpp Require Export fin_maps.
From Stdlib Require Export ZArith Lia.

Declare Scope go_scope.
Delimit Scope go_scope with go.
#[global] Open Scope go_scope.

Create HintDb go discriminated.

(** ** Errors: Go's [error] values

    A nil error is [None]; a function returning [(T, error)] whose callers use
    the value only when the error is nil returns [result T].  Kubernetes API
    errors carry a status reason that [errors.IsNotFound] and
    [errors.IsConflict] inspect; wrapping with [fmt.Errorf] and a verb other
    than [%w] hides it. *)
Inductive reason := RNotFound | RConflict | RAlreadyOwned | RTimeout | ROther.

Inductive error :=
| Error (r : reason) (msg : string)
| Errorf (format : string) (args : list string)
| ErrorfWith (format : string) (args : list string) (cause : error).

#[global] Instance reason_eq_dec : EqDecision reason.
Proof. solve_decision. Defined.

#[global] Instance error_eq_dec : EqDecision error.
Proof. solve_decision. Defined.

Definition reason_of (e : error) : reason :=
  match e with
  | Error r _ => r
  | _ => ROther
  end.

Definition IsNotFound (e : error) : bool := bool_decide (reason_of e = RNotFound).
(** [opErr, ok := err.(type *net.OpError); ok && opErr.Timeout()] *)
Definition IsTimeout (e : error) : bool := bool_decide (reason_of e = RTimeout).
Definition IsConflict (e : error) : bool := bool_decide (reason_of e = RConflict).

Inductive result (A : Type) :=
| Ok (a : A)
| Err (e : error).
Arguments Ok {A} _.
Arguments Err {A} _.

#[global] Instance result_eq_dec `{EqDecision A} : EqDecision (result A).
Proof. solve_decision. Defined.

(** ** The effect monad: state passing with Go panics

    A computation ends normally with a value and a new state, or panics.  A
    returned [error] is an ordinary value. *)
Inductive outcome (S A : Type) :=
| Done (a : A) (s : S)
| Panic (why : string) (s : S).
Arguments Done {S A} _ _.
Arguments Panic {S A} _ _.

Definition M (S A : Type) : Type := S → outcome S A.

#[global] Instance M_ret {S} : MRet (M S) := λ A a s, Done a s.

#[global] Instance M_bind {S} : MBind (M S) := λ A B f m s,
  match m s with
  | Done a s' => f a s'
  | Panic w s' => Panic w s'
  end.

Definition gets {S A} (f : S → A) : M S A := λ s, Done (f s) s.
Definition modify {S} (f : S → S) : M S unit := λ s, Done tt (f s).
Definition panic {S A} (why : string) : M S A := λ s, Panic why s.

(** Dereference of a pointer that may be nil. *)
Definition deref {S A} (o : option A) : M S A :=
  match o with
  | Some a => mret a
  | None => panic "invalid memory address or nil pointer dereference"
  end.

(** Run a computation on a part of the state. *)
Definition zoom {S T A} (get : S → T) (put : T → S → S) (m : M T A) : M S A := λ s,
  match m (get s) with
  | Done a t => Done a (put t s)
  | Panic w t => Panic w (put t s)
  end.

(** [if err := m; err != nil { return err }; k] *)
Definition check {S} (m : M S (option error)) (k : M S (option error)) : M S (option error) :=
  err ← m;
  match err with
  | Some e => mret (Some e)
  | None => k
  end.

Notation "'check!' m ;; k" := (check m k)
  (at level 100, m at level 99, k at level 200, right associativity) : go_scope.

(** [x, err := m; if err != nil { return err }; k x] *)
Definition checkVal {S A} (m : M S (result A)) (k : A → M S (option error))
  : M S (option error) :=
  r ← m;
  match r with
  | Err e => mret (Some e)
  | Ok a => k a
  end.

Notation "'val!' x := m ;; k" := (checkVal m (λ x, k))
  (at level 100, x binder, m at level 99, k at level 200, right associativity) : go_scope.

(** [for _, x := range l { body }], whose body returns early with an error. *)
Fixpoint forE {S X} (body : X → M S (option error)) (l : list X) : M S (option error) :=
  match l with
  | [] => mret None
  | x :: l' => check! body x ;; forE body l'
  end.

(** [for _, x := range l { body }] without early exit. *)
Fixpoint forU {S X} (body : X → M S unit) (l : list X) : M S unit :=
  match l with
  | [] => mret tt
  | x :: l' => _ ← body x; forU body l'
  end.

(** [for _, x := range l { ... break ... }]: the body says whether to go on. *)
Fixpoint forBreak {S X} (body : X → M S bool) (l : list X) : M S unit :=
  match l with
  | [] => mret tt
  | x :: l' => go_on ← body x; if go_on : bool then forBreak body l' else mret tt
  end.

(** [defer d(); m]: [d] runs when [m] has returned, or while it panics. *)
Definition deferred {S A} (m : M S A) (d : M S unit) : M S A := λ s,
  match m s with
  | Done a s' => match d s' with
                 | Done _ s'' => Done a s''
                 | Panic w s'' => Panic w s''
                 end
  | Panic w s' => match d s' with
                  | Done _ s'' => Panic w s''
                  | Panic w' s'' => Panic w' s''
                  end
  end.

(** ** Weakest preconditions

    [wpx P m Q s]: started in [s], [m] ends in a value and a state that satisfy
    [Q], or panics; it does not panic when [P] holds.  With [True] for [P] this
    is total correctness, written [wp m Q s]. *)
Definition wpx {S A} (P : Prop) (m : M S A) (Q : A → S → Prop) (s : S) : Prop :=
  match m s with
  | Done a s' => Q a s'
  | Panic _ _ => ¬ P
  end.

Abbreviation wp := (wpx True).

Section wpx.
Context {S : Type}.
Implicit Types P : Prop.

Lemma wp_ret {A} P (a : A) (Q : A → S → Prop) s : Q a s → wpx P (mret a) Q s.
Proof. done. Qed.

Lemma wp_bind {A B} P (m : M S A) (f : A → M S B) Q s :
  wpx P m (λ a s', wpx P (f a) Q s') s → wpx P (m ≫= f) Q s.
Proof. unfold wpx, mbind, M_bind. by destruct (m s). Qed.

Lemma wp_mono {A} P (m : M S A) (Q Q' : A → S → Prop) s :
  wpx P m Q s → (∀ a s', Q a s' → Q' a s') → wpx P m Q' s.
Proof. unfold wpx. destruct (m s); auto. Qed.

Lemma wp_weaken {A} P P' (m : M S A) (Q Q' : A → S → Prop) s :
  wpx P' m Q s → (P → P') → (∀ a s', Q a s' → Q' a s') → wpx P m Q' s.
Proof. unfold wpx. destruct (m s); auto. Qed.

Lemma wp_any_P {A} P (m : M S A) (Q : A → S → Prop) s : wp m Q s → wpx P m Q s.
Proof. unfold wpx. destruct (m s); tauto. Qed.

(** The result of the run itself may be kept. *)
Lemma wp_run {A} P (m : M S A) (Q : A → S → Prop) s :
  wpx P m Q s → wpx P m (λ a s', m s = Done a s' ∧ Q a s') s.
Proof. unfold wpx. by destruct (m s). Qed.

Lemma wp_deferred {A} P (m : M S A) (d : M S unit) Q s :
  wpx P m (λ a s', wpx P d (λ _ s'', Q a s'') s') s → wpx P (deferred m d) Q s.
Proof. unfold wpx, deferred. destruct (m s) as [a s'|w s']; by destruct (d s'). Qed.

Lemma wp_gets {A} P (f : S → A) Q s : Q (f s) s → wpx P (gets f) Q s.
Proof. done. Qed.

Lemma wp_modify P (f : S → S) Q s : Q tt (f s) → wpx P (modify f) Q s.
Proof. done. Qed.

Lemma wp_deref {A} P (o : option A) a Q (s : S) : o = Some a → Q a s → wpx P (deref o) Q s.
Proof. by intros ->. Qed.

Lemma wp_deref_maybe {A} P (o : option A) Q (s : S) :
  (P → is_Some o) → (∀ a, o = Some a → Q a s) → wpx P (deref o) Q s.
Proof.
  intros HP HQ. destruct o as [a|]; [by apply HQ|]. intros [? [=]]%HP.
Qed.

Lemma wp_check P (m k : M S (option error)) Q s :
  wpx P m (λ r s', match r with Some e => Q (Some e) s' | None => wpx P k Q s' end) s →
  wpx P (check m k) Q s.
Proof. intros H. apply wp_bind. eapply wp_mono; [done|]. by intros [e|] s'. Qed.

Lemma wp_checkVal {A} P (m : M S (result A)) (k : A → M S (option error)) Q s :
  wpx P m (λ r s', match r with Err e => Q (Some e) s' | Ok a => wpx P (k a) Q s' end) s →
  wpx P (checkVal m k) Q s.
Proof. intros H. apply wp_bind. eapply wp_mono; [done|]. by intros [a|e] s'. Qed.

(** Loop rules: an invariant over the part of the list already visited. *)
Lemma wp_forE {X} P (I : list X → S → Prop) (body : X → M S (option error)) Q l :
  (∀ pre x post s, l = pre ++ x :: post → I pre s →
     wpx P (body x) (λ r s', match r with
                             | None => I (pre ++ [x]) s'
                             | Some e => Q (Some e) s'
                             end) s) →
  (∀ s, I l s → Q None s) →
  ∀ s, I [] s → wpx P (forE body l) Q s.
Proof.
  intros Hbody Hend.
  cut (∀ post pre s, l = pre ++ post → I pre s → wpx P (forE body post) Q s).
  { intros H s. by apply (H l []). }
  induction post as [|x post IH]; intros pre s Hl HI; simpl.
  - apply wp_ret, Hend. by rewrite Hl, app_nil_r.
  - apply wp_check. eapply wp_mono; [by eapply Hbody|].
    intros [e|] s' H'; simpl in H'; [done|].
    apply (IH (pre ++ [x])); [|done]. by rewrite <-app_assoc.
Qed.

Lemma wp_forBreak {X} P (I : list X → S → Prop) (body : X → M S bool) Q l :
  (∀ pre x post s, l = pre ++ x :: post → I pre s →
     wpx P (body x) (λ b s', if b : bool then I (pre ++ [x]) s' else Q tt s') s) →
  (∀ s, I l s → Q tt s) →
  ∀ s, I [] s → wpx P (forBreak body l) Q s.
Proof.
  intros Hbody Hend.
  cut (∀ post pre s, l = pre ++ post → I pre s → wpx P (forBreak body post) Q s).
  { intros H s. by apply (H l []). }
  induction post as [|x post IH]; intros pre s Hl HI; simpl.
  - apply wp_ret, Hend. by rewrite Hl, app_nil_r.
  - apply wp_bind. eapply wp_mono; [by eapply Hbody|].
    intros [|] s' H'; simpl in H'; [|done].
    apply (IH (pre ++ [x])); [|done]. by rewrite <-app_assoc.
Qed.

Lemma wp_forU {X} P (I : list X → S → Prop) (body : X → M S unit) Q l :
  (∀ pre x post s, l = pre ++ x :: post → I pre s →
     wpx P (body x) (λ _ s', I (pre ++ [x]) s') s) →
  (∀ s, I l s → Q tt s) →
  ∀ s, I [] s → wpx P (forU body l) Q s.
Proof.
  intros Hbody Hend.
  cut (∀ post pre s, l = pre ++ post → I pre s → wpx P (forU body post) Q s).
  { intros H s. by apply (H l []). }
  induction post as [|x post IH]; intros pre s Hl HI; simpl.
  - apply wp_ret, Hend. by rewrite Hl, app_nil_r.
  - apply wp_bind. eapply wp_mono; [by eapply Hbody|].
    intros [] s' H'; simpl in H'.
    apply (IH (pre ++ [x])); [|done]. by rewrite <-app_assoc.
Qed.
End wpx.

Lemma wp_zoom {S T A} P (get : S → T) (put : T → S → S) (m : M T A) Q s :
  wpx P m (λ a t, Q a (put t s)) (get s) → wpx P (zoom get put m) Q s.
Proof. unfold wpx, zoom. by destruct (m (get s)). Qed.

(** ** What every run of a computation keeps

    From a state with [I], [m] does not panic when [P] holds, and where it ends
    [I] holds again and the two states are related by the preorder [R]. *)
Definition keeps {S} (P : Prop) (I : S → Prop) (R : relation S) {A} (m : M S A) : Prop :=
  ∀ s, I s → wpx P m (λ _ s', I s' ∧ R s s') s.

Section keeps.
Context {S : Type} {P : Prop} {I : S → Prop} {R : relation S} `{!PreOrder R}.

Lemma keeps_ret {A} (a : A) : keeps P I R (mret a).
Proof. by intros s Hs. Qed.

(** The first computation may say more about its result. *)
Lemma keeps_bind_with {A B} (Q : A → Prop) (m : M S A) (f : A → M S B) :
  (∀ s, I s → wpx P m (λ a s', Q a ∧ I s' ∧ R s s') s) → (∀ a, Q a → keeps P I R (f a)) →
  keeps P I R (m ≫= f).
Proof.
  intros Hm Hf s Hs. apply wp_bind. eapply wp_mono; [by apply Hm|]. intros a s1 (Ha & H1 & HR1).
  eapply wp_mono; [by apply Hf|]. intros b s2 [H2 HR2]. split; [done|by etrans].
Qed.

Lemma keeps_bind {A B} (m : M S A) (f : A → M S B) :
  keeps P I R m → (∀ a, keeps P I R (f a)) → keeps P I R (m ≫= f).
Proof.
  intros Hm Hf. apply (keeps_bind_with (λ _, True)); [|auto]. intros s Hs.
  eapply wp_mono; [by apply Hm|]. by intros a s'.
Qed.

Lemma keeps_gets {A} (f : S → A) : keeps P I R (gets f).
Proof. intros s Hs. by apply wp_gets. Qed.

Lemma keeps_modify f : (∀ s, I s → I (f s) ∧ R s (f s)) → keeps P I R (modify f).
Proof. intros Hf s Hs. apply wp_modify. by apply Hf. Qed.

Lemma keeps_panic {A} why : ¬ P → keeps P I R (panic why : M S A).
Proof. by intros HP s Hs. Qed.

Lemma keeps_deref {A} (o : option A) : (P → is_Some o) → keeps P I R (deref o).
Proof. intros Ho s Hs. by apply wp_deref_maybe. Qed.

Lemma keeps_check m k : keeps P I R m → keeps P I R k → keeps P I R (check m k).
Proof. intros Hm Hk. apply keeps_bind; [done|]. intros [e|]; [apply keeps_ret|done]. Qed.

Lemma keeps_checkVal {A} (m : M S (result A)) k :
  keeps P I R m → (∀ a, keeps P I R (k a)) → keeps P I R (checkVal m k).
Proof. intros Hm Hk. apply keeps_bind; [done|]. intros [a|e]; [done|apply keeps_ret]. Qed.

Lemma keeps_forE {X} (f : X → M S (option error)) l :
  (∀ x, x ∈ l → keeps P I R (f x)) → keeps P I R (forE f l).
Proof.
  induction l as [|x l IH]; intros Hf; [apply keeps_ret|].
  apply keeps_check; [apply Hf; by left|]. apply IH. intros y Hy. apply Hf. by right.
Qed.

Lemma keeps_forU {X} (f : X → M S unit) l :
  (∀ x, x ∈ l → keeps P I R (f x)) → keeps P I R (forU f l).
Proof.
  induction l as [|x l IH]; intros Hf; [apply keeps_ret|].
  apply keeps_bind; [apply Hf; by left|]. intros _. apply IH. intros y Hy. apply Hf. by right.
Qed.

Lemma keeps_forBreak {X} (f : X → M S bool) l :
  (∀ x, x ∈ l → keeps P I R (f x)) → keeps P I R (forBreak f l).
Proof.
  induction l as [|x l IH]; intros Hf; [apply keeps_ret|].
  apply keeps_bind; [apply Hf; by left|]. intros [|]; [|apply keeps_ret].
  apply IH. intros y Hy. apply Hf. by right.
Qed.
End keeps.

(** A part of the state. *)
Lemma keeps_zoom {S T A} P (I : S → Prop) (R : relation S) (I' : T → Prop) (R' : relation T)
    (get : S → T) (put : T → S → S) (m : M T A) :
  keeps P I' R' m → (∀ s, I s → I' (get s)) →
  (∀ s t, I s → I' t → R' (get s) t → I (put t s) ∧ R s (put t s)) →
  keeps P I R (zoom get put m).
Proof.
  intros Hm Hget Hput s Hs. apply wp_zoom. eapply wp_mono; [by apply Hm, Hget|].
  intros a t [Ht HR]. by apply Hput.
Qed.

(** Case analysis along the code; what is left are the operations themselves. *)
Ltac keep_step :=
  match goal with
  | |- keeps _ _ _ (mret _) => apply keeps_ret
  | |- keeps _ _ _ (_ ≫= _) => apply keeps_bind; [|intros ?]
  | |- keeps _ _ _ (gets _) => apply keeps_gets
  | |- keeps _ _ _ (check _ _) => apply keeps_check
  | |- keeps _ _ _ (checkVal _ _) => apply keeps_checkVal; [|intros ?]
  | |- keeps _ _ _ (forE _ _) => apply keeps_forE; intros ? ?
  | |- keeps _ _ _ (forU _ _) => apply keeps_forU; intros ? ?
  | |- keeps _ _ _ (forBreak _ _) => apply keeps_forBreak; intros ? ?
  | |- keeps _ _ _ (if ?b then _ else _) => destruct b
  | |- keeps _ _ _ (match ?x with _ => _ end) => destruct x
  end.

#[export] Hint Resolve wp_ret wp_bind wp_gets wp_modify wp_check wp_checkVal wp_zoom
  wp_deferred : go.

(** Take the computation apart down to the next operation that has a
    specification of its own. *)
Ltac wp_step :=
  lazymatch goal with
  | |- wpx _ (mbind _ _) _ _ => apply wp_bind
  | |- wpx _ (mret _) _ _ => apply wp_ret
  | |- wpx _ (check _ _) _ _ => apply wp_check
  | |- wpx _ (checkVal _ _) _ _ => apply wp_checkVal
  | |- wpx _ (gets _) _ _ => apply wp_gets
  | |- wpx _ (modify _) _ _ => apply wp_modify
  | |- wpx _ (zoom _ _ _) _ _ => apply wp_zoom
  | |- wpx _ (deferred _ _) _ _ => apply wp_deferred
  | |- wpx _ (if ?b then _ else _) _ _ => destruct b eqn:?
  | |- wpx _ (match ?r with Ok _ => _ | Err _ => _ end) _ _ => destruct r eqn:?
  | |- wpx _ (match ?o with Some _ => _ | None => _ end) _ _ => destruct o eqn:?
  end; cbn beta iota.

Ltac wp_steps := repeat wp_step.

(** Use the specification [H] of the operation in front. *)
Ltac wp_use H := eapply wp_weaken; [eapply H | try done | cbn beta].

(** ** Lists *)

(** Something of every element, unless [Q]. *)
Lemma lookup_or {A} (l : list A) (P : nat → A → Prop) (Q : Prop) :
  (∀ i x, l !! i = Some x → P i x ∨ Q) → (∀ i x, l !! i = Some x → P i x) ∨ Q.
Proof.
  revert P. induction l as [|x l IH]; intros P Hl; [by left|].
  destruct (Hl 0 x eq_refl) as [Hx|]; [|by right].
  destruct (IH (λ i, P (S i))) as [Hr|]; [intros i y; apply (Hl (S i))| |by right].
  left. intros [|i] y; cbn; [by intros [= <-]|apply Hr].
Qed.

(** One element replaced by a smaller one. *)
Definition replaced {A} (R : relation A) (l' l : list A) : Prop :=
  ∃ i x x', l !! i = Some x ∧ R x' x ∧ l' = <[i := x']> l.

Lemma replaced_cons {A} (R : relation A) l x k :
  replaced R k (x :: l) → (∃ x', R x' x ∧ k = x' :: l) ∨ (∃ l', replaced R l' l ∧ k = x :: l').
Proof.
  intros ([|i] & y & y' & Hi & Hy & ->); cbn in Hi |- *.
  - injection Hi as ->. left. by exists y'.
  - right. eexists. split; [|done]. by exists i, y, y'.
Qed.

Lemma replaced_wf {A} (R : relation A) : well_founded R → well_founded (replaced R).
Proof.
  intros HR l. induction l as [|x l IHl].
  { constructor. intros l' (i & x & x' & Hi & _). done. }
  revert x. induction IHl as [l Hl IHl]. intros x. induction (HR x) as [x Hx IHx].
  constructor. intros k [(x' & Hx' & ->)|(l' & Hl' & ->)]%replaced_cons; [by apply IHx|by apply IHl].
Qed.

Lemma elem_of_middle {A} (pre : list A) x post : x ∈ pre ++ x :: post.
Proof. apply elem_of_app. right. apply elem_of_cons. by left. Qed.

#[export] Hint Resolve elem_of_middle : go.
