(* ===== verification/GoStrings.v ===== *)
(** * Go strings

    The functions of the Go standard library's [strings] and [strconv]
    packages that the program calls, on byte strings, with the laws that the
    components use: splitting undoes joining, trimming leaves plain text alone,
    [Atoi] undoes [Itoa]. *)
From S2P Require Import Prelude.
From Stdlib Require Import Ascii.

(** ** Characters *)
Definition newline : ascii := "010"%char.
Definition carriage : ascii := "013"%char.
Definition comma : ascii := ","%char.
Definition blank : ascii := " "%char.
Definition equals : ascii := "="%char.
Definition colon : ascii := ":"%char.
Definition greater : ascii := ">"%char.
Definition dquote : ascii := "034"%char.
Definition nl : string := String newline "".
Definition dq : string := String dquote "".

Fixpoint str_forallb (f : ascii → bool) (s : string) : bool :=
  match s with
  | "" => true
  | String c s' => f c && str_forallb f s'
  end.

(** [strings.Contains(s, string(c))] for one byte, negated. *)
Definition lacks (c : ascii) (s : string) : bool :=
  str_forallb (λ d, negb (Ascii.eqb d c)) s.

Definition is_digit (c : ascii) : bool :=
  let n := N_of_ascii c in (48 <=? n)%N && (n <=? 57)%N.

(** Printable ASCII other than the blank. *)
Definition is_graphic (c : ascii) : bool :=
  let n := N_of_ascii c in (33 <=? n)%N && (n <=? 126)%N.

(** ** [strings.Split] with a one-byte separator, and [strings.Join] *)
Fixpoint Split (s : string) (sep : ascii) : list string :=
  match s with
  | "" => [""]
  | String c s' =>
      if Ascii.eqb c sep then "" :: Split s' sep
      else match Split s' sep with
           | [] => [String c ""]
           | w :: ws => String c w :: ws
           end
  end.

Fixpoint Join (l : list string) (sep : string) : string :=
  match l with
  | [] => ""
  | x :: l' => match l' with [] => x | _ => x +:+ sep +:+ Join l' sep end
  end.

(** A line without the carriage return at its end. *)
Fixpoint dropCR (s : string) : string :=
  match s with
  | "" => ""
  | String c "" => if Ascii.eqb c carriage then "" else String c ""
  | String c s' => String c (dropCR s')
  end.

(** ** Searching *)
Fixpoint HasPrefix (s p : string) : bool :=
  match p, s with
  | "", _ => true
  | String d p', String c s' => Ascii.eqb c d && HasPrefix s' p'
  | String _ _, "" => false
  end.

Fixpoint Contains (s sub : string) : bool :=
  HasPrefix s sub ||
  match s with
  | "" => false
  | String _ s' => Contains s' sub
  end.

(** [strings.Index(s, string(c))]: the offset, or -1. *)
Fixpoint Index (s : string) (c : ascii) : Z :=
  match s with
  | "" => (-1)%Z
  | String d s' =>
      if Ascii.eqb d c then 0%Z
      else let i := Index s' c in if (i <? 0)%Z then (-1)%Z else (i + 1)%Z
  end.

(** [s[n:]] for [n] at most the length. *)
Fixpoint drop_str (n : nat) (s : string) : string :=
  match n, s with
  | S n', String _ s' => drop_str n' s'
  | _, _ => s
  end.

(** [strings.Replace(s, old, new, -1)] for a non-empty [old]: left to right,
    not overlapping; [skip] counts the bytes of a match still to be passed. *)
Fixpoint replace_from (skip : nat) (s old new : string) : string :=
  match s with
  | "" => ""
  | String c s' =>
      match skip with
      | S k => replace_from k s' old new
      | O => if HasPrefix s old
             then new +:+ replace_from (Nat.pred (String.length old)) s' old new
             else String c (replace_from 0 s' old new)
      end
  end.
Definition ReplaceAll (s old new : string) : string := replace_from 0 s old new.

(** ** [strings.TrimSpace]

    White space is Unicode's: the ASCII blanks, and the UTF-8 encodings of the
    other code points for which [unicode.IsSpace] holds. *)
Definition bytes (l : list N) : string :=
  foldr (λ n s, String (ascii_of_N n) s) "" l.

Definition space_runes : list string :=
  map bytes
    ([[9]; [10]; [11]; [12]; [13]; [32]; [194; 133]; [194; 160]; [225; 154; 128];
      [226; 128; 168]; [226; 128; 169]; [226; 128; 175]; [226; 129; 159]; [227; 128; 128]]
     ++ map (λ k, [226; 128; 128 + N.of_nat k]) (seq 0 11))%N.

(** One leading rune of [runes] removed. *)
Fixpoint cut_one (runes : list string) (s : string) : option string :=
  match runes with
  | [] => None
  | r :: rs => if HasPrefix s r then Some (drop_str (String.length r) s) else cut_one rs s
  end.

Fixpoint cut_leading (fuel : nat) (runes : list string) (s : string) : string :=
  match fuel with
  | O => s
  | S f => match cut_one runes s with
           | Some s' => cut_leading f runes s'
           | None => s
           end
  end.

Definition TrimSpace (s : string) : string :=
  let s1 := cut_leading (String.length s) space_runes s in
  String.rev (cut_leading (String.length s1) (map String.rev space_runes) (String.rev s1)).

(** ** [filepath.Join] *)
Definition slash : ascii := "/"%char.

(** The elements of a path, the last one first, as [filepath.Clean] keeps them. *)
Definition clean_step (rooted : bool) (kept : list string) (elem : string) : list string :=
  if bool_decide (elem = "" ∨ elem = ".") then kept
  else if bool_decide (elem = "..") then
    match kept with
    | top :: kept' => if bool_decide (top = "..") then elem :: kept else kept'
    | [] => if rooted then [] else [elem]
    end
  else elem :: kept.

Definition Clean (path : string) : string :=
  let rooted := HasPrefix path "/" in
  let out := Join (rev (foldl (clean_step rooted) [] (Split path slash))) "/" in
  if rooted then "/" +:+ out else if bool_decide (out = "") then "." else out.

Definition FilepathJoin (elems : list string) : string :=
  match filter (λ e, e ≠ "") elems with
  | [] => ""
  | es => Clean (Join es "/")
  end.

Example FilepathJoin_sysfs :
  FilepathJoin ["/sys/class/net/"; "ens3f0"; "device"; "sriov_numvfs"] =
  "/sys/class/net/ens3f0/device/sriov_numvfs".
Proof. reflexivity. Qed.

(** ** [strconv.Itoa] and [strconv.Atoi] on 64-bit integers *)
Definition int_min : Z := (- 2 ^ 63)%Z.
Definition int_max : Z := (2 ^ 63 - 1)%Z.
Definition int_ok (n : Z) : bool := (int_min <=? n)%Z && (n <=? int_max)%Z.

Definition Itoa (n : Z) : string := pretty n.

Definition digit_val (c : ascii) : Z := (Z.of_N (N_of_ascii c) - 48)%Z.

Inductive num_error := ErrSyntax | ErrRange.

Definition atoi_error (s : string) (why : num_error) : error :=
  Errorf "strconv.Atoi: parsing %q: %s"
    [s; match why with ErrSyntax => "invalid syntax" | ErrRange => "value out of range" end].

(** [strconv.ParseUint] in base 10: the first offending byte decides the error,
    be it not a digit or the one that makes the value exceed 64 bits. *)
Definition uint_max : Z := (2 ^ 64 - 1)%Z.

Fixpoint digits_val (acc : Z) (s : string) : Z + num_error :=
  match s with
  | "" => inl acc
  | String c s' =>
      if is_digit c then
        let n := (acc * 10 + digit_val c)%Z in
        if (uint_max <? n)%Z then inr ErrRange else digits_val n s'
      else inr ErrSyntax
  end.

Definition sign_of (s : string) : bool * string :=
  match s with
  | String "-" s' => (true, s')
  | String "+" s' => (false, s')
  | _ => (false, s)
  end.

Definition Atoi (s : string) : result Z :=
  let '(neg, body) := sign_of s in
  if bool_decide (body = "") then Err (atoi_error s ErrSyntax)
  else match digits_val 0 body with
       | inr why => Err (atoi_error s why)
       | inl n => let v := if neg : bool then (- n)%Z else n in
                  if int_ok v then Ok v else Err (atoi_error s ErrRange)
       end.

(** ** Laws: characters *)
Lemma str_forallb_app f s t : str_forallb f (s +:+ t) = str_forallb f s && str_forallb f t.
Proof.
  induction s as [|c s IH]; [done|].
  change (String c s +:+ t) with (String c (s +:+ t)). cbn. by rewrite IH, andb_assoc.
Qed.

Lemma str_forallb_impl (f g : ascii → bool) s :
  (∀ c, f c = true → g c = true) → str_forallb f s = true → str_forallb g s = true.
Proof.
  intros Hfg. induction s as [|c s IH]; [done|]. cbn.
  intros [Hc Hs]%andb_prop. by rewrite Hfg, IH.
Qed.

Lemma lacks_app c s t : lacks c (s +:+ t) = lacks c s && lacks c t.
Proof. apply str_forallb_app. Qed.

Lemma app_cons c s t : String c s +:+ t = String c (s +:+ t).
Proof. done. Qed.

Lemma length_app_str (s t : string) :
  String.length (s +:+ t) = (String.length s + String.length t)%nat.
Proof. induction s as [|c s IH]; [done|]. rewrite app_cons. cbn. by rewrite IH. Qed.

Lemma app_empty_r s : s +:+ "" = s.
Proof. induction s as [|c s IH]; [done|]. by rewrite app_cons, IH. Qed.

Lemma app_assoc_str (s t u : string) : (s +:+ t) +:+ u = s +:+ t +:+ u.
Proof. induction s as [|c s IH]; [done|]. by rewrite !app_cons, IH. Qed.

(** ** Laws: splitting and joining *)
Lemma Split_not_nil s sep : Split s sep ≠ [].
Proof.
  destruct s as [|c s]; [done|]. cbn. destruct (Ascii.eqb c sep); [done|].
  by destruct (Split s sep).
Qed.

Lemma Split_lacks s sep : lacks sep s = true → Split s sep = [s].
Proof.
  induction s as [|c s IH]; [done|]. cbn.
  destruct (Ascii.eqb c sep); [done|]. cbn. intros H. by rewrite IH.
Qed.

Lemma Split_app w s sep :
  lacks sep w = true → Split (w +:+ String sep s) sep = w :: Split s sep.
Proof.
  induction w as [|c w IH]; cbn.
  - change ("" +:+ String sep s) with (String sep s). cbn. by rewrite Ascii.eqb_refl.
  - rewrite app_cons. cbn. destruct (Ascii.eqb c sep); [done|]. cbn. intros H.
    by rewrite IH.
Qed.

Lemma Split_Join l sep :
  l ≠ [] → Forall (λ w, lacks sep w = true) l → Split (Join l (String sep "")) sep = l.
Proof.
  induction l as [|w l IH]; [done|]. intros _ [Hw Hl]%Forall_cons.
  destruct l as [|w' l].
  - by apply Split_lacks.
  - change (Join (w :: w' :: l) (String sep ""))
      with (w +:+ String sep (Join (w' :: l) (String sep ""))).
    rewrite Split_app by done. by rewrite IH.
Qed.

Lemma lacks_Join c l sep :
  lacks c sep = true → Forall (λ w, lacks c w = true) l → lacks c (Join l sep) = true.
Proof.
  intros Hsep. induction 1 as [|w l Hw Hl IH]; [done|].
  destruct l as [|w' l]; [done|].
  change (Join (w :: w' :: l) sep) with (w +:+ sep +:+ Join (w' :: l) sep).
  by rewrite !lacks_app, Hw, Hsep, IH.
Qed.

(** ** Laws: trimming *)
Lemma rev_app_rev_app s t u : String.rev_app (String.rev_app s t) u = String.rev_app t (s +:+ u).
Proof. revert t. induction s as [|c s IH]; intros t; [done|]. cbn. by rewrite IH. Qed.

Lemma rev_involutive_str s : String.rev (String.rev s) = s.
Proof. unfold String.rev. rewrite rev_app_rev_app. cbn. apply app_empty_r. Qed.

Lemma str_forallb_rev_app f s t :
  str_forallb f (String.rev_app s t) = str_forallb f s && str_forallb f t.
Proof.
  revert t. induction s as [|c s IH]; intros t; [done|]. cbn. rewrite IH. cbn.
  destruct (f c), (str_forallb f s); done.
Qed.

Lemma str_forallb_rev f s : str_forallb f (String.rev s) = str_forallb f s.
Proof. unfold String.rev. rewrite str_forallb_rev_app. apply andb_true_r. Qed.

(** No rune of [runes] starts with a printable byte. *)
Definition starts_unprintable (runes : list string) : bool :=
  forallb (λ r, match r with String d _ => negb (is_graphic d) | "" => false end) runes.

(** The string is empty or its first byte is printable. *)
Definition head_graphic (s : string) : bool :=
  match s with
  | "" => true
  | String c _ => is_graphic c
  end.

Lemma cut_leading_graphic fuel runes s :
  starts_unprintable runes = true → head_graphic s = true → cut_leading fuel runes s = s.
Proof.
  intros Hr Hs. destruct fuel as [|fuel]; [done|]. cbn.
  enough (cut_one runes s = None) as -> by done.
  revert Hr. induction runes as [|r rs IH]; [done|]. cbn. intros [Hr Hrs]%andb_prop.
  enough (HasPrefix s r = false) as -> by auto.
  destruct r as [|d r]; [done|]. destruct s as [|c s]; [done|]. cbn in *.
  destruct (Ascii.eqb_spec c d) as [->|]; [|done]. by rewrite Hs in Hr.
Qed.

Lemma TrimSpace_ends s :
  head_graphic s = true → head_graphic (String.rev s) = true → TrimSpace s = s.
Proof.
  intros Hs Hr. unfold TrimSpace. rewrite (cut_leading_graphic _ space_runes) by done.
  rewrite cut_leading_graphic by done. apply rev_involutive_str.
Qed.

Lemma head_graphic_forallb s : str_forallb is_graphic s = true → head_graphic s = true.
Proof. destruct s as [|c s]; [done|]. cbn. by intros [-> _]%andb_prop. Qed.

Lemma TrimSpace_graphic s : str_forallb is_graphic s = true → TrimSpace s = s.
Proof.
  intros Hs. apply TrimSpace_ends; apply head_graphic_forallb; [done|].
  by rewrite str_forallb_rev.
Qed.

Lemma TrimSpace_leading s : str_forallb is_graphic s = true → TrimSpace (String blank s) = s.
Proof.
  intros Hs. rewrite <-(TrimSpace_graphic s) at 2 by done. unfold TrimSpace.
  cbn [String.length cut_leading]. assert (cut_one space_runes (String blank s) = Some s) as -> by by destruct s.
  by rewrite !(cut_leading_graphic (String.length s) space_runes)
    by by try apply head_graphic_forallb.
Qed.

Lemma rev_app_eq s t : String.rev_app s t = String.rev s +:+ t.
Proof.
  unfold String.rev. revert t. induction s as [|c s IH]; intros t; [done|]. cbn.
  rewrite IH, (IH (String c "")). by rewrite app_assoc_str.
Qed.

Lemma rev_app_distr_str s t : String.rev (s +:+ t) = String.rev t +:+ String.rev s.
Proof.
  induction s as [|c s IH].
  - symmetry. apply app_empty_r.
  - rewrite app_cons. unfold String.rev at 1 3. cbn.
    by rewrite !rev_app_eq, IH, app_assoc_str.
Qed.

Lemma head_graphic_app s t :
  s ≠ "" → head_graphic (s +:+ t) = head_graphic s.
Proof. by destruct s. Qed.

Lemma rev_not_empty s : s ≠ "" → String.rev s ≠ "".
Proof. intros Hs Hr. apply Hs. by rewrite <-(rev_involutive_str s), Hr. Qed.

(** Text between printable ends is left alone, blanks inside it included. *)
Lemma TrimSpace_between s m t :
  s ≠ "" → t ≠ "" → str_forallb is_graphic s = true → str_forallb is_graphic t = true →
  TrimSpace (s +:+ m +:+ t) = s +:+ m +:+ t.
Proof.
  intros Hs Ht Hgs Hgt. apply TrimSpace_ends.
  - rewrite head_graphic_app by done. by apply head_graphic_forallb.
  - rewrite !rev_app_distr_str, app_assoc_str.
    rewrite head_graphic_app by by apply rev_not_empty.
    apply head_graphic_forallb. by rewrite str_forallb_rev.
Qed.

(** ** Laws: numbers *)
Lemma pretty_N_char_digit (x : N) :
  (x < 10)%N → is_digit (pretty_N_char x) = true ∧ digit_val (pretty_N_char x) = Z.of_N x.
Proof.
  intros Hx.
  assert (x = 0 ∨ x = 1 ∨ x = 2 ∨ x = 3 ∨ x = 4 ∨ x = 5 ∨ x = 6 ∨ x = 7 ∨ x = 8 ∨ x = 9)%N
    as H by lia.
  repeat destruct H as [->|H]; [done..|by subst].
Qed.

Lemma digits_val_pretty_N_go (x : N) :
  ∃ k : nat, ∀ acc s, (0 ≤ acc)%Z → (acc * 10 ^ Z.of_nat k + Z.of_N x ≤ uint_max)%Z →
    digits_val acc (pretty_N_go x s) = digits_val (acc * 10 ^ Z.of_nat k + Z.of_N x) s.
Proof.
  induction (N.lt_wf_0 x) as [x _ IH].
  destruct (decide (x = 0)%N) as [->|Hx].
  { exists 0%nat. intros acc s _ _. rewrite pretty_N_go_0. f_equal. lia. }
  destruct (IH (x `div` 10)%N) as [k Hk]; [by apply N.div_lt; lia|].
  exists (S k). intros acc s Hacc Hle.
  pose proof (N.div_mod x 10 ltac:(lia)) as Hdm.
  pose proof (N.mod_lt x 10 ltac:(lia)) as Hm.
  set (q := (x `div` 10)%N) in *. set (r := (x `mod` 10)%N) in *.
  replace (10 ^ Z.of_nat (S k))%Z with (10 * 10 ^ Z.of_nat k)%Z in * by (rewrite Nat2Z.inj_succ, Z.pow_succ_r; lia).
  rewrite pretty_N_go_step by lia. fold q r. rewrite Hk by nia. cbn.
  destruct (pretty_N_char_digit r Hm) as [-> ->].
  replace ((acc * 10 ^ Z.of_nat k + Z.of_N q) * 10 + Z.of_N r)%Z
    with (acc * (10 * 10 ^ Z.of_nat k) + Z.of_N x)%Z by lia.
  rewrite (proj2 (Z.ltb_ge _ _)) by done. done.
Qed.

Lemma pretty_N_digits (x : N) : str_forallb is_digit (pretty x) = true.
Proof.
  unfold pretty, pretty_N. case_decide; [done|].
  enough (∀ s, str_forallb is_digit s = true → str_forallb is_digit (pretty_N_go x s) = true)
    as Hgo by by apply Hgo.
  clear. induction (N.lt_wf_0 x) as [x _ IH]. intros s Hs.
  destruct (decide (x = 0)%N) as [->|Hx]; [done|].
  rewrite pretty_N_go_step by lia. apply IH; [by apply N.div_lt; lia|]. cbn.
  rewrite (proj1 (pretty_N_char_digit _ (N.mod_lt x 10 ltac:(lia)))). done.
Qed.

Lemma pretty_N_not_empty (x : N) : pretty x ≠ "".
Proof.
  unfold pretty, pretty_N. case_decide as H; [done|].
  rewrite pretty_N_go_step by lia.
  enough (∀ y s, s ≠ "" → pretty_N_go y s ≠ "") as Hne by by apply Hne.
  clear. intros y. induction (N.lt_wf_0 y) as [y _ IH]. intros s Hs.
  destruct (decide (y = 0)%N) as [->|Hy]; [done|].
  rewrite pretty_N_go_step by lia. apply IH; [by apply N.div_lt; lia|done].
Qed.

Lemma digits_val_pretty (x : N) :
  (Z.of_N x ≤ uint_max)%Z → digits_val 0 (pretty x) = inl (Z.of_N x).
Proof.
  intros Hx. unfold pretty, pretty_N. case_decide as H; [by subst|].
  destruct (digits_val_pretty_N_go x) as [k Hk]. by rewrite Hk.
Qed.

Lemma sign_of_digits s : str_forallb is_digit s = true → sign_of s = (false, s).
Proof.
  destruct s as [|c s]; [done|]. cbn. intros [Hc _]%andb_prop.
  by destruct c as [[] [] [] [] [] [] [] []].
Qed.

Lemma int_ok_spec n : int_ok n = true ↔ (- 2 ^ 63 ≤ n ≤ 2 ^ 63 - 1)%Z.
Proof. unfold int_ok. by rewrite andb_true_iff, !Z.leb_le. Qed.

(** [strconv.Atoi] undoes [strconv.Itoa] on every Go [int]. *)
Lemma Atoi_Itoa n : int_ok n = true → Atoi (Itoa n) = Ok n.
Proof.
  intros Hn. assert (- 2 ^ 63 ≤ n ≤ 2 ^ 63 - 1)%Z as Hn' by (by apply int_ok_spec).
  unfold Itoa. destruct n as [|p|p].
  - done.
  - change (pretty (Z.pos p)) with (pretty (N.pos p)). unfold Atoi.
    rewrite sign_of_digits by apply pretty_N_digits.
    rewrite bool_decide_false by apply pretty_N_not_empty.
    rewrite digits_val_pretty by (unfold uint_max; lia). cbn -[int_ok]. by rewrite Hn.
  - change (pretty (Z.neg p)) with (String "-" (pretty (N.pos p))). unfold Atoi. cbn [sign_of].
    rewrite bool_decide_false by apply pretty_N_not_empty.
    rewrite digits_val_pretty by (unfold uint_max; lia). cbn -[int_ok]. change (- Z.pos p)%Z with (Z.neg p). by rewrite Hn.
Qed.

Lemma Itoa_digits n : (0 ≤ n)%Z → str_forallb is_digit (Itoa n) = true ∧ Itoa n ≠ "".
Proof.
  intros Hn. destruct n as [|p|p]; [done| |lia].
  change (Itoa (Z.pos p)) with (pretty (N.pos p)).
  split; [apply pretty_N_digits|apply pretty_N_not_empty].
Qed.

(** Decimal text holds no blank, no comma and no other separator. *)
Definition is_number_char (c : ascii) : bool := is_digit c || Ascii.eqb c "-".

Lemma Itoa_number_chars n : str_forallb is_number_char (Itoa n) = true.
Proof.
  unfold Itoa. destruct n as [|p|p].
  - done.
  - change (pretty (Z.pos p)) with (pretty (N.pos p)).
    eapply str_forallb_impl; [|apply pretty_N_digits]. unfold is_number_char. by intros c ->.
  - change (pretty (Z.neg p)) with (String "-" (pretty (N.pos p))). cbn.
    eapply str_forallb_impl; [|apply pretty_N_digits]. unfold is_number_char. by intros c ->.
Qed.

Lemma number_char_graphic c : is_number_char c = true → is_graphic c = true.
Proof. by destruct c as [[] [] [] [] [] [] [] []]. Qed.

Lemma Itoa_graphic n : str_forallb is_graphic (Itoa n) = true.
Proof. eapply str_forallb_impl; [apply number_char_graphic|apply Itoa_number_chars]. Qed.

Lemma Itoa_lacks c n : is_number_char c = false → lacks c (Itoa n) = true.
Proof.
  intros Hc. eapply str_forallb_impl; [|apply Itoa_number_chars]. cbn. intros d Hd.
  destruct (Ascii.eqb_spec d c); [congruence|done].
Qed.

Lemma digits_val_blank acc s t : ∃ why, digits_val acc (s +:+ String " " t) = inr why.
Proof.
  revert acc. induction s as [|c s IH]; intros acc; [by eexists|]. rewrite app_cons. cbn.
  destruct (is_digit c); [|by eexists]. destruct (Z.ltb _ _); [by eexists|]. apply IH.
Qed.

(** No text with a blank in it is a number. *)
Lemma Atoi_blank s t : ∃ e, Atoi (s +:+ String " " t) = Err e.
Proof.
  assert (∃ b s', sign_of (s +:+ String " " t) = (b, s' +:+ String " " t)) as
    (b & s' & Hsign).
  { destruct s as [|c s]; [by exists false, ""|].
    rewrite app_cons. destruct c as [[] [] [] [] [] [] [] []]; cbn;
      first [by eexists _, s | by eexists _, (String _ s)]. }
  destruct (digits_val_blank 0 s' t) as [why Hwhy]. unfold Atoi. rewrite Hsign, Hwhy.
  rewrite bool_decide_false by by destruct s'. by eexists.
Qed.

(** ** Laws: lines and numbers *)
Lemma dropCR_app s c : Ascii.eqb c carriage = false → dropCR (s +:+ String c "") = s +:+ String c "".
Proof.
  intros Hc. induction s as [|d s IH].
  - change ("" +:+ String c "") with (String c ""). cbn. by rewrite Hc.
  - rewrite app_cons. cbn [dropCR]. rewrite IH. by destruct s.
Qed.

Lemma dropCR_app_ne s t : t ≠ "" → dropCR (s +:+ t) = s +:+ dropCR t.
Proof.
  intros Ht. induction s as [|c s IH]; [done|]. rewrite !app_cons, <-IH. cbn [dropCR].
  assert (s +:+ t ≠ "") as Hne by by destruct s, t. by destruct (s +:+ t).
Qed.

Lemma digit_val_range c : is_digit c = true → (0 ≤ digit_val c ≤ 9)%Z.
Proof. unfold is_digit, digit_val. intros [H1%N.leb_le H2%N.leb_le]%andb_prop. lia. Qed.

Lemma digits_val_bound s acc :
  str_forallb is_digit s = true → (0 ≤ acc)%Z →
  ((acc + 1) * 10 ^ Z.of_nat (String.length s) ≤ uint_max)%Z →
  ∃ v, digits_val acc s = inl v ∧ (0 ≤ v < (acc + 1) * 10 ^ Z.of_nat (String.length s))%Z.
Proof.
  revert acc. induction s as [|c s IH]; intros acc; cbn [str_forallb String.length digits_val].
  { intros _ Ha _. exists acc. split; [done|]. rewrite Z.pow_0_r. lia. }
  intros [Hc Hs]%andb_prop Ha Hb. rewrite Hc. pose proof (digit_val_range c Hc) as Hv.
  rewrite Nat2Z.inj_succ, Z.pow_succ_r in * by lia.
  pose proof (Z.pow_pos_nonneg 10 (Z.of_nat (String.length s))) as Hpos.
  destruct (IH (acc * 10 + digit_val c)%Z) as (v & Hd & Hr); [done|nia|nia|].
  rewrite (proj2 (Z.ltb_ge _ _)) by nia. exists v. split; [done|]. nia.
Qed.

(** Up to eighteen digits are a number of that many digits. *)
Lemma Atoi_digits s :
  str_forallb is_digit s = true → s ≠ "" → (String.length s ≤ 18)%nat →
  ∃ v, Atoi s = Ok v ∧ (0 ≤ v < 10 ^ Z.of_nat (String.length s))%Z.
Proof.
  intros Hs Hne Hlen. unfold Atoi. rewrite sign_of_digits, bool_decide_false by done.
  pose proof (Z.pow_le_mono_r 10 (Z.of_nat (String.length s)) 18) as Hp.
  destruct (digits_val_bound s 0) as (v & -> & Hv); [done|done| |].
  { unfold uint_max. lia. }
  exists v. assert (int_ok v = true) as -> by (apply int_ok_spec; lia). split; [done|lia].
Qed.

#[export] Hint Resolve Split_not_nil Itoa_graphic Itoa_lacks TrimSpace_graphic : go.
