(* ===== verification/Regexp.v ===== *)
(** * Go's regexp, for the expressions of the program

    An expression is a sequence of character classes, classes repeated without a
    bound, and assertions, some of it in groups that are not nested: this is all
    that the program's two expressions use.  A match is the first from the left,
    and there the one that prefers repeating over going on, as Go's package finds
    it.  Texts are matched rune by rune; a byte that starts no valid UTF-8
    sequence is a rune of its own. *)
From S2P Require Import Prelude GoStrings.
From Stdlib Require Import Ascii.

(** ** Runes *)
Abbreviation rune := string.

Definition byte_in (lo hi : N) (c : ascii) : bool :=
  (lo <=? N_of_ascii c)%N && (N_of_ascii c <=? hi)%N.

Definition continues : ascii → bool := byte_in 128 191.

(** The second byte that may follow [c0]; the others are continuation bytes. *)
Definition second_ok (c0 c1 : ascii) : bool :=
  match N_of_ascii c0 with
  | 224%N => byte_in 160 191 c1
  | 237%N => byte_in 128 159 c1
  | 240%N => byte_in 144 191 c1
  | 244%N => byte_in 128 143 c1
  | _ => continues c1
  end.

(** How many bytes follow the first one in the first rune. *)
Definition rune_tail (s : string) : nat :=
  match s with
  | String c0 (String c1 s1) =>
      if negb (second_ok c0 c1) then 0
      else if byte_in 194 223 c0 then 1
      else match s1 with
           | String c2 s2 =>
               if negb (continues c2) then 0
               else if byte_in 224 239 c0 then 2
               else match s2 with
                    | String c3 _ => if continues c3 && byte_in 240 244 c0 then 3 else 0
                    | "" => 0
                    end
           | "" => 0
           end
  | _ => 0
  end%nat.

(** [k] bytes are missing from the rune that starts with [cur]. *)
Fixpoint runes_from (k : nat) (cur s : string) : list rune :=
  match s with
  | "" => match cur with "" => [] | _ => [cur] end
  | String c s' =>
      match k with
      | O => match rune_tail s with
             | O => String c "" :: runes_from 0 "" s'
             | n => runes_from n (String c "") s'
             end
      | S O => (cur +:+ String c "") :: runes_from 0 "" s'
      | S k' => runes_from k' (cur +:+ String c "") s'
      end
  end.

Definition runes (s : string) : list rune := runes_from 0 "" s.

Fixpoint text (l : list rune) : string :=
  match l with
  | [] => ""
  | x :: l' => x +:+ text l'
  end.

(** ** Expressions *)
Inductive simple :=
| One (f : rune → bool)     (* a class *)
| Many (f : rune → bool)    (* a class, [*] *)
| Bound (at_ : bool)        (* [\b] and [\B] *)
| Begin                     (* [^] *)
| End_.                     (* [$] *)

Inductive item :=
| Plain (r : list simple)
| Group (r : list simple).

(** A class of ASCII characters. *)
Definition cls (f : ascii → bool) (x : rune) : bool :=
  match x with
  | String c "" => (N_of_ascii c <? 128)%N && f c
  | _ => false
  end.
Definition digit : rune → bool := cls is_digit.
Definition word : rune → bool :=
  cls (λ c, byte_in 48 57 c || byte_in 65 90 c || byte_in 95 95 c || byte_in 97 122 c).
Definition space : rune → bool :=
  cls (λ c, byte_in 9 10 c || byte_in 12 13 c || byte_in 32 32 c).
Definition any (x : rune) : bool := negb (bool_decide (x = nl)).
Definition but (c : ascii) (x : rune) : bool := negb (bool_decide (x = String c "")).
Definition lit (c : ascii) : simple := One (cls (Ascii.eqb c)).

(** ** Matching *)
Definition is_word (o : option rune) : bool :=
  match o with
  | Some x => word x
  | None => false
  end.

(** [run r k prev rest acc]: match [r] after [prev], at [rest], and go on with
    what is left and the text that [r] matched. *)
Section run.
Context {A : Type}.

Fixpoint run_many (f : rune → bool) (k : option rune → list rune → string → option A)
    (prev : option rune) (rest : list rune) (acc : string) : option A :=
  match rest with
  | x :: rest' =>
      if f x then
        match run_many f k (Some x) rest' (acc +:+ x) with
        | Some a => Some a
        | None => k prev rest acc
        end
      else k prev rest acc
  | [] => k prev rest acc
  end.

Fixpoint run (r : list simple) (k : option rune → list rune → string → option A)
    (prev : option rune) (rest : list rune) (acc : string) : option A :=
  match r with
  | [] => k prev rest acc
  | One f :: r' =>
      match rest with
      | x :: rest' => if f x then run r' k (Some x) rest' (acc +:+ x) else None
      | [] => None
      end
  | Many f :: r' => run_many f (run r' k) prev rest acc
  | Bound b :: r' =>
      if Bool.eqb b (xorb (is_word prev) (is_word (head rest))) then run r' k prev rest acc else None
  | Begin :: r' => match prev with None => run r' k prev rest acc | Some _ => None end
  | End_ :: r' => match rest with [] => run r' k prev rest acc | _ => None end
  end.
End run.

(** The text of the whole match and those of the groups. *)
Fixpoint match_at (its : list item) (prev : option rune) (rest : list rune)
    (whole : string) (groups : list string) : option (string * list string) :=
  match its with
  | [] => Some (whole, groups)
  | Plain r :: its' =>
      run r (λ prev rest t, match_at its' prev rest (whole +:+ t) groups) prev rest ""
  | Group r :: its' =>
      run r (λ prev rest t, match_at its' prev rest (whole +:+ t) (groups ++ [t])) prev rest ""
  end.

Fixpoint search (its : list item) (prev : option rune) (rest : list rune)
  : option (string * list string) :=
  match match_at its prev rest "" [] with
  | Some m => Some m
  | None => match rest with
            | [] => None
            | x :: rest' => search its (Some x) rest'
            end
  end.

Definition FindSubmatch (its : list item) (s : string) : option (string * list string) :=
  search its None (runes s).

Definition FindString (its : list item) (s : string) : string :=
  match FindSubmatch its s with
  | Some (w, _) => w
  | None => ""
  end.

(** ** Laws of runes *)
Lemma text_app l1 l2 : text (l1 ++ l2) = text l1 +:+ text l2.
Proof. induction l1 as [|x l1 IH]; [done|]. cbn. by rewrite IH, app_assoc_str. Qed.

Lemma text_runes_from k cur s : (k = 0%nat → cur = "") → text (runes_from k cur s) = cur +:+ s.
Proof.
  revert k cur. induction s as [|c s IH]; intros k cur Hk.
  - destruct cur; [by destruct k|]. destruct k; cbn; by rewrite app_empty_r.
  - assert ((cur +:+ String c "") +:+ s = cur +:+ String c s) as Hc by by rewrite app_assoc_str.
    cbn [runes_from]. destruct k as [|[|k]].
    + rewrite Hk by done. destruct (rune_tail _); cbn; by rewrite IH.
    + cbn. by rewrite IH.
    + by rewrite IH.
Qed.

Lemma text_runes s : text (runes s) = s.
Proof. unfold runes. by rewrite text_runes_from. Qed.

Definition is_ascii (c : ascii) : bool := (N_of_ascii c <? 128)%N.

Fixpoint singles (s : string) : list rune :=
  match s with
  | "" => []
  | String c s' => String c "" :: singles s'
  end.

Lemma singles_app s t : singles (s +:+ t) = singles s ++ singles t.
Proof. induction s as [|c s IH]; [done|]. rewrite app_cons. cbn. by rewrite IH. Qed.

Lemma rune_tail_ascii c s : is_ascii c = true → rune_tail (String c s) = 0%nat.
Proof.
  unfold is_ascii. destruct s as [|c1 s]; [done|]. cbn [rune_tail]. intros Hc%N.ltb_lt.
  destruct (negb _); [done|]. unfold byte_in at 1. rewrite (proj2 (N.leb_gt 194 _)) by lia. cbn.
  destruct s as [|c2 s]; [done|]. destruct (negb _); [done|].
  unfold byte_in at 1. rewrite (proj2 (N.leb_gt 224 _)) by lia. cbn.
  destruct s as [|c3 s]; [done|]. unfold byte_in. rewrite (proj2 (N.leb_gt 240 _)) by lia.
  by rewrite andb_false_r.
Qed.

Lemma runes_ascii_app s t : str_forallb is_ascii s = true → runes (s +:+ t) = singles s ++ runes t.
Proof.
  unfold runes. induction s as [|c s IH]; [done|]. cbn [str_forallb]. intros [Hc Hs]%andb_prop.
  rewrite app_cons. cbn [runes_from]. rewrite rune_tail_ascii by done. by rewrite IH.
Qed.

Lemma runes_ascii s : str_forallb is_ascii s = true → runes s = singles s.
Proof. intros Hs. rewrite <-(app_empty_r s) at 1. by rewrite runes_ascii_app, app_nil_r. Qed.

Lemma text_singles s : text (singles s) = s.
Proof. induction s as [|c s IH]; [done|]. cbn. by f_equal. Qed.

(** No rune of a text without a byte is that byte. *)
Lemma lacks_text c l : lacks c (text l) = true → Forall (λ x, but c x = true) l.
Proof.
  induction l as [|x l IH]; [constructor|]. cbn [text]. rewrite lacks_app. intros [Hx Hl]%andb_prop.
  constructor; [|by apply IH]. unfold but. rewrite bool_decide_false; [done|]. intros ->.
  unfold lacks in Hx. cbn in Hx. by rewrite Ascii.eqb_refl in Hx.
Qed.

Lemma runes_lacks c s : lacks c s = true → Forall (λ x, but c x = true) (runes s).
Proof. intros Hs. apply lacks_text. by rewrite text_runes. Qed.

(** No rune is empty. *)
Definition rune_ok (x : rune) : Prop := x ≠ "".

Lemma runes_from_ok k cur s :
  (k = 0%nat → cur = "") → (k ≠ 0%nat → cur ≠ "") → Forall rune_ok (runes_from k cur s).
Proof.
  revert k cur. induction s as [|c s IH]; intros k cur Hk0 Hk; cbn [runes_from].
  - destruct cur; [by destruct k|]. destruct k; by repeat constructor.
  - destruct k as [|[|k]].
    + destruct (rune_tail _); [constructor; [done|]|]; by apply IH.
    + constructor; [unfold rune_ok; by destruct cur|by apply IH].
    + apply IH; [done|]. intros _. by destruct cur.
Qed.

Lemma runes_ok s : Forall rune_ok (runes s).
Proof. by apply runes_from_ok. Qed.

(** ** What a match means *)

(** The texts that an expression can match, whatever stands around them. *)
Inductive fits : list simple → list rune → Prop :=
| fits_nil : fits [] []
| fits_one f x r l : f x = true → fits r l → fits (One f :: r) (x :: l)
| fits_many f l1 r l2 : Forall (λ x, f x = true) l1 → fits r l2 → fits (Many f :: r) (l1 ++ l2)
| fits_bound b r l : fits r l → fits (Bound b :: r) l
| fits_begin r l : fits r l → fits (Begin :: r) l
| fits_end r l : fits r l → fits (End_ :: r) l.

Lemma run_many_sound {A} f (k : option rune → list rune → string → option A) prev rest acc a :
  run_many f k prev rest acc = Some a →
  ∃ l prev' rest', rest = l ++ rest' ∧ Forall (λ x, f x = true) l ∧
    k prev' rest' (acc +:+ text l) = Some a.
Proof.
  revert prev acc. induction rest as [|x rest IH]; intros prev acc; cbn.
  - intros Hk. exists [], prev, []. cbn. rewrite app_empty_r. by repeat constructor.
  - assert (k prev (x :: rest) acc = Some a → ∃ l prev' rest',
      x :: rest = l ++ rest' ∧ Forall (λ x, f x = true) l ∧
      k prev' rest' (acc +:+ text l) = Some a) as Hstop.
    { intros Hk. exists [], prev, (x :: rest). cbn. rewrite app_empty_r. by repeat constructor. }
    destruct (f x) eqn:Hx; [|done]. destruct (run_many _ _ _ _ _) as [a'|] eqn:Hr; [|done].
    intros [= ->]. destruct (IH _ _ Hr) as (l & prev' & rest' & -> & Hl & Hk).
    exists (x :: l), prev', rest'. split; [done|]. split; [by constructor|].
    cbn. by rewrite <-app_assoc_str.
Qed.

Lemma run_sound {A} r (k : option rune → list rune → string → option A) prev rest acc a :
  run r k prev rest acc = Some a →
  ∃ l prev' rest', rest = l ++ rest' ∧ fits r l ∧ k prev' rest' (acc +:+ text l) = Some a.
Proof.
  revert prev rest acc. induction r as [|[f|f|b| |] r IH]; intros prev rest acc; cbn [run].
  - intros Hk. exists [], prev, rest. cbn. rewrite app_empty_r. by repeat constructor.
  - destruct rest as [|x rest]; [done|]. destruct (f x) eqn:Hx; [|done].
    intros (l & prev' & rest' & -> & Hl & Hk)%IH. exists (x :: l), prev', rest'.
    split; [done|]. split; [by constructor|]. cbn. by rewrite <-app_assoc_str.
  - intros (l1 & p1 & r1 & -> & Hl1 & Hk1)%run_many_sound.
    apply IH in Hk1 as (l2 & prev' & rest' & -> & Hl2 & Hk). exists (l1 ++ l2), prev', rest'.
    rewrite text_app, <-app_assoc_str, <-app_assoc. split; [done|]. split; [by constructor|done].
  - destruct (Bool.eqb _ _); [|done]. intros (l & p & r' & -> & Hl & Hk)%IH.
    exists l, p, r'. split; [done|]. by split; [constructor|].
  - destruct prev; [done|]. intros (l & p & r' & -> & Hl & Hk)%IH.
    exists l, p, r'. split; [done|]. by split; [constructor|].
  - destruct rest; [|done]. intros (l & p & r' & Hr & Hl & Hk)%IH.
    exists l, p, r'. split; [done|]. by split; [constructor|].
Qed.

(** What the groups of a match are. *)
Fixpoint group_res (its : list item) : list (list simple) :=
  match its with
  | [] => []
  | Plain _ :: its' => group_res its'
  | Group r :: its' => r :: group_res its'
  end.

Definition caught (r : list simple) (t : string) : Prop :=
  ∃ l, Forall rune_ok l ∧ fits r l ∧ t = text l.

Lemma match_at_sound its prev rest w gs w' gs' :
  Forall rune_ok rest → match_at its prev rest w gs = Some (w', gs') →
  ∃ new, gs' = gs ++ new ∧ Forall2 caught (group_res its) new.
Proof.
  revert prev rest w gs. induction its as [|[r|r] its IH]; intros prev rest w gs Hok; cbn.
  - intros [= <- <-]. exists []. rewrite app_nil_r. by split; [|constructor].
  - intros (l & p & r' & -> & Hl & Hk)%run_sound. apply Forall_app in Hok as [_ Hok].
    by apply IH in Hk.
  - intros (l & p & r' & -> & Hl & Hk)%run_sound. apply Forall_app in Hok as [Hokl Hok].
    apply IH in Hk as (new & -> & Hnew); [|done].
    eexists (_ :: new). rewrite <-app_assoc. split; [done|]. constructor; [by exists l|done].
Qed.

Lemma search_sound its prev rest w gs :
  Forall rune_ok rest → search its prev rest = Some (w, gs) → Forall2 caught (group_res its) gs.
Proof.
  intros Hok. revert prev. induction Hok as [|x l Hx Hok IH]; intros prev; cbn;
    (destruct (match_at _ _ _ _ _) as [m|] eqn:Hm; [|by try apply IH]); intros [= ->];
    apply match_at_sound in Hm as (new & -> & ?); try done; by constructor.
Qed.

Lemma FindSubmatch_sound its s w gs :
  FindSubmatch its s = Some (w, gs) → Forall2 caught (group_res its) gs.
Proof. apply search_sound, runes_ok. Qed.

(** ** Matching what is known

    Classes one by one, and a repetition that goes as far as it can. *)
Definition after (prev : option rune) (l : list rune) : option rune :=
  match last l with
  | Some x => Some x
  | None => prev
  end.

Lemma after_app prev l1 l2 : after prev (l1 ++ l2) = after (after prev l1) l2.
Proof. unfold after. rewrite last_app. by destruct (last l2). Qed.

Lemma after_cons prev x l : after prev (x :: l) = after (Some x) l.
Proof. unfold after. rewrite last_cons. by destruct (last l). Qed.

Lemma run_many_longest {A} f (k : option rune → list rune → string → option A) l prev rest acc a :
  Forall (λ x, f x = true) l → (∀ x, head rest = Some x → f x = false) →
  k (after prev l) rest (acc +:+ text l) = Some a →
  run_many f k prev (l ++ rest) acc = Some a.
Proof.
  intros Hl Hr. revert prev acc. induction Hl as [|x l Hx Hl IH]; intros prev acc Hk.
  - cbn in *. rewrite app_empty_r in Hk. destruct rest as [|x rest]; [done|]. cbn.
    by rewrite (Hr x eq_refl).
  - cbn. rewrite Hx, (IH (Some x)); [done|]. cbn [text] in Hk. rewrite app_assoc_str.
    by rewrite after_cons in Hk.
Qed.

(** At this place the expression takes [l] at its first try. *)
Definition takes (r : list simple) (l : list rune) (prev : option rune) (rest : list rune) : Prop :=
  ∀ A (k : option rune → list rune → string → option A) acc a,
    k (after prev l) rest (acc +:+ text l) = Some a → run r k prev (l ++ rest) acc = Some a.

Lemma takes_nil prev rest : takes [] [] prev rest.
Proof. intros A k acc a. cbn. by rewrite app_empty_r. Qed.

Lemma takes_one f r x l prev rest :
  f x = true → takes r l (Some x) rest → takes (One f :: r) (x :: l) prev rest.
Proof.
  intros Hx Hr A k acc a Hk. cbn [run app]. rewrite Hx. apply Hr.
  rewrite after_cons in Hk. cbn [text] in Hk. by rewrite app_assoc_str.
Qed.

Lemma takes_many f r l1 l2 prev rest :
  Forall (λ x, f x = true) l1 → (∀ x, head (l2 ++ rest) = Some x → f x = false) →
  takes r l2 (after prev l1) rest → takes (Many f :: r) (l1 ++ l2) prev rest.
Proof.
  intros Hl Hh Hr A k acc a Hk. cbn [run]. rewrite <-app_assoc.
  apply run_many_longest; [done|done|]. apply Hr.
  by rewrite after_app, text_app, <-app_assoc_str in Hk.
Qed.

Lemma takes_plus f r x l1 l2 prev rest :
  f x = true → Forall (λ x, f x = true) l1 → (∀ y, head (l2 ++ rest) = Some y → f y = false) →
  takes r l2 (after (Some x) l1) rest →
  takes (One f :: Many f :: r) (x :: l1 ++ l2) prev rest.
Proof. intros Hx Hl Hh Hr. apply takes_one; [done|]. by apply takes_many. Qed.

Lemma match_Plain its r l prev rest w gs m :
  takes r l prev rest → match_at its (after prev l) rest (w +:+ text l) gs = Some m →
  match_at (Plain r :: its) prev (l ++ rest) w gs = Some m.
Proof. intros Hr Hm. cbn [match_at]. by apply Hr. Qed.

Lemma match_Group its r l prev rest w gs m :
  takes r l prev rest →
  match_at its (after prev l) rest (w +:+ text l) (gs ++ [text l]) = Some m →
  match_at (Group r :: its) prev (l ++ rest) w gs = Some m.
Proof. intros Hr Hm. cbn [match_at]. by apply Hr. Qed.

Lemma match_Begin its rest w gs m :
  match_at its None rest w gs = Some m → match_at (Plain [Begin] :: its) None rest w gs = Some m.
Proof. cbn. by rewrite app_empty_r. Qed.

Lemma match_End prev w gs : match_at [Plain [End_]] prev [] w gs = Some (w, gs).
Proof. cbn. by rewrite app_empty_r. Qed.

Lemma search_first its prev rest m :
  match_at its prev rest "" [] = Some m → search its prev rest = Some m.
Proof. intros Hm. destruct rest; cbn [search]; by rewrite Hm. Qed.

(** Classes of ASCII characters on text of such characters. *)
Lemma singles_forall f g s :
  (∀ c, f c = true → g (String c "") = true) → str_forallb f s = true →
  Forall (λ x, g x = true) (singles s).
Proof.
  intros Hfg. induction s as [|c s IH]; [constructor|]. cbn. intros [Hc Hs]%andb_prop.
  constructor; auto.
Qed.

Lemma digit_cls c : is_digit c = true → digit (String c "") = true.
Proof.
  intros Hc. unfold digit, cls. rewrite Hc. unfold is_digit in Hc.
  apply andb_prop in Hc as [_ Hc%N.leb_le]. rewrite andb_true_r. apply N.ltb_lt. lia.
Qed.

Lemma takes_digits n s prev rest :
  str_forallb is_digit s = true → String.length s = n →
  takes (replicate n (One digit)) (singles s) prev rest.
Proof.
  intros Hs <-. revert prev Hs. induction s as [|c s IH]; intros prev; [by intros; apply takes_nil|].
  cbn [str_forallb singles String.length replicate]. intros [Hc Hs]%andb_prop.
  apply takes_one; [by apply digit_cls|]. by apply IH.
Qed.

Lemma takes_plus_singles f g r s l2 prev rest :
  (∀ c, f c = true → g (String c "") = true) → str_forallb f s = true → s ≠ "" →
  (∀ y, head (l2 ++ rest) = Some y → g y = false) →
  takes r l2 (after prev (singles s)) rest →
  takes (One g :: Many g :: r) (singles s ++ l2) prev rest.
Proof.
  intros Hfg Hs Hne Hh Hr. destruct s as [|c s]; [done|]. cbn in Hs.
  apply andb_prop in Hs as [Hc Hs]. cbn [singles app]. apply takes_plus; [auto| |done|].
  - by eapply singles_forall.
  - cbn [singles] in Hr. by rewrite after_cons in Hr.
Qed.

(** ** Where a match can start *)
Definition item_re (it : item) : list simple :=
  match it with
  | Plain r | Group r => r
  end.
Definition items_re (its : list item) : list simple := concat (map item_re its).

Lemma fits_app r1 r2 l1 l2 : fits r1 l1 → fits r2 l2 → fits (r1 ++ r2) (l1 ++ l2).
Proof.
  intros H1 H2. induction H1; cbn; try (by constructor); [done|].
  rewrite <-app_assoc. by constructor.
Qed.

Lemma match_at_fits its prev rest w gs m :
  match_at its prev rest w gs = Some m →
  ∃ l rest', rest = l ++ rest' ∧ fits (items_re its) l.
Proof.
  revert prev rest w gs. induction its as [|[r|r] its IH]; intros prev rest w gs; cbn [match_at].
  { intros _. exists [], rest. split; [done|constructor]. }
  all: intros (l & p & r' & -> & Hl & Hk)%run_sound; apply IH in Hk as (l2 & r2 & -> & Hl2);
    exists (l ++ l2), r2; rewrite <-app_assoc; split; [done|]; by apply fits_app.
Qed.

(** Places where the expression does not match are passed over. *)
Lemma search_skip its prev l rest :
  (∀ l1 l2 p, l = l1 ++ l2 → l2 ≠ [] → match_at its p (l2 ++ rest) "" [] = None) →
  search its prev (l ++ rest) = search its (after prev l) rest.
Proof.
  revert prev. induction l as [|x l IH]; intros prev Hno; [done|]. cbn [app search].
  pose proof (Hno [] (x :: l) prev) as Hx. cbn [app] in Hx. rewrite Hx by done.
  rewrite after_cons. apply IH.
  intros l1 l2 p -> Hne. by apply (Hno (x :: l1)).
Qed.
