(* ===== verification/Logging.v ===== *)
(** * Log redirection: internal/logging/logging.go

    The monitor's log is structured; the libraries it uses log through klog in a
    line format of its own.  [collectGlogs] reads klog's lines from a pipe and
    [deformat] takes each apart again.  [formatHeader] and [output] are klog's side
    (vendor/k8s.io/klog/klog.go): what a line looks like and where it is written.
    [Init] connects the two. *)
From S2P Require Import Prelude GoStrings Regexp.
From Stdlib Require Import Ascii.

(** ** Levels *)
Definition LevelAll := "all".
Definition LevelDebug := "debug".
Definition LevelInfo := "info".
Definition LevelWarn := "warn".
Definition LevelError := "error".
Definition LevelNone := "none".

Definition Levels : list string :=
  [LevelAll; LevelDebug; LevelInfo; LevelWarn; LevelError; LevelNone].

Definition Levels_String : string := Join Levels ", ".

Inductive Option :=
  AllowAll | AllowDebug | AllowInfo | AllowWarn | AllowError | AllowNone.

Definition parseLevel (lvl : string) : result Option :=
  if bool_decide (lvl = LevelAll) then Ok AllowAll
  else if bool_decide (lvl = LevelDebug) then Ok AllowDebug
  else if bool_decide (lvl = LevelInfo) then Ok AllowInfo
  else if bool_decide (lvl = LevelWarn) then Ok AllowWarn
  else if bool_decide (lvl = LevelError) then Ok AllowError
  else if bool_decide (lvl = LevelNone) then Ok AllowNone
  else Err (Errorf "failed to parse log level: %s" [lvl]).

(** ** Taking a line apart *)
Inductive Level := Info | Warn | Error_.

(** [time.Now()], or [time.Date] of this year in local time, turned to UTC. *)
Inductive Timestamp :=
| Now
| Date (month day hour minute second nsec : Z).

Record Entry := {
  leveled : Level;
  ts : Timestamp;
  caller : string;
  msg : string;
}.

(** "^(.)(\d{2})(\d{2}) (\d{2}):(\d{2}):(\d{2}).(\d{6})\s+\d+ ([^:]+:\d+)] (.*)$" *)
Definition two : list simple := [One digit; One digit].

Definition logPrefix : list item :=
  [Plain [Begin]; Group [One any]; Group two; Group two; Plain [lit " "];
   Group two; Plain [lit ":"]; Group two; Plain [lit ":"]; Group two; Plain [One any];
   Group [One digit; One digit; One digit; One digit; One digit; One digit];
   Plain [One space; Many space; One digit; Many digit; lit " "];
   Group [One (but colon); Many (but colon); lit ":"; One digit; Many digit];
   Plain [lit "]"; lit " "]; Group [Many any]; Plain [End_]].

(** The empty first group, at which the code would panic, is [None]. *)
Definition levelOf (severity : string) : option Level :=
  match severity with
  | "" => None
  | String c _ =>
      Some (if Ascii.eqb c "I" then Info
            else if Ascii.eqb c "W" then Warn
            else if Ascii.eqb c "E" || Ascii.eqb c "F" then Error_
            else Info)
  end.

Definition deformat (b : string) : option Entry :=
  let default := {| leveled := Info; ts := Now; caller := ""; msg := b |} in
  if (Z.of_nat (String.length b) <? 30)%Z then Some default
  else
    match FindSubmatch logPrefix b with
    | Some (_, [severity; mo; dd; hh; mi; ss; us; at_; rest]) =>
        match Atoi mo, Atoi dd, Atoi hh, Atoi mi, Atoi ss, Atoi us with
        | Ok month, Ok day, Ok hour, Ok minute, Ok second, Ok micros =>
            l ← levelOf severity;
            Some {| leveled := l; ts := Date month day hour minute second (micros * 1000);
                    caller := at_; msg := rest |}
        | _, _, _, _, _, _ => Some default
        end
    | _ => Some default
    end.

(** ** Reading the pipe: [bufio.Reader.ReadLine] *)
Definition bufSize : nat := N.to_nat 4096.

(** How [ReadSlice('\n')] ended: at a newline, with a full buffer, or because
    the pipe has no more. *)
Inductive slice_end := AtNewline | BufferFull | AtEnd.

Fixpoint ReadSlice (n : nat) (s : string) : string * slice_end * string :=
  match n with
  | O => ("", BufferFull, s)
  | S n' =>
      match s with
      | "" => ("", AtEnd, "")
      | String c s' =>
          if Ascii.eqb c newline then ("", AtNewline, s')
          else let '(l, e, r) := ReadSlice n' s' in (String c l, e, r)
      end
  end.

(** The line or a part of it, whether it is only a part, and what is left. *)
Definition ReadLine (s : string) : option (string * bool * string) :=
  let '(line, e, rest) := ReadSlice bufSize s in
  match e with
  | BufferFull =>
      if bool_decide (dropCR line = line) then Some (line, true, rest)
      else Some (dropCR line, true, String carriage rest)
  | AtNewline => Some (dropCR line, false, rest)
  | AtEnd => if bool_decide (line = "") then None else Some (line, false, "")
  end.

(** [for pfx { ... }] *)
Fixpoint readRest (fuel : nat) (pfx : bool) (buf rest : string) : option (string * string) :=
  if pfx then
    match fuel with
    | O => None
    | S fuel' =>
        match ReadLine rest with
        | Some (l, pfx, rest) => readRest fuel' pfx (buf +:+ l) rest
        | None => None
        end
    end
  else Some (buf, rest).

(** The entries written, in order, until reading fails; [None] is a panic. *)
Fixpoint collect (fuel : nat) (s : string) : option (list Entry) :=
  match fuel with
  | O => Some []
  | S fuel' =>
      match ReadLine s with
      | None => Some []
      | Some (l, pfx, rest) =>
          match readRest fuel pfx l rest with
          | None => Some []
          | Some (buf, rest) =>
              e ← deformat buf;
              es ← collect fuel' rest;
              Some (e :: es)
          end
      end
  end.

(** Every call takes at least a byte. *)
Definition collectGlogs (s : string) : option (list Entry) := collect (S (String.length s)) s.

(** ** klog's header *)
Definition digit_char (d : Z) : ascii := ascii_of_N (Z.to_N (48 + d mod 10)).

Definition twoDigits (d : Z) : string :=
  String (digit_char (d / 10)) (String (digit_char d) "").

(** [n] digits, the missing ones [pad]. *)
Fixpoint nDigits (n : nat) (d : Z) (pad : ascii) : string :=
  match n with
  | O => ""
  | S n' =>
      if (0 <? d)%Z then nDigits n' (d / 10) pad +:+ String (digit_char d) ""
      else nDigits n' 0 pad +:+ String pad ""
  end.

Inductive severity := infoLog | warningLog | errorLog | fatalLog.

Definition severityChar (s : severity) : ascii :=
  match s with
  | infoLog => "I"
  | warningLog => "W"
  | errorLog => "E"
  | fatalLog => "F"
  end%char.

Definition formatHeader (s : severity) (month day hour minute second micros pid : Z)
    (file : string) (line : Z) : string :=
  String (severityChar s) "" +:+ twoDigits month +:+ twoDigits day +:+ " " +:+
  twoDigits hour +:+ ":" +:+ twoDigits minute +:+ ":" +:+ twoDigits second +:+ "." +:+
  nDigits 6 micros "0" +:+ " " +:+ nDigits 7 pid " " +:+ " " +:+
  file +:+ ":" +:+ Itoa line +:+ "] ".

(** ** Where klog writes *)
Inductive sink := Stderr | Pipe.

#[global] Instance sink_eq_dec : EqDecision sink.
Proof. solve_decision. Defined.

(** The settings of klog that decide it; a severity without a file would have one
    created by [output]. *)
Record loggingT := {
  toStderr : bool;
  alsoToStderr : bool;
  stderrThreshold : severity;
  file : severity → option sink;
}.

(** The package's [init]; [InitFlags] takes its values as the flags' defaults. *)
Definition klogInit : loggingT :=
  {| toStderr := true; alsoToStderr := false; stderrThreshold := errorLog; file := λ _, None |}.

Definition SetOutput (w : sink) (l : loggingT) : loggingT :=
  {| toStderr := toStderr l; alsoToStderr := alsoToStderr l;
     stderrThreshold := stderrThreshold l; file := λ _, Some w |}.

(** A message goes to the files of its severity and of those below. *)
Definition fallthrough (s : severity) : list severity :=
  match s with
  | fatalLog => [fatalLog; errorLog; warningLog; infoLog]
  | errorLog => [errorLog; warningLog; infoLog]
  | warningLog => [warningLog; infoLog]
  | infoLog => [infoLog]
  end.

(** What [output] writes of a message, in order; a fatal one then ends the process. *)
Definition output (l : loggingT) (s : severity) (data : string) (also : bool)
  : list (sink * string) :=
  if toStderr l then [(Stderr, data)]
  else
    (if also || alsoToStderr l || bool_decide (length (fallthrough (stderrThreshold l))
                                               ≤ length (fallthrough s))%nat
     then [(Stderr, data)] else []) ++
    omap (λ s', w ← file l s'; Some (w, data)) (fallthrough s).

(** ** Init *)

(** A logger of go-kit/log, as it is put together. *)
Inductive Logger :=
| NewJSONLogger
| With (l : Logger) (key : string)
| NewFilter (l : Logger) (opt : Option).

(** Whether a filter lets an entry of this level pass. *)
Definition allowed (opt : Option) (lvl : Level) : bool :=
  match opt, lvl with
  | (AllowAll | AllowDebug | AllowInfo), _ => true
  | AllowWarn, (Warn | Error_) => true
  | AllowError, Error_ => true
  | _, _ => false
  end.

Fixpoint passes (l : Logger) (lvl : Level) : bool :=
  match l with
  | NewJSONLogger => true
  | With l _ => passes l lvl
  | NewFilter l opt => allowed opt lvl && passes l lvl
  end.

(** The fields that a logger adds to an entry. *)
Fixpoint fields (l : Logger) : list string :=
  match l with
  | NewJSONLogger => []
  | With l key => fields l ++ [key]
  | NewFilter l _ => fields l
  end.

(** The settings of klog afterwards, the logger that [collectGlogs] was started
    with if it was, and the result; [pipe] is how [os.Pipe] ended. *)
Definition Init (pipe : result unit) (lvl : string) (k : loggingT)
  : loggingT * option Logger * result Logger :=
  let l := NewJSONLogger in
  match pipe with
  | Err e => (k, None, Err (ErrorfWith "creating pipe for glog redirection: %s" [] e))
  | Ok _ =>
      (SetOutput Pipe k, Some l,
       match parseLevel lvl with
       | Err e => Err e
       | Ok opt =>
           let l := With l "ts" in
           let l := NewFilter l opt in
           let l := With l "caller" in
           Ok l
       end)
  end.

(** ** Helper lemmas: the groups of a match *)
Lemma fits_digits n l :
  fits (replicate n (One digit)) l → length l = n ∧ Forall (λ x, digit x = true) l.
Proof.
  revert l. induction n as [|n IH]; intros l; cbn; inversion 1; subst; [by split|].
  destruct (IH _ ltac:(eassumption)) as [<- ?]. split; [done|]. by constructor.
Qed.

Lemma digit_single x : digit x = true → ∃ c, x = String c "" ∧ is_digit c = true.
Proof.
  unfold digit, cls. destruct x as [|c [|]]; [done| |done].
  intros [_ Hc]%andb_prop. by exists c.
Qed.

Lemma text_digits l :
  Forall (λ x, digit x = true) l →
  str_forallb is_digit (text l) = true ∧ String.length (text l) = length l.
Proof.
  induction 1 as [|x l (c & -> & Hc)%digit_single _ [IH1 IH2]]; [done|].
  cbn [text]. rewrite app_cons. change ("" +:+ text l) with (text l).
  cbn [str_forallb String.length length]. by rewrite Hc, IH1, IH2.
Qed.

(** A group of [n] digits is a number. *)
Lemma caught_digits n t :
  caught (replicate n (One digit)) t → (0 < n ≤ 18)%nat →
  ∃ v, Atoi t = Ok v ∧ (0 ≤ v < 10 ^ Z.of_nat n)%Z.
Proof.
  intros (l & _ & [Hlen Hl]%fits_digits & ->) Hn. destruct (text_digits l Hl) as [Ht Hlt].
  destruct (Atoi_digits (text l)) as (v & Hv & Hr); [done| |lia|].
  - intros He. rewrite He in Hlt. cbn in Hlt. lia.
  - exists v. by rewrite Hlt, Hlen in Hr.
Qed.

Lemma caught_first f t : caught [One f] t → is_Some (levelOf t).
Proof.
  intros (l & Hok & Hl & ->). inversion Hl as [|? x ? l' Hx Hl'| | | |]; subst.
  inversion Hok; subst. destruct x; [done|]. cbn [text]. rewrite app_cons. by eexists.
Qed.

(** ** Helper lemmas: reading lines *)
Lemma ReadSlice_short n line rest :
  lacks newline line = true → (String.length line < n)%nat →
  ReadSlice n (line +:+ String newline rest) = (line, AtNewline, rest).
Proof.
  revert n. induction line as [|c line IH]; intros [|n] Hl Hn; cbn in Hn; try lia; [done|].
  unfold lacks in *. cbn [str_forallb] in Hl. apply andb_prop in Hl as [Hc%negb_true_iff Hl].
  rewrite app_cons. cbn [ReadSlice]. rewrite Hc, IH; [done|done|lia].
Qed.

Lemma ReadSlice_long n line rest :
  lacks newline line = true → (n ≤ String.length line)%nat →
  ∃ l1 l2, line = l1 +:+ l2 ∧ String.length l1 = n ∧
    ReadSlice n (line +:+ rest) = (l1, BufferFull, l2 +:+ rest).
Proof.
  revert n. induction line as [|c line IH]; intros [|n] Hl Hn; cbn in Hn; try lia.
  - by exists "", "".
  - by exists "", (String c line).
  - unfold lacks in *. cbn [str_forallb] in Hl. apply andb_prop in Hl as [Hc%negb_true_iff Hl].
    destruct (IH n Hl) as (l1 & l2 & -> & Hlen & Hr); [lia|].
    exists (String c l1), l2. split; [done|]. cbn [String.length]. split; [lia|].
    rewrite app_cons. cbn [ReadSlice]. by rewrite Hc, Hr.
Qed.

(** What a part of a line leaves: a carriage return at its end goes back. *)
Lemma dropCR_cases l : dropCR l = l ∨ l = dropCR l +:+ String carriage "".
Proof.
  induction l as [|c l IH]; [by left|]. cbn [dropCR]. destruct l as [|c' l].
  - destruct (Ascii.eqb_spec c carriage) as [->|]; [by right|by left].
  - rewrite app_cons. destruct IH as [->|IH]; [by left|right]. by f_equal.
Qed.

Lemma ReadLine_line line rest :
  lacks newline line = true →
  (ReadLine (line +:+ String newline rest) = Some (dropCR line, false, rest)) ∨
  (∃ l1 l2, line = l1 +:+ l2 ∧ l1 ≠ "" ∧ dropCR line = l1 +:+ dropCR l2 ∧
     ReadLine (line +:+ String newline rest) = Some (l1, true, l2 +:+ String newline rest)).
Proof.
  intros Hl. unfold ReadLine.
  destruct (decide (String.length line < bufSize)%nat) as [Hlen|Hlen].
  { left. by rewrite ReadSlice_short. }
  right. destruct (ReadSlice_long bufSize line (String newline rest) Hl)
    as (l1 & l2 & -> & Hl1 & Hr); [lia|]. rewrite Hr. cbn iota beta zeta.
  assert (1 < bufSize)%nat as Hbuf by (apply Nat.ltb_lt; vm_compute; reflexivity).
  destruct (dropCR_cases l1) as [Heq|Heq].
  - rewrite bool_decide_true by done. exists l1, l2. split; [done|].
    split; [by intros ->; cbn in Hl1; lia|]. split; [|done].
    destruct l2 as [|c l2]; [by rewrite !app_empty_r|]. by rewrite dropCR_app_ne.
  - rewrite bool_decide_false.
    2: { intros He. rewrite He in Heq. apply (f_equal String.length) in Heq.
         rewrite length_app_str in Heq. cbn in Heq. lia. }
    exists (dropCR l1), (String carriage l2). rewrite Heq at 1. rewrite app_assoc_str, app_cons.
    split; [done|]. split.
    { intros He. rewrite He in Heq. rewrite Heq, length_app_str in Hl1. cbn [String.length] in Hl1. lia. }
    split; [|done]. rewrite Heq at 1. rewrite app_assoc_str, app_cons. by apply dropCR_app_ne.
Qed.

(** A line of any length is put together from its parts. *)
Lemma readRest_line fuel line buf rest :
  lacks newline line = true → (String.length line < fuel)%nat →
  readRest fuel true buf (line +:+ String newline rest) = Some (buf +:+ dropCR line, rest).
Proof.
  revert line buf. induction fuel as [|fuel IH]; intros line buf Hl Hf; [lia|]. cbn [readRest].
  destruct (ReadLine_line line rest Hl) as [->|(l1 & l2 & -> & Hne & -> & ->)].
  { by destruct fuel. }
  rewrite lacks_app in Hl. apply andb_prop in Hl as [_ Hl]. rewrite IH; [|done|].
  - by rewrite app_assoc_str.
  - rewrite length_app_str in Hf. destruct l1; [done|]. cbn in Hf. lia.
Qed.

Definition terminated (lines : list string) : string :=
  foldr (λ l s, l +:+ String newline s) "" lines.

Lemma collect_lines fuel lines :
  Forall (λ l, lacks newline l = true) lines → (String.length (terminated lines) < fuel)%nat →
  collect fuel (terminated lines) = mapM (λ l, deformat (dropCR l)) lines.
Proof.
  intros Hls. revert fuel. induction Hls as [|line lines Hl Hls IH]; intros [|fuel] Hf; try lia.
  { done. }
  cbn [terminated foldr] in *. fold (terminated lines) in *.
  rewrite length_app_str in Hf. cbn [String.length] in Hf. cbn [collect].
  assert (∀ o, o = Some (dropCR line, terminated lines) →
    match o with
    | None => Some []
    | Some (buf, rest) => e ← deformat buf; es ← collect fuel rest; Some (e :: es)
    end = mapM (λ l, deformat (dropCR l)) (line :: lines)) as Hgo.
  { intros x ->. cbn. rewrite IH by lia. reflexivity. }
  destruct (ReadLine_line line (terminated lines) Hl) as [->|(l1 & l2 & -> & Hne & Hcr & ->)].
  { apply Hgo. done. }
  rewrite lacks_app in Hl. apply andb_prop in Hl as [_ Hl].
  apply Hgo. rewrite Hcr. apply readRest_line; [done|]. rewrite length_app_str in Hf. lia.
Qed.

Lemma deformat_cases b :
  ∃ e, deformat b = Some e ∧
    match ts e with
    | Now => ((String.length b < 30)%nat ∨ FindSubmatch logPrefix b = None) ∧
        e = {| leveled := Info; ts := Now; caller := ""; msg := b |}
    | Date month day hour minute second nsec =>
        (30 ≤ String.length b)%nat ∧ is_Some (FindSubmatch logPrefix b) ∧
        Forall (λ n, 0 ≤ n < 100)%Z [month; day; hour; minute; second] ∧
        (0 ≤ nsec < 1000000000)%Z
    end.
Proof.
  unfold deformat. destruct (Z.ltb_spec (Z.of_nat (String.length b)) 30) as [Hlen|Hlen].
  { eexists. split; [done|]. cbn. split; [left; lia|done]. }
  destruct (FindSubmatch logPrefix b) as [[w gs]|] eqn:Hfind; cycle 1.
  { eexists. split; [done|]. cbn. split; [by right|done]. }
  pose proof (FindSubmatch_sound _ _ _ _ Hfind) as Hgs. cbn [group_res logPrefix] in Hgs.
  repeat match goal with
  | H : Forall2 _ (_ :: _) _ |- _ => inversion H; clear H; subst
  | H : Forall2 _ [] _ |- _ => inversion H; clear H; subst
  end.
  repeat match goal with
  | H : caught two ?t |- _ =>
      apply (caught_digits 2) in H as (? & -> & ?); [|lia]
  | H : caught [One digit; One digit; One digit; One digit; One digit; One digit] ?t |- _ =>
      apply (caught_digits 6) in H as (? & -> & ?); [|lia]
  | H : caught [One any] ?t |- _ => apply caught_first in H as [? ->]
  end.
  eexists. split; [done|]. cbn. split; [lia|]. split; [done|]. cbn in *.
  split; [repeat constructor; lia|lia].
Qed.


Lemma deformat_total b : is_Some (deformat b).
Proof. destruct (deformat_cases b) as (e & -> & _). by eexists. Qed.

(** ** Helper lemmas: klog's numbers *)
Lemma digit_char_digit d : is_digit (digit_char d) = true ∧ digit_val (digit_char d) = (d mod 10)%Z.
Proof.
  unfold digit_char, is_digit, digit_val. pose proof (Z.mod_pos_bound d 10).
  rewrite N_ascii_embedding by lia. split; [apply andb_true_intro; split; apply N.leb_le|]; lia.
Qed.

Lemma digits_val_snoc acc s c :
  digits_val acc (s +:+ String c "") =
  match digits_val acc s with inl v => digits_val v (String c "") | inr e => inr e end.
Proof.
  revert acc. induction s as [|c' s IH]; intros acc; [done|]. rewrite app_cons.
  cbn [digits_val]. destruct (is_digit c'); [|done]. destruct (_ <? _)%Z; [done|]. apply IH.
Qed.

Lemma nDigits_step n d :
  (0 ≤ d)%Z → nDigits (S n) d "0" = nDigits n (d / 10) "0" +:+ String (digit_char d) "".
Proof.
  intros Hd. cbn [nDigits]. destruct (Z.ltb_spec 0 d); [done|]. by assert (d = 0)%Z as -> by lia.
Qed.

Lemma nDigits_zeros n d :
  (0 ≤ d < 10 ^ Z.of_nat n)%Z →
  str_forallb is_digit (nDigits n d "0") = true ∧ String.length (nDigits n d "0") = n ∧
  ((n ≤ 18)%nat → digits_val 0 (nDigits n d "0") = inl d).
Proof.
  revert d. induction n as [|n IH]; intros d Hd.
  { cbn. split; [done|]. split; [done|]. intros _. f_equal. cbn in Hd. lia. }
  rewrite Nat2Z.inj_succ, Z.pow_succ_r in Hd by lia. rewrite nDigits_step by lia.
  destruct (IH (d / 10)%Z) as (Hf & Hl & Hv).
  { split; [apply Z.div_pos; lia|apply Z.div_lt_upper_bound; lia]. }
  destruct (digit_char_digit d) as [Hc Hdv].
  rewrite str_forallb_app, length_app_str, Hf, Hl. cbn [str_forallb String.length]. rewrite Hc.
  split; [done|]. split; [lia|]. intros Hn. rewrite digits_val_snoc, Hv by lia.
  cbn [digits_val]. rewrite Hc, Hdv. pose proof (Z.div_mod d 10).
  pose proof (Z.pow_le_mono_r 10 (Z.of_nat n) 17). rewrite (proj2 (Z.ltb_ge _ _)).
  - f_equal. lia.
  - unfold uint_max. lia.
Qed.

Lemma Atoi_nDigits n d :
  (0 ≤ d < 10 ^ Z.of_nat n)%Z → (0 < n ≤ 18)%nat → Atoi (nDigits n d "0") = Ok d.
Proof.
  intros Hd Hn. destruct (nDigits_zeros n d Hd) as (Hf & Hl & Hv).
  unfold Atoi. rewrite sign_of_digits, bool_decide_false, Hv; [|lia| |done].
  - pose proof (Z.pow_le_mono_r 10 (Z.of_nat n) 18).
    assert (int_ok d = true) as -> by (apply int_ok_spec; lia). done.
  - intros He. rewrite He in Hl. cbn in Hl. lia.
Qed.

Lemma twoDigits_nDigits d : (0 ≤ d < 100)%Z → twoDigits d = nDigits 2 d "0".
Proof.
  intros Hd. assert (0 ≤ d / 10)%Z by (apply Z.div_pos; lia). rewrite !nDigits_step by lia. reflexivity.
Qed.

Definition blanks (s : string) : Prop := str_forallb (Ascii.eqb blank) s = true.

Lemma nDigits_blanks n : blanks (nDigits n 0 " ").
Proof.
  unfold blanks. induction n as [|n IH]; [done|]. cbn [nDigits Z.ltb Z.compare]. by rewrite str_forallb_app, IH.
Qed.

Lemma nDigits_pid n d :
  (0 < d < 10 ^ Z.of_nat n)%Z →
  ∃ sp ds, nDigits n d " " = sp +:+ ds ∧ blanks sp ∧ str_forallb is_digit ds = true ∧ ds ≠ "".
Proof.
  revert d. induction n as [|n IH]; intros d Hd; [cbn in Hd; lia|].
  rewrite Nat2Z.inj_succ, Z.pow_succ_r in Hd by lia. cbn [nDigits].
  rewrite (proj2 (Z.ltb_lt 0 d)) by lia. destruct (digit_char_digit d) as [Hc _].
  destruct (decide (d / 10 = 0)%Z) as [->|Hne].
  - exists (nDigits n 0 " "), (String (digit_char d) ""). split; [done|].
    split; [apply nDigits_blanks|]. cbn. by rewrite Hc.
  - destruct (IH (d / 10)%Z) as (sp & ds & -> & Hsp & Hds & Hne').
    { split; [|apply Z.div_lt_upper_bound; lia]. pose proof (Z.div_pos d 10). lia. }
    exists sp, (ds +:+ String (digit_char d) ""). split; [by rewrite app_assoc_str|].
    split; [done|]. rewrite str_forallb_app, Hds. cbn. rewrite Hc. split; [done|]. by destruct ds.
Qed.

(** ** Helper lemmas: matching klog's header *)
Lemma ascii_digits s : str_forallb is_digit s = true → str_forallb is_ascii s = true.
Proof.
  apply str_forallb_impl. intros c. unfold is_digit, is_ascii.
  intros [_ Hc%N.leb_le]%andb_prop. apply N.ltb_lt. lia.
Qed.

Lemma blanks_ascii s : blanks s → str_forallb is_ascii s = true.
Proof. apply str_forallb_impl. by intros c <-%Ascii.eqb_eq. Qed.

Lemma space_blank c : Ascii.eqb blank c = true → space (String c "") = true.
Proof. by intros <-%Ascii.eqb_eq. Qed.

(** The first lines of an item, as far as the header goes. *)
Lemma match_header sev mo dd hh mi ss us sp pid file line msg prev_ :
  Forall (λ s, str_forallb is_digit s = true ∧ String.length s = 2%nat) [mo; dd; hh; mi; ss] →
  str_forallb is_digit us = true → String.length us = 6%nat →
  blanks sp → str_forallb is_digit pid = true → pid ≠ "" →
  str_forallb is_ascii file = true → lacks colon file = true → file ≠ "" →
  str_forallb is_digit line = true → line ≠ "" → Forall (λ x, any x = true) msg →
  any (String sev "") = true → prev_ = None →
  ∃ w, match_at logPrefix prev_
    (singles (String sev "") ++ singles mo ++ singles dd ++ singles " " ++ singles hh ++
     singles ":" ++ singles mi ++ singles ":" ++ singles ss ++ singles "." ++ singles us ++
     (singles (" " +:+ sp) ++ singles pid ++ singles " ") ++
     (singles file ++ singles ":" ++ singles line) ++ singles "] " ++ msg ++ []) "" [] =
  Some (w, [String sev ""; mo; dd; hh; mi; ss; us; file +:+ ":" +:+ line; text msg]).
Proof.
  intros Hn Hus Hlus Hsp Hpid Hnpid Hfa Hfc Hfne Hline Hlne Hmsg Hsev ->.
  repeat match goal with H : Forall _ (_ :: _) |- _ => inversion H; clear H; subst end.
  destruct_and?.
  eexists. unfold logPrefix, two.
  apply match_Begin.
  apply match_Group; [by apply takes_one, takes_nil|].
  apply match_Group; [by apply (takes_digits 2)|].
  apply match_Group; [by apply (takes_digits 2)|].
  apply match_Plain; [by apply takes_one, takes_nil|].
  apply match_Group; [by apply (takes_digits 2)|].
  apply match_Plain; [by apply takes_one, takes_nil|].
  apply match_Group; [by apply (takes_digits 2)|].
  apply match_Plain; [by apply takes_one, takes_nil|].
  apply match_Group; [by apply (takes_digits 2)|].
  apply match_Plain; [by apply takes_one, takes_nil|].
  apply match_Group; [by apply (takes_digits 6)|].
  apply match_Plain.
  { apply (takes_plus_singles (Ascii.eqb blank)); [apply space_blank|done|done| |].
    { intros y. destruct pid as [|c pid]; [done|]. cbn. intros [= <-].
      by destruct c as [[] [] [] [] [] [] [] []]. }
    apply (takes_plus_singles is_digit); [apply digit_cls|done|done|by intros y [= <-]|].
    apply takes_one; [done|]. apply takes_nil. }
  apply match_Group.
  { apply (takes_plus_singles (λ c, negb (Ascii.eqb c colon))); [|done|done|by intros y [= <-]|].
    { intros c Hc%negb_true_iff%Ascii.eqb_neq. unfold but. rewrite bool_decide_false; [done|].
      congruence. }
    apply takes_one; [done|]. rewrite <-(app_nil_r (singles line)).
    apply (takes_plus_singles is_digit); [apply digit_cls|done|done|by intros y [= <-]|].
    apply takes_nil. }
  apply match_Plain; [by apply takes_one, takes_one, takes_nil|].
  apply match_Group.
  { rewrite <-(app_nil_r msg). apply takes_many; [done|done|]. apply takes_nil. }
  rewrite match_End. rewrite !text_app, !text_singles. reflexivity.
Qed.

Definition levelOfSeverity (s : severity) : Level :=
  match s with
  | infoLog => Info
  | warningLog => Warn
  | errorLog | fatalLog => Error_
  end.

Lemma nDigits_length n d pad : String.length (nDigits n d pad) = n.
Proof.
  revert d. induction n as [|n IH]; intros d; [done|]. cbn [nDigits].
  destruct (0 <? d)%Z; rewrite length_app_str, IH; cbn [String.length]; lia.
Qed.

Lemma severity_chars s :
  any (String (severityChar s) "") = true ∧ is_ascii (severityChar s) = true ∧
  levelOf (String (severityChar s) "") = Some (levelOfSeverity s).
Proof. by destruct s. Qed.

(** ** Theorems *)

(** C35. Whatever comes through the pipe, taking it apart does not panic, and it is
    all or nothing: the line becomes the message as it is, or it had klog's form
    and every number read from it is within its digits, so that none of the
    conversions fails and the nanoseconds stay below a second. *)
Theorem deformat_bounds b :
  ∃ e, deformat b = Some e ∧
    match ts e with
    | Now => ((String.length b < 30)%nat ∨ FindSubmatch logPrefix b = None) ∧
        e = {| leveled := Info; ts := Now; caller := ""; msg := b |}
    | Date month day hour minute second nsec =>
        (30 ≤ String.length b)%nat ∧ is_Some (FindSubmatch logPrefix b) ∧
        Forall (λ n, 0 ≤ n < 100)%Z [month; day; hour; minute; second] ∧
        (0 ≤ nsec < 1000000000)%Z
    end.
Proof. apply deformat_cases. Qed.

(** C36. Reading in parts is reading by lines: from any text of terminated lines,
    of whatever length, the entries written are those of the lines, each without
    the carriage return at its end, in order, although the reader's buffer holds
    4096 bytes; and nothing panics. *)
Theorem collectGlogs_lines lines :
  Forall (λ l, lacks newline l = true) lines →
  ∃ es, collectGlogs (terminated lines) = Some es ∧
    Forall2 (λ l e, deformat (dropCR l) = Some e) lines es.
Proof.
  intros Hls. unfold collectGlogs. rewrite collect_lines by (done || lia).
  assert (is_Some (mapM (λ l, deformat (dropCR l)) lines)) as [es Hes].
  { apply mapM_is_Some, Forall_forall. intros l _.
    destruct (deformat_total (dropCR l)) as [e He]. by exists e. }
  exists es. split; [done|]. by apply mapM_Some.
Qed.

(** C37. Round trip with klog: a line that klog prints, with a header of its
    format in front of a message, is taken apart into exactly the severity, the
    time, the file and line, and the message that klog put in. *)
Theorem deformat_formatHeader s month day hour minute second micros pid file line message :
  Forall (λ n, 0 ≤ n < 100)%Z [month; day; hour; minute; second] →
  (0 ≤ micros < 1000000)%Z → (0 < pid < 10000000)%Z → (0 ≤ line)%Z →
  str_forallb is_ascii file = true → lacks colon file = true → file ≠ "" →
  lacks newline message = true →
  deformat (formatHeader s month day hour minute second micros pid file line +:+ message) =
  Some {| leveled := levelOfSeverity s;
          ts := Date month day hour minute second (micros * 1000);
          caller := file +:+ ":" +:+ Itoa line; msg := message |}.
Proof.
  intros Hns Hmicros Hpid Hline Hfa Hfc Hfne Hmsg. unfold formatHeader.
  destruct (nDigits_pid 7 pid) as (sp & ds & Heq7 & Hsp & Hds & Hdne); [lia|].
  destruct (nDigits_zeros 6 micros) as (Hus & Hlus & _); [lia|].
  pose proof (nDigits_length 7 pid " ") as Hlen7. rewrite Heq7, length_app_str in Hlen7.
  rewrite Heq7. destruct (Itoa_digits line Hline) as [Hli Hline'].
  destruct (severity_chars s) as (Hany & Hsa & Hlvl).
  repeat match goal with H : Forall _ (_ :: _) |- _ => inversion H; clear H; subst end.
  rewrite !twoDigits_nDigits by done.
  unfold deformat, FindSubmatch. rewrite (proj2 (Z.ltb_ge _ _)); cycle 1.
  { rewrite !length_app_str, !nDigits_length. cbn [String.length]. lia. }
  rewrite runes_ascii_app; cycle 1.
  { rewrite !str_forallb_app. cbn [str_forallb]. rewrite Hsa, Hfa.
    rewrite !(ascii_digits (nDigits _ _ "0")) by (apply nDigits_zeros; lia).
    rewrite (ascii_digits ds), (ascii_digits (Itoa line)), (blanks_ascii sp) by done. done. }
  destruct (match_header (severityChar s) (nDigits 2 month "0") (nDigits 2 day "0")
    (nDigits 2 hour "0") (nDigits 2 minute "0") (nDigits 2 second "0") (nDigits 6 micros "0")
    sp ds file (Itoa line) (runes message) None) as [w Hw]; try done.
  { repeat constructor; apply nDigits_zeros; lia. }
  { eapply Forall_impl; [by apply runes_lacks|]. intros x. apply id. }
  apply search_first in Hw. rewrite app_nil_r, !singles_app in Hw. rewrite !singles_app.
  repeat rewrite <-app_assoc in Hw. repeat rewrite <-app_assoc. rewrite Hw.
  rewrite !Atoi_nDigits by lia. rewrite text_runes, Hlvl. reflexivity.
Qed.

(** A log level is accepted exactly when it is one of those that the help
    text lists, and no two of them mean the same. *)
Lemma parseLevel_Levels :
  (∀ lvl, (∃ o, parseLevel lvl = Ok o) ↔ lvl ∈ Levels) ∧
  (∀ lvl lvl' o, parseLevel lvl = Ok o → parseLevel lvl' = Ok o → lvl = lvl') ∧
  Levels_String = "all, debug, info, warn, error, none".
Proof.
  split; [|split; [|done]].
  - intros lvl. unfold parseLevel, Levels. split.
    + intros [o Ho]. repeat (case_bool_decide; [set_solver|]). done.
    + intros Hl. repeat (case_bool_decide; [by eexists|]). set_solver.
  - intros lvl lvl' o. unfold parseLevel. repeat case_bool_decide; intros; congruence.
Qed.

(** What [Init] returns: a logger that adds the time and the caller and lets pass
    what the level asks for, for the levels of the help text only. *)
Lemma Init_result lvl k :
  match snd (Init (Ok tt) lvl k) with
  | Ok l => lvl ∈ Levels ∧ fields l = ["ts"; "caller"] ∧
      ∃ opt, parseLevel lvl = Ok opt ∧ ∀ x, passes l x = allowed opt x
  | Err _ => lvl ∉ Levels
  end.
Proof.
  destruct (parseLevel_Levels) as (Hacc & _ & _). specialize (Hacc lvl). cbn.
  destruct (parseLevel lvl) as [opt|e] eqn:Hp.
  - split; [apply Hacc; by eexists|]. split; [done|]. exists opt. split; [done|].
    intros x. cbn. apply andb_true_r.
  - intros Hl. destruct (proj2 Hacc Hl) as [o Ho]. done.
Qed.

(** [Init] leaves klog as it is but for the files: its messages still go to the
    standard error only, and [collectGlogs] has nothing to read.  What it would
    read it would log without the filter and the fields of the level. *)
Lemma glog_stays_on_stderr lvl s data also :
  let '(k, collector, _) := Init (Ok tt) lvl klogInit in
  output k s data also = [(Stderr, data)] ∧
  ∃ l, collector = Some l ∧ fields l = [] ∧ ∀ x, passes l x = true.
Proof. split; [done|]. by exists NewJSONLogger. Qed.

(** Were that switched off, an error would be logged three times. *)
Lemma glog_error_thrice l data also :
  toStderr l = false →
  filter (λ w, w.1 = Pipe) (output (SetOutput Pipe l) errorLog data also) =
  [(Pipe, data); (Pipe, data); (Pipe, data)].
Proof. intros Hl. unfold output. cbn. rewrite Hl. by destruct (also || _ || _). Qed.

(** ** Witnesses *)
Lemma collectGlogs_lines_witness :
  ∃ es, collectGlogs (terminated ["I0102"; "x" +:+ String carriage ""]) = Some es ∧
    Forall2 (λ l e, deformat (dropCR l) = Some e) ["I0102"; "x" +:+ String carriage ""] es.
Proof. apply collectGlogs_lines. repeat constructor. Defined.

Lemma deformat_formatHeader_witness :
  deformat (formatHeader errorLog 12 31 23 59 58 42 77 "reflector.go" 120 +:+ "x: y] z") =
  Some {| leveled := Error_; ts := Date 12 31 23 59 58 42000;
          caller := "reflector.go:120"; msg := "x: y] z" |}.
Proof. apply deformat_formatHeader; [repeat constructor; lia|lia|lia|lia|done..]. Defined.
