(* ===== verification/Api.v ===== *)
(** * The Authenticator resource: api/v1/authenticator_types.go

    The Go structs as records, with their fields' names.  A pointer to a struct
    that is never shared is an [option]; [Status.Interfaces] is a slice of
    pointers, so its elements are options too.  A nil map and an empty map
    differ for the code, so a map field is an [option] of a [gmap]. *)
From S2P Require Import Prelude.

(** ** The state of an interface *)
Definition IfState : Type := string.

Definition IfStateUninitialized : IfState := "Uninitialized".
Definition IfStateDisabled : IfState := "Disabled".
Definition IfStateCountryUpdate : IfState := "CountryUpdate".
Definition IfStateAcs : IfState := "ACS".
Definition IfStateHtScan : IfState := "HT Scan".
Definition IfStateDfs : IfState := "DFS".
Definition IfStateEnabled : IfState := "Enabled".
Definition IfStateUnknown : IfState := "Unknown".

(** ** The specification *)
Record SecretKeyRef := {
  SecretKeyRef_Name : string;
  SecretKeyRef_Key : string;
}.

Record Local_ := {
  UserFileSecret : option SecretKeyRef;
  CaCertSecret : option SecretKeyRef;
  ServerCertSecret : option SecretKeyRef;
  PrivateKeySecret : option SecretKeyRef;
  PrivateKeyPassphrase : string;
  RadiusClientSecret : option SecretKeyRef;
  Local_AuthPort : Z;
}.

Record Radius := {
  AuthServer : string;
  Radius_AuthPort : Z;
  AuthSecret : string;
}.

Record Auth := {
  Local : option Local_;
  Radius_ : option Radius;
}.

Record Config := { EapReauthPeriod : Z }.

Record Ports := {
  Tcp : list Z;
  Udp : list Z;
}.

Record TrafficControl := { UnprotectedPorts : option Ports }.

Record AuthenticatorSpec := {
  Enabled : bool;
  Interfaces : list string;
  Authentication : Auth;
  Configuration : option Config;
  Image : string;
  NodeSelector : option (gmap string string);
  TrafficControl_ : option TrafficControl;
}.

(** ** The status *)
Record Interface := {
  Interface_Name : string;
  State : IfState;
  AuthenticatedClients : list string;
}.

Record AuthenticatorStatus := { Status_Interfaces : list (option Interface) }.

(** ** The resource: the identifying part of its metadata, spec and status *)
Record Authenticator := {
  Name : string;
  Namespace : string;
  UID : string;
  ResourceVersion : string;
  Spec : AuthenticatorSpec;
  Status : AuthenticatorStatus;
}.

(** ** Decidable equality *)
#[global] Instance SecretKeyRef_eq_dec : EqDecision SecretKeyRef.
Proof. solve_decision. Defined.
#[global] Instance Local_eq_dec : EqDecision Local_.
Proof. solve_decision. Defined.
#[global] Instance Radius_eq_dec : EqDecision Radius.
Proof. solve_decision. Defined.
#[global] Instance Auth_eq_dec : EqDecision Auth.
Proof. solve_decision. Defined.
#[global] Instance Config_eq_dec : EqDecision Config.
Proof. solve_decision. Defined.
#[global] Instance Ports_eq_dec : EqDecision Ports.
Proof. solve_decision. Defined.
#[global] Instance TrafficControl_eq_dec : EqDecision TrafficControl.
Proof. solve_decision. Defined.
#[global] Instance AuthenticatorSpec_eq_dec : EqDecision AuthenticatorSpec.
Proof. solve_decision. Defined.
#[global] Instance Interface_eq_dec : EqDecision Interface.
Proof. solve_decision. Defined.
#[global] Instance AuthenticatorStatus_eq_dec : EqDecision AuthenticatorStatus.
Proof. solve_decision. Defined.
#[global] Instance Authenticator_eq_dec : EqDecision Authenticator.
Proof. solve_decision. Defined.

(** ** Updating one field *)
Definition set_NodeSelector (ns : option (gmap string string)) (s : AuthenticatorSpec)
  : AuthenticatorSpec :=
  {| Enabled := Enabled s; Interfaces := Interfaces s; Authentication := Authentication s;
     Configuration := Configuration s; Image := Image s; NodeSelector := ns;
     TrafficControl_ := TrafficControl_ s |}.

Definition set_Spec (sp : AuthenticatorSpec) (a : Authenticator) : Authenticator :=
  {| Name := Name a; Namespace := Namespace a; UID := UID a;
     ResourceVersion := ResourceVersion a; Spec := sp; Status := Status a |}.

Definition set_Status_Interfaces (l : list (option Interface)) (a : Authenticator)
  : Authenticator :=
  {| Name := Name a; Namespace := Namespace a; UID := UID a;
     ResourceVersion := ResourceVersion a; Spec := Spec a;
     Status := {| Status_Interfaces := l |} |}.
