(* ===== verification/Memory.v ===== *)
(** * Go's memory: pointers, slices and maps as references

    A value holds references to cells of a heap.  [Tree] says of a type of such
    values which plain value one stands for in a heap and which cells it reaches;
    [deep] is what a deep copy promises: the copy stands for the same, the cells
    that were there are as they were, and the copy reaches none of them. *)
From S2P Require Import Prelude.

(** A pointer to a [V]; a slice is a pointer to the list of its elements, a map a
    pointer to its contents. *)
Inductive ptr (V : Type) :=
| Nil
| Ref (r : nat).
Arguments Nil {V}.
Arguments Ref {V} r.

(** What can be kept in a cell. *)
Class Boxed (Cell V : Type) := {
  box : V → Cell;
  unbox : Cell → option V;
  zero : V;
  unbox_box : ∀ v, unbox (box v) = Some v;
}.

(** A type of values, and the plain values they stand for. *)
Class Tree (Cell V T : Type) := {
  tree : gmap nat Cell → V → option T;
  reach : gmap nat Cell → V → gset nat;
  (** both depend on the cells that are reached only, *)
  tree_local : ∀ h h' v t, tree h v = Some t → (∀ r, r ∈ reach h v → h' !! r = h !! r) →
    tree h' v = Some t ∧ reach h' v = reach h v;
  (** and those exist. *)
  tree_dom : ∀ h v t, tree h v = Some t → reach h v ⊆ dom h;
}.

Section memory.
Context {Cell : Type}.

Abbreviation Heap := (gmap nat Cell).

(** ** Operations *)
Definition cell {V} `{!Boxed Cell V} (h : Heap) (r : nat) : option V :=
  match h !! r with
  | Some c => unbox c
  | None => None
  end.

Definition load {V} `{!Boxed Cell V} (r : nat) : M Heap V :=
  h ← gets id;
  match cell h r with
  | Some v => mret v
  | None => panic "invalid memory address or nil pointer dereference"
  end.

Definition store {V} `{!Boxed Cell V} (r : nat) (v : V) : M Heap unit := modify (<[r := box v]>).

(** [new(V)], [make(...)] *)
Definition alloc {V} `{!Boxed Cell V} (v : V) : M Heap nat :=
  r ← gets (λ h, fresh (dom h));
  _ ← store r v;
  mret r.

(** [if in.F != nil { *out = new(V); ( *in).DeepCopyInto( *out) }] *)
Definition copyPtr {V} `{!Boxed Cell V} (deepCopyInto : V → M Heap V) (p : ptr V)
  : M Heap (ptr V) :=
  match p with
  | Nil => mret Nil
  | Ref r =>
      q ← alloc (zero (V := V));
      v ← load r;
      v' ← deepCopyInto v;
      _ ← store q v';
      mret (Ref q)
  end.

(** [*out = make([]V, len( *in)); for i := range *in { ... }]: every element is
    copied into its place in the new array. *)
Fixpoint copyElems {V} `{!Boxed Cell (list V)} (copy : V → M Heap V) (q i : nat) (l : list V)
  : M Heap unit :=
  match l with
  | [] => mret tt
  | v :: l' =>
      v' ← copy v;
      out ← load q;
      _ ← store q (<[i := v']> out);
      copyElems copy q (S i) l'
  end.

Definition copySlice {V} `{!Boxed Cell (list V)} (zeroElem : V) (copy : V → M Heap V)
    (p : ptr (list V)) : M Heap (ptr (list V)) :=
  match p with
  | Nil => mret Nil
  | Ref r =>
      l ← load r;
      q ← alloc (replicate (length l) zeroElem);
      _ ← copyElems copy q 0 l;
      mret (Ref q)
  end.

(** [*out = make(map..., len( *in)); for key, val := range *in { ( *out)[key] = val }] *)
Fixpoint copyEntries `{!Boxed Cell (gmap string string)} (q : nat) (l : list (string * string))
  : M Heap unit :=
  match l with
  | [] => mret tt
  | (key, val) :: l' =>
      out ← load q;
      _ ← store q (<[key := val]> out);
      copyEntries q l'
  end.

Definition copyMap `{!Boxed Cell (gmap string string)} (p : ptr (gmap string string))
  : M Heap (ptr (gmap string string)) :=
  match p with
  | Nil => mret Nil
  | Ref r =>
      m ← load r;
      q ← alloc ∅;
      _ ← copyEntries q (map_to_list m);
      mret (Ref q)
  end.

(** ** Plain values *)
Definition flat_tree (V : Type) : Tree Cell V V.
Proof.
  refine {| tree := λ _ v, Some v; reach := λ _ _, ∅ |}; [done|]. intros. set_solver.
Defined.

(** ** Pointers *)
#[global] Program Instance ptr_tree {V T} `{!Boxed Cell V, !Tree Cell V T}
  : Tree Cell (ptr V) (option T) := {|
  tree h p := match p with
              | Nil => Some None
              | Ref r => match cell h r with
                         | Some v => match tree h v with
                                     | Some t => Some (Some t)
                                     | None => None
                                     end
                         | None => None
                         end
              end;
  reach h p := match p with
               | Nil => ∅
               | Ref r => {[r]} ∪ match cell (V := V) h r with
                                  | Some v => reach h v
                                  | None => ∅
                                  end
               end;
|}.
Next Obligation.
  intros V T ?? h h' [|r] t; cbn; [done|].
  destruct (cell h r) as [v|] eqn:Hv; [|done].
  destruct (tree h v) as [t'|] eqn:Ht; [|done]. intros [= <-] Hr.
  assert (cell h' r = Some v) as -> by (rewrite <-Hv; unfold cell; by rewrite (Hr r) by set_solver).
  destruct (tree_local h h' v t' Ht) as [-> ->]; [|done]. intros r' Hr'. apply Hr. set_solver.
Qed.
Next Obligation.
  intros V T ?? h [|r] t; cbn; [set_solver|].
  unfold cell. destruct (h !! r) as [c|] eqn:Hr; [|done]. destruct (unbox c) as [v|]; [|done].
  destruct (tree h v) as [t'|] eqn:Ht; [|done]. intros _. apply tree_dom in Ht.
  apply union_subseteq. split; [|done]. apply singleton_subseteq_l, elem_of_dom. by eexists.
Qed.

(** ** Lists *)
#[global] Program Instance list_tree {V T} `{!Tree Cell V T} : Tree Cell (list V) (list T) := {|
  tree h l := mapM (tree h) l;
  reach h l := ⋃ (reach h <$> l);
|}.
Next Obligation.
  intros V T ? h h' l. induction l as [|v l IH]; intros ts; [done|]. cbn.
  destruct (tree h v) as [t|] eqn:Ht; [|done]. cbn.
  destruct (mapM (tree h) l) as [ts'|] eqn:Hts; [|done]. intros [= <-] Hr.
  destruct (tree_local h h' v t Ht) as [-> ->]; [intros r Hr'; apply Hr; set_solver|].
  destruct (IH ts' eq_refl) as [Htl Hrl]; [intros r Hr'; apply Hr; set_solver|].
  cbn in *. rewrite Htl. cbn. by rewrite Hrl.
Qed.
Next Obligation.
  intros V T ? h l. induction l as [|v l IH]; intros ts; [set_solver|]. cbn.
  destruct (tree h v) as [t|] eqn:Ht; [|done]. cbn.
  destruct (mapM (tree h) l) as [ts'|] eqn:Hts; [|done]. intros _.
  apply tree_dom in Ht. specialize (IH ts' eq_refl). set_solver.
Qed.

(** ** Deep copies *)
Section deep.
Context {V T} `{!Tree Cell V T}.

Lemma tree_mono h h' v t :
  h ⊆ h' → tree h v = Some t → tree h' v = Some t ∧ reach h' v = reach h v.
Proof.
  intros Hsub Ht. apply tree_local; [done|]. intros r Hr.
  apply (tree_dom h v t Ht) in Hr. apply elem_of_dom in Hr as [c Hc]. rewrite Hc.
  by eapply lookup_weaken.
Qed.

(** The result [v'] in [h'] of a copy of a value that stood for [t] in [h]. *)
Record copied (h : Heap) (t : T) (v' : V) (h' : Heap) : Prop := {
  copied_old : h ⊆ h';
  copied_tree : tree h' v' = Some t;
  copied_fresh : reach h' v' ## dom h;
}.

Definition deep (copy : V → M Heap V) : Prop :=
  ∀ h v t, tree h v = Some t → wp (copy v) (copied h t) h.

(** Later work on other cells leaves a copy as it is. *)
Lemma copied_later h t v' h1 h2 : copied h t v' h1 → h1 ⊆ h2 → copied h t v' h2.
Proof.
  intros [H1 H2 H3] Hsub. destruct (tree_mono h1 h2 v' t) as [Ht Hr]; [done|done|].
  split; [by etrans|done|by rewrite Hr].
Qed.
End deep.

(** The copy of a part of an object, after other parts have been copied. *)
Lemma wp_part {V T} `{!Tree Cell V T} (f : V → M Heap V) h h1 v t :
  deep f → h ⊆ h1 → tree h v = Some t → wp (f v) (λ v' h2, h1 ⊆ h2 ∧ copied h t v' h2) h1.
Proof.
  intros Hf Hsub Ht. eapply wp_mono; [apply (Hf h1 v t); by eapply tree_mono|]. cbn beta.
  intros v' h2 [H1 H2 H3]. split; [done|]. split; [by etrans|done|].
  assert (dom h ⊆ dom h1) by by apply subseteq_dom. set_solver.
Qed.

Lemma deep_flat V : @deep V V (flat_tree V) mret.
Proof. intros h v t [= <-]. apply wp_ret. by split; [|done|set_solver]. Qed.

Lemma cell_mono {V} `{!Boxed Cell V} h h' r (v : V) : h ⊆ h' → cell h r = Some v → cell h' r = Some v.
Proof.
  unfold cell. destruct (h !! r) as [c|] eqn:Hr; [|done]. intros Hsub Hc.
  by rewrite (lookup_weaken _ _ _ _ Hr Hsub).
Qed.

Lemma cell_insert {V} `{!Boxed Cell V} h r (v : V) : cell (<[r := box v]> h) r = Some v.
Proof. unfold cell. by rewrite lookup_insert_eq, unbox_box. Qed.

Lemma wp_load {V} `{!Boxed Cell V} r v (Q : V → Heap → Prop) h :
  cell h r = Some v → Q v h → wp (load r) Q h.
Proof. intros Hr HQ. unfold load. do 2 wp_step. cbn [id]. rewrite Hr. by wp_step. Qed.

Lemma wp_alloc {V} `{!Boxed Cell V} (v : V) (Q : nat → Heap → Prop) h :
  (∀ q, h !! q = None → Q q (<[q := box v]> h)) → wp (alloc v) Q h.
Proof.
  intros HQ. unfold alloc, store. do 5 wp_step. apply HQ. apply not_elem_of_dom, is_fresh.
Qed.

Lemma copyPtr_deep {V T} `{!Boxed Cell V, !Tree Cell V T} (f : V → M Heap V) :
  deep f → deep (copyPtr f).
Proof.
  intros Hf h [|r] t Ht; cbn in Ht.
  { injection Ht as <-. cbn [copyPtr]. wp_step. by split; [|done|set_solver]. }
  destruct (cell h r) as [v|] eqn:Hv; [|done].
  destruct (tree h v) as [t'|] eqn:Ht'; [|done]. injection Ht as <-. cbn [copyPtr].
  wp_step. apply wp_alloc. intros q Hq. wp_step.
  set (h1 := <[q := box zero]> h). assert (h ⊆ h1) as Hsub by by apply insert_subseteq.
  apply (wp_load r v).
  { by apply (cell_mono h). }
  wp_step.
  eapply wp_mono; [apply (Hf h1 v t'); by eapply tree_mono|]. intros v' h2 [Hsub2 Ht2 Hr2].
  unfold store. do 3 wp_step.
  assert (q ∉ reach h2 v') as Hqr.
  { intros Hin. apply (Hr2 q Hin). apply elem_of_dom. eexists. apply lookup_insert_eq. }
  destruct (tree_local h2 (<[q := box v']> h2) v' t' Ht2) as [Ht3 Hr3].
  { intros r' Hr'. rewrite lookup_insert_ne; [done|]. by intros ->. }
  split.
  - apply map_subseteq_spec. intros i x Hi. rewrite lookup_insert_ne by congruence.
    by eapply lookup_weaken, Hsub2; eapply lookup_weaken.
  - cbn. by rewrite cell_insert, Ht3.
  - cbn. rewrite cell_insert, Hr3.
    assert (dom h ⊆ dom h1) by by apply subseteq_dom.
    assert (q ∉ dom h) by by apply not_elem_of_dom. set_solver.
Qed.

(** Writing a cell that nothing reaches. *)
Lemma tree_write {V T W} `{!Tree Cell V T, !Boxed Cell W} h v t q (w : W) :
  tree h v = Some t → q ∉ reach h v →
  tree (<[q := box w]> h) v = Some t ∧ reach (<[q := box w]> h) v = reach h v.
Proof.
  intros Ht Hq. apply tree_local; [done|]. intros r Hr. rewrite lookup_insert_ne; [done|].
  by intros ->.
Qed.

Lemma subseteq_write (h h' : Heap) q c : h ⊆ h' → h !! q = None → h ⊆ <[q := c]> h'.
Proof.
  intros Hsub Hq. apply map_subseteq_spec. intros i x Hi. rewrite lookup_insert_ne by congruence.
  by eapply lookup_weaken.
Qed.

Lemma mapM_snoc {A B} (f : A → option B) l ys x y :
  mapM f l = Some ys → f x = Some y → mapM f (l ++ [x]) = Some (ys ++ [y]).
Proof. rewrite !mapM_Some. intros Hl Hx. by apply Forall2_app; [|repeat constructor]. Qed.

(** [done_] of the elements are in place. *)
Record filling {V T} `{!Boxed Cell (list V), !Tree Cell V T} (h : Heap) (q : nat)
    (done_ : list V) (ts : list T) (rest : list V) (h' : Heap) : Prop := {
  filling_old : h ⊆ h';
  filling_new : h !! q = None;
  filling_cell : cell h' q = Some (done_ ++ rest);
  filling_tree : tree h' done_ = Some ts;
  filling_fresh : reach h' done_ ## {[q]} ∪ dom h;
}.

Lemma filling_step {V T} `{!Boxed Cell (list V), !Tree Cell V T} h q (done_ : list V) (ts : list T)
    z rest h1 t v' h2 :
  filling h q done_ ts (z :: rest) h1 → copied h1 t v' h2 →
  cell h2 q = Some (done_ ++ z :: rest) ∧
  filling h q (done_ ++ [v']) (ts ++ [t]) rest
    (<[q := box (<[length done_ := v']> (done_ ++ z :: rest))]> h2).
Proof.
  intros [Hold Hnew Hcell Htree Hfresh] [Hold2 Htree2 Hfresh2].
  assert (q ∈ dom h1) as Hq.
  { apply elem_of_dom. unfold cell in Hcell. by destruct (h1 !! q). }
  assert (dom h ⊆ dom h1) as Hdom by by apply subseteq_dom.
  split; [by eapply cell_mono|].
  destruct (tree_mono h1 h2 done_ ts Hold2 Htree) as [Htree' Hreach'].
  destruct (tree_write h2 done_ ts q (<[length done_ := v']> (done_ ++ z :: rest)) Htree') as [Ht1 Hr1].
  { rewrite Hreach'. set_solver. }
  destruct (tree_write h2 v' t q (<[length done_ := v']> (done_ ++ z :: rest)) Htree2) as [Ht2 Hr2].
  { set_solver. }
  split.
  - apply subseteq_write; [by etrans|done].
  - done.
  - rewrite cell_insert. f_equal. rewrite insert_app_r_alt by done. rewrite Nat.sub_diag.
    by rewrite <-app_assoc.
  - by apply mapM_snoc.
  - cbn in *. rewrite fmap_app, union_list_app_L, Hr1. cbn. rewrite Hr2, Hreach'.
    rewrite (right_id_L ∅ (∪)). set_solver.
Qed.

Lemma wp_copyElems {V T} `{!Boxed Cell (list V), !Tree Cell V T} (f : V → M Heap V) h q z l ts
    done_ tdone h1 :
  deep f → tree h l = Some ts →
  filling h q done_ tdone (replicate (length l) z) h1 →
  wp (copyElems f q (length done_) l) (λ _ h', ∃ l', filling h q l' (tdone ++ ts) [] h') h1.
Proof.
  intros Hf. revert ts done_ tdone h1. induction l as [|v l IH]; intros ts done_ tdone h1 Ht Hfill.
  - injection Ht as <-. cbn [copyElems]. wp_step. exists done_. by rewrite app_nil_r.
  - cbn in Ht. destruct (tree h v) as [t|] eqn:Hv; [|done]. cbn in Ht.
    destruct (mapM (tree h) l) as [ts'|] eqn:Hl; [|done]. injection Ht as <-.
    cbn [copyElems]. wp_step. eapply wp_mono.
    { apply (Hf h1 v t). destruct (tree_mono h h1 v t); [apply Hfill|done|done]. }
    cbn beta. intros v' h2 Hc. destruct (filling_step _ _ _ _ _ _ _ _ _ _ Hfill Hc) as [Hcell Hnext].
    wp_step. eapply wp_load; [exact Hcell|]. wp_step. unfold store. wp_step.
    replace (S (length done_)) with (length (done_ ++ [v'])) by (rewrite length_app; cbn; lia).
    eapply wp_mono; [by eapply IH|]. cbn beta. intros _ h' [l' Hl']. exists l'.
    by rewrite <-app_assoc in Hl'.
Qed.

Lemma copySlice_deep {V T} `{!Boxed Cell (list V), !Tree Cell V T} z (f : V → M Heap V) :
  deep f → deep (copySlice z f).
Proof.
  intros Hf h [|r] t Ht; cbn in Ht.
  { injection Ht as <-. cbn [copySlice]. wp_step. by split; [|done|set_solver]. }
  destruct (cell h r) as [l|] eqn:Hl; [|done].
  destruct (mapM (tree h) l) as [ts|] eqn:Hts; [|done]. injection Ht as <-. cbn [copySlice].
  wp_step. eapply wp_load; [done|]. wp_step. apply wp_alloc. intros q Hq. wp_step.
  eapply wp_mono; [apply (wp_copyElems f h q z l ts [] []); [done|done|]|].
  - split; [by apply insert_subseteq|done|apply cell_insert|done|set_solver].
  - cbn beta. intros _ h' [l' [Hold Hnew Hcell Htree Hfresh]]. wp_step. rewrite app_nil_r in Hcell.
    cbn in Htree, Hfresh. split; [done| |].
    + cbn. by rewrite Hcell, Htree.
    + cbn. rewrite Hcell. assert (q ∉ dom h) by by apply not_elem_of_dom. set_solver.
Qed.

Lemma wp_copyEntries `{!Boxed Cell (gmap string string)} h q l m h1 :
  h ⊆ h1 → h !! q = None → cell h1 q = Some m → NoDup (l.*1) →
  (∀ k, k ∈ l.*1 → m !! k = None) →
  wp (copyEntries q l) (λ _ h', h ⊆ h' ∧ cell h' q = Some (list_to_map l ∪ m)) h1.
Proof.
  revert m h1. induction l as [|[k v] l IH]; intros m h1 Hold Hnew Hcell Hnd Hfr; cbn [copyEntries].
  { wp_step. split; [done|]. by rewrite Hcell, list_to_map_nil, (left_id_L ∅ (∪)). }
  cbn in Hnd. apply NoDup_cons in Hnd as [Hk Hnd].
  wp_step. eapply wp_load; [exact Hcell|]. wp_step. unfold store. wp_step.
  eapply wp_mono; [apply (IH (<[k := v]> m))|].
  - by apply subseteq_write.
  - done.
  - apply cell_insert.
  - done.
  - intros k' Hk'. rewrite lookup_insert_ne; [apply Hfr; cbn; set_solver|]. by intros ->.
  - cbn beta. intros _ h' [Hold' Hcell']. split; [done|]. rewrite Hcell'. f_equal.
    cbn. rewrite <-insert_union_l, insert_union_r; [done|]. by apply not_elem_of_list_to_map.
Qed.

#[global] Instance string_tree : Tree Cell string string := flat_tree string.
#[global] Instance Z_tree : Tree Cell Z Z := flat_tree Z.
#[global] Instance map_tree : Tree Cell (gmap string string) (gmap string string) := flat_tree _.

Lemma copyMap_deep `{!Boxed Cell (gmap string string)} : deep copyMap.
Proof.
  intros h [|r] t Ht; cbn in Ht.
  { injection Ht as <-. cbn [copyMap]. wp_step. by split; [|done|set_solver]. }
  destruct (cell h r) as [m|] eqn:Hm; [|done]. injection Ht as <-. cbn [copyMap].
  wp_step. eapply wp_load; [done|]. wp_step. apply wp_alloc. intros q Hq. wp_step.
  eapply wp_mono; [apply (wp_copyEntries h q (map_to_list m) ∅)|].
  - by apply insert_subseteq.
  - done.
  - apply cell_insert.
  - apply NoDup_fst_map_to_list.
  - intros k _. apply lookup_empty.
  - cbn beta. intros _ h' [Hold Hcell]. wp_step.
    rewrite list_to_map_to_list, (right_id_L ∅ (∪)) in Hcell. split; [done| |].
    + cbn. by rewrite Hcell.
    + cbn. rewrite Hcell. assert (q ∉ dom h) by by apply not_elem_of_dom. set_solver.
Qed.

(** What a deep copy of [v], which stands for [t], gives: it returns; original and
    copy stand for [t]; neither sees what is written through the other. *)
Definition separate {V T} `{!Tree Cell V T} (copy : M Heap V) (h : Heap) (v : V) (t : T) : Prop :=
  ∃ v' h', copy h = Done v' h' ∧ tree h' v = Some t ∧ tree h' v' = Some t ∧
  (∀ h'', (∀ r, r ∉ reach h' v' → h'' !! r = h' !! r) → tree h'' v = Some t) ∧
  (∀ h'', (∀ r, r ∉ reach h' v → h'' !! r = h' !! r) → tree h'' v' = Some t).

Lemma copied_apart {V T} `{!Tree Cell V T} h t v v' h' :
  tree h v = Some t → copied h t v' h' →
  tree h' v = Some t ∧ tree h' v' = Some t ∧
  (∀ h'', (∀ r, r ∉ reach h' v' → h'' !! r = h' !! r) → tree h'' v = Some t) ∧
  (∀ h'', (∀ r, r ∉ reach h' v → h'' !! r = h' !! r) → tree h'' v' = Some t).
Proof.
  intros Ht [Hold Htree Hfresh]. destruct (tree_mono h h' v t Hold Ht) as [Ht' Hr'].
  pose proof (tree_dom h v t Ht) as Hdom. rewrite <-Hr' in Hdom.
  split; [done|]. split; [done|]. split; intros h'' Hsame.
  - eapply tree_local; [done|]. intros r Hr. apply Hsame. set_solver.
  - eapply tree_local; [done|]. intros r Hr. apply Hsame. set_solver.
Qed.

Lemma deep_separate {V T} `{!Tree Cell V T} (f : V → M Heap V) h v t :
  deep f → tree h v = Some t → separate (f v) h v t.
Proof.
  intros Hf Ht. pose proof (Hf h v t Ht) as Hwp. unfold wpx in Hwp.
  destruct (f v h) as [v' h'|] eqn:E; [|done]. exists v', h'.
  split; [done|]. by apply (copied_apart h).
Qed.
End memory.
