(* ===== verification/DeepCopy.v ===== *)
(** * Deep copies: api/v1/zz_generated.deepcopy.go

    The API types with their pointers, slices and maps as references into a heap
    ([Memory]), and the copying functions, one by one: those of the repository and
    those of the metadata that they call, from
    vendor/k8s.io/apimachinery/pkg/apis/meta/v1/zz_generated.deepcopy.go.  The same
    records with [option] for the pointers are the plain values that they stand for.
    A [metav1.Time] is an instant: the library copies it by assignment, since
    nothing can be written through the pointer to a time zone that it holds. *)
From S2P Require Import Prelude Api Memory.
From Stdlib Require Import Init.Byte.

(** ** The types, over what a pointer is *)
Record Time := { instant : Z }.
Record TypeMeta := { Kind : string; APIVersion : string }.

Section types.
Variable P : Type → Type.

Record LocalV := {
  lv_UserFileSecret : P SecretKeyRef;
  lv_CaCertSecret : P SecretKeyRef;
  lv_ServerCertSecret : P SecretKeyRef;
  lv_PrivateKeySecret : P SecretKeyRef;
  lv_PrivateKeyPassphrase : string;
  lv_RadiusClientSecret : P SecretKeyRef;
  lv_AuthPort : Z;
}.

Record AuthV := { av_Local : P LocalV; av_Radius : P Radius }.

Record PortsV := { pv_Tcp : P (list Z); pv_Udp : P (list Z) }.

Record TrafficControlV := { tv_UnprotectedPorts : P PortsV }.

Record SpecV := {
  sv_Enabled : bool;
  sv_Interfaces : P (list string);
  sv_Authentication : AuthV;
  sv_Configuration : P Config;
  sv_Image : string;
  sv_NodeSelector : P (gmap string string);
  sv_TrafficControl : P TrafficControlV;
}.

Record InterfaceV := {
  iv_Name : string;
  iv_State : IfState;
  iv_AuthenticatedClients : P (list string);
}.

Record StatusV := { stv_Interfaces : P (list (P InterfaceV)) }.

Record FieldsV1V := { fv_Raw : P (list byte) }.

Record ManagedFieldsEntryV := {
  mv_Manager : string;
  mv_Operation : string;
  mv_APIVersion : string;
  mv_Time : P Time;
  mv_FieldsType : string;
  mv_FieldsV1 : P FieldsV1V;
  mv_Subresource : string;
}.

Record OwnerReferenceV := {
  ov_APIVersion : string;
  ov_Kind : string;
  ov_Name : string;
  ov_UID : string;
  ov_Controller : P bool;
  ov_BlockOwnerDeletion : P bool;
}.

Record ObjectMetaV := {
  omv_Name : string;
  omv_GenerateName : string;
  omv_Namespace : string;
  omv_SelfLink : string;
  omv_UID : string;
  omv_ResourceVersion : string;
  omv_Generation : Z;
  omv_CreationTimestamp : Time;
  omv_DeletionTimestamp : P Time;
  omv_DeletionGracePeriodSeconds : P Z;
  omv_Labels : P (gmap string string);
  omv_Annotations : P (gmap string string);
  omv_OwnerReferences : P (list OwnerReferenceV);
  omv_Finalizers : P (list string);
  omv_ManagedFields : P (list ManagedFieldsEntryV);
}.

Record ListMetaV := {
  lmv_SelfLink : string;
  lmv_ResourceVersion : string;
  lmv_Continue : string;
  lmv_RemainingItemCount : P Z;
}.

Record AuthenticatorV := {
  rv_TypeMeta : TypeMeta;
  rv_ObjectMeta : ObjectMetaV;
  rv_Spec : SpecV;
  rv_Status : StatusV;
}.

Record ListV := {
  lsv_TypeMeta : TypeMeta;
  lsv_ListMeta : ListMetaV;
  lsv_Items : P (list AuthenticatorV);
}.
End types.

(** ** The cells *)
Inductive Cell :=
| CSecret (v : SecretKeyRef)
| CRadius (v : Radius)
| CConfig (v : Config)
| CStrings (v : list string)
| CInts (v : list Z)
| CMap (v : gmap string string)
| CLocal (v : LocalV ptr)
| CAuth (v : AuthV ptr)
| CPorts (v : PortsV ptr)
| CTrafficControl (v : TrafficControlV ptr)
| CSpec (v : SpecV ptr)
| CInterface (v : InterfaceV ptr)
| CInterfaces (v : list (ptr (InterfaceV ptr)))
| CStatus (v : StatusV ptr)
| CAuthenticator (v : AuthenticatorV ptr)
| CAuthenticators (v : list (AuthenticatorV ptr))
| CList (v : ListV ptr)
| CTime (v : Time)
| CInt (v : Z)
| CBool (v : bool)
| CBytes (v : list byte)
| CFields (v : FieldsV1V ptr)
| CManagedFields (v : list (ManagedFieldsEntryV ptr))
| COwners (v : list (OwnerReferenceV ptr)).

Definition zeroLocal : LocalV ptr :=
  {| lv_UserFileSecret := Nil; lv_CaCertSecret := Nil; lv_ServerCertSecret := Nil;
     lv_PrivateKeySecret := Nil; lv_PrivateKeyPassphrase := ""; lv_RadiusClientSecret := Nil;
     lv_AuthPort := 0 |}.
Definition zeroAuth : AuthV ptr := {| av_Local := Nil; av_Radius := Nil |}.
Definition zeroSpec : SpecV ptr :=
  {| sv_Enabled := false; sv_Interfaces := Nil; sv_Authentication := zeroAuth;
     sv_Configuration := Nil; sv_Image := ""; sv_NodeSelector := Nil; sv_TrafficControl := Nil |}.
Definition zeroTime : Time := {| instant := 0 |}.
Definition zeroManagedFields : ManagedFieldsEntryV ptr :=
  {| mv_Manager := ""; mv_Operation := ""; mv_APIVersion := ""; mv_Time := Nil;
     mv_FieldsType := ""; mv_FieldsV1 := Nil; mv_Subresource := "" |}.
Definition zeroOwner : OwnerReferenceV ptr :=
  {| ov_APIVersion := ""; ov_Kind := ""; ov_Name := ""; ov_UID := ""; ov_Controller := Nil;
     ov_BlockOwnerDeletion := Nil |}.
Definition zeroObjectMeta : ObjectMetaV ptr :=
  {| omv_Name := ""; omv_GenerateName := ""; omv_Namespace := ""; omv_SelfLink := "";
     omv_UID := ""; omv_ResourceVersion := ""; omv_Generation := 0;
     omv_CreationTimestamp := zeroTime; omv_DeletionTimestamp := Nil;
     omv_DeletionGracePeriodSeconds := Nil; omv_Labels := Nil; omv_Annotations := Nil;
     omv_OwnerReferences := Nil; omv_Finalizers := Nil; omv_ManagedFields := Nil |}.
Definition zeroListMeta : ListMetaV ptr :=
  {| lmv_SelfLink := ""; lmv_ResourceVersion := ""; lmv_Continue := "";
     lmv_RemainingItemCount := Nil |}.
Definition zeroAuthenticator : AuthenticatorV ptr :=
  {| rv_TypeMeta := {| Kind := ""; APIVersion := "" |}; rv_ObjectMeta := zeroObjectMeta;
     rv_Spec := zeroSpec; rv_Status := {| stv_Interfaces := Nil |} |}.

#[global] Program Instance secret_boxed : Boxed Cell SecretKeyRef := {|
  box := CSecret; unbox c := match c with CSecret v => Some v | _ => None end;
  zero := {| SecretKeyRef_Name := ""; SecretKeyRef_Key := "" |} |}.
#[global] Program Instance radius_boxed : Boxed Cell Radius := {|
  box := CRadius; unbox c := match c with CRadius v => Some v | _ => None end;
  zero := {| AuthServer := ""; Radius_AuthPort := 0; AuthSecret := "" |} |}.
#[global] Program Instance config_boxed : Boxed Cell Config := {|
  box := CConfig; unbox c := match c with CConfig v => Some v | _ => None end;
  zero := {| EapReauthPeriod := 0 |} |}.
#[global] Program Instance strings_boxed : Boxed Cell (list string) := {|
  box := CStrings; unbox c := match c with CStrings v => Some v | _ => None end; zero := [] |}.
#[global] Program Instance ints_boxed : Boxed Cell (list Z) := {|
  box := CInts; unbox c := match c with CInts v => Some v | _ => None end; zero := [] |}.
#[global] Program Instance map_boxed : Boxed Cell (gmap string string) := {|
  box := CMap; unbox c := match c with CMap v => Some v | _ => None end; zero := ∅ |}.
#[global] Program Instance local_boxed : Boxed Cell (LocalV ptr) := {|
  box := CLocal; unbox c := match c with CLocal v => Some v | _ => None end; zero := zeroLocal |}.
#[global] Program Instance auth_boxed : Boxed Cell (AuthV ptr) := {|
  box := CAuth; unbox c := match c with CAuth v => Some v | _ => None end; zero := zeroAuth |}.
#[global] Program Instance ports_boxed : Boxed Cell (PortsV ptr) := {|
  box := CPorts; unbox c := match c with CPorts v => Some v | _ => None end;
  zero := {| pv_Tcp := Nil; pv_Udp := Nil |} |}.
#[global] Program Instance tc_boxed : Boxed Cell (TrafficControlV ptr) := {|
  box := CTrafficControl; unbox c := match c with CTrafficControl v => Some v | _ => None end;
  zero := {| tv_UnprotectedPorts := Nil |} |}.
#[global] Program Instance spec_boxed : Boxed Cell (SpecV ptr) := {|
  box := CSpec; unbox c := match c with CSpec v => Some v | _ => None end; zero := zeroSpec |}.
#[global] Program Instance interface_boxed : Boxed Cell (InterfaceV ptr) := {|
  box := CInterface; unbox c := match c with CInterface v => Some v | _ => None end;
  zero := {| iv_Name := ""; iv_State := ""; iv_AuthenticatedClients := Nil |} |}.
#[global] Program Instance interfaces_boxed : Boxed Cell (list (ptr (InterfaceV ptr))) := {|
  box := CInterfaces; unbox c := match c with CInterfaces v => Some v | _ => None end;
  zero := [] |}.
#[global] Program Instance status_boxed : Boxed Cell (StatusV ptr) := {|
  box := CStatus; unbox c := match c with CStatus v => Some v | _ => None end;
  zero := {| stv_Interfaces := Nil |} |}.
#[global] Program Instance authenticator_boxed : Boxed Cell (AuthenticatorV ptr) := {|
  box := CAuthenticator; unbox c := match c with CAuthenticator v => Some v | _ => None end;
  zero := zeroAuthenticator |}.
#[global] Program Instance authenticators_boxed : Boxed Cell (list (AuthenticatorV ptr)) := {|
  box := CAuthenticators; unbox c := match c with CAuthenticators v => Some v | _ => None end;
  zero := [] |}.
#[global] Program Instance list_boxed : Boxed Cell (ListV ptr) := {|
  box := CList; unbox c := match c with CList v => Some v | _ => None end;
  zero := {| lsv_TypeMeta := {| Kind := ""; APIVersion := "" |}; lsv_ListMeta := zeroListMeta;
             lsv_Items := Nil |} |}.
#[global] Program Instance time_boxed : Boxed Cell Time := {|
  box := CTime; unbox c := match c with CTime v => Some v | _ => None end; zero := zeroTime |}.
#[global] Program Instance int_boxed : Boxed Cell Z := {|
  box := CInt; unbox c := match c with CInt v => Some v | _ => None end; zero := 0%Z |}.
#[global] Program Instance bool_boxed : Boxed Cell bool := {|
  box := CBool; unbox c := match c with CBool v => Some v | _ => None end; zero := false |}.
#[global] Program Instance bytes_boxed : Boxed Cell (list byte) := {|
  box := CBytes; unbox c := match c with CBytes v => Some v | _ => None end; zero := [] |}.
#[global] Program Instance fields_boxed : Boxed Cell (FieldsV1V ptr) := {|
  box := CFields; unbox c := match c with CFields v => Some v | _ => None end;
  zero := {| fv_Raw := Nil |} |}.
#[global] Program Instance managed_boxed : Boxed Cell (list (ManagedFieldsEntryV ptr)) := {|
  box := CManagedFields; unbox c := match c with CManagedFields v => Some v | _ => None end;
  zero := [] |}.
#[global] Program Instance owners_boxed : Boxed Cell (list (OwnerReferenceV ptr)) := {|
  box := COwners; unbox c := match c with COwners v => Some v | _ => None end; zero := [] |}.
Solve All Obligations with done.

Abbreviation Heap := (gmap nat Cell).

(** ** The functions

    [*out = *in] copies the fields, references as they are; then each reference
    that is not nil is replaced.  A function returns what it leaves in [*out]. *)
Definition SecretKeyRef_DeepCopyInto (i : SecretKeyRef) : M Heap SecretKeyRef := mret i.
Definition Radius_DeepCopyInto (i : Radius) : M Heap Radius := mret i.
Definition Config_DeepCopyInto (i : Config) : M Heap Config := mret i.

Definition Local_DeepCopyInto (i : LocalV ptr) : M Heap (LocalV ptr) :=
  userFile ← copyPtr mret (lv_UserFileSecret _ i);
  caCert ← copyPtr mret (lv_CaCertSecret _ i);
  serverCert ← copyPtr mret (lv_ServerCertSecret _ i);
  privateKey ← copyPtr mret (lv_PrivateKeySecret _ i);
  radiusClient ← copyPtr mret (lv_RadiusClientSecret _ i);
  mret {| lv_UserFileSecret := userFile; lv_CaCertSecret := caCert;
          lv_ServerCertSecret := serverCert; lv_PrivateKeySecret := privateKey;
          lv_PrivateKeyPassphrase := lv_PrivateKeyPassphrase _ i;
          lv_RadiusClientSecret := radiusClient; lv_AuthPort := lv_AuthPort _ i |}.

Definition Auth_DeepCopyInto (i : AuthV ptr) : M Heap (AuthV ptr) :=
  local ← copyPtr Local_DeepCopyInto (av_Local _ i);
  radius ← copyPtr mret (av_Radius _ i);
  mret {| av_Local := local; av_Radius := radius |}.

Definition Ports_DeepCopyInto (i : PortsV ptr) : M Heap (PortsV ptr) :=
  tcp ← copySlice 0%Z mret (pv_Tcp _ i);
  udp ← copySlice 0%Z mret (pv_Udp _ i);
  mret {| pv_Tcp := tcp; pv_Udp := udp |}.

Definition TrafficControl_DeepCopyInto (i : TrafficControlV ptr) : M Heap (TrafficControlV ptr) :=
  ports ← copyPtr Ports_DeepCopyInto (tv_UnprotectedPorts _ i);
  mret {| tv_UnprotectedPorts := ports |}.

Definition AuthenticatorSpec_DeepCopyInto (i : SpecV ptr) : M Heap (SpecV ptr) :=
  interfaces ← copySlice "" mret (sv_Interfaces _ i);
  authentication ← Auth_DeepCopyInto (sv_Authentication _ i);
  configuration ← copyPtr mret (sv_Configuration _ i);
  nodeSelector ← copyMap (sv_NodeSelector _ i);
  trafficControl ← copyPtr TrafficControl_DeepCopyInto (sv_TrafficControl _ i);
  mret {| sv_Enabled := sv_Enabled _ i; sv_Interfaces := interfaces;
          sv_Authentication := authentication; sv_Configuration := configuration;
          sv_Image := sv_Image _ i; sv_NodeSelector := nodeSelector;
          sv_TrafficControl := trafficControl |}.

Definition Interface_DeepCopyInto (i : InterfaceV ptr) : M Heap (InterfaceV ptr) :=
  clients ← copySlice "" mret (iv_AuthenticatedClients _ i);
  mret {| iv_Name := iv_Name _ i; iv_State := iv_State _ i; iv_AuthenticatedClients := clients |}.

Definition AuthenticatorStatus_DeepCopyInto (i : StatusV ptr) : M Heap (StatusV ptr) :=
  interfaces ← copySlice Nil (copyPtr Interface_DeepCopyInto) (stv_Interfaces _ i);
  mret {| stv_Interfaces := interfaces |}.

(** *** The metadata, in the vendored library *)
Definition Time_DeepCopyInto (i : Time) : M Heap Time := mret i.
Definition Time_DeepCopy := copyPtr Time_DeepCopyInto.

Definition FieldsV1_DeepCopyInto (i : FieldsV1V ptr) : M Heap (FieldsV1V ptr) :=
  raw ← copySlice x00 mret (fv_Raw _ i);
  mret {| fv_Raw := raw |}.

Definition ManagedFieldsEntry_DeepCopyInto (i : ManagedFieldsEntryV ptr)
  : M Heap (ManagedFieldsEntryV ptr) :=
  time ← Time_DeepCopy (mv_Time _ i);
  fields ← copyPtr FieldsV1_DeepCopyInto (mv_FieldsV1 _ i);
  mret {| mv_Manager := mv_Manager _ i; mv_Operation := mv_Operation _ i;
          mv_APIVersion := mv_APIVersion _ i; mv_Time := time;
          mv_FieldsType := mv_FieldsType _ i; mv_FieldsV1 := fields;
          mv_Subresource := mv_Subresource _ i |}.

Definition OwnerReference_DeepCopyInto (i : OwnerReferenceV ptr) : M Heap (OwnerReferenceV ptr) :=
  controller ← copyPtr mret (ov_Controller _ i);
  block ← copyPtr mret (ov_BlockOwnerDeletion _ i);
  mret {| ov_APIVersion := ov_APIVersion _ i; ov_Kind := ov_Kind _ i; ov_Name := ov_Name _ i;
          ov_UID := ov_UID _ i; ov_Controller := controller; ov_BlockOwnerDeletion := block |}.

Definition ObjectMeta_DeepCopyInto (i : ObjectMetaV ptr) : M Heap (ObjectMetaV ptr) :=
  creation ← Time_DeepCopyInto (omv_CreationTimestamp _ i);
  deletion ← Time_DeepCopy (omv_DeletionTimestamp _ i);
  grace ← copyPtr mret (omv_DeletionGracePeriodSeconds _ i);
  labels ← copyMap (omv_Labels _ i);
  annotations ← copyMap (omv_Annotations _ i);
  owners ← copySlice zeroOwner OwnerReference_DeepCopyInto (omv_OwnerReferences _ i);
  finalizers ← copySlice "" mret (omv_Finalizers _ i);
  managed ← copySlice zeroManagedFields ManagedFieldsEntry_DeepCopyInto (omv_ManagedFields _ i);
  mret {| omv_Name := omv_Name _ i; omv_GenerateName := omv_GenerateName _ i;
          omv_Namespace := omv_Namespace _ i; omv_SelfLink := omv_SelfLink _ i;
          omv_UID := omv_UID _ i; omv_ResourceVersion := omv_ResourceVersion _ i;
          omv_Generation := omv_Generation _ i; omv_CreationTimestamp := creation;
          omv_DeletionTimestamp := deletion; omv_DeletionGracePeriodSeconds := grace;
          omv_Labels := labels; omv_Annotations := annotations; omv_OwnerReferences := owners;
          omv_Finalizers := finalizers; omv_ManagedFields := managed |}.

Definition ListMeta_DeepCopyInto (i : ListMetaV ptr) : M Heap (ListMetaV ptr) :=
  remaining ← copyPtr mret (lmv_RemainingItemCount _ i);
  mret {| lmv_SelfLink := lmv_SelfLink _ i; lmv_ResourceVersion := lmv_ResourceVersion _ i;
          lmv_Continue := lmv_Continue _ i; lmv_RemainingItemCount := remaining |}.

(** *** The resource and its list *)
Definition Authenticator_DeepCopyInto (i : AuthenticatorV ptr) : M Heap (AuthenticatorV ptr) :=
  meta ← ObjectMeta_DeepCopyInto (rv_ObjectMeta _ i);
  spec ← AuthenticatorSpec_DeepCopyInto (rv_Spec _ i);
  status ← AuthenticatorStatus_DeepCopyInto (rv_Status _ i);
  mret {| rv_TypeMeta := rv_TypeMeta _ i; rv_ObjectMeta := meta; rv_Spec := spec; rv_Status := status |}.

Definition AuthenticatorList_DeepCopyInto (i : ListV ptr) : M Heap (ListV ptr) :=
  meta ← ListMeta_DeepCopyInto (lsv_ListMeta _ i);
  items ← copySlice zeroAuthenticator Authenticator_DeepCopyInto (lsv_Items _ i);
  mret {| lsv_TypeMeta := lsv_TypeMeta _ i; lsv_ListMeta := meta; lsv_Items := items |}.

(** [if in == nil { return nil }; out := new(T); in.DeepCopyInto(out); return out] *)
Definition SecretKeyRef_DeepCopy := copyPtr SecretKeyRef_DeepCopyInto.
Definition Radius_DeepCopy := copyPtr Radius_DeepCopyInto.
Definition Config_DeepCopy := copyPtr Config_DeepCopyInto.
Definition Local_DeepCopy := copyPtr Local_DeepCopyInto.
Definition Auth_DeepCopy := copyPtr Auth_DeepCopyInto.
Definition Ports_DeepCopy := copyPtr Ports_DeepCopyInto.
Definition TrafficControl_DeepCopy := copyPtr TrafficControl_DeepCopyInto.
Definition AuthenticatorSpec_DeepCopy := copyPtr AuthenticatorSpec_DeepCopyInto.
Definition Interface_DeepCopy := copyPtr Interface_DeepCopyInto.
Definition AuthenticatorStatus_DeepCopy := copyPtr AuthenticatorStatus_DeepCopyInto.
Definition Authenticator_DeepCopy := copyPtr Authenticator_DeepCopyInto.
Definition AuthenticatorList_DeepCopy := copyPtr AuthenticatorList_DeepCopyInto.

(** [if c := in.DeepCopy(); c != nil { return c }; return nil] *)
Definition Authenticator_DeepCopyObject := Authenticator_DeepCopy.
Definition AuthenticatorList_DeepCopyObject := AuthenticatorList_DeepCopy.

(** ** What the objects stand for *)
#[global] Instance secret_tree : Tree Cell SecretKeyRef SecretKeyRef := flat_tree _.
#[global] Instance radius_tree : Tree Cell Radius Radius := flat_tree _.
#[global] Instance config_tree : Tree Cell Config Config := flat_tree _.
#[global] Instance time_tree : Tree Cell Time Time := flat_tree _.
#[global] Instance bool_tree : Tree Cell bool bool := flat_tree _.
#[global] Instance byte_tree : Tree Cell byte byte := flat_tree _.

(** A record stands for a record when its fields do. *)
Ltac tree_fields := repeat
  match goal with
  | H : _ ≫= _ = Some _ |- _ =>
      let x := fresh "x" in let E := fresh "E" in apply bind_Some in H as (x & E & H)
  end; simplify_eq.

Ltac tree_local_fields := intros h h' v t; cbn beta; intros Ht Hsame; tree_fields; repeat
  match goal with
  | E : tree h ?x = Some ?y |- _ =>
      let Et := fresh "Et" in let Er := fresh "Er" in
      destruct (tree_local h h' x y E) as [Et Er];
      [intros r Hr; apply Hsame; repeat rewrite elem_of_union; tauto
      |clear E; rewrite Et, ?Er; cbn [mbind option_bind]]
  end; done.

Ltac tree_dom_fields := intros h v t; cbn beta; intros Ht; tree_fields; repeat
  match goal with
  | E : tree h _ = Some _ |- _ => apply tree_dom in E
  end; repeat (apply union_subseteq; split); done.

#[global] Program Instance local_tree : Tree Cell (LocalV ptr) (LocalV option) := {|
  tree h v :=
    userFile ← tree h (lv_UserFileSecret _ v);
    caCert ← tree h (lv_CaCertSecret _ v);
    serverCert ← tree h (lv_ServerCertSecret _ v);
    privateKey ← tree h (lv_PrivateKeySecret _ v);
    radiusClient ← tree h (lv_RadiusClientSecret _ v);
    Some {| lv_UserFileSecret := userFile; lv_CaCertSecret := caCert;
            lv_ServerCertSecret := serverCert; lv_PrivateKeySecret := privateKey;
            lv_PrivateKeyPassphrase := lv_PrivateKeyPassphrase _ v;
            lv_RadiusClientSecret := radiusClient; lv_AuthPort := lv_AuthPort _ v |};
  reach h v := reach h (lv_UserFileSecret _ v) ∪ reach h (lv_CaCertSecret _ v)
    ∪ reach h (lv_ServerCertSecret _ v) ∪ reach h (lv_PrivateKeySecret _ v)
    ∪ reach h (lv_RadiusClientSecret _ v);
|}.
Next Obligation. tree_local_fields. Qed.
Next Obligation. tree_dom_fields. Qed.

#[global] Program Instance auth_tree : Tree Cell (AuthV ptr) (AuthV option) := {|
  tree h v :=
    local ← tree h (av_Local _ v);
    radius ← tree h (av_Radius _ v);
    Some {| av_Local := local; av_Radius := radius |};
  reach h v := reach h (av_Local _ v) ∪ reach h (av_Radius _ v);
|}.
Next Obligation. tree_local_fields. Qed.
Next Obligation. tree_dom_fields. Qed.

#[global] Program Instance ports_tree : Tree Cell (PortsV ptr) (PortsV option) := {|
  tree h v :=
    tcp ← tree h (pv_Tcp _ v);
    udp ← tree h (pv_Udp _ v);
    Some {| pv_Tcp := tcp; pv_Udp := udp |};
  reach h v := reach h (pv_Tcp _ v) ∪ reach h (pv_Udp _ v);
|}.
Next Obligation. tree_local_fields. Qed.
Next Obligation. tree_dom_fields. Qed.

#[global] Program Instance tc_tree : Tree Cell (TrafficControlV ptr) (TrafficControlV option) := {|
  tree h v := ports ← tree h (tv_UnprotectedPorts _ v); Some {| tv_UnprotectedPorts := ports |};
  reach h v := reach h (tv_UnprotectedPorts _ v);
|}.
Next Obligation. tree_local_fields. Qed.
Next Obligation. tree_dom_fields. Qed.

#[global] Program Instance spec_tree : Tree Cell (SpecV ptr) (SpecV option) := {|
  tree h v :=
    interfaces ← tree h (sv_Interfaces _ v);
    authentication ← tree h (sv_Authentication _ v);
    configuration ← tree h (sv_Configuration _ v);
    nodeSelector ← tree h (sv_NodeSelector _ v);
    trafficControl ← tree h (sv_TrafficControl _ v);
    Some {| sv_Enabled := sv_Enabled _ v; sv_Interfaces := interfaces;
            sv_Authentication := authentication; sv_Configuration := configuration;
            sv_Image := sv_Image _ v; sv_NodeSelector := nodeSelector;
            sv_TrafficControl := trafficControl |};
  reach h v := reach h (sv_Interfaces _ v) ∪ reach h (sv_Authentication _ v)
    ∪ reach h (sv_Configuration _ v) ∪ reach h (sv_NodeSelector _ v)
    ∪ reach h (sv_TrafficControl _ v);
|}.
Next Obligation. tree_local_fields. Qed.
Next Obligation. tree_dom_fields. Qed.

#[global] Program Instance interface_tree : Tree Cell (InterfaceV ptr) (InterfaceV option) := {|
  tree h v :=
    clients ← tree h (iv_AuthenticatedClients _ v);
    Some {| iv_Name := iv_Name _ v; iv_State := iv_State _ v; iv_AuthenticatedClients := clients |};
  reach h v := reach h (iv_AuthenticatedClients _ v);
|}.
Next Obligation. tree_local_fields. Qed.
Next Obligation. tree_dom_fields. Qed.

#[global] Program Instance status_tree : Tree Cell (StatusV ptr) (StatusV option) := {|
  tree h v := interfaces ← tree h (stv_Interfaces _ v); Some {| stv_Interfaces := interfaces |};
  reach h v := reach h (stv_Interfaces _ v);
|}.
Next Obligation. tree_local_fields. Qed.
Next Obligation. tree_dom_fields. Qed.

#[global] Program Instance fields_tree : Tree Cell (FieldsV1V ptr) (FieldsV1V option) := {|
  tree h v := raw ← tree h (fv_Raw _ v); Some {| fv_Raw := raw |};
  reach h v := reach h (fv_Raw _ v);
|}.
Next Obligation. tree_local_fields. Qed.
Next Obligation. tree_dom_fields. Qed.

#[global] Program Instance managed_tree
  : Tree Cell (ManagedFieldsEntryV ptr) (ManagedFieldsEntryV option) := {|
  tree h v :=
    time ← tree h (mv_Time _ v);
    fields ← tree h (mv_FieldsV1 _ v);
    Some {| mv_Manager := mv_Manager _ v; mv_Operation := mv_Operation _ v;
            mv_APIVersion := mv_APIVersion _ v; mv_Time := time;
            mv_FieldsType := mv_FieldsType _ v; mv_FieldsV1 := fields;
            mv_Subresource := mv_Subresource _ v |};
  reach h v := reach h (mv_Time _ v) ∪ reach h (mv_FieldsV1 _ v);
|}.
Next Obligation. tree_local_fields. Qed.
Next Obligation. tree_dom_fields. Qed.

#[global] Program Instance owner_tree
  : Tree Cell (OwnerReferenceV ptr) (OwnerReferenceV option) := {|
  tree h v :=
    controller ← tree h (ov_Controller _ v);
    block ← tree h (ov_BlockOwnerDeletion _ v);
    Some {| ov_APIVersion := ov_APIVersion _ v; ov_Kind := ov_Kind _ v; ov_Name := ov_Name _ v;
            ov_UID := ov_UID _ v; ov_Controller := controller; ov_BlockOwnerDeletion := block |};
  reach h v := reach h (ov_Controller _ v) ∪ reach h (ov_BlockOwnerDeletion _ v);
|}.
Next Obligation. tree_local_fields. Qed.
Next Obligation. tree_dom_fields. Qed.

#[global] Program Instance meta_tree : Tree Cell (ObjectMetaV ptr) (ObjectMetaV option) := {|
  tree h v :=
    creation ← tree h (omv_CreationTimestamp _ v);
    deletion ← tree h (omv_DeletionTimestamp _ v);
    grace ← tree h (omv_DeletionGracePeriodSeconds _ v);
    labels ← tree h (omv_Labels _ v);
    annotations ← tree h (omv_Annotations _ v);
    owners ← tree h (omv_OwnerReferences _ v);
    finalizers ← tree h (omv_Finalizers _ v);
    managed ← tree h (omv_ManagedFields _ v);
    Some {| omv_Name := omv_Name _ v; omv_GenerateName := omv_GenerateName _ v;
            omv_Namespace := omv_Namespace _ v; omv_SelfLink := omv_SelfLink _ v;
            omv_UID := omv_UID _ v; omv_ResourceVersion := omv_ResourceVersion _ v;
            omv_Generation := omv_Generation _ v; omv_CreationTimestamp := creation;
            omv_DeletionTimestamp := deletion; omv_DeletionGracePeriodSeconds := grace;
            omv_Labels := labels; omv_Annotations := annotations;
            omv_OwnerReferences := owners; omv_Finalizers := finalizers;
            omv_ManagedFields := managed |};
  reach h v := reach h (omv_CreationTimestamp _ v) ∪ reach h (omv_DeletionTimestamp _ v)
    ∪ reach h (omv_DeletionGracePeriodSeconds _ v) ∪ reach h (omv_Labels _ v)
    ∪ reach h (omv_Annotations _ v) ∪ reach h (omv_OwnerReferences _ v)
    ∪ reach h (omv_Finalizers _ v) ∪ reach h (omv_ManagedFields _ v);
|}.
Next Obligation. tree_local_fields. Qed.
Next Obligation. tree_dom_fields. Qed.

#[global] Program Instance listmeta_tree : Tree Cell (ListMetaV ptr) (ListMetaV option) := {|
  tree h v :=
    remaining ← tree h (lmv_RemainingItemCount _ v);
    Some {| lmv_SelfLink := lmv_SelfLink _ v; lmv_ResourceVersion := lmv_ResourceVersion _ v;
            lmv_Continue := lmv_Continue _ v; lmv_RemainingItemCount := remaining |};
  reach h v := reach h (lmv_RemainingItemCount _ v);
|}.
Next Obligation. tree_local_fields. Qed.
Next Obligation. tree_dom_fields. Qed.

#[global] Program Instance authenticator_tree
  : Tree Cell (AuthenticatorV ptr) (AuthenticatorV option) := {|
  tree h v :=
    meta ← tree h (rv_ObjectMeta _ v);
    spec ← tree h (rv_Spec _ v);
    status ← tree h (rv_Status _ v);
    Some {| rv_TypeMeta := rv_TypeMeta _ v; rv_ObjectMeta := meta; rv_Spec := spec;
            rv_Status := status |};
  reach h v := reach h (rv_ObjectMeta _ v) ∪ reach h (rv_Spec _ v) ∪ reach h (rv_Status _ v);
|}.
Next Obligation. tree_local_fields. Qed.
Next Obligation. tree_dom_fields. Qed.

#[global] Program Instance authenticators_tree : Tree Cell (ListV ptr) (ListV option) := {|
  tree h v :=
    meta ← tree h (lsv_ListMeta _ v);
    items ← tree h (lsv_Items _ v);
    Some {| lsv_TypeMeta := lsv_TypeMeta _ v; lsv_ListMeta := meta; lsv_Items := items |};
  reach h v := reach h (lsv_ListMeta _ v) ∪ reach h (lsv_Items _ v);
|}.
Next Obligation. tree_local_fields. Qed.
Next Obligation. tree_dom_fields. Qed.

(** ** Every function makes a deep copy *)
Lemma flat_deep V : deep (Tree0 := flat_tree V) (mret : V → M Heap V).
Proof. apply deep_flat. Qed.

Create HintDb deep discriminated.
#[export] Hint Extern 0 (deep mret) => apply flat_deep : deep.
#[export] Hint Resolve copyPtr_deep copySlice_deep copyMap_deep : deep.

(** A record is copied part by part. *)
Ltac copy_parts Hsub :=
  lazymatch goal with
  | |- wpx _ (_ ≫= _) _ _ =>
      let v := fresh "v" in let h' := fresh "h" in let Hs := fresh "Hs" in
      wp_step; eapply wp_mono;
      [eapply wp_part; [solve [auto with deep]|exact Hsub|eassumption]|];
      cbn beta; intros v h' [Hs ?];
      let Hsub' := fresh "Hsub" in
      assert (Hsub' := transitivity Hsub Hs);
      copy_parts Hsub'
  | |- _ => wp_step
  end.

Lemma disjoint_parts (X Y Z : gset nat) : X ## Z → Y ## Z → X ∪ Y ## Z.
Proof. set_solver. Qed.

Ltac copied_parts := repeat
  match goal with
  | C : copied ?h ?t ?v ?h1, Hs : ?h1 ⊆ ?h2 |- _ => apply (copied_later h t v h1 h2) in C; [|exact Hs]
  end; split;
  [done
  |repeat match goal with C : copied _ _ _ _ |- _ => apply copied_tree in C end;
   repeat (apply bind_Some; eexists; split; [eassumption|]); done
  |repeat match goal with C : copied _ _ _ _ |- _ => apply copied_fresh in C end;
   repeat first [eassumption | apply disjoint_parts]].

Ltac deep_record :=
  let h := fresh "h" in let v := fresh "v" in let Ht := fresh "Ht" in
  let x := fresh "x" in let E := fresh "E" in
  intros h v ? Ht; apply bind_Some in Ht as (x & E & Ht); tree_fields;
  let Hsub := fresh "Hsub" in assert (h ⊆ h) as Hsub by done;
  copy_parts Hsub; copied_parts.

Lemma Local_deep : deep Local_DeepCopyInto.
Proof. unfold Local_DeepCopyInto. deep_record. Qed.

#[export] Hint Resolve Local_deep : deep.

Lemma Auth_deep : deep Auth_DeepCopyInto.
Proof. unfold Auth_DeepCopyInto. deep_record. Qed.

Lemma Ports_deep : deep Ports_DeepCopyInto.
Proof. unfold Ports_DeepCopyInto. deep_record. Qed.

#[export] Hint Resolve Auth_deep Ports_deep : deep.

Lemma TrafficControl_deep : deep TrafficControl_DeepCopyInto.
Proof. unfold TrafficControl_DeepCopyInto. deep_record. Qed.

#[export] Hint Resolve TrafficControl_deep : deep.

Lemma Spec_deep : deep AuthenticatorSpec_DeepCopyInto.
Proof. unfold AuthenticatorSpec_DeepCopyInto. deep_record. Qed.

Lemma Interface_deep : deep Interface_DeepCopyInto.
Proof. unfold Interface_DeepCopyInto. deep_record. Qed.

#[export] Hint Resolve Spec_deep Interface_deep : deep.

Lemma Status_deep : deep AuthenticatorStatus_DeepCopyInto.
Proof. unfold AuthenticatorStatus_DeepCopyInto. deep_record. Qed.

#[export] Hint Resolve Status_deep : deep.

Lemma Time_deep : deep Time_DeepCopyInto.
Proof. apply flat_deep. Qed.

#[export] Hint Resolve Time_deep : deep.

Lemma TimePtr_deep : deep Time_DeepCopy.
Proof. apply copyPtr_deep. auto with deep. Qed.

Lemma FieldsV1_deep : deep FieldsV1_DeepCopyInto.
Proof. unfold FieldsV1_DeepCopyInto. deep_record. Qed.

Lemma OwnerReference_deep : deep OwnerReference_DeepCopyInto.
Proof. unfold OwnerReference_DeepCopyInto. deep_record. Qed.

#[export] Hint Resolve TimePtr_deep FieldsV1_deep OwnerReference_deep : deep.

Lemma ManagedFields_deep : deep ManagedFieldsEntry_DeepCopyInto.
Proof. unfold ManagedFieldsEntry_DeepCopyInto. deep_record. Qed.

#[export] Hint Resolve ManagedFields_deep : deep.

Lemma ObjectMeta_deep : deep ObjectMeta_DeepCopyInto.
Proof. unfold ObjectMeta_DeepCopyInto. deep_record. Qed.

Lemma ListMeta_deep : deep ListMeta_DeepCopyInto.
Proof. unfold ListMeta_DeepCopyInto. deep_record. Qed.

#[export] Hint Resolve ObjectMeta_deep ListMeta_deep : deep.

Lemma Authenticator_deep : deep Authenticator_DeepCopyInto.
Proof. unfold Authenticator_DeepCopyInto. deep_record. Qed.

#[export] Hint Resolve Authenticator_deep : deep.

Lemma List_deep : deep AuthenticatorList_DeepCopyInto.
Proof. unfold AuthenticatorList_DeepCopyInto. deep_record. Qed.

#[export] Hint Resolve List_deep : deep.

(** C38. The copy of an Authenticator or of a list of them, metadata included, never
    fails on an object whose references are valid, stands for the same plain value as its
    original, and shares no memory with it: whatever is later written to the cells
    that one of the two reaches, the other still stands for that value. *)
Theorem DeepCopyObject_separate (h : Heap) (object : ptr (AuthenticatorV ptr)) t
    (objects : ptr (ListV ptr)) ts :
  tree h object = Some t → tree h objects = Some ts →
  separate (Authenticator_DeepCopyObject object) h object t ∧
  separate (AuthenticatorList_DeepCopyObject objects) h objects ts.
Proof.
  intros. split; apply deep_separate; [apply copyPtr_deep; auto with deep|done| |done].
  apply copyPtr_deep. auto with deep.
Qed.

(** An object whose user file and client secret are one cell, and a list of it. *)
Definition sampleAuthenticator : AuthenticatorV ptr :=
  {| rv_TypeMeta := {| Kind := "Authenticator"; APIVersion := "eapol.eapol.openshift.io/v1" |};
     rv_ObjectMeta :=
       {| omv_Name := "sample"; omv_GenerateName := ""; omv_Namespace := "default";
          omv_SelfLink := ""; omv_UID := "1"; omv_ResourceVersion := "1"; omv_Generation := 1;
          omv_CreationTimestamp := zeroTime; omv_DeletionTimestamp := Ref 12;
          omv_DeletionGracePeriodSeconds := Ref 13; omv_Labels := Ref 14; omv_Annotations := Nil;
          omv_OwnerReferences := Ref 15; omv_Finalizers := Nil; omv_ManagedFields := Ref 17 |};
     rv_Spec := {| sv_Enabled := true; sv_Interfaces := Ref 0;
                   sv_Authentication := {| av_Local := Ref 1; av_Radius := Nil |};
                   sv_Configuration := Nil; sv_Image := ""; sv_NodeSelector := Ref 3;
                   sv_TrafficControl := Ref 4 |};
     rv_Status := {| stv_Interfaces := Ref 6 |} |}.

Definition sampleHeap : Heap :=
  list_to_map (imap pair
    [CStrings ["eth0"; "eth1"];
     CLocal {| lv_UserFileSecret := Ref 2; lv_CaCertSecret := Nil; lv_ServerCertSecret := Nil;
               lv_PrivateKeySecret := Nil; lv_PrivateKeyPassphrase := "";
               lv_RadiusClientSecret := Ref 2; lv_AuthPort := 1812 |};
     CSecret {| SecretKeyRef_Name := "users"; SecretKeyRef_Key := "hostapd.eap_user" |};
     CMap {[ "role" := "worker" ]};
     CTrafficControl {| tv_UnprotectedPorts := Ref 5 |};
     CPorts {| pv_Tcp := Nil; pv_Udp := Ref 7 |};
     CInterfaces [Ref 8; Nil];
     CInts [319; 320]%Z;
     CInterface {| iv_Name := "eth0"; iv_State := "ENABLED"; iv_AuthenticatedClients := Nil |};
     CAuthenticator sampleAuthenticator;
     CAuthenticators [sampleAuthenticator];
     CList {| lsv_TypeMeta := {| Kind := "AuthenticatorList"; APIVersion := "" |};
              lsv_ListMeta := {| lmv_SelfLink := ""; lmv_ResourceVersion := "7";
                                 lmv_Continue := ""; lmv_RemainingItemCount := Ref 13 |};
              lsv_Items := Ref 10 |};
     CTime {| instant := 5 |};
     CInt 30;
     CMap {[ "app" := "eapol" ]};
     COwners [{| ov_APIVersion := "v1"; ov_Kind := "Node"; ov_Name := "n"; ov_UID := "2";
                 ov_Controller := Ref 16; ov_BlockOwnerDeletion := Ref 16 |}];
     CBool true;
     CManagedFields [{| mv_Manager := "kubectl"; mv_Operation := "Update"; mv_APIVersion := "v1";
                        mv_Time := Ref 12; mv_FieldsType := "FieldsV1"; mv_FieldsV1 := Ref 18;
                        mv_Subresource := "" |}];
     CFields {| fv_Raw := Ref 19 |};
     CBytes [x7b; x7d]]).

Lemma DeepCopyObject_separate_witness :
  ∃ t ts, separate (Authenticator_DeepCopyObject (Ref 9)) sampleHeap (Ref 9) t ∧
    separate (AuthenticatorList_DeepCopyObject (Ref 11)) sampleHeap (Ref 11) ts.
Proof.
  eexists _, _. apply (DeepCopyObject_separate sampleHeap (Ref 9) _ (Ref 11) _);
    vm_compute; reflexivity.
Defined.
