(* ===== verification/ConfigGen.v ===== *)
(** * The DaemonSet generator: pkg/configgen/configgen.go

    [Daemonset] turns an Authenticator into the DaemonSet that runs hostapd and
    the monitor.  The Kubernetes objects are records with the fields the
    generator fills; a field it leaves at its zero value is not listed.

    [Daemonset] writes to the caller's object: when the Authenticator is
    disabled and its node selector is a non-nil map, the added entry goes into
    that same map.  The function therefore also returns the generator as the
    call leaves it. *)
From S2P Require Import Prelude GoStrings Api.

(** ** Constants *)
Definition AppId := "authenticator.eapol".
Definition AuthNamespace := "authenticator-namespace".
Definition AuthName := "authenticator-name".
Definition AuthenticatorMountPath := "/config/auth".
Definition configFile := "hostapd.conf".
Definition userFile := "hostapd.eap_user".
Definition caFile := "1x-ca.pem".
Definition certFile := "1x-hostapd.example.com.pem".
Definition privateKeyFile := "1x-hostapd.example.com.key".
Definition radiusClientFile := "hostapd.radius_clients".
Definition configMountPath := "/config".
Definition configVolumeName := "config-volume".
Definition socketsMountPath := "/var/run/hostapd".
Definition socketsVolumeName := "sockets-volume".
Definition authenticatorVolumeName := "authenticator-volume".
Definition defaultImage := "quay.io/openshift-kni/eapol-authenticator:latest".
Definition disabledSelector := "no-node".
Definition disabledReason := "Disabled_via_config".
Definition mainCommand := "/bin/hostapd-start.sh".
Definition monitorCommand := "/bin/hostapd-monitor".

Definition defaultFileMode : Z := 420.
Definition terminationGracePeriod : Z := 30.
Definition revisionHistoryLimit : Z := 10.
Definition maxSurge : Z := 0.
Definition maxUnavailable : Z := 1.

(** ** Kubernetes objects *)
Record KeyToPath := { Key : string; Path : string }.

Inductive VolumeProjection :=
| ConfigMapProjection (name : string) (items : list KeyToPath)
| SecretProjection (name : string) (items : list KeyToPath).

Inductive VolumeSource :=
| Projected (sources : list VolumeProjection) (defaultMode : Z)
| EmptyDir
| DownwardAPI (items : list (string * string)).

Record Volume := { Volume_Name : string; Source : VolumeSource }.
Record VolumeMount := { Mount_Name : string; MountPath : string }.

(** [FieldPath] is the downward API reference of [ValueFrom]. *)
Record EnvVar := { Env_Name : string; Value : string; FieldPath : option string }.

Record Container := {
  Container_Name : string;
  Container_Image : string;
  VolumeMounts : list VolumeMount;
  AddCapabilities : list string;
  Command : list string;
  Env : list EnvVar;
  ImagePullPolicy : string;
  TerminationMessagePath : string;
  TerminationMessagePolicy : string;
}.

Record PodSpec := {
  Pod_NodeSelector : option (gmap string string);
  HostNetwork : bool;
  ServiceAccountName : string;
  Containers : list Container;
  Volumes : list Volume;
  RestartPolicy : string;
  TerminationGracePeriodSeconds : Z;
  DNSPolicy : string;
  Pod_SecurityContext : option unit;
  SchedulerName : string;
}.

Record DaemonSetSpec := {
  MatchLabels : gmap string string;
  Template_Labels : gmap string string;
  Template_Spec : PodSpec;
  UpdateStrategy_Type : string;
  RollingUpdate_MaxSurge : Z;
  RollingUpdate_MaxUnavailable : Z;
  RevisionHistoryLimit : Z;
}.

Record DaemonSet := {
  Ds_Name : string;
  Ds_Namespace : string;
  Ds_Labels : gmap string string;
  Ds_Spec : DaemonSetSpec;
}.

(** ** The generator *)
Record ConfigGenerator := {
  a11r : Authenticator;
  serviceAccount : string;
}.

Definition New (a : Authenticator) (sa : string) : ConfigGenerator :=
  {| a11r := a; serviceAccount := sa |}.

(** [var b strings.Builder; for p := range ports { if b.Len() > 0 { ' ' }; Itoa p }] *)
Definition writePorts (ports : list Z) : string :=
  foldl (λ b p, (if bool_decide (b = "") then b else b +:+ " ") +:+ Itoa p) "" ports.

Definition parsePorts (g : ConfigGenerator) : string * string :=
  match TrafficControl_ (Spec (a11r g)) with
  | None => ("", "")
  | Some tc =>
      match UnprotectedPorts tc with
      | None => ("", "")
      | Some p => (writePorts (Tcp p), writePorts (Udp p))
      end
  end.

Definition secretVolume (ref : SecretKeyRef) (file : string) : VolumeProjection :=
  let secretKey :=
    if bool_decide (SecretKeyRef_Key ref = "") then file else SecretKeyRef_Key ref in
  SecretProjection (SecretKeyRef_Name ref) [{| Key := secretKey; Path := file |}].

Definition appendUserFileVolume (g : ConfigGenerator) (volumes : list VolumeProjection) :=
  match Local (Authentication (Spec (a11r g))) with
  | Some l => match UserFileSecret l with
              | Some r => volumes ++ [secretVolume r userFile]
              | None => volumes
              end
  | None => volumes
  end.

Definition appendCertVolume (g : ConfigGenerator) (volumes : list VolumeProjection) :=
  let loc := Local (Authentication (Spec (a11r g))) in
  let volumes :=
    match loc with
    | Some l => match CaCertSecret l with
                | Some r => volumes ++ [secretVolume r caFile]
                | None => volumes
                end
    | None => volumes
    end in
  let volumes :=
    match loc with
    | Some l => match ServerCertSecret l with
                | Some r => volumes ++ [secretVolume r certFile]
                | None => volumes
                end
    | None => volumes
    end in
  match loc with
  | Some l => match PrivateKeySecret l with
              | Some r => volumes ++ [secretVolume r privateKeyFile]
              | None => volumes
              end
  | None => volumes
  end.

Definition appendRadiusClientVolume (g : ConfigGenerator) (volumes : list VolumeProjection) :=
  match Local (Authentication (Spec (a11r g))) with
  | Some l => match RadiusClientSecret l with
              | Some r => volumes ++ [secretVolume r radiusClientFile]
              | None => volumes
              end
  | None => volumes
  end.

Definition projectedConfigVolumes (g : ConfigGenerator) : list VolumeProjection :=
  appendRadiusClientVolume g
    (appendCertVolume g
       (appendUserFileVolume g
          [ConfigMapProjection (Name (a11r g)) [{| Key := configFile; Path := configFile |}]])).

(** The node selector of the pods, and the caller's own afterwards. *)
Definition selectNodes (sp : AuthenticatorSpec)
  : option (gmap string string) * option (gmap string string) :=
  if Enabled sp then (NodeSelector sp, NodeSelector sp)
  else match NodeSelector sp with
       | None => (Some {[disabledSelector := disabledReason]}, None)
       | Some m => let m' := <[disabledSelector := disabledReason]> m in (Some m', Some m')
       end.

Definition podLabels (g : ConfigGenerator) : gmap string string :=
  <[AuthName := Name (a11r g)]>
    (<[AuthNamespace := Namespace (a11r g)]> {["app" := AppId]}).

Definition container (image name command : string) (env : list EnvVar) : Container :=
  {| Container_Name := name;
     Container_Image := image;
     VolumeMounts :=
       [{| Mount_Name := configVolumeName; MountPath := configMountPath |};
        {| Mount_Name := socketsVolumeName; MountPath := socketsMountPath |};
        {| Mount_Name := authenticatorVolumeName; MountPath := AuthenticatorMountPath |}];
     AddCapabilities := ["NET_ADMIN"; "NET_RAW"];
     Command := [command];
     Env := env;
     ImagePullPolicy := "IfNotPresent";
     TerminationMessagePath := "/dev/termination-log";
     TerminationMessagePolicy := "File" |}.

Definition envValue (name value : string) : EnvVar :=
  {| Env_Name := name; Value := value; FieldPath := None |}.

Definition podContainers (g : ConfigGenerator) : list Container :=
  let sp := Spec (a11r g) in
  let image := if bool_decide (Image sp = "") then defaultImage else Image sp in
  let ifaces := Join (Interfaces sp) "," in
  let '(unprotectedTcpList, unprotectedUdpList) := parsePorts g in
  [container image "hostapd" mainCommand
     [envValue "IFACES" ifaces;
      envValue "UNPROTECTED_TCP_PORTS" unprotectedTcpList;
      envValue "UNPROTECTED_UDP_PORTS" unprotectedUdpList;
      envValue "CONFIG" (configMountPath +:+ "/" +:+ configFile)];
   container image "hostapd-monitor" monitorCommand
     [envValue "IFACES" ifaces;
      envValue "UNPROTECTED_TCP_PORTS" unprotectedTcpList;
      envValue "UNPROTECTED_UDP_PORTS" unprotectedUdpList;
      {| Env_Name := "AUTHENTICATOR_HOST"; Value := "";
         FieldPath := Some "status.hostIP" |}]].

Definition podVolumes (g : ConfigGenerator) : list Volume :=
  [{| Volume_Name := configVolumeName;
      Source := Projected (projectedConfigVolumes g) defaultFileMode |};
   {| Volume_Name := socketsVolumeName; Source := EmptyDir |};
   {| Volume_Name := authenticatorVolumeName;
      Source := DownwardAPI [("labels", "metadata.labels")] |}].

Definition podSpec (g : ConfigGenerator) (nodeSelector : option (gmap string string))
  : PodSpec :=
  {| Pod_NodeSelector := nodeSelector;
     HostNetwork := true;
     ServiceAccountName := serviceAccount g;
     Containers := podContainers g;
     Volumes := podVolumes g;
     RestartPolicy := "Always";
     TerminationGracePeriodSeconds := terminationGracePeriod;
     DNSPolicy := "ClusterFirst";
     Pod_SecurityContext := Some tt;
     SchedulerName := "default-scheduler" |}.

Definition daemonSetSpec (g : ConfigGenerator) (nodeSelector : option (gmap string string))
  : DaemonSetSpec :=
  {| MatchLabels := podLabels g;
     Template_Labels := podLabels g;
     Template_Spec := podSpec g nodeSelector;
     UpdateStrategy_Type := "RollingUpdate";
     RollingUpdate_MaxSurge := maxSurge;
     RollingUpdate_MaxUnavailable := maxUnavailable;
     RevisionHistoryLimit := revisionHistoryLimit |}.

Definition Daemonset (g : ConfigGenerator) : DaemonSet * ConfigGenerator :=
  let sp := Spec (a11r g) in
  let '(nodeSelector, callers) := selectNodes sp in
  ({| Ds_Name := Name (a11r g);
      Ds_Namespace := Namespace (a11r g);
      Ds_Labels := podLabels g;
      Ds_Spec := daemonSetSpec g nodeSelector |},
   New (set_Spec (set_NodeSelector callers sp) (a11r g)) (serviceAccount g)).

(** ** Reference definitions for the theorems *)

(** The secrets an Authenticator with local authentication may name, in the
    order they are projected, with the file each one becomes under [/config]. *)
Definition secretFiles : list (string * (Local_ → option SecretKeyRef)) :=
  [(userFile, UserFileSecret); (caFile, CaCertSecret); (certFile, ServerCertSecret);
   (privateKeyFile, PrivateKeySecret); (radiusClientFile, RadiusClientSecret)].

Definition secretVolumes (l : Local_) : list VolumeProjection :=
  omap (λ '(file, ref), (λ r, secretVolume r file) <$> ref l) secretFiles.

Definition projectedPaths (v : VolumeProjection) : list string :=
  match v with
  | ConfigMapProjection _ items => map Path items
  | SecretProjection _ items => map Path items
  end.

Definition ds_pod (ds : DaemonSet) : PodSpec := Template_Spec (Ds_Spec ds).

(** What the parts of the generated object require of each other: the
    selector selects the pods, every mount names a declared volume, containers
    and volumes have distinct names, no two projected files share a path. *)
Record ds_wf (ds : DaemonSet) : Prop := {
  wf_selector : MatchLabels (Ds_Spec ds) ⊆ Template_Labels (Ds_Spec ds);
  wf_mounts : ∀ c m, c ∈ Containers (ds_pod ds) → m ∈ VolumeMounts c →
    Mount_Name m ∈ map Volume_Name (Volumes (ds_pod ds));
  wf_containers : NoDup (map Container_Name (Containers (ds_pod ds)));
  wf_volumes : NoDup (map Volume_Name (Volumes (ds_pod ds)));
  wf_paths : ∀ v sources mode, v ∈ Volumes (ds_pod ds) → Source v = Projected sources mode →
    NoDup (sources ≫= projectedPaths);
}.

(** ** Helper lemmas *)
Lemma Itoa_not_empty n : Itoa n ≠ "".
Proof.
  unfold Itoa. destruct n as [|p|p]; [done| |done].
  change (pretty (Z.pos p)) with (pretty (N.pos p)). apply pretty_N_not_empty.
Qed.

Lemma app_not_empty_r (s t : string) : t ≠ "" → s +:+ t ≠ "".
Proof. destruct s; [done|]. by rewrite app_cons. Qed.

Lemma writePorts_from ports b :
  b ≠ "" →
  foldl (λ b p, (if bool_decide (b = "") then b else b +:+ " ") +:+ Itoa p) b ports =
  Join (b :: map Itoa ports) " ".
Proof.
  revert b. induction ports as [|p ports IH]; intros b Hb; [done|]. cbn [foldl map].
  rewrite bool_decide_false by done.
  rewrite IH by apply app_not_empty_r, Itoa_not_empty.
  change (Join (b :: Itoa p :: map Itoa ports) " ")
    with (b +:+ " " +:+ Join (Itoa p :: map Itoa ports) " ").
  destruct ports as [|q ports]; cbn [Join map]; by rewrite ?app_assoc_str.
Qed.

(** The builder loop writes the ports separated by single blanks. *)
Lemma writePorts_Join ports : writePorts ports = Join (map Itoa ports) " ".
Proof.
  destruct ports as [|p ports]; [done|]. unfold writePorts. cbn [foldl].
  change (if bool_decide ("" = "") then "" else "" +:+ " ") with "".
  change ("" +:+ Itoa p) with (Itoa p).
  by rewrite writePorts_from by apply Itoa_not_empty.
Qed.

Lemma projectedConfigVolumes_eq g :
  projectedConfigVolumes g =
  ConfigMapProjection (Name (a11r g)) [{| Key := configFile; Path := configFile |}]
    :: match Local (Authentication (Spec (a11r g))) with
       | Some l => secretVolumes l
       | None => []
       end.
Proof.
  unfold projectedConfigVolumes, appendRadiusClientVolume, appendCertVolume, appendUserFileVolume.
  destruct (Local (Authentication (Spec (a11r g)))) as [l|]; [|done].
  unfold secretVolumes, secretFiles. cbn.
  destruct (UserFileSecret l), (CaCertSecret l), (ServerCertSecret l), (PrivateKeySecret l),
    (RadiusClientSecret l); done.
Qed.

Lemma secretVolumes_paths l :
  sublist (secretVolumes l ≫= projectedPaths) (map fst secretFiles).
Proof.
  unfold secretVolumes. generalize secretFiles as fs.
  induction fs as [|[file ref] fs IH]; [done|]. cbn.
  destruct (ref l) as [r|]; cbn; [by constructor|by constructor].
Qed.

Lemma projectedPaths_NoDup g : NoDup (projectedConfigVolumes g ≫= projectedPaths).
Proof.
  rewrite projectedConfigVolumes_eq.
  apply (sublist_NoDup _ (configFile :: map fst secretFiles)).
  - by apply (bool_decide_unpack _); vm_compute.
  - cbn. apply sublist_skip. destruct (Local _) as [l|]; [apply secretVolumes_paths|].
    apply sublist_nil_l.
Qed.

Lemma podContainers_elem g c :
  c ∈ podContainers g → ∃ image name command env, c = container image name command env.
Proof.
  unfold podContainers. destruct (parsePorts g) as [tcp udp].
  rewrite !elem_of_cons, elem_of_nil. intros [->|[->|[]]]; eauto.
Qed.

Lemma container_mounts g image name command env m :
  m ∈ VolumeMounts (container image name command env) →
  Mount_Name m ∈ map Volume_Name (podVolumes g).
Proof.
  cbn. rewrite !elem_of_cons, !elem_of_nil. intros [->|[->|[->|[]]]]; auto.
Qed.

(** ** Theorems *)

(** C31. The generated DaemonSet is consistent, for every Authenticator: the
    selector matches the pods, every mount names a volume of the pod, container and
    volume names are distinct, and no two projected files have the same path. *)
Theorem Daemonset_well_formed g : ds_wf (fst (Daemonset g)).
Proof.
  unfold Daemonset. destruct (selectNodes (Spec (a11r g))) as [ns callers].
  split; unfold ds_pod; cbn [Ds_Spec Template_Spec daemonSetSpec podSpec Containers Volumes fst
    MatchLabels Template_Labels].
  - done.
  - intros c m Hc. destruct (podContainers_elem g c Hc) as (image & name & cmd & env & ->).
    apply container_mounts.
  - unfold podContainers. destruct (parsePorts g) as [tcp udp].
    by apply (bool_decide_unpack _); vm_compute.
  - by apply (bool_decide_unpack _); vm_compute.
  - intros v sources mode Hv Hs. unfold podVolumes in Hv.
    rewrite !elem_of_cons, elem_of_nil in Hv.
    destruct Hv as [->|[->|[->|[]]]]; cbn in Hs; simplify_eq.
    apply projectedPaths_NoDup.
Qed.

(** Node selection: an enabled Authenticator's pods run on the nodes its
    selector names; a disabled one's selector gets the entry that no node has,
    besides its own, and a caller's map is changed accordingly.  Generating again
    from what the call left gives the same object. *)
Lemma Daemonset_node_selection g :
  let '(ds, g') := Daemonset g in
  let sp := Spec (a11r g) in
  (Enabled sp = true → Pod_NodeSelector (ds_pod ds) = NodeSelector sp ∧ g' = g) ∧
  (Enabled sp = false →
     ∃ m, Pod_NodeSelector (ds_pod ds) = Some m ∧
       m !! disabledSelector = Some disabledReason ∧
       (∀ k, k ≠ disabledSelector → m !! k = NodeSelector sp ≫= (.!! k)) ∧
       NodeSelector (Spec (a11r g')) = (λ _, m) <$> NodeSelector sp) ∧
  fst (Daemonset g') = ds.
Proof.
  destruct g as [[nm ns uid rv [en ifs au cf im sel tc] st] sa].
  unfold Daemonset, selectNodes. destruct en; cbn; [done|].
  destruct sel as [m|]; cbn; (split; [done|]).
  - split; [|by rewrite insert_insert_eq]. intros _. eexists; split; [done|].
    split; [apply lookup_insert_eq|]. split; [|done]. intros k Hk.
    by apply lookup_insert_ne.
  - split; [|done]. intros _. eexists; split; [done|].
    split; [apply lookup_insert_eq|]. split; [|done]. intros k Hk.
    by rewrite lookup_insert_ne, lookup_empty by done.
Qed.
