(* ===== verification/TestUtils.v ===== *)
(** * The test utilities: internal/testutils/authenticator_utils.go

    The authenticator that the unit tests start from, the changes that they make
    to it and the matchers that they apply to the generated DaemonSet.  The lemmas
    say of every Authenticator what pkg/configgen/configgen_test.go and
    controllers/authenticator_controller_test.go try on this one. *)
From S2P Require Import Prelude GoStrings Api ConfigGen.

Definition NewA11r : Authenticator :=
  {| Name := "authenticator"; Namespace := "default"; UID := ""; ResourceVersion := "";
     Spec := {| Enabled := true; Interfaces := ["eth0"];
                Authentication :=
                  {| Local := None;
                     Radius_ := Some {| AuthServer := ""; Radius_AuthPort := 0; AuthSecret := "" |} |};
                Configuration := None; Image := ""; NodeSelector := None;
                TrafficControl_ := None |};
     Status := {| Status_Interfaces := [] |} |}.

(** ** Matchers *)

(** [ContainElement]: some element matches. *)
Definition ContainElement {A} (matches : A → bool) (l : list A) : bool := existsb matches l.

Definition ContainLocaluserVolumeMount (mounts : list VolumeMount) : bool :=
  ContainElement (λ m, bool_decide (Mount_Name m = "local-users") &&
                       bool_decide (MountPath m = "/etc/local-users")) mounts.

Definition ContainLocaluserProjection (secretName : string) (sources : list VolumeProjection)
  : bool :=
  ContainElement (λ v, match v with
                       | SecretProjection name _ => bool_decide (name = secretName)
                       | ConfigMapProjection _ _ => false
                       end) sources.

(** ** Changes *)
Definition set_Authentication (au : Auth) (a : Authenticator) : Authenticator :=
  let sp := Spec a in
  set_Spec {| Enabled := Enabled sp; Interfaces := Interfaces sp; Authentication := au;
              Configuration := Configuration sp; Image := Image sp;
              NodeSelector := NodeSelector sp; TrafficControl_ := TrafficControl_ sp |} a.

Definition SetupUserFileAuth (secretName key : string) (a : Authenticator) : Authenticator :=
  set_Authentication
    {| Local := Some {| UserFileSecret := Some {| SecretKeyRef_Name := secretName;
                                                  SecretKeyRef_Key := key |};
                        CaCertSecret := None; ServerCertSecret := None;
                        PrivateKeySecret := None; PrivateKeyPassphrase := "";
                        RadiusClientSecret := None; Local_AuthPort := 0 |};
       Radius_ := None |} a.

Definition SetupRadiusAuth (a : Authenticator) : Authenticator :=
  set_Authentication
    {| Local := None;
       Radius_ := Some {| AuthServer := ""; Radius_AuthPort := 0; AuthSecret := "" |} |} a.

(** ** What the tests expect *)

(** The sources of the first volume, which the tests look at. *)
Definition firstSources (ds : DaemonSet) : option (list VolumeProjection) :=
  match Source <$> head (Volumes (ds_pod ds)) with
  | Some (Projected sources _) => Some sources
  | _ => None
  end.

Lemma firstSources_eq g :
  firstSources (fst (Daemonset g)) = Some (projectedConfigVolumes g).
Proof. unfold Daemonset. by destruct (selectNodes (Spec (a11r g))). Qed.

(** With a user file that secret is projected and no other, in a pod of any
    Authenticator; with RADIUS there is none. *)
Lemma user_file_projected a sa secretName key n :
  ContainLocaluserProjection n <$>
    firstSources (fst (Daemonset (New (SetupUserFileAuth secretName key a) sa))) =
  Some (bool_decide (secretName = n)).
Proof. rewrite firstSources_eq. cbn. by rewrite orb_false_r. Qed.

Lemma radius_projects_nothing a sa n :
  ContainLocaluserProjection n <$>
    firstSources (fst (Daemonset (New (SetupRadiusAuth a) sa))) = Some false.
Proof. by rewrite firstSources_eq. Qed.

(** The matcher for the volume mount holds of no DaemonSet that is ever generated,
    so that the tests which expect it not to match cannot fail. *)
Lemma no_local_users_mount g c :
  c ∈ Containers (ds_pod (fst (Daemonset g))) → ContainLocaluserVolumeMount (VolumeMounts c) = false.
Proof.
  unfold Daemonset. destruct (selectNodes (Spec (a11r g))) as [ns callers].
  intros (image & name & command & env & ->)%podContainers_elem. done.
Qed.

(** The image: a default unless one is given. *)
Lemma image_override g c :
  c ∈ Containers (ds_pod (fst (Daemonset g))) →
  Container_Image c ≠ "" ∧ (Image (Spec (a11r g)) ≠ "" → Container_Image c = Image (Spec (a11r g))).
Proof.
  unfold Daemonset. destruct (selectNodes (Spec (a11r g))) as [ns callers].
  cbn [fst ds_pod Ds_Spec daemonSetSpec Template_Spec podSpec Containers]. unfold podContainers.
  destruct (parsePorts g) as [tcp udp].
  destruct (bool_decide_reflect (Image (Spec (a11r g)) = "")) as [Hi|Hi];
    rewrite !elem_of_cons, elem_of_nil; intros [->|[->|[]]]; cbn; rewrite ?Hi; done.
Qed.
