(* ===== verification/HostapdConf.v ===== *)
(** * The configuration template: pkg/configgen/data/hostapd.conf.tmpl

    [ConfigMap] executes the template with html/template.  The template is
    written here as the engine has it after parsing: the texts between the
    actions, with the white space that [{{-] and [-}}] remove gone, and the
    actions between them.  No text of the template contains a [<], so every
    action stands in plain HTML text, where the engine escapes what it prints. *)
From S2P Require Import Prelude GoStrings Api ConfigGen.
From Stdlib Require Import Ascii.

(** ** html/template: what an action prints in HTML text *)
Definition escapeChar (c : ascii) : string :=
  match N_of_ascii c with
  | 0%N => bytes [239; 191; 189]%N
  | 34%N => "&#34;"
  | 38%N => "&amp;"
  | 39%N => "&#39;"
  | 43%N => "&#43;"
  | 60%N => "&lt;"
  | 62%N => "&gt;"
  | _ => String c ""
  end.

Fixpoint htmlescape (s : string) : string :=
  match s with
  | "" => ""
  | String c s' => escapeChar c +:+ htmlescape s'
  end.

(** The lines of a text. *)
Definition lines (l : list string) : string := Join l nl.

(** ** The texts *)
Definition headText : string := lines
  ["##### hostapd configuration file ##############################################";
   "# Empty lines and lines starting with # are ignored";
   "";
   "# Example configuration file for wired authenticator. See hostapd.conf for";
   "# more details.";
   "";
   "interface="].

Definition driverText : string := lines
  ["";
   "driver=wired";
   "logger_stdout=-1";
   "logger_stdout_level=1";
   "ctrl_interface=/var/run/hostapd";
   "";
   "ieee8021x=1";
   "eap_reauth_period="].

Definition paeText : string := lines
  ["";
   "";
   "use_pae_group_addr=1";
   "";
   ""].

Definition eapServerText : string := lines
  ["##### Integrated EAP server ###################################################";
   "";
   "# Use integrated EAP server instead of external RADIUS authentication";
   "# server. This is also needed if hostapd is configured to act as a RADIUS";
   "# authentication server.";
   "eap_server=1";
   "";
   ""].

Definition userFileText : string := lines
  ["# Path for EAP server user database";
   "# If SQLite support is included, this can be set to " +:+ dq +:+ "sqlite:/path/to/sqlite.db" +:+ dq;
   "# to use SQLite database instead of a text file.";
   "eap_user_file=/config/hostapd.eap_user"].

Definition caCertText : string := lines
  ["# CA certificate (PEM or DER file) for EAP-TLS/PEAP/TTLS";
   "ca_cert=/config/1x-ca.pem"].

Definition serverCertText : string := lines
  ["# Server certificate (PEM or DER file) for EAP-TLS/PEAP/TTLS";
   "server_cert=/config/1x-hostapd.example.com.pem"].

Definition privateKeyText : string := lines
  ["# Private key matching with the server certificate for EAP-TLS/PEAP/TTLS";
   "# This may point to the same file as server_cert if both certificate and key";
   "# are included in a single file. PKCS#12 (PFX) file (.p12/.pfx) can also be";
   "# used by commenting out server_cert and specifying the PFX file as the";
   "# private_key.";
   "private_key=/config/1x-hostapd.example.com.key";
   "";
   "# Passphrase for private key";
   "private_key_passwd="].

Definition radiusClientText : string := lines
  ["# Local Radius server configuration";
   "radius_server_clients=/config/hostapd.radius_clients";
   "radius_server_auth_port="].

Definition localEndText : string := lines
  ["";
   "";
   "# An alternative server certificate and private key can be configured with the";
   "# following parameters (with values just like the parameters above without the";
   "# '2' suffix). The ca_cert file (in PEM encoding) is used to add the trust roots";
   "# for both server certificates and/or client certificates).";
   "#";
   "# The main use case for this alternative server certificate configuration is to";
   "# enable both RSA and ECC public keys. The server will pick which one to use";
   "# based on the client preferences for the cipher suite (in the TLS ClientHello";
   "# message). It should be noted that number of deployed EAP peer implementations";
   "# do not filter out the cipher suite list based on their local configuration and";
   "# as such, configuration of alternative types of certificates on the server may";
   "# result in interoperability issues.";
   "#server_cert2=/etc/hostapd.server-ecc.pem";
   "#private_key2=/etc/hostapd.server-ecc.prv";
   "#private_key_passwd2=secret passphrase";
   "";
   "# Server identity";
   "# EAP methods that provide mechanism for authenticated server identity delivery";
   "# use this value. If not set, " +:+ dq +:+ "hostapd" +:+ dq +:+ " is used as a default.";
   "#server_id=server.example.com";
   ""].

Definition radiusText : string := lines
  ["";
   "##### RADIUS configuration ####################################################";
   "# for IEEE 802.1X with external Authentication Server, IEEE 802.11";
   "# authentication with external ACL for MAC addresses, and accounting";
   "";
   "# The own IP address of the access point (used as NAS-IP-Address)";
   "own_ip_addr=127.0.0.1";
   "";
   "# Optional NAS-Identifier string for RADIUS messages. When used, this should be";
   "# a unique to the NAS within the scope of the RADIUS server. For example, a";
   "# fully qualified domain name can be used here.";
   "nas_identifier=ap.example.com";
   "";
   "# RADIUS authentication server";
   "auth_server_addr="].

Definition radiusPortText : string := lines
  ["";
   "auth_server_port="].

Definition radiusEndText : string := lines
  ["";
   "auth_server_shared_secret=$AUTHSECRET";
   "";
   "# RADIUS accounting server";
   "#acct_server_addr=127.0.0.1";
   "#acct_server_port=1813";
   "#acct_server_shared_secret=radius";
   ""].

(** ** The actions *)

(** [{{ range $index, $element := . }}{{if $index}},{{end}}{{$element}}{{end}}] *)
Fixpoint rangeInterfaces (index : nat) (l : list string) : string :=
  match l with
  | [] => ""
  | element :: l' =>
      (if bool_decide (index = 0)%nat then "" else ",") +:+ htmlescape element +:+
      rangeInterfaces (S index) l'
  end.

(** [{{ if . }}] on a pointer. *)
Definition when {A} (o : option A) (s : string) : string :=
  match o with
  | Some _ => s
  | None => ""
  end.

Definition localConf (l : Local_) : string :=
  eapServerText +:+
  when (UserFileSecret l) userFileText +:+
  lines ["";"";""] +:+
  when (CaCertSecret l) caCertText +:+
  lines ["";"";""] +:+
  when (ServerCertSecret l) serverCertText +:+
  lines ["";"";""] +:+
  when (PrivateKeySecret l) (privateKeyText +:+ htmlescape (PrivateKeyPassphrase l)) +:+
  lines ["";"";""] +:+
  when (RadiusClientSecret l) (radiusClientText +:+ htmlescape (Itoa (Local_AuthPort l))) +:+
  localEndText.

Definition radiusConf (r : Radius) : string :=
  radiusText +:+ htmlescape (AuthServer r) +:+
  radiusPortText +:+ htmlescape (Itoa (Radius_AuthPort r)) +:+
  radiusEndText.

Definition hostapdConf (sp : AuthenticatorSpec) : string :=
  headText +:+ rangeInterfaces 0 (Interfaces sp) +:+
  driverText +:+
  match Configuration sp with
  | Some c => htmlescape (Itoa (EapReauthPeriod c))
  | None => "3600"
  end +:+
  paeText +:+
  match Local (Authentication sp) with
  | Some l => localConf l
  | None => ""
  end +:+
  lines ["";"";""] +:+
  match Radius_ (Authentication sp) with
  | Some r => radiusConf r
  | None => ""
  end +:+
  nl.

(** ** The generated config map

    Parsing the embedded template and executing it into a buffer do not fail:
    the template is fixed and uses fields that exist. *)
Record ConfigMap_ := {
  Cm_Name : string;
  Cm_Namespace : string;
  Cm_Data : gmap string string;
}.

Definition ConfigMap (g : ConfigGenerator) : result ConfigMap_ :=
  Ok {| Cm_Name := Name (a11r g); Cm_Namespace := Namespace (a11r g);
        Cm_Data := {[configFile := hostapdConf (Spec (a11r g))]} |}.

(** ** The file as hostapd reads it *)

(** Lines that are neither empty nor comments. *)
Definition active (l : string) : bool := negb (bool_decide (l = "")) && negb (HasPrefix l "#").

Definition settings (s : string) : list string := List.filter active (Split s newline).

Definition expectedLocal (l : Local_) : list string :=
  ["eap_server=1"] ++
  (if UserFileSecret l then ["eap_user_file=/config/hostapd.eap_user"] else []) ++
  (if CaCertSecret l then ["ca_cert=/config/1x-ca.pem"] else []) ++
  (if ServerCertSecret l then ["server_cert=/config/1x-hostapd.example.com.pem"] else []) ++
  (if PrivateKeySecret l then
     ["private_key=/config/1x-hostapd.example.com.key";
      "private_key_passwd=" +:+ htmlescape (PrivateKeyPassphrase l)] else []) ++
  (if RadiusClientSecret l then
     ["radius_server_clients=/config/hostapd.radius_clients";
      "radius_server_auth_port=" +:+ Itoa (Local_AuthPort l)] else []).

Definition expectedRadius (r : Radius) : list string :=
  ["own_ip_addr=127.0.0.1"; "nas_identifier=ap.example.com";
   "auth_server_addr=" +:+ htmlescape (AuthServer r);
   "auth_server_port=" +:+ Itoa (Radius_AuthPort r);
   "auth_server_shared_secret=$AUTHSECRET"].

Definition expectedSettings (sp : AuthenticatorSpec) : list string :=
  ["interface=" +:+ Join (map htmlescape (Interfaces sp)) ",";
   "driver=wired"; "logger_stdout=-1"; "logger_stdout_level=1";
   "ctrl_interface=/var/run/hostapd"; "ieee8021x=1";
   "eap_reauth_period=" +:+ Itoa (default 3600%Z (EapReauthPeriod <$> Configuration sp));
   "use_pae_group_addr=1"] ++
  match Local (Authentication sp) with Some l => expectedLocal l | None => [] end ++
  match Radius_ (Authentication sp) with Some r => expectedRadius r | None => [] end.

(** The values printed into the file stay on one line. *)
Definition conf_ok (sp : AuthenticatorSpec) : Prop :=
  Forall (λ i, lacks newline i = true) (Interfaces sp) ∧
  (∀ l, Local (Authentication sp) = Some l → lacks newline (PrivateKeyPassphrase l) = true) ∧
  (∀ r, Radius_ (Authentication sp) = Some r → lacks newline (AuthServer r) = true).

(** *** What a specification calls for

    A setting is fixed, a number or a text that the specification gives, or the
    shared secret of the RADIUS server: the specification names the Secret that
    holds it. *)
Inductive value :=
| Fixed (text : string)
| Number (n : Z)
| Given (text : string)
| SharedSecret (secret : string).

Definition localSettings (l : Local_) : list (string * value) :=
  [("eap_server", Fixed "1")] ++
  (if UserFileSecret l then [("eap_user_file", Fixed "/config/hostapd.eap_user")] else []) ++
  (if CaCertSecret l then [("ca_cert", Fixed "/config/1x-ca.pem")] else []) ++
  (if ServerCertSecret l then
     [("server_cert", Fixed "/config/1x-hostapd.example.com.pem")] else []) ++
  (if PrivateKeySecret l then
     [("private_key", Fixed "/config/1x-hostapd.example.com.key");
      ("private_key_passwd", Given (PrivateKeyPassphrase l))] else []) ++
  (if RadiusClientSecret l then
     [("radius_server_clients", Fixed "/config/hostapd.radius_clients");
      ("radius_server_auth_port", Number (Local_AuthPort l))] else []).

Definition radiusSettings (r : Radius) : list (string * value) :=
  [("own_ip_addr", Fixed "127.0.0.1"); ("nas_identifier", Fixed "ap.example.com");
   ("auth_server_addr", Given (AuthServer r)); ("auth_server_port", Number (Radius_AuthPort r));
   ("auth_server_shared_secret", SharedSecret (AuthSecret r))].

Definition called_for (sp : AuthenticatorSpec) : list (string * value) :=
  [("interface", Given (Join (Interfaces sp) ","));
   ("driver", Fixed "wired"); ("logger_stdout", Fixed "-1"); ("logger_stdout_level", Fixed "1");
   ("ctrl_interface", Fixed "/var/run/hostapd"); ("ieee8021x", Fixed "1");
   ("eap_reauth_period",
    Number (match Configuration sp with Some c => EapReauthPeriod c | None => 3600%Z end));
   ("use_pae_group_addr", Fixed "1")] ++
  match Local (Authentication sp) with Some l => localSettings l | None => [] end ++
  match Radius_ (Authentication sp) with Some r => radiusSettings r | None => [] end.

(** The value that is meant, where [secrets] are the shared secrets that the
    Secrets hold. *)
Definition meant (secrets : string → string) (v : value) : string :=
  match v with
  | Fixed s | Given s => s
  | Number n => Itoa n
  | SharedSecret name => secrets name
  end.

(** What HTML makes of a character that it reserves, by its code. *)
Definition entities : list (N * string) :=
  [(0%N, bytes [239; 191; 189]%N); (34%N, "&#34;"); (38%N, "&amp;"); (39%N, "&#39;");
   (43%N, "&#43;"); (60%N, "&lt;"); (62%N, "&gt;")].

Definition as_html (s : string) : string :=
  foldr (λ c t,
    match List.find (λ e, N.eqb (fst e) (N_of_ascii c)) entities with
    | Some (_, e) => e
    | None => String c ""
    end +:+ t) "" (String.list_ascii_of_string s).

(** The value that is written. *)
Definition written (v : value) : string :=
  match v with
  | Fixed s => s
  | Number n => Itoa n
  | Given s => as_html s
  | SharedSecret _ => "$AUTHSECRET"
  end.

(** A text with no quotation mark of either kind, ampersand, plus sign, angle
    bracket or NUL. *)
Definition unreserved (s : string) : Prop :=
  Forall (λ c, N_of_ascii c ∉ [0; 34; 38; 39; 43; 60; 62]%N) (String.list_ascii_of_string s).

(** A character that needs no escape. *)
Definition plain_char (c : ascii) : bool := bool_decide (escapeChar c = String c "").

(** ** Helper lemmas: escaping *)
Lemma htmlescape_plain s : str_forallb plain_char s = true → htmlescape s = s.
Proof.
  induction s as [|c s IH]; [done|]. cbn [str_forallb htmlescape].
  intros [->%bool_decide_eq_true Hs]%andb_prop. by rewrite IH.
Qed.

Lemma escapeChar_lacks_newline c : c ≠ newline → lacks newline (escapeChar c) = true.
Proof.
  intros Hc. destruct (decide (escapeChar c = String c "")) as [->|Hne].
  - unfold lacks. cbn [str_forallb]. by rewrite (proj2 (Ascii.eqb_neq c newline)).
  - revert Hne. destruct c as [[] [] [] [] [] [] [] []]; done.
Qed.

Lemma htmlescape_lacks_newline s : lacks newline s = true → lacks newline (htmlescape s) = true.
Proof.
  induction s as [|c s IH]; [done|]. unfold lacks in *. cbn [str_forallb htmlescape].
  intros [Hc%negb_true_iff%Ascii.eqb_neq Hs]%andb_prop.
  rewrite str_forallb_app, IH by done. pose proof (escapeChar_lacks_newline c Hc) as Hl.
  unfold lacks in Hl. by rewrite Hl.
Qed.

Lemma Itoa_plain n : htmlescape (Itoa n) = Itoa n.
Proof.
  apply htmlescape_plain. eapply str_forallb_impl; [|apply Itoa_number_chars].
  intros [[] [] [] [] [] [] [] []]; done.
Qed.

Lemma rangeInterfaces_Join l : rangeInterfaces 0 l = Join (map htmlescape l) ",".
Proof.
  assert (∀ n l, rangeInterfaces (S n) l = match l with
    | [] => ""
    | _ => "," +:+ Join (map htmlescape l) ","
    end) as Hs.
  { intros n l'. revert n. induction l' as [|i l' IH]; intros n; [done|].
    cbn [rangeInterfaces]. rewrite IH, bool_decide_false by done.
    destruct l'; [by rewrite app_empty_r|done]. }
  destruct l as [|i l]; [done|]. cbn [rangeInterfaces]. rewrite Hs.
  destruct l; [by rewrite app_empty_r|done].
Qed.

(** ** Helper lemmas: lines *)

(** The last line of one text continues with the first of the next. *)
Fixpoint glue (l1 l2 : list string) : list string :=
  match l1, l2 with
  | [], _ => l2
  | [x], y :: l2' => (x +:+ y) :: l2'
  | [x], [] => [x]
  | x :: l1', _ => x :: glue l1' l2
  end.

Lemma Split_glue s t sep : Split (s +:+ t) sep = glue (Split s sep) (Split t sep).
Proof.
  induction s as [|c s IH].
  - change ("" +:+ t) with t. pose proof (Split_not_nil t sep). by destruct (Split t sep).
  - rewrite app_cons. cbn [Split]. rewrite IH. pose proof (Split_not_nil s sep) as Hs.
    pose proof (Split_not_nil t sep) as Ht.
    destruct (Ascii.eqb c sep), (Split s sep) as [|w [|w' ws]] eqn:Hw, (Split t sep) as [|v vs];
      done.
Qed.

Lemma filter_glue l1 l2 :
  last l1 = Some "" ∨ head l2 = Some "" →
  List.filter active (glue l1 l2) = List.filter active l1 ++ List.filter active l2.
Proof.
  induction l1 as [|x l1 IH]; [done|]. intros Hends. destruct l1 as [|x' l1].
  - destruct l2 as [|y l2]; [cbn; by rewrite app_nil_r|]. cbn [glue].
    destruct Hends as [[= ->]|[= ->]]; [done|]. rewrite app_empty_r. cbn.
    by destruct (active x).
  - change (glue (x :: x' :: l1) l2) with (x :: glue (x' :: l1) l2). cbn [List.filter].
    rewrite IH by done. cbn. by destruct (active x).
Qed.

(** Texts that meet at a line break have the settings of both. *)
Lemma settings_app s t :
  last (Split s newline) = Some "" ∨ head (Split t newline) = Some "" →
  settings (s +:+ t) = settings s ++ settings t.
Proof. intros Hends. unfold settings. rewrite Split_glue. by apply filter_glue. Qed.

(** A value that completes the last line of a text. *)
Lemma settings_value s v k :
  last (Split s newline) = Some k → lacks newline v = true → active (k +:+ v) = true →
  settings (s +:+ v) = List.filter active (removelast (Split s newline)) ++ [k +:+ v].
Proof.
  intros Hs Hv Ha. unfold settings. rewrite Split_glue, (Split_lacks v) by done.
  destruct (Split s newline) as [|k' pre _] using rev_ind; [done|].
  rewrite last_snoc in Hs. injection Hs as ->. rewrite removelast_last.
  induction pre as [|x pre IH]; [cbn; by rewrite Ha|].
  assert (glue ((x :: pre) ++ [k]) [v] = x :: glue (pre ++ [k]) [v]) as -> by by destruct pre.
  cbn [List.filter]. rewrite IH. cbn. by destruct (active x).
Qed.

Lemma head_app s t c s' : s = String c s' → Ascii.eqb c newline = true →
  head (Split (s +:+ t) newline) = Some "".
Proof. intros -> Hc. rewrite app_cons. cbn [Split]. by rewrite Hc. Qed.

(** The texts meet at line breaks: the constant one of the two shows it. *)
Ltac line_break :=
  first [ left; vm_compute; reflexivity
        | right; vm_compute; reflexivity
        | right; eapply head_app; [vm_compute; reflexivity|reflexivity] ].

Lemma settings_when {A} (o : option A) s :
  settings (when o s) = if o then settings s else [].
Proof. by destruct o. Qed.

Lemma settings_localConf l :
  lacks newline (PrivateKeyPassphrase l) = true → settings (localConf l) = expectedLocal l.
Proof.
  intros Hpass. unfold localConf.
  rewrite (settings_app eapServerText) by line_break.
  do 4 (rewrite (settings_app (when _ _)) by line_break;
        rewrite (settings_app (lines ["";"";""])) by line_break).
  rewrite (settings_app (when _ _)) by line_break.
  rewrite !settings_when.
  rewrite (settings_value privateKeyText _ "private_key_passwd=")
    by (reflexivity || by apply htmlescape_lacks_newline).
  rewrite (settings_value radiusClientText _ "radius_server_auth_port=")
    by (reflexivity || by apply htmlescape_lacks_newline, Itoa_lacks).
  rewrite Itoa_plain. unfold expectedLocal.
  destruct (UserFileSecret l), (CaCertSecret l), (ServerCertSecret l), (PrivateKeySecret l),
    (RadiusClientSecret l); reflexivity.
Qed.

Lemma settings_radiusConf r :
  lacks newline (AuthServer r) = true → settings (radiusConf r) = expectedRadius r.
Proof.
  intros Hserver. unfold radiusConf. rewrite <-(app_assoc_str radiusText).
  rewrite (settings_app (radiusText +:+ _)) by line_break.
  rewrite <-(app_assoc_str radiusPortText), (settings_app (radiusPortText +:+ _)) by line_break.
  rewrite (settings_value radiusText _ "auth_server_addr=")
    by (reflexivity || by apply htmlescape_lacks_newline).
  rewrite (settings_value radiusPortText _ "auth_server_port=")
    by (reflexivity || by apply htmlescape_lacks_newline, Itoa_lacks).
  rewrite Itoa_plain. reflexivity.
Qed.

Lemma settings_hostapdConf sp : conf_ok sp → settings (hostapdConf sp) = expectedSettings sp.
Proof.
  intros (Hifs & Hlocal & Hradius). unfold hostapdConf. rewrite rangeInterfaces_Join.
  set (ifs := Join (map htmlescape (Interfaces sp)) ",").
  set (period := match Configuration sp with Some c => _ | None => _ end).
  assert (lacks newline ifs = true) as Hifs'.
  { apply lacks_Join; [done|]. apply Forall_map. eapply Forall_impl; [done|].
    apply htmlescape_lacks_newline. }
  assert (period = Itoa (default 3600%Z (EapReauthPeriod <$> Configuration sp))) as Hperiod.
  { unfold period. destruct (Configuration sp); [apply Itoa_plain|reflexivity]. }
  rewrite <-(app_assoc_str headText), (settings_app (headText +:+ _)) by line_break.
  rewrite <-(app_assoc_str driverText), (settings_app (driverText +:+ _)) by line_break.
  rewrite (settings_app paeText) by line_break.
  rewrite (settings_app (match Local _ with Some l => _ | None => _ end)) by line_break.
  rewrite (settings_app (lines ["";"";""])) by line_break.
  rewrite (settings_app (match Radius_ _ with Some l => _ | None => _ end)) by line_break.
  rewrite (settings_value headText _ "interface=") by (reflexivity || done).
  rewrite (settings_value driverText _ "eap_reauth_period=")
    by (reflexivity || by rewrite Hperiod; apply Itoa_lacks).
  rewrite Hperiod. unfold expectedSettings. fold ifs.
  assert (settings (match Local (Authentication sp) with Some l => localConf l | None => "" end) =
    match Local (Authentication sp) with Some l => expectedLocal l | None => [] end) as ->.
  { destruct (Local _) as [l|]; [|done]. by apply settings_localConf, Hlocal. }
  assert (settings (match Radius_ (Authentication sp) with Some r => radiusConf r | None => "" end) =
    match Radius_ (Authentication sp) with Some r => expectedRadius r | None => [] end) as ->.
  { destruct (Radius_ _) as [r|]; [|done]. by apply settings_radiusConf, Hradius. }
  change (settings nl) with (@nil string). rewrite app_nil_r. reflexivity.
Qed.

Lemma escapeChar_length c :
  escapeChar c = String c "" ∨ (1 < String.length (escapeChar c))%nat.
Proof.
  destruct (decide (escapeChar c = String c "")) as [|Hne]; [by left|right]. revert Hne.
  destruct c as [[] [] [] [] [] [] [] []]; try done; intros _; vm_compute; lia.
Qed.

Lemma length_append (s t : string) :
  String.length (s +:+ t) = (String.length s + String.length t)%nat.
Proof. induction s as [|c s IH]; [done|]. rewrite app_cons. cbn. by rewrite IH. Qed.

Lemma htmlescape_length s : (String.length s ≤ String.length (htmlescape s))%nat.
Proof.
  induction s as [|c s IH]; [done|]. cbn [htmlescape]. rewrite length_append. cbn [String.length].
  destruct (escapeChar_length c) as [->|]; cbn [String.length]; lia.
Qed.

(** A text survives the escapes exactly when it needs none. *)
Lemma htmlescape_id s : htmlescape s = s ↔ str_forallb plain_char s = true.
Proof.
  split; [|apply htmlescape_plain]. induction s as [|c s IH]; [done|].
  cbn [htmlescape str_forallb]. intros Heq.
  destruct (escapeChar_length c) as [Hc|Hlong].
  - rewrite Hc in Heq. change (String c "" +:+ htmlescape s) with (String c (htmlescape s)) in Heq.
    injection Heq as Heq. unfold plain_char at 1. rewrite bool_decide_true by done. by apply IH.
  - apply (f_equal String.length) in Heq. rewrite length_append in Heq. cbn in Heq.
    pose proof (htmlescape_length s). lia.
Qed.

Lemma append_inj (s t u : string) : s +:+ t = s +:+ u → t = u.
Proof. induction s as [|c s IH]; [done|]. rewrite !app_cons. intros [= H]. by apply IH. Qed.

Lemma HasPrefix_append p s : HasPrefix (p +:+ s) p = true.
Proof.
  induction p as [|c p IH]; [by destruct s|]. rewrite app_cons. cbn.
  rewrite IH. by rewrite Ascii.eqb_refl.
Qed.

Lemma plain_unreserved s : str_forallb plain_char s = true ↔ unreserved s.
Proof.
  unfold unreserved. induction s as [|c s IH]; cbn [str_forallb String.list_ascii_of_string].
  { split; [constructor|done]. }
  rewrite andb_true_iff, Forall_cons, IH. apply and_iff_compat_r.
  rewrite <-(bool_decide_eq_true (N_of_ascii c ∉ _)). clear.
  destruct c as [[] [] [] [] [] [] [] []]; vm_compute; tauto.
Qed.

Lemma as_html_escape s : as_html s = htmlescape s.
Proof.
  unfold as_html. induction s as [|c s IH]; [done|].
  cbn [String.list_ascii_of_string foldr htmlescape]. rewrite IH. f_equal.
  destruct c as [[] [] [] [] [] [] [] []]; reflexivity.
Qed.

Lemma htmlescape_app s t : htmlescape (s +:+ t) = htmlescape s +:+ htmlescape t.
Proof.
  induction s as [|c s IH]; [done|]. rewrite app_cons. cbn [htmlescape].
  by rewrite IH, app_assoc_str.
Qed.

Lemma htmlescape_Join l : htmlescape (Join l ",") = Join (map htmlescape l) ",".
Proof.
  induction l as [|s [|s' l] IH]; [done..|].
  change (Join (s :: s' :: l) ",") with (s +:+ "," +:+ Join (s' :: l) ",").
  rewrite !htmlescape_app, IH. done.
Qed.

Definition setting_line (kv : string * value) : string := kv.1 +:+ "=" +:+ written kv.2.

Lemma called_for_expected sp : map setting_line (called_for sp) = expectedSettings sp.
Proof.
  unfold called_for, expectedSettings, setting_line. rewrite !map_app. f_equal; [|f_equal].
  - cbn [map fst snd written]. rewrite as_html_escape, htmlescape_Join.
    by destruct (Configuration sp).
  - destruct (Local _) as [l|]; [|done]. unfold localSettings, expectedLocal.
    destruct (UserFileSecret l), (CaCertSecret l), (ServerCertSecret l), (PrivateKeySecret l),
      (RadiusClientSecret l); cbn [map app fst snd written]; rewrite ?as_html_escape; reflexivity.
  - destruct (Radius_ _) as [r|]; [|done]. cbn [map radiusSettings fst snd written].
    by rewrite as_html_escape.
Qed.

Lemma written_meant secrets v :
  written v = meant secrets v ↔
  match v with
  | Fixed _ | Number _ => True
  | Given s => unreserved s
  | SharedSecret n => secrets n = "$AUTHSECRET"
  end.
Proof.
  destruct v; cbn; [done..| |by split].
  by rewrite as_html_escape, htmlescape_id, plain_unreserved.
Qed.

(** The only setting of the passphrase. *)
Lemma expectedSettings_passwd sp l :
  Local (Authentication sp) = Some l → is_Some (PrivateKeySecret l) →
  List.filter (λ s, HasPrefix s "private_key_passwd=") (expectedSettings sp) =
  ["private_key_passwd=" +:+ htmlescape (PrivateKeyPassphrase l)].
Proof.
  intros Hl [ref Href]. unfold expectedSettings. rewrite Hl. unfold expectedLocal. rewrite Href.
  set (f := λ s, HasPrefix s "private_key_passwd=").
  assert (∀ A (o : option A) ls, List.filter f ls = [] →
    List.filter f (if o then ls else []) = []) as Hnone by (by intros A [] ls).
  rewrite !List.filter_app, !Hnone by reflexivity.
  assert (List.filter f match Radius_ (Authentication sp) with
                        | Some r => expectedRadius r | None => [] end = []) as ->
    by by destruct (Radius_ _).
  assert (∀ s, f ("private_key_passwd=" +:+ s) = true) as Hf by apply HasPrefix_append.
  cbn [List.filter]. rewrite Hf. reflexivity.
Qed.

(** ** Theorems *)

(** C28. The settings of the generated hostapd.conf, for a specification whose
    values stay on one line ([conf_ok]): in order, those that the specification
    calls for, each present exactly when the specification has what it is about,
    with 3600 for a missing reauthentication period.  Numbers and fixed values are
    written as they are meant, with two exceptions among the others.  The texts of
    the specification, the interfaces, the passphrase and the RADIUS server's
    address, are escaped for HTML, so they are what is meant only if they have none
    of the characters HTML reserves; and for the shared secret of the RADIUS server
    the text [$AUTHSECRET] is written, whatever Secret the specification names.
    The config map has the Authenticator's name and namespace and this file alone. *)
Theorem ConfigMap_settings g secrets :
  conf_ok (Spec (a11r g)) →
  ∃ cm conf, ConfigMap g = Ok cm ∧ Cm_Name cm = Name (a11r g) ∧
    Cm_Namespace cm = Namespace (a11r g) ∧ Cm_Data cm = {["hostapd.conf" := conf]} ∧
    settings conf = map (λ '(k, v), k +:+ "=" +:+ written v) (called_for (Spec (a11r g))) ∧
    ∀ k v, (k, v) ∈ called_for (Spec (a11r g)) →
      written v = meant secrets v ↔
      match v with
      | Fixed _ | Number _ => True
      | Given s => unreserved s
      | SharedSecret n => secrets n = "$AUTHSECRET"
      end.
Proof.
  intros Hok. eexists _, _. do 4 (split; [reflexivity|]). split; [|intros; apply written_meant].
  rewrite settings_hostapdConf, <-called_for_expected by done. apply map_ext. by intros [k v].
Qed.

(** C29. In a specification whose values stay on one line ([conf_ok]), a
    passphrase for the private key reaches hostapd as it was given exactly if it
    has no quotation mark of either kind, ampersand, plus sign, angle bracket or
    NUL: the template is executed by html/template, which escapes these, although
    the file is not HTML. *)
Theorem passphrase_survives sp l :
  conf_ok sp → Local (Authentication sp) = Some l → is_Some (PrivateKeySecret l) →
  "private_key_passwd=" +:+ PrivateKeyPassphrase l ∈ settings (hostapdConf sp) ↔
  Forall (λ c, N_of_ascii c ∉ [0; 34; 38; 39; 43; 60; 62]%N)
    (String.list_ascii_of_string (PrivateKeyPassphrase l)).
Proof.
  intros Hok Hl Hkey. rewrite settings_hostapdConf by done.
  change (Forall _ _) with (unreserved (PrivateKeyPassphrase l)).
  rewrite <-plain_unreserved, <-htmlescape_id. set (line := "private_key_passwd=" +:+ PrivateKeyPassphrase l).
  assert (line ∈ expectedSettings sp ↔ line ∈
    List.filter (λ s, HasPrefix s "private_key_passwd=") (expectedSettings sp)) as ->.
  { rewrite !list_elem_of_In, filter_In.
    pose proof (HasPrefix_append "private_key_passwd=" (PrivateKeyPassphrase l)). tauto. }
  rewrite (expectedSettings_passwd sp l), list_elem_of_singleton by done. unfold line. split.
  - intros Heq%append_inj. congruence.
  - by intros ->.
Qed.









(** ** Witnesses *)
Definition confSpec (pass : string) : AuthenticatorSpec :=
  {| Enabled := true; Interfaces := ["ens3f0"; "ens3f1"];
     Authentication :=
       {| Local := Some
            {| UserFileSecret := Some {| SecretKeyRef_Name := "users"; SecretKeyRef_Key := "" |};
               CaCertSecret := None; ServerCertSecret := None;
               PrivateKeySecret := Some {| SecretKeyRef_Name := "key"; SecretKeyRef_Key := "" |};
               PrivateKeyPassphrase := pass; RadiusClientSecret := None;
               Local_AuthPort := 1812 |};
          Radius_ := Some {| AuthServer := "10.0.0.1"; Radius_AuthPort := 1812;
                             AuthSecret := "radius-secret" |} |};
     Configuration := Some {| EapReauthPeriod := 600 |}; Image := ""; NodeSelector := None;
     TrafficControl_ := None |}.

Definition confGen (pass : string) : ConfigGenerator :=
  New {| Name := "authenticator-sample"; Namespace := "default"; UID := "1";
         ResourceVersion := "1"; Spec := confSpec pass;
         Status := {| Status_Interfaces := [] |} |} "authenticator".

Lemma confSpec_ok pass : lacks newline pass = true → conf_ok (confSpec pass).
Proof.
  intros Hpass. split; [repeat constructor|]. split.
  - intros l [= <-]. done.
  - intros r [= <-]. done.
Qed.

Lemma ConfigMap_settings_witness :
  let secrets := λ _, "s3cret" in
  ∃ cm conf, ConfigMap (confGen "a&b") = Ok cm ∧ Cm_Name cm = "authenticator-sample" ∧
    Cm_Namespace cm = "default" ∧ Cm_Data cm = {["hostapd.conf" := conf]} ∧
    settings conf = map (λ '(k, v), k +:+ "=" +:+ written v) (called_for (confSpec "a&b")) ∧
    ∀ k v, (k, v) ∈ called_for (confSpec "a&b") →
      written v = meant secrets v ↔
      match v with
      | Fixed _ | Number _ => True
      | Given s => unreserved s
      | SharedSecret n => secrets n = "$AUTHSECRET"
      end.
Proof. apply (ConfigMap_settings (confGen "a&b")). by apply confSpec_ok. Defined.

(** One that survives and one that does not. *)
Lemma passphrase_survives_witness :
  "private_key_passwd=" +:+ "a-b" ∈ settings (hostapdConf (confSpec "a-b")) ∧
  "private_key_passwd=" +:+ "a&b" ∉ settings (hostapdConf (confSpec "a&b")).
Proof.
  split.
  - apply (passphrase_survives (confSpec "a-b") _ (confSpec_ok "a-b" eq_refl) eq_refl).
    + by eexists.
    + apply (bool_decide_unpack _). vm_compute. exact I.
  - intros Hin.
    apply (passphrase_survives (confSpec "a&b") _ (confSpec_ok "a&b" eq_refl) eq_refl) in Hin;
      [|by eexists].
    apply (bool_decide_pack _) in Hin. vm_compute in Hin. exact Hin.
Defined.

