(* ===== verification/Controller.v ===== *)
(** * The reconciler: controllers/authenticator_controller.go

    [Reconcile] brings the config map, the RBAC objects and the DaemonSet of one
    Authenticator to what the generator says.  The API server is the environment:
    its answers are arbitrary functions of the requests so far.  The RBAC objects
    read from the manifests at start-up are one set for the whole process; the
    code writes the namespace and the owner into them before each creation, and
    the client overwrites them with the server's answer. *)
From S2P Require Import Prelude GoStrings Api ConfigGen HostapdConf.

(** ** Objects *)

(** An owner reference to an Authenticator, as its controller. *)
Record OwnerRef := { Owner_Name : string; Owner_UID : string }.

(** What the code reads or writes of an object of each kind.  [extra] is what
    the server has in a DaemonSet's specification besides the fields of the
    generator; [body] is the rest of a manifest. *)
Inductive Payload :=
| PConfigMap (data : gmap string string)
| PDaemonSet (spec : DaemonSetSpec) (extra : gmap string string)
| PServiceAccount (body : string)
| PRole (body : string)
| PRoleBinding (subjectNamespace : string) (body : string).

Inductive kind := KConfigMap | KDaemonSet | KServiceAccount | KRole | KRoleBinding.

Record Object := {
  Ob_Name : string;
  Ob_Namespace : string;
  Ob_ResourceVersion : string;
  OwnerReferences : list OwnerRef;
  payload : Payload;
}.

Definition kindOf (p : Payload) : kind :=
  match p with
  | PConfigMap _ => KConfigMap
  | PDaemonSet _ _ => KDaemonSet
  | PServiceAccount _ => KServiceAccount
  | PRole _ => KRole
  | PRoleBinding _ _ => KRoleBinding
  end.

#[global] Instance kind_eq_dec : EqDecision kind.
Proof. solve_decision. Defined.
#[global] Instance OwnerRef_eq_dec : EqDecision OwnerRef.
Proof. solve_decision. Defined.
#[global] Instance KeyToPath_eq_dec : EqDecision KeyToPath.
Proof. solve_decision. Defined.
#[global] Instance VolumeProjection_eq_dec : EqDecision VolumeProjection.
Proof. solve_decision. Defined.
#[global] Instance VolumeSource_eq_dec : EqDecision VolumeSource.
Proof. solve_decision. Defined.
#[global] Instance Volume_eq_dec : EqDecision Volume.
Proof. solve_decision. Defined.
#[global] Instance VolumeMount_eq_dec : EqDecision VolumeMount.
Proof. solve_decision. Defined.
#[global] Instance EnvVar_eq_dec : EqDecision EnvVar.
Proof. solve_decision. Defined.
#[global] Instance Container_eq_dec : EqDecision Container.
Proof. solve_decision. Defined.
#[global] Instance PodSpec_eq_dec : EqDecision PodSpec.
Proof. solve_decision. Defined.
#[global] Instance DaemonSetSpec_eq_dec : EqDecision DaemonSetSpec.
Proof. solve_decision. Defined.
#[global] Instance Payload_eq_dec : EqDecision Payload.
Proof. solve_decision. Defined.

Definition set_Namespace (ns : string) (o : Object) : Object :=
  {| Ob_Name := Ob_Name o; Ob_Namespace := ns; Ob_ResourceVersion := Ob_ResourceVersion o;
     OwnerReferences := OwnerReferences o; payload := payload o |}.
Definition set_ResourceVersion (rv : string) (o : Object) : Object :=
  {| Ob_Name := Ob_Name o; Ob_Namespace := Ob_Namespace o; Ob_ResourceVersion := rv;
     OwnerReferences := OwnerReferences o; payload := payload o |}.
Definition set_OwnerReferences (l : list OwnerRef) (o : Object) : Object :=
  {| Ob_Name := Ob_Name o; Ob_Namespace := Ob_Namespace o;
     Ob_ResourceVersion := Ob_ResourceVersion o; OwnerReferences := l; payload := payload o |}.
Definition set_payload (p : Payload) (o : Object) : Object :=
  {| Ob_Name := Ob_Name o; Ob_Namespace := Ob_Namespace o;
     Ob_ResourceVersion := Ob_ResourceVersion o; OwnerReferences := OwnerReferences o;
     payload := p |}.

(** ** The API server *)
Abbreviation NamespacedName := (string * string)%type.

Inductive request :=
| RqGetAuth (key : NamespacedName) (r : result Authenticator)
| RqGet (k : kind) (key : NamespacedName) (r : result Object)
| RqCreate (o : Object) (r : result Object)
| RqUpdate (o : Object) (r : result Object).

Abbreviation Requests := (list request).

(** The answers; creation and update return the object as the server has it. *)
Class ApiServer := {
  apiGetAuth : Requests → NamespacedName → result Authenticator;
  apiGet : Requests → kind → NamespacedName → result Object;
  apiCreate : Requests → Object → result Object;
  apiUpdate : Requests → Object → result Object;
}.

(** ** The reconciler's state *)
Record resources := {
  serviceAccount_ : Object;
  role : Object;
  roleBinding : Object;
}.

Record RState := {
  rbacResources : resources;
  requests : Requests;
}.

Definition set_serviceAccount (o : Object) (r : resources) : resources :=
  {| serviceAccount_ := o; role := role r; roleBinding := roleBinding r |}.
Definition set_role (o : Object) (r : resources) : resources :=
  {| serviceAccount_ := serviceAccount_ r; role := o; roleBinding := roleBinding r |}.
Definition set_roleBinding (o : Object) (r : resources) : resources :=
  {| serviceAccount_ := serviceAccount_ r; role := role r; roleBinding := o |}.

Definition set_rbac (r : resources) (s : RState) : RState :=
  {| rbacResources := r; requests := requests s |}.

(** ** controllerutil.SetControllerReference *)
Definition validateOwner (owner : Authenticator) (o : Object) : option error :=
  if bool_decide (Namespace owner = "") then None
  else if bool_decide (Ob_Namespace o = "") then
    Some (Errorf "cluster-scoped resource must not have a namespace-scoped owner, owner's namespace %s"
            [Namespace owner])
  else if negb (bool_decide (Namespace owner = Ob_Namespace o)) then
    Some (Errorf "cross-namespace owner references are disallowed, owner's namespace %s, obj's namespace %s"
            [Namespace owner; Ob_Namespace o])
  else None.

(** Every reference in the model is to an Authenticator, and a controller's. *)
Definition referSameObject (a b : OwnerRef) : bool := bool_decide (Owner_Name a = Owner_Name b).

Fixpoint upsertOwnerRef (r : OwnerRef) (owners : list OwnerRef) : list OwnerRef :=
  match owners with
  | [] => [r]
  | x :: owners' =>
      if referSameObject x r then r :: owners' else x :: upsertOwnerRef r owners'
  end.

Definition ownerRef (owner : Authenticator) : OwnerRef :=
  {| Owner_Name := Name owner; Owner_UID := UID owner |}.

(** The error, and the object as the call leaves it. *)
Definition SetControllerReference (owner : Authenticator) (o : Object)
  : option error * Object :=
  match validateOwner owner o with
  | Some e => (Some e, o)
  | None =>
      let r := ownerRef owner in
      match head (OwnerReferences o) with
      | Some existing =>
          if negb (referSameObject existing r)
          then (Some (Error RAlreadyOwned "Object is already owned by another controller"), o)
          else (None, set_OwnerReferences (upsertOwnerRef r (OwnerReferences o)) o)
      | None => (None, set_OwnerReferences (upsertOwnerRef r (OwnerReferences o)) o)
      end
  end.

(** ** The reconciler *)
Section code.
Context `{ApiServer}.

Definition ask {A} (answer : Requests → A) (rq : A → request) : M RState A := λ s,
  let a := answer (requests s) in
  Done a {| rbacResources := rbacResources s; requests := rq a :: requests s |}.

Definition GetAuthenticator (key : NamespacedName) : M RState (result Authenticator) :=
  ask (λ tr, apiGetAuth tr key) (RqGetAuth key).
Definition Get (k : kind) (key : NamespacedName) : M RState (result Object) :=
  ask (λ tr, apiGet tr k key) (RqGet k key).
Definition Create (o : Object) : M RState (result Object) :=
  ask (λ tr, apiCreate tr o) (RqCreate o).
Definition Update (o : Object) : M RState (result Object) :=
  ask (λ tr, apiUpdate tr o) (RqUpdate o).

(** [createOwned(ctx, owner, obj)]: the error of the first call is dropped.  The
    object after the call is returned with the error. *)
Definition createOwned (owner : Authenticator) (o : Object) : M RState (option error * Object) :=
  let o' := snd (SetControllerReference owner o) in
  r ← Create o';
  mret match r with
       | Ok o'' => (None, o'')
       | Err e => (Some e, o')
       end.

(** One of the three RBAC objects: [get] and [put] say where it is kept,
    [prepare] what is written into it before it is created.  The message of the
    error has [what] for the words of the code and leaves out the printed object. *)
Definition syncOne (owner : Authenticator) (ns : string) (k : kind)
    (get : resources → Object) (put : Object → resources → resources)
    (prepare : Object → Object) (what : string) : M RState (option error) :=
  o ← gets (λ s, get (rbacResources s));
  r ← Get k (ns, Ob_Name o);
  match r with
  | Ok _ => mret None
  | Err err =>
      if IsNotFound err then
        let o := prepare (set_ResourceVersion "" (set_Namespace ns o)) in
        res ← createOwned owner o;
        let '(e, o') := res in
        _ ← modify (λ s, set_rbac (put o' (rbacResources s)) s);
        match e with
        | Some e => mret (Some (ErrorfWith "error creating authenticator %s: %v, err: %v" [what] e))
        | None => mret None
        end
      else mret (Some err)
  end.

Definition setSubject (ns : string) (o : Object) : Object :=
  match payload o with
  | PRoleBinding _ body => set_payload (PRoleBinding ns body) o
  | _ => o
  end.

Definition syncRbacResources (owner : Authenticator) (ns : string) : M RState (option error) :=
  check! syncOne owner ns KServiceAccount serviceAccount_ set_serviceAccount id "service account" ;;
  check! syncOne owner ns KRole role set_role id "role" ;;
  syncOne owner ns KRoleBinding roleBinding set_roleBinding (setSubject ns) "role binding".

(** The objects that the generator's results are sent as. *)
Definition configMapObject (cm : ConfigMap_) : Object :=
  {| Ob_Name := Cm_Name cm; Ob_Namespace := Cm_Namespace cm; Ob_ResourceVersion := "";
     OwnerReferences := []; payload := PConfigMap (Cm_Data cm) |}.
Definition daemonSetObject (ds : DaemonSet) : Object :=
  {| Ob_Name := Ds_Name ds; Ob_Namespace := Ds_Namespace ds; Ob_ResourceVersion := "";
     OwnerReferences := []; payload := PDaemonSet (Ds_Spec ds) ∅ |}.

(** The part of [Reconcile] about the config map. *)
Definition syncConfigMap (a11r : Authenticator) (key : NamespacedName) (newCm : Object)
  : M RState (option error) :=
  r ← Get KConfigMap key;
  match r with
  | Ok cm =>
      if bool_decide (payload cm = payload newCm) then mret None
      else
        r ← Update newCm;
        mret match r with Ok _ => None | Err e => Some e end
  | Err err =>
      if IsNotFound err then
        res ← createOwned a11r newCm; mret (fst res)
      else mret (Some err)
  end.

(** The part about the DaemonSet. *)
Definition syncDaemonSet (a11r : Authenticator) (key : NamespacedName) (newDs : Object)
  : M RState (option error) :=
  r ← Get KDaemonSet key;
  match r with
  | Ok ds =>
      if bool_decide (payload ds = payload newDs) then mret None
      else
        r ← Update (set_payload (payload newDs) ds);
        mret match r with Ok _ => None | Err e => Some e end
  | Err err =>
      if IsNotFound err then
        res ← createOwned a11r newDs; mret (fst res)
      else mret (Some err)
  end.

(** [ctrl.Result] is empty on every path: only the error is returned. *)
Definition Reconcile (key : NamespacedName) : M RState (option error) :=
  r ← GetAuthenticator key;
  match r with
  | Err err => if IsNotFound err then mret None else mret (Some err)
  | Ok a11r =>
      sa ← gets (λ s, Ob_Name (serviceAccount_ (rbacResources s)));
      let cfggen := New a11r sa in
      match ConfigMap cfggen with
      | Err e => mret (Some (ErrorfWith "failed to generate ConfigMap content: %e" [] e))
      | Ok newCm =>
          check! syncConfigMap a11r key (configMapObject newCm) ;;
          check! syncRbacResources a11r (fst key) ;;
          syncDaemonSet a11r key (daemonSetObject (fst (Daemonset cfggen)))
      end
  end.
End code.
