(* ===== verification/ControllerSpec.v ===== *)
(** * What the reconciler guarantees

    Convergence and idempotence of [Reconcile] over an API server that keeps
    what it accepts, and the defects in how it sets owners. *)
From S2P Require Import Prelude GoStrings Api ConfigGen HostapdConf Controller.

Abbreviation ObjKey := (kind * NamespacedName)%type.

Definition keyOf (o : Object) : ObjKey := (kindOf (payload o), (Ob_Namespace o, Ob_Name o)).

Definition kind_code (k : kind) : nat :=
  match k with
  | KConfigMap => 0 | KDaemonSet => 1 | KServiceAccount => 2 | KRole => 3 | KRoleBinding => 4
  end%nat.

#[global] Instance kind_countable : Countable kind.
Proof.
  apply (inj_countable' kind_code (λ n, match n with
    | 0 => KConfigMap | 1 => KDaemonSet | 2 => KServiceAccount | 3 => KRole
    | _ => KRoleBinding end%nat)). by intros [].
Defined.

(** ** The server as a store

    The API conventions: an object is found as the server answered when it last
    accepted it, which is what was sent up to the resource version and the
    fields of a DaemonSet that the server fills in itself; a request that fails
    changes nothing; an Authenticator has the name it is asked for by. *)
Definition base (p : Payload) : Payload :=
  match p with
  | PDaemonSet spec _ => PDaemonSet spec ∅
  | _ => p
  end.

Record accepted (o o' : Object) : Prop := {
  accepted_key : keyOf o' = keyOf o;
  accepted_owners : OwnerReferences o' = OwnerReferences o;
  accepted_payload : base (payload o') = base (payload o);
}.

Record served `{ApiServer} (stored : Requests → gmap ObjKey Object) : Prop := {
  served_auth : ∀ tr key a, apiGetAuth tr key = Ok a → key = (Namespace a, Name a);
  served_get : ∀ tr k key o, apiGet tr k key = Ok o ↔ stored tr !! (k, key) = Some o;
  served_found : ∀ tr k key o, stored tr !! (k, key) = Some o → keyOf o = (k, key);
  served_missing : ∀ tr k key e, apiGet tr k key = Err e →
    IsNotFound e = true → stored tr !! (k, key) = None;
  served_create : ∀ tr o o', apiCreate tr o = Ok o' →
    stored (RqCreate o (Ok o') :: tr) = <[keyOf o := o']> (stored tr) ∧ accepted o o';
  served_update : ∀ tr o o', apiUpdate tr o = Ok o' →
    stored (RqUpdate o (Ok o') :: tr) = <[keyOf o := o']> (stored tr) ∧ accepted o o';
  served_read : ∀ tr rq, (∀ o o', rq ≠ RqCreate o (Ok o') ∧ rq ≠ RqUpdate o (Ok o')) →
    stored (rq :: tr) = stored tr;
}.

(** A server that is up: what is missing is reported as such, a new object is
    accepted, and so is a new version of an object that is there. *)
Record responsive `{ApiServer} (stored : Requests → gmap ObjKey Object) : Prop := {
  responsive_get : ∀ tr k key, stored tr !! (k, key) = None →
    ∃ e, apiGet tr k key = Err e ∧ IsNotFound e = true;
  responsive_create : ∀ tr o, stored tr !! keyOf o = None → ∃ o', apiCreate tr o = Ok o';
  responsive_update : ∀ tr o, is_Some (stored tr !! keyOf o) → ∃ o', apiUpdate tr o = Ok o';
}.

(** ** What must be there for an Authenticator *)
Definition desiredCm (a : Authenticator) (sa : string) : Payload :=
  match ConfigMap (New a sa) with
  | Ok cm => PConfigMap (Cm_Data cm)
  | Err _ => PConfigMap ∅
  end.
Definition desiredDs (a : Authenticator) (sa : string) : Payload :=
  PDaemonSet (Ds_Spec (fst (Daemonset (New a sa)))) ∅.

Definition rbacNames (r : resources) : string * string * string :=
  (Ob_Name (serviceAccount_ r), Ob_Name (role r), Ob_Name (roleBinding r)).

Record in_place (a : Authenticator) (names : string * string * string)
    (st : gmap ObjKey Object) : Prop := {
  in_place_cm : payload <$> st !! (KConfigMap, (Namespace a, Name a)) =
    Some (desiredCm a names.1.1);
  in_place_ds : base ∘ payload <$> st !! (KDaemonSet, (Namespace a, Name a)) =
    Some (desiredDs a names.1.1);
  in_place_sa : is_Some (st !! (KServiceAccount, (Namespace a, names.1.1)));
  in_place_role : is_Some (st !! (KRole, (Namespace a, names.1.2)));
  in_place_rb : is_Some (st !! (KRoleBinding, (Namespace a, names.2)));
}.

Lemma base_configMap (mo : option Object) d :
  base ∘ payload <$> mo = Some (PConfigMap d) → payload <$> mo = Some (PConfigMap d).
Proof. by destruct mo as [[? ? ? ? []]|]. Qed.

(** The requests that change something. *)
Definition is_write (rq : request) : bool :=
  match rq with
  | RqCreate _ _ | RqUpdate _ _ => true
  | _ => false
  end.
Definition writes (tr : Requests) : list request := List.filter is_write tr.

(** The RBAC objects are of the kinds they stand for. *)
Definition rbac_ok (r : resources) : Prop :=
  kindOf (payload (serviceAccount_ r)) = KServiceAccount ∧ kindOf (payload (role r)) = KRole ∧
  kindOf (payload (roleBinding r)) = KRoleBinding.

(** ** SetControllerReference *)
Lemma SetControllerReference_keeps owner o :
  let o' := snd (SetControllerReference owner o) in
  keyOf o' = keyOf o ∧ payload o' = payload o.
Proof.
  unfold SetControllerReference. destruct (validateOwner owner o); [done|].
  destruct (head _) as [r|]; [|done]. by destruct (negb _).
Qed.

Section specs.
Context `{ApiServer} (stored : Requests → gmap ObjKey Object) (Hserved : served stored).

Lemma wp_ask {A} P (answer : Requests → A) (rq : A → request) Q s :
  (let a := answer (requests s) in
   Q a {| rbacResources := rbacResources s; requests := rq a :: requests s |}) →
  wpx P (ask answer rq) Q s.
Proof. done. Qed.

(** A state in which only the objects at [k] may have changed. *)
Definition only_at (k : ObjKey) (s s' : RState) : Prop :=
  ∀ k', k' ≠ k → stored (requests s') !! k' = stored (requests s) !! k'.

(** Reading an object: it is there, or it is missing, or the read failed. *)
Lemma wp_Get k key s (Q : result Object → RState → Prop) :
  (∀ r s1, rbacResources s1 = rbacResources s → stored (requests s1) = stored (requests s) →
     writes (requests s1) = writes (requests s) →
     match r with
     | Ok o => stored (requests s) !! (k, key) = Some o
     | Err e => (IsNotFound e = true → stored (requests s) !! (k, key) = None) ∧
                (responsive stored → IsNotFound e = true)
     end → Q r s1) →
  wp (Get k key) Q s.
Proof.
  intros HQ. apply wp_ask. cbn zeta. apply HQ; [done|by apply served_read|done|].
  destruct (apiGet _ _ _) as [o|e] eqn:He; [by apply (served_get _ Hserved)|].
  split; [by apply (served_missing _ Hserved)|]. intros Hup.
  destruct (stored (requests s) !! (k, key)) as [o|] eqn:Hst.
  - apply (served_get _ Hserved) in Hst. congruence.
  - destruct (responsive_get _ Hup _ _ _ Hst) as (e' & He' & ?). congruence.
Qed.

Lemma wp_createOwned owner o s :
  wp (createOwned owner o) (λ '(e, o') s',
    rbacResources s' = rbacResources s ∧ keyOf o' = keyOf o ∧
    base (payload o') = base (payload o) ∧ only_at (keyOf o) s s' ∧
    (e = None → stored (requests s') !! keyOf o = Some o') ∧
    (responsive stored → stored (requests s) !! keyOf o = None → e = None)) s.
Proof.
  destruct (SetControllerReference_keeps owner o) as [Hk Hp]. unfold createOwned. cbn zeta in *.
  set (o1 := snd _) in *. wp_step. apply wp_ask. cbn zeta.
  destruct (apiCreate _ _) as [o2|e] eqn:Hc; wp_step; (split; [done|]).
  - destruct (served_create _ Hserved _ _ _ Hc) as [Hst Ho2]. rewrite Hk in Hst.
    destruct Ho2 as [Hk2 _ Hp2].
    split; [congruence|]. split; [congruence|]. split; [|split; [|done]].
    + intros k' Hne. cbn. rewrite Hst. by apply lookup_insert_ne.
    + intros _. cbn. rewrite Hst. apply lookup_insert_eq.
  - split; [done|]. split; [by rewrite Hp|]. split; [|split; [done|]].
    + intros k' _. cbn. by rewrite (served_read _ Hserved).
    + intros Hup Hno. rewrite <-Hk in Hno.
      destruct (responsive_create _ Hup _ _ Hno) as [o' Ho']. congruence.
Qed.

(** A sync step, of the config map or the DaemonSet: on success the object at
    [k] is there with the desired payload, and with a server that is up it is a
    success. *)
Definition synced (newObj : Object) (s : RState) (r : option error) (s' : RState) : Prop :=
  rbacResources s' = rbacResources s ∧ only_at (keyOf newObj) s s' ∧
  (r = None →
   base ∘ payload <$> stored (requests s') !! keyOf newObj = Some (base (payload newObj))) ∧
  (responsive stored → r = None).

(** The parts the two steps share: nothing to do, the update, the creation. *)
Lemma synced_same newObj o s s' :
  rbacResources s' = rbacResources s → stored (requests s') = stored (requests s) →
  stored (requests s) !! keyOf newObj = Some o → payload o = payload newObj →
  synced newObj s None s'.
Proof.
  intros Hr Hst Hget Heq. split; [done|]. split; [intros k' _; by rewrite Hst|].
  split; [|done]. intros _. rewrite Hst, Hget. cbn. by rewrite Heq.
Qed.

Lemma wp_update_synced newObj o s s1 :
  rbacResources s1 = rbacResources s → stored (requests s1) = stored (requests s) →
  keyOf o = keyOf newObj → payload o = payload newObj →
  is_Some (stored (requests s) !! keyOf newObj) →
  wp (Update o) (λ r s', synced newObj s
    (match r with Ok _ => None | Err e => Some e end) s') s1.
Proof.
  intros Hr Hst Hk Hp Hthere. apply wp_ask. cbn zeta.
  destruct (apiUpdate _ _) as [o2|e] eqn:Hu; (split; [done|]); cbn.
  - destruct (served_update _ Hserved _ _ _ Hu) as [Hst' [_ _ Hp']]. rewrite Hk in Hst'.
    split; [|split; [|done]].
    + intros k' Hne. cbn. rewrite Hst', <-Hst. by apply lookup_insert_ne.
    + intros _. rewrite Hst', lookup_insert_eq. cbn. by rewrite Hp', Hp.
  - split; [|split; [done|]].
    + intros k' _. cbn. by rewrite (served_read _ Hserved), Hst.
    + intros Hup. rewrite <-Hst, <-Hk in Hthere.
      destruct (responsive_update _ Hup _ _ Hthere) as [o' Ho']. congruence.
Qed.

Lemma wp_create_synced owner newObj s s1 :
  rbacResources s1 = rbacResources s → stored (requests s1) = stored (requests s) →
  stored (requests s) !! keyOf newObj = None →
  wp (createOwned owner newObj) (λ res s', synced newObj s (fst res) s') s1.
Proof.
  intros Hr Hst Hno. eapply wp_mono; [apply wp_createOwned|]. cbn beta.
  intros [e o'] s2 (Hr2 & Hk2 & Hp2 & Hat & Hdone & Hup). split; [congruence|]. split; [|split].
  - intros k' Hne. rewrite (Hat k' Hne). by rewrite Hst.
  - cbn. intros He. rewrite (Hdone He). cbn. by rewrite Hp2.
  - intros Hresp. apply Hup; [done|]. by rewrite Hst.
Qed.

Lemma synced_failed newObj s s' e :
  rbacResources s' = rbacResources s → stored (requests s') = stored (requests s) →
  (responsive stored → False) → synced newObj s (Some e) s'.
Proof.
  intros Hr Hst Hup. split; [done|]. split; [intros k' _; by rewrite Hst|].
  split; [done|]. by intros ?%Hup.
Qed.

Lemma wp_syncConfigMap a newCm s :
  keyOf newCm = (KConfigMap, (Namespace a, Name a)) →
  wp (syncConfigMap a (Namespace a, Name a) newCm) (synced newCm s) s.
Proof.
  intros Hkey. unfold syncConfigMap. wp_step. apply wp_Get. rewrite <-Hkey.
  intros r s1 Hr1 Hst1 _ Hget. destruct r as [cm|e].
  - case_bool_decide as Heq; [wp_step; by eapply synced_same|].
    wp_step. eapply wp_mono; [by apply (wp_update_synced newCm newCm s)|].
    intros r s2 H2. by wp_step.
  - destruct Hget as [Hno Hup]. destruct (IsNotFound e) eqn:He.
    + wp_step. eapply wp_mono; [apply (wp_create_synced a newCm s); by auto|].
      intros res s2 H2. by wp_step.
    + wp_step. apply synced_failed; [done|done|]. by intros ?%Hup.
Qed.

Lemma wp_syncDaemonSet a newDs s :
  keyOf newDs = (KDaemonSet, (Namespace a, Name a)) →
  wp (syncDaemonSet a (Namespace a, Name a) newDs) (synced newDs s) s.
Proof.
  intros Hkey. unfold syncDaemonSet. wp_step. apply wp_Get. rewrite <-Hkey.
  intros r s1 Hr1 Hst1 _ Hget. destruct r as [ds|e].
  - case_bool_decide as Heq; [wp_step; by eapply synced_same|].
    assert (keyOf (set_payload (payload newDs) ds) = keyOf newDs) as Hkds.
    { pose proof Hget as Hf. rewrite Hkey in Hf. apply (served_found _ Hserved) in Hf.
      unfold keyOf in *. cbn. congruence. }
    wp_step. eapply wp_mono;
      [by apply (wp_update_synced newDs (set_payload (payload newDs) ds) s)|].
    intros r s2 H2. by wp_step.
  - destruct Hget as [Hno Hup]. destruct (IsNotFound e) eqn:He.
    + wp_step. eapply wp_mono; [apply (wp_create_synced a newDs s); by auto|].
      intros res s2 H2. by wp_step.
    + wp_step. apply synced_failed; [done|done|]. by intros ?%Hup.
Qed.

(** One RBAC object: on success it is there; the process's copy keeps its name
    and its kind. *)
Definition kept (k : kind) (o : Object) (put : Object → resources → resources)
    (rs rs' : resources) : Prop :=
  rs' = rs ∨ ∃ o', rs' = put o' rs ∧ Ob_Name o' = Ob_Name o ∧ kindOf (payload o') = k.

Lemma wp_syncOne owner ns k get put prepare what s :
  kindOf (payload (get (rbacResources s))) = k →
  (∀ o, keyOf (prepare o) = keyOf o) →
  let key := (k, (ns, Ob_Name (get (rbacResources s)))) in
  wp (syncOne owner ns k get put prepare what) (λ r s',
    only_at key s s' ∧ (r = None → is_Some (stored (requests s') !! key)) ∧
    kept k (get (rbacResources s)) put (rbacResources s) (rbacResources s') ∧
    (responsive stored → r = None)) s.
Proof.
  intros Hkind Hprep. cbn zeta. unfold syncOne. do 3 wp_step. apply wp_Get.
  set (o := get (rbacResources s)) in *. intros r s1 Hr1 Hst1 _ Hget. destruct r as [o1|e].
  { wp_step. split; [intros k' _; by rewrite Hst1|].
    split; [intros _; rewrite Hst1, Hget; by eexists|]. split; [by left|done]. }
  destruct Hget as [Hno Hresp]. destruct (IsNotFound e) eqn:He; cycle 1.
  { wp_step. split; [intros k' _; by rewrite Hst1|]. split; [done|]. split; [by left|].
    by intros ?%Hresp. }
  wp_step. set (o1 := prepare _).
  assert (keyOf o1 = (k, (ns, Ob_Name o))) as Hk1 by (unfold o1; rewrite Hprep, <-Hkind; done).
  eapply wp_mono; [apply wp_createOwned|]. cbn beta. rewrite Hk1.
  intros [e' o'] s2 (Hr2 & Hk2 & Hp2 & Hat & Hdone & Hup). do 2 wp_step.
  unfold keyOf in Hk2. injection Hk2 as Hk2' Hns' Hn'.
  set (s3 := set_rbac _ s2).
  assert (only_at (k, (ns, Ob_Name o)) s s3) as Hat'.
  { intros k' Hne. cbn. rewrite (Hat k' Hne). by rewrite Hst1. }
  assert (kept k o put (rbacResources s) (rbacResources s3)) as Hkept.
  { right. exists o'. cbn. by rewrite Hr2, Hr1. }
  destruct e' as [e'|]; wp_step; (split; [done|]; split; [|split; [done|]]); try done.
  - intros Hup'. assert (Some e' = None) by (apply Hup; [done|rewrite Hst1; auto]). done.
  - intros _. cbn. rewrite Hdone by done. by eexists.
Qed.

Lemma setSubject_key ns o : keyOf (setSubject ns o) = keyOf o.
Proof. unfold setSubject. by destruct o as [? ? ? ? []]. Qed.

(** The three of them. *)
Lemma wp_syncRbacResources owner ns s :
  rbac_ok (rbacResources s) →
  let names := rbacNames (rbacResources s) in
  wp (syncRbacResources owner ns) (λ r s',
    rbac_ok (rbacResources s') ∧ rbacNames (rbacResources s') = names ∧
    (∀ k key, k = KConfigMap ∨ k = KDaemonSet →
       stored (requests s') !! (k, key) = stored (requests s) !! (k, key)) ∧
    (r = None →
       is_Some (stored (requests s') !! (KServiceAccount, (ns, names.1.1))) ∧
       is_Some (stored (requests s') !! (KRole, (ns, names.1.2))) ∧
       is_Some (stored (requests s') !! (KRoleBinding, (ns, names.2)))) ∧
    (responsive stored → r = None)) s.
Proof.
  intros (Hk1 & Hk2 & Hk3). cbn zeta. unfold syncRbacResources.
  wp_step. eapply wp_mono; [by apply wp_syncOne|]. cbn beta zeta.
  intros r1 s1 (Hat1 & Hin1 & Hrb1 & Hup1).
  assert (rbac_ok (rbacResources s1) ∧ rbacNames (rbacResources s1) = rbacNames (rbacResources s))
    as [(Hk1' & Hk2' & Hk3') Hn1].
  { destruct Hrb1 as [->|(o' & -> & Hn & Hk)]; [done|]. unfold rbacNames. cbn. by rewrite Hn. }
  assert (∀ k key, k ≠ KServiceAccount →
    stored (requests s1) !! (k, key) = stored (requests s) !! (k, key)) as Hf1
    by (intros k key Hne; apply Hat1; congruence).
  destruct r1 as [e|].
  { split; [done|]. split; [done|]. split; [intros k key [-> | ->]; by apply Hf1|].
    split; [done|]. by intros ?%Hup1. }
  wp_step. eapply wp_mono; [by apply wp_syncOne|]. cbn beta zeta.
  intros r2 s2 (Hat2 & Hin2 & Hrb2 & Hup2).
  assert (rbac_ok (rbacResources s2) ∧ rbacNames (rbacResources s2) = rbacNames (rbacResources s1))
    as [(Hk1'' & Hk2'' & Hk3'') Hn2].
  { destruct Hrb2 as [->|(o' & -> & Hn & Hk)]; [done|]. unfold rbacNames. cbn. by rewrite Hn. }
  assert (∀ k key, k ≠ KRole →
    stored (requests s2) !! (k, key) = stored (requests s1) !! (k, key)) as Hf2
    by (intros k key Hne; apply Hat2; congruence).
  destruct r2 as [e|].
  { split; [done|]. split; [congruence|].
    split; [intros k key [-> | ->]; rewrite Hf2, Hf1; done|]. split; [done|].
    by intros ?%Hup2. }
  eapply wp_mono; [apply wp_syncOne; [done|apply setSubject_key]|]. cbn beta zeta.
  intros r3 s3 (Hat3 & Hin3 & Hrb3 & Hup3).
  assert (rbac_ok (rbacResources s3) ∧ rbacNames (rbacResources s3) = rbacNames (rbacResources s2))
    as [Hok3 Hn3].
  { destruct Hrb3 as [->|(o' & -> & Hn & Hk)]; [done|]. unfold rbacNames. cbn. by rewrite Hn. }
  assert (∀ k key, k ≠ KRoleBinding →
    stored (requests s3) !! (k, key) = stored (requests s2) !! (k, key)) as Hf3
    by (intros k key Hne; apply Hat3; congruence).
  split; [done|]. split; [congruence|]. split.
  { intros k key [-> | ->]; rewrite Hf3, Hf2, Hf1; done. }
  split; [|done]. intros Hr3. unfold rbacNames in *. injection Hn1 as Hna1 Hnb1 Hnc1.
  injection Hn2 as Hna2 Hnb2 Hnc2. cbn. split; [|split].
  - rewrite Hf3, Hf2 by done. by apply Hin1.
  - rewrite Hf3, <-Hnb1 by done. by apply Hin2.
  - rewrite <-Hnc1, <-Hnc2. by apply Hin3.
Qed.

(** ** Convergence *)

(** The config maps and the DaemonSets of the others stay as they are. *)
Definition elsewhere (key : NamespacedName) (s s' : RState) : Prop :=
  ∀ k key', k = KConfigMap ∨ k = KDaemonSet → key' ≠ key →
    stored (requests s') !! (k, key') = stored (requests s) !! (k, key').

Lemma wp_Reconcile key s :
  rbac_ok (rbacResources s) →
  wp (Reconcile key) (λ r s',
    rbac_ok (rbacResources s') ∧ rbacNames (rbacResources s') = rbacNames (rbacResources s) ∧
    (∀ a, apiGetAuth (requests s) key = Ok a → r = None →
       in_place a (rbacNames (rbacResources s)) (stored (requests s'))) ∧
    (∀ a, apiGetAuth (requests s) key = Ok a → responsive stored → r = None) ∧
    elsewhere key s s') s.
Proof.
  intros Hok. unfold Reconcile. wp_step. apply wp_ask. cbn zeta.
  destruct (apiGetAuth _ _) as [a|e] eqn:Ha; cycle 1.
  { wp_step; wp_step; (split; [done|]; split; [done|]; split; [intros a [=]|];
      split; [intros a [=]|]; intros k key' _ _; cbn; by rewrite (served_read _ Hserved)). }
  pose proof (served_auth _ Hserved _ _ _ Ha) as ->. do 2 wp_step. cbn beta iota.
  set (sa := Ob_Name _). set (s0 := {| rbacResources := _ |}).
  unfold ConfigMap. set (newCm := configMapObject _).
  assert (payload newCm = desiredCm a sa) as Hcm by done.
  assert (keyOf newCm = (KConfigMap, (Namespace a, Name a))) as Hkcm by done.
  set (newDs := daemonSetObject _).
  assert (keyOf newDs = (KDaemonSet, (Namespace a, Name a)) ∧ payload newDs = desiredDs a sa)
    as [Hkds Hds].
  { unfold newDs, desiredDs, Daemonset. by destruct (selectNodes _). }
  wp_step. eapply wp_mono; [by apply wp_syncConfigMap|]. unfold synced. rewrite Hkcm.
  intros r1 s1 (Hr1 & Hat1 & Hin1 & Hup1).
  assert (elsewhere (Namespace a, Name a) s s1) as Hel1.
  { intros k key' Hk Hne. rewrite Hat1 by congruence. cbn. by rewrite (served_read _ Hserved). }
  destruct r1 as [e|].
  { rewrite Hr1. split; [done|]. split; [done|]. split; [done|]. split; [by intros ? ? ?%Hup1|done]. }
  wp_step. eapply wp_mono; [apply wp_syncRbacResources; by rewrite Hr1|]. cbn beta zeta.
  intros r2 s2 (Hok2 & Hn2 & Hf2 & Hin2 & Hup2). rewrite Hr1 in Hn2, Hin2.
  assert (elsewhere (Namespace a, Name a) s s2) as Hel2.
  { intros k key' Hk Hne. rewrite Hf2 by done. by apply Hel1. }
  destruct r2 as [e|].
  { split; [done|]. split; [done|]. split; [done|]. split; [by intros ? ? ?%Hup2|done]. }
  eapply wp_mono; [by apply wp_syncDaemonSet|]. unfold synced. rewrite Hkds.
  intros r3 s3 (Hr3 & Hat3 & Hin3 & Hup3). rewrite Hr3.
  split; [done|]. split; [done|]. split; [|split; [by auto|]]; cycle 1.
  { intros k key' Hk Hne. rewrite Hat3 by congruence. by apply Hel2. }
  intros a' [= <-] ->. destruct (Hin2 eq_refl) as (Hsa & Hrole & Hrb).
  split; cbn [fst snd rbacNames] in *.
  - rewrite (Hat3 (KConfigMap, _)) by done. rewrite Hf2 by by left.
    specialize (Hin1 eq_refl). rewrite Hcm in Hin1. by apply base_configMap in Hin1.
  - by rewrite Hin3, Hds.
  - by rewrite (Hat3 (KServiceAccount, _)).
  - by rewrite (Hat3 (KRole, _)).
  - by rewrite (Hat3 (KRoleBinding, _)).
Qed.

(** ** Idempotence *)

(** Nothing was written and the process's objects are as before. *)
Record unchanged (s s' : RState) : Prop := {
  unchanged_rbac : rbacResources s' = rbacResources s;
  unchanged_stored : stored (requests s') = stored (requests s);
  unchanged_writes : writes (requests s') = writes (requests s);
}.

Lemma unchanged_refl s : unchanged s s.
Proof. done. Qed.

Lemma unchanged_trans s1 s2 s3 : unchanged s1 s2 → unchanged s2 s3 → unchanged s1 s3.
Proof. intros [? ? ?] [? ? ?]. split; congruence. Qed.

(** Where the object is as desired, a step only reads. *)
Lemma wp_syncConfigMap_unchanged a newCm key s :
  payload <$> stored (requests s) !! (KConfigMap, key) = Some (payload newCm) →
  wp (syncConfigMap a key newCm) (λ _ s', unchanged s s') s.
Proof.
  intros Hthere. unfold syncConfigMap. wp_step. apply wp_Get. intros r s1 Hr1 Hst1 Hw1 Hget.
  destruct r as [o|e].
  - rewrite Hget in Hthere. injection Hthere as Heq. rewrite bool_decide_true by done. by wp_step.
  - destruct (IsNotFound e); [by rewrite (proj1 Hget) in Hthere|]. by wp_step.
Qed.

(** A DaemonSet in which the server has filled in fields is sent again. *)
Definition resent (newDs : Object) (key : NamespacedName) (s s' : RState) : Prop :=
  ∃ ds r, stored (requests s) !! (KDaemonSet, key) = Some ds ∧ payload ds ≠ payload newDs ∧
    rbacResources s' = rbacResources s ∧ only_at (KDaemonSet, key) s s' ∧
    writes (requests s') = RqUpdate (set_payload (payload newDs) ds) r :: writes (requests s) ∧
    base ∘ payload <$> stored (requests s') !! (KDaemonSet, key) = Some (base (payload newDs)).

Lemma wp_syncDaemonSet_again a newDs key s :
  kindOf (payload newDs) = KDaemonSet →
  base ∘ payload <$> stored (requests s) !! (KDaemonSet, key) = Some (base (payload newDs)) →
  wp (syncDaemonSet a key newDs) (λ _ s', unchanged s s' ∨ resent newDs key s s') s.
Proof.
  intros Hkind Hthere. unfold syncDaemonSet. wp_step. apply wp_Get.
  intros r s1 Hr1 Hst1 Hw1 Hget. destruct r as [ds|e]; cycle 1.
  { destruct (IsNotFound e); [by rewrite (proj1 Hget) in Hthere|]. wp_step. by left. }
  case_bool_decide as Heq; [wp_step; by left|]. wp_step. apply wp_ask. cbn zeta. wp_step.
  right. exists ds, (apiUpdate (requests s1) (set_payload (payload newDs) ds)).
  split; [done|]. split; [done|]. split; [done|].
  pose proof (served_found _ Hserved _ _ _ _ Hget) as Hf. unfold keyOf in Hf.
  injection Hf as _ Hkey.
  assert (keyOf (set_payload (payload newDs) ds) = (KDaemonSet, key)) as Hk.
  { unfold keyOf. cbn. by rewrite Hkind, Hkey. }
  destruct (apiUpdate _ _) as [o2|e] eqn:Hu.
  - destruct (served_update _ Hserved _ _ _ Hu) as [Hst [_ _ Hp]]. rewrite Hk in Hst.
    split; [|split; [by rewrite <-Hw1|]].
    + intros k' Hne. cbn. rewrite Hst, <-Hst1. by apply lookup_insert_ne.
    + cbn. rewrite Hst, lookup_insert_eq. cbn. by rewrite Hp.
  - split; [|split; [by rewrite <-Hw1|]]; [intros k' _|];
      cbn; by rewrite (served_read _ Hserved), Hst1.
Qed.

Lemma wp_syncOne_unchanged owner ns k get put prepare what s :
  is_Some (stored (requests s) !! (k, (ns, Ob_Name (get (rbacResources s))))) →
  wp (syncOne owner ns k get put prepare what) (λ _ s', unchanged s s') s.
Proof.
  intros Hthere. unfold syncOne. do 3 wp_step. apply wp_Get. intros r s1 Hr1 Hst1 Hw1 Hget.
  destruct r as [o|e]; [by wp_step|].
  destruct (IsNotFound e); [|by wp_step]. rewrite (proj1 Hget) in Hthere by done.
  by destruct Hthere.
Qed.

(** [check!] after a step that changes nothing. *)
Lemma wp_check_unchanged m k (Q : RState → Prop) s :
  wp m (λ _ s', unchanged s s') s →
  (∀ s', unchanged s s' → Q s' ∧ wp k (λ _ s'', Q s'') s') →
  wp (check m k) (λ _ s', Q s') s.
Proof.
  intros Hm Hk. wp_step. eapply wp_mono; [exact Hm|]. cbn beta. intros [e|] s1 H1; by apply Hk.
Qed.

Lemma wp_syncRbacResources_unchanged owner ns s :
  let names := rbacNames (rbacResources s) in
  is_Some (stored (requests s) !! (KServiceAccount, (ns, names.1.1))) →
  is_Some (stored (requests s) !! (KRole, (ns, names.1.2))) →
  is_Some (stored (requests s) !! (KRoleBinding, (ns, names.2))) →
  wp (syncRbacResources owner ns) (λ _ s', unchanged s s') s.
Proof.
  cbn. intros Hsa Hrole Hrb. unfold syncRbacResources.
  apply wp_check_unchanged; [by apply wp_syncOne_unchanged|]. intros s1 H1. split; [done|].
  pose proof H1 as [Hr1 Hs1 _]. apply wp_check_unchanged.
  { eapply wp_mono; [apply wp_syncOne_unchanged; by rewrite Hr1, Hs1|]. cbn beta.
    intros _ s2 H2. exact H2. }
  intros s2 H2. pose proof (unchanged_trans _ _ _ H1 H2) as H3. split; [done|].
  destruct H3 as [Hr3 Hs3 _].
  eapply wp_mono; [apply wp_syncOne_unchanged; by rewrite Hr3, Hs3|]. cbn beta.
  intros _ s3 H4. eapply unchanged_trans; [exact H1|]. by eapply unchanged_trans.
Qed.

(** A further run when everything is in place. *)
Definition again (a : Authenticator) (s s' : RState) : Prop :=
  let names := rbacNames (rbacResources s) in
  rbacResources s' = rbacResources s ∧ in_place a names (stored (requests s')) ∧
  (writes (requests s') = writes (requests s) ∨
   ∃ ds r, stored (requests s) !! (KDaemonSet, (Namespace a, Name a)) = Some ds ∧
     payload ds ≠ desiredDs a names.1.1 ∧
     writes (requests s') = RqUpdate (set_payload (desiredDs a names.1.1) ds) r :: writes (requests s)).

Lemma again_unchanged a s s' :
  in_place a (rbacNames (rbacResources s)) (stored (requests s)) → unchanged s s' → again a s s'.
Proof. intros Hin [Hr Hst Hw]. split; [done|]. split; [by rewrite Hst|by left]. Qed.

Lemma again_resent a newDs s s1 s2 :
  in_place a (rbacNames (rbacResources s)) (stored (requests s)) → unchanged s s1 →
  payload newDs = desiredDs a (rbacNames (rbacResources s)).1.1 →
  resent newDs (Namespace a, Name a) s1 s2 → again a s s2.
Proof.
  intros [Hcm Hds Hsa Hrole Hrb] [Hr Hst Hw] Hp (ds & r & Hget & Hne & Hr2 & Hat & Hw2 & Hds2).
  rewrite Hst in Hget. split; [congruence|]. split.
  - split.
    + by rewrite Hat, Hst.
    + by rewrite Hds2, Hp.
    + by rewrite Hat, Hst.
    + by rewrite Hat, Hst.
    + by rewrite Hat, Hst.
  - right. exists ds, r. rewrite <-Hp, <-Hw. done.
Qed.

Lemma wp_Reconcile_again key a s :
  apiGetAuth (requests s) key = Ok a →
  in_place a (rbacNames (rbacResources s)) (stored (requests s)) →
  wp (Reconcile key) (λ _ s', again a s s') s.
Proof.
  intros Ha Hin. pose proof Hin as [Hcm Hds Hsa Hrole Hrb].
  pose proof (served_auth _ Hserved _ _ _ Ha) as ->.
  unfold Reconcile. wp_step. apply wp_ask. cbn zeta. rewrite Ha. do 2 wp_step. cbn beta iota.
  unfold ConfigMap. set (s0 := {| rbacResources := _; requests := _ |}).
  assert (unchanged s s0) as H0 by (split; [done|by apply (served_read _ Hserved)|done]).
  assert (stored (requests s0) = stored (requests s)) as Hst0 by apply H0.
  cbn [fst]. apply wp_check_unchanged; [apply wp_syncConfigMap_unchanged; by rewrite Hst0|].
  intros s1 H1. pose proof (unchanged_trans _ _ _ H0 H1) as H01.
  split; [by apply again_unchanged|]. pose proof H01 as [Hr1 Hs1 _].
  apply wp_check_unchanged; [apply wp_syncRbacResources_unchanged; by rewrite Hs1, Hr1|].
  intros s2 H2. pose proof (unchanged_trans _ _ _ H01 H2) as H02.
  split; [by apply again_unchanged|]. pose proof H02 as [_ Hs2 _].
  set (newDs := daemonSetObject _).
  assert (payload newDs = desiredDs a (rbacNames (rbacResources s)).1.1) as Hp.
  { unfold newDs, desiredDs, Daemonset. by destruct (selectNodes _). }
  eapply wp_mono; [apply wp_syncDaemonSet_again|].
  - by rewrite Hp.
  - by rewrite Hs2, Hp.
  - cbn beta. intros _ s3 [H3|H3].
    + apply again_unchanged; [done|]. by eapply unchanged_trans.
    + by eapply again_resent.
Qed.
End specs.
