(* ===== verification/ControllerTheorems.v ===== *)
(** * Theorems about the reconciler

    Convergence, repetition, and the two ways in which owners are lost, over any
    API server with the conventions [served]; a concrete server shows that they
    can hold. *)
From S2P Require Import Prelude GoStrings Api ConfigGen HostapdConf Controller ControllerSpec.

(** ** Owners *)
Section owners.
Context `{ApiServer} (stored : Requests → gmap ObjKey Object) (Hserved : served stored).

(** The requests of a computation, of which every creation names [r] as the
    only owner. *)
Definition creates_for (r : OwnerRef) (rq : request) : Prop :=
  ∀ o res, rq = RqCreate o res → OwnerReferences o = [r].

Definition sent_for (r : OwnerRef) (s s' : RState) : Prop :=
  ∃ new, requests s' = new ++ requests s ∧ Forall (creates_for r) new.

Definition rbac_owned (r : OwnerRef) (rs : resources) : Prop :=
  OwnerReferences (serviceAccount_ rs) = [r] ∧ OwnerReferences (role rs) = [r] ∧
  OwnerReferences (roleBinding rs) = [r].

Lemma sent_for_trans r s1 s2 s3 : sent_for r s1 s2 → sent_for r s2 s3 → sent_for r s1 s3.
Proof.
  intros (n1 & H1 & F1) (n2 & H2 & F2). exists (n2 ++ n1). split.
  - by rewrite H2, H1, app_assoc.
  - by apply Forall_app.
Qed.

(** The reference of an object owned by another Authenticator stays. *)
Lemma SetControllerReference_other owner r o :
  OwnerReferences o = [r] → Owner_Name r ≠ Name owner →
  OwnerReferences (snd (SetControllerReference owner o)) = [r].
Proof.
  intros Ho Hr. unfold SetControllerReference. destruct (validateOwner owner o); [done|].
  rewrite Ho. cbn. unfold referSameObject. by rewrite bool_decide_false.
Qed.

(** An object without owners in the owner's namespace gets its owner. *)
Lemma SetControllerReference_fresh owner o :
  OwnerReferences o = [] → Ob_Namespace o = Namespace owner →
  SetControllerReference owner o = (None, set_OwnerReferences [ownerRef owner] o).
Proof.
  intros Ho Hns. unfold SetControllerReference, validateOwner. rewrite Ho, Hns.
  repeat case_bool_decide; try done; congruence.
Qed.

Lemma wp_syncOne_owner owner ns k get put prepare what r s :
  OwnerReferences (get (rbacResources s)) = [r] → Owner_Name r ≠ Name owner →
  (∀ o, OwnerReferences (prepare o) = OwnerReferences o) →
  wp (syncOne owner ns k get put prepare what) (λ _ s',
    (rbacResources s' = rbacResources s ∨
     ∃ o', rbacResources s' = put o' (rbacResources s) ∧ OwnerReferences o' = [r]) ∧
    sent_for r s s') s.
Proof.
  intros Ho Hr Hprep. unfold syncOne. do 3 wp_step. apply wp_ask. cbn zeta.
  set (rq := RqGet _ _ _).
  assert (∀ rs, sent_for r s {| rbacResources := rs; requests := rq :: requests s |}) as Hget.
  { intros rs. exists [rq]. split; [done|]. apply Forall_singleton. intros o res [=]. }
  destruct (apiGet _ _ _) as [o|e]; [wp_step; by auto|].
  destruct (IsNotFound e); [|wp_step; by auto].
  wp_step. set (o1 := prepare _). unfold createOwned. cbn zeta. wp_step. apply wp_ask. cbn zeta.
  set (o2 := snd _).
  assert (OwnerReferences o2 = [r]) as Ho2.
  { apply SetControllerReference_other; [|done]. unfold o1. by rewrite Hprep. }
  set (s1 := {| rbacResources := rbacResources s;
    requests := RqCreate o2 (apiCreate (rq :: requests s) o2) :: rq :: requests s |}).
  assert (∀ rs, sent_for r s (set_rbac rs s1)) as Hsent.
  { intros rs. exists [RqCreate o2 (apiCreate (rq :: requests s) o2); rq].
    split; [done|]. repeat apply Forall_cons_2; [|by intros o res [=]|done].
    by intros o res [= <- _]. }
  destruct (apiCreate _ o2) as [o3|e'] eqn:Hc; repeat wp_step;
    (split; [right; eexists; split; [done|]|apply Hsent]); [|done].
  destruct (served_create _ Hserved _ _ _ Hc) as [_ Hacc]. by rewrite (accepted_owners _ _ Hacc).
Qed.

Lemma setSubject_owners ns o : OwnerReferences (setSubject ns o) = OwnerReferences o.
Proof. unfold setSubject. by destruct o as [? ? ? ? []]. Qed.

(** C17. The RBAC objects are one set for the whole process and keep the first
    owner they were given: once they belong to an Authenticator, what is created
    for an Authenticator of another name is sent with the first one's reference,
    since the error of [SetControllerReference] is dropped. *)
Theorem rbac_owner_sticks r owner ns s :
  rbac_owned r (rbacResources s) → Owner_Name r ≠ Name owner →
  wp (syncRbacResources owner ns) (λ _ s',
    rbac_owned r (rbacResources s') ∧ sent_for r s s') s.
Proof.
  intros (H1 & H2 & H3) Hr. unfold syncRbacResources.
  wp_step. eapply wp_mono; [by apply (wp_syncOne_owner _ _ _ _ _ _ _ r)|]. cbn beta.
  intros e1 s1 [Hrb1 Hs1].
  assert (rbac_owned r (rbacResources s1)) as (H1' & H2' & H3')
    by (destruct Hrb1 as [->|(o' & -> & Ho')]; done).
  destruct e1; [done|].
  wp_step. eapply wp_mono; [by apply (wp_syncOne_owner _ _ _ _ _ _ _ r)|]. cbn beta.
  intros e2 s2 [Hrb2 Hs2]. pose proof (sent_for_trans _ _ _ _ Hs1 Hs2) as Hs12.
  assert (rbac_owned r (rbacResources s2)) as (H1'' & H2'' & H3'')
    by (destruct Hrb2 as [->|(o' & -> & Ho')]; done).
  destruct e2; [done|].
  eapply wp_mono; [apply (wp_syncOne_owner _ _ _ _ _ _ _ r); [done|done|apply setSubject_owners]|].
  cbn beta. intros e3 s3 [Hrb3 Hs3]. split; [|by eapply sent_for_trans].
  destruct Hrb3 as [->|(o' & -> & Ho')]; done.
Qed.
End owners.

(** ** Reconciling *)
Section theorems.
Context `{ApiServer} (stored : Requests → gmap ObjKey Object) (Hserved : served stored).

(** Convergence: [Reconcile] never panics; when it reports success for an
    Authenticator that exists, the config map, the DaemonSet and the RBAC objects
    are there as the generator describes them; and if the API server is up it
    does report success. *)
Lemma Reconcile_converges key a s :
  rbac_ok (rbacResources s) → apiGetAuth (requests s) key = Ok a →
  wp (Reconcile key) (λ r s',
    (r = None → in_place a (rbacNames (rbacResources s)) (stored (requests s'))) ∧
    (responsive stored → r = None)) s.
Proof.
  intros Hok Ha. eapply wp_mono; [by apply (wp_Reconcile stored)|]. cbn beta.
  intros r s' (_ & _ & Hin & Hup & _). split; [by apply Hin|by eapply Hup].
Qed.

(** C15. Repetition: once everything is in place, a further run leaves it in
    place and writes nothing, except that a DaemonSet in which the server has
    filled in fields of its own is sent once more. *)
Theorem Reconcile_again key a s :
  apiGetAuth (requests s) key = Ok a →
  in_place a (rbacNames (rbacResources s)) (stored (requests s)) →
  wp (Reconcile key) (λ _ s', again stored a s s') s.
Proof. by apply wp_Reconcile_again. Qed.

Lemma wp_syncConfigMap_update a newCm cm s :
  responsive stored → keyOf newCm = (KConfigMap, (Namespace a, Name a)) →
  stored (requests s) !! (KConfigMap, (Namespace a, Name a)) = Some cm →
  payload cm ≠ payload newCm →
  wp (syncConfigMap a (Namespace a, Name a) newCm) (λ r s', r = None ∧
    rbacResources s' = rbacResources s ∧
    ∃ cm', stored (requests s') !! (KConfigMap, (Namespace a, Name a)) = Some cm' ∧
      accepted newCm cm') s.
Proof.
  intros Hup Hkey Hcm Hne. unfold syncConfigMap. wp_step. apply (wp_Get stored Hserved).
  intros r s1 Hr1 Hst1 _ Hget. destruct r as [o|e]; cycle 1.
  { destruct Hget as [Hno He]. rewrite Hno in Hcm; [done|by apply He]. }
  assert (o = cm) as -> by congruence. rewrite bool_decide_false by done.
  wp_step. apply wp_ask. cbn zeta. wp_step.
  destruct (responsive_update _ Hup (requests s1) newCm) as [cm' Hu].
  { rewrite Hst1, Hkey, Hcm. by eexists. }
  rewrite Hu. split; [done|]. split; [done|]. exists cm'.
  destruct (served_update _ Hserved _ _ _ Hu) as [Hst Hacc]. cbn.
  by rewrite Hst, Hkey, lookup_insert_eq.
Qed.

(** C16. Updating a config map takes its owners away: the code sends the
    generated object, which has none, instead of the one it read, so that the
    config map outlives its Authenticator. *)
Theorem Reconcile_update_drops_owners key a cm s :
  responsive stored → rbac_ok (rbacResources s) → apiGetAuth (requests s) key = Ok a →
  stored (requests s) !! (KConfigMap, key) = Some cm →
  payload cm ≠ desiredCm a (rbacNames (rbacResources s)).1.1 →
  wp (Reconcile key) (λ _ s', ∃ cm',
    stored (requests s') !! (KConfigMap, key) = Some cm' ∧ OwnerReferences cm' = []) s.
Proof.
  intros Hup Hok Ha Hcm Hne. pose proof (served_auth _ Hserved _ _ _ Ha) as ->.
  unfold Reconcile. wp_step. apply wp_ask. cbn zeta. rewrite Ha. do 2 wp_step. cbn beta iota.
  unfold ConfigMap. wp_step. eapply wp_mono; [apply (wp_syncConfigMap_update _ _ cm); try done|].
  { cbn [requests]. by rewrite (served_read _ Hserved). }
  cbn beta. intros r1 s1 (-> & Hr1 & cm' & Hcm' & Hacc).
  wp_step. eapply wp_mono; [apply (wp_syncRbacResources stored Hserved); by rewrite Hr1|].
  cbn beta zeta. intros r2 s2 (_ & _ & Hf & _ & Hup2). rewrite (Hup2 Hup).
  eapply wp_mono; [apply (wp_syncDaemonSet stored Hserved)|].
  { unfold keyOf, Daemonset. by destruct (selectNodes _). }
  intros r3 s3 (_ & Hat & _). exists cm'. split.
  - rewrite Hat; [|unfold keyOf, Daemonset; by destruct (selectNodes _)].
    rewrite Hf by by left. done.
  - by rewrite (accepted_owners _ _ Hacc).
Qed.
End theorems.

(** ** A server *)
Definition storeOne (rq : request) (st : gmap ObjKey Object) : gmap ObjKey Object :=
  match rq with
  | RqCreate _ (Ok o) | RqUpdate _ (Ok o) => <[keyOf o := o]> st
  | _ => st
  end.
Definition store (tr : Requests) : gmap ObjKey Object := foldr storeOne ∅ tr.

Section server.
Variable auths : gmap NamespacedName Authenticator.
Variable defaults : gmap string string.

Definition fill (p : Payload) : Payload :=
  match p with
  | PDaemonSet spec _ => PDaemonSet spec defaults
  | _ => p
  end.
Definition acceptedAs (o : Object) : Object := set_ResourceVersion "1" (set_payload (fill (payload o)) o).

Definition missing {A} : result A := Err (Error RNotFound "not found").

#[local] Instance server : ApiServer := {|
  apiGetAuth := λ _ key,
    match auths !! key with
    | Some a => if bool_decide (key = (Namespace a, Name a)) then Ok a else missing
    | None => missing
    end;
  apiGet := λ tr k key, match store tr !! (k, key) with Some o => Ok o | None => missing end;
  apiCreate := λ tr o,
    match store tr !! keyOf o with
    | Some _ => Err (Error ROther "already exists")
    | None => Ok (acceptedAs o)
    end;
  apiUpdate := λ tr o,
    match store tr !! keyOf o with Some _ => Ok (acceptedAs o) | None => missing end;
|}.

Lemma acceptedAs_accepted o : accepted o (acceptedAs o).
Proof. destruct o as [? ? ? ? []]; done. Qed.

Lemma store_found tr k key o : store tr !! (k, key) = Some o → keyOf o = (k, key).
Proof.
  assert (∀ tr kk, store tr !! kk = Some o → keyOf o = kk) as Hall; [|by apply Hall].
  clear. induction tr as [|rq tr IH]; intros kk; [done|].
  destruct rq as [| |? [o1|]|? [o1|]]; cbn; try apply IH;
    (destruct (decide (keyOf o1 = kk)) as [<-|];
      [by rewrite lookup_insert_eq; intros [= <-]|rewrite lookup_insert_ne by done; apply IH]).
Qed.

Lemma server_served : served store.
Proof.
  split; cbn.
  - intros tr key a. destruct (auths !! key) as [a'|]; [|done].
    case_bool_decide; [|done]. by intros [= <-].
  - intros tr k key o. unfold missing. destruct (store tr !! (k, key)); split; congruence.
  - apply store_found.
  - intros tr k key e. by destruct (store tr !! (k, key)).
  - intros tr o o'. destruct (store tr !! keyOf o); [done|]. intros [= <-].
    split; [|apply acceptedAs_accepted]. by rewrite (accepted_key _ _ (acceptedAs_accepted o)).
  - intros tr o o'. destruct (store tr !! keyOf o); [|done]. intros [= <-].
    split; [|apply acceptedAs_accepted]. by rewrite (accepted_key _ _ (acceptedAs_accepted o)).
  - intros tr [| |o [o'|]|o [o'|]] Hr; try done; by destruct (Hr o o').
Qed.

Lemma server_responsive : responsive store.
Proof.
  split; cbn.
  - intros tr k key ->. by eexists.
  - intros tr o ->. by eexists.
  - intros tr o [o' ->]. by eexists.
Qed.
End server.

(** ** Witnesses *)
Definition sampleAuth (ns name : string) (ifaces : list string) : Authenticator :=
  {| Name := name; Namespace := ns; UID := name; ResourceVersion := "1";
     Spec := {| Enabled := true; Interfaces := ifaces;
                Authentication := {| Local := None; Radius_ := None |};
                Configuration := None; Image := ""; NodeSelector := None;
                TrafficControl_ := None |};
     Status := {| Status_Interfaces := [] |} |}.

Definition firstAuth : Authenticator := sampleAuth "default" "first" ["ens1"].
Definition firstKey : NamespacedName := ("default", "first").

(** A server that fills in a field of every DaemonSet. *)
Definition sampleServer : ApiServer :=
  server {[firstKey := firstAuth; ("other", "second") := sampleAuth "other" "second" ["ens2"]]}
    {["dnsPolicy" := "ClusterFirst"]}.

Definition manifest (name : string) (p : Payload) : Object :=
  {| Ob_Name := name; Ob_Namespace := ""; Ob_ResourceVersion := ""; OwnerReferences := [];
     payload := p |}.

Definition startState : RState :=
  {| rbacResources := {| serviceAccount_ := manifest "authenticator" (PServiceAccount "");
                         role := manifest "authenticator" (PRole "rules");
                         roleBinding := manifest "authenticator" (PRoleBinding "" "") |};
     requests := [] |}.

(** The state after a run. *)
Definition after (m : M RState (option error)) (s : RState) : RState :=
  match m s with
  | Done _ s' => s'
  | Panic _ s' => s'
  end.

Definition firstRun : RState := after (@Reconcile sampleServer firstKey) startState.

Lemma Reconcile_converges_witness :
  wp (@Reconcile sampleServer firstKey) (λ r s',
    (r = None → in_place firstAuth ("authenticator", "authenticator", "authenticator")
       (store (requests s'))) ∧
    (@responsive sampleServer store → r = None)) startState.
Proof.
  apply (@Reconcile_converges sampleServer store (server_served _ _) firstKey firstAuth startState).
  - split; [|split]; reflexivity.
  - reflexivity.
Defined.

Lemma Reconcile_again_witness :
  wp (@Reconcile sampleServer firstKey) (λ _ s', again store firstAuth firstRun s') firstRun.
Proof.
  apply (@Reconcile_again sampleServer store (server_served _ _)).
  - vm_compute. reflexivity.
  - split; vm_compute; [reflexivity|reflexivity|by eexists..].
Defined.

(** The config map of the first run, read after the Authenticator was changed. *)
Definition changedServer : ApiServer :=
  server {[firstKey := sampleAuth "default" "first" ["ens1"; "ens2"]]} ∅.

Lemma Reconcile_update_drops_owners_witness :
  (OwnerReferences <$> store (requests firstRun) !! (KConfigMap, firstKey)) =
    Some [{| Owner_Name := "first"; Owner_UID := "first" |}] ∧
  wp (@Reconcile changedServer firstKey) (λ _ s', ∃ cm',
    store (requests s') !! (KConfigMap, firstKey) = Some cm' ∧ OwnerReferences cm' = []) firstRun.
Proof.
  split; [vm_compute; reflexivity|].
  destruct (store (requests firstRun) !! (KConfigMap, firstKey)) as [cm|] eqn:Hcm;
    [|vm_compute in Hcm; discriminate Hcm].
  eapply (@Reconcile_update_drops_owners changedServer store (server_served _ _) firstKey
    (sampleAuth "default" "first" ["ens1"; "ens2"]) cm firstRun (server_responsive _ _));
    [vm_compute; auto|vm_compute; reflexivity|exact Hcm|].
  vm_compute in Hcm. injection Hcm as <-. vm_compute. discriminate.
Defined.

(** After the first run, in which the objects were created for "first", the role
    of "second" is created in another namespace with "first" as its owner. *)
Lemma rbac_owner_sticks_witness :
  let second := sampleAuth "other" "second" ["ens2"] in
  let r := {| Owner_Name := "first"; Owner_UID := "first" |} in
  (OwnerReferences <$> store (requests (after (@syncRbacResources sampleServer second "other")
     firstRun)) !! (KRole, ("other", "authenticator"))) = Some [r] ∧
  wp (@syncRbacResources sampleServer second "other") (λ _ s',
    rbac_owned r (rbacResources s') ∧ sent_for r firstRun s') firstRun.
Proof.
  split; [vm_compute; reflexivity|].
  apply (@rbac_owner_sticks sampleServer store (server_served _ _)).
  - split; [|split]; vm_compute; reflexivity.
  - vm_compute. discriminate.
Defined.
