(* ===== verification/Fleet.v ===== *)
(** * Many Authenticators, one reconciler

    The manager calls [Reconcile] for one key after another, in the order of its
    work queue, as often as events and errors make it.  All calls share the
    reconciler and its RBAC objects.  Here a run of the queue is any list of keys:
    what is in place for one Authenticator stays in place whatever is done for the
    others, so that a run leaves everything in place for which it has reported a
    success once. *)
From S2P Require Import Prelude GoStrings Api ConfigGen HostapdConf Controller ControllerSpec.
From S2P Require Import ControllerTheorems.

Section fleet.
Context `{ApiServer}.

(** The results in the order of the calls. *)
Fixpoint reconcileAll (keys : list NamespacedName) : M RState (list (option error)) :=
  match keys with
  | [] => mret []
  | key :: keys' =>
      r ← Reconcile key;
      rs ← reconcileAll keys';
      mret (r :: rs)
  end.

(** ** Nothing is ever deleted *)
Context (stored : Requests → gmap ObjKey Object) (Hserved : served stored).

Definition grows (s s' : RState) : Prop :=
  ∀ k, is_Some (stored (requests s) !! k) → is_Some (stored (requests s') !! k).

#[local] Instance grows_preorder : PreOrder grows.
Proof. split; [by intros s k|]. intros s1 s2 s3 H1 H2 k Hk. by apply H2, H1. Qed.

Definition growing {A} (m : M RState A) : Prop := keeps True (λ _, True) grows m.

Lemma growing_read {A} (answer : Requests → A) (rq : A → request) :
  (∀ a o o', rq a ≠ RqCreate o (Ok o') ∧ rq a ≠ RqUpdate o (Ok o')) → growing (ask answer rq).
Proof.
  intros Hrq s _. apply wp_ask. split; [done|]. intros k Hk. cbn.
  by rewrite (served_read _ Hserved).
Qed.

Lemma growing_Create o : growing (Create o).
Proof.
  intros s _. apply wp_ask. split; [done|]. intros k Hk. cbn.
  destruct (apiCreate _ o) as [o'|e] eqn:Hc; [|by rewrite (served_read _ Hserved)].
  rewrite (proj1 (served_create _ Hserved _ _ _ Hc)). by apply lookup_insert_is_Some'; right.
Qed.

Lemma growing_Update o : growing (Update o).
Proof.
  intros s _. apply wp_ask. split; [done|]. intros k Hk. cbn.
  destruct (apiUpdate _ o) as [o'|e] eqn:Hc; [|by rewrite (served_read _ Hserved)].
  rewrite (proj1 (served_update _ Hserved _ _ _ Hc)). by apply lookup_insert_is_Some'; right.
Qed.

Lemma growing_createOwned owner o : growing (createOwned owner o).
Proof. apply keeps_bind; [apply growing_Create|]. intros r. apply keeps_ret. Qed.

Lemma growing_Reconcile key : growing (Reconcile key).
Proof.
  assert (∀ f, growing (modify (λ s, set_rbac (f (rbacResources s)) s))) as Hmod
    by (intros f; apply keeps_modify; intros s _; split; [done|by intros k]).
  assert (∀ owner ns k get put prepare what, growing (syncOne owner ns k get put prepare what)) as Hone.
  { intros. unfold growing, syncOne. repeat first [keep_step|by apply growing_read
      |apply growing_createOwned|apply (Hmod (put _))]. }
  unfold growing, Reconcile, GetAuthenticator, syncConfigMap, syncRbacResources, syncDaemonSet, Get.
  repeat first [keep_step|by apply growing_read|apply growing_createOwned|apply growing_Update|apply Hone].
Qed.

(** ** What is in place stays *)
Lemma in_place_elsewhere a names key s s' :
  key ≠ (Namespace a, Name a) → elsewhere stored key s s' → grows s s' →
  in_place a names (stored (requests s)) → in_place a names (stored (requests s')).
Proof.
  intros Hne Hel Hg [Hcm Hds Hsa Hrole Hrb]. split; [| |by apply Hg..].
  - rewrite Hel; auto.
  - rewrite Hel; auto.
Qed.

(** One call, for an Authenticator that is in place. *)
Lemma wp_Reconcile_stays key a s :
  rbac_ok (rbacResources s) →
  (key = (Namespace a, Name a) → apiGetAuth (requests s) key = Ok a) →
  in_place a (rbacNames (rbacResources s)) (stored (requests s)) →
  wp (Reconcile key) (λ _ s',
    in_place a (rbacNames (rbacResources s)) (stored (requests s'))) s.
Proof.
  intros Hok Ha Hin. destruct (decide (key = (Namespace a, Name a))) as [->|Hne].
  - eapply wp_mono; [apply (wp_Reconcile_again stored Hserved _ a); auto|].
    by intros r s' (_ & Hin' & _).
  - intros. unfold wpx. pose proof (wp_Reconcile stored Hserved key s Hok) as Hwp.
    pose proof (growing_Reconcile key s I) as Hg. unfold wpx in Hwp, Hg.
    destruct (Reconcile key s) as [r s'|]; [|done]. destruct Hwp as (_ & _ & _ & _ & Hel).
    by eapply in_place_elsewhere; [| |apply Hg|].
Qed.

(** The Authenticators that the server holds all the time. *)
Definition holds_auths (auths : gmap NamespacedName Authenticator) : Prop :=
  ∀ tr key a, auths !! key = Some a → apiGetAuth tr key = Ok a.

Definition fleet_ok (auths : gmap NamespacedName Authenticator) (keys : list NamespacedName)
    (names : string * string * string) (rs : list (option error)) (s' : RState) : Prop :=
  rbac_ok (rbacResources s') ∧ rbacNames (rbacResources s') = names ∧ length rs = length keys ∧
  (responsive stored → ∀ i key r, keys !! i = Some key → is_Some (auths !! key) →
     rs !! i = Some r → r = None) ∧
  ∀ i key a, keys !! i = Some key → auths !! key = Some a → rs !! i = Some None →
    in_place a names (stored (requests s')).

Lemma wp_reconcileAll auths keys s :
  rbac_ok (rbacResources s) → holds_auths auths →
  let names := rbacNames (rbacResources s) in
  wp (reconcileAll keys) (λ rs s',
    fleet_ok auths keys names rs s' ∧
    ∀ key a, auths !! key = Some a → in_place a names (stored (requests s)) →
      in_place a names (stored (requests s'))) s.
Proof.
  intros Hok Hauths. revert s Hok. induction keys as [|key keys IH]; intros s Hok; cbn [reconcileAll].
  { wp_step. split; [|done]. split; [done|]. split; [done|]. by split. }
  wp_step. pose proof (wp_Reconcile stored Hserved key s Hok) as Hwp.
  assert (∀ k a, auths !! k = Some a → in_place a (rbacNames (rbacResources s)) (stored (requests s)) →
    wp (Reconcile key) (λ _ s', in_place a (rbacNames (rbacResources s)) (stored (requests s'))) s)
    as Hstay.
  { intros k a Hk Hin. apply wp_Reconcile_stays; [done| |done]. intros ->.
    pose proof (Hauths (requests s) _ _ Hk) as Ha.
    by rewrite (served_auth _ Hserved _ _ _ Ha) in Ha. }
  unfold wpx in Hwp, Hstay |- *. destruct (Reconcile key s) as [r s1|]; [|done].
  destruct Hwp as (Hok1 & Hn1 & Hin1 & Hup1 & _). specialize (IH s1 Hok1). rewrite Hn1 in IH.
  unfold mbind, M_bind. unfold wpx in IH. destruct (reconcileAll keys s1) as [rs s2|]; [|done].
  destruct IH as [(Hok2 & Hn2 & Hlen & Hup2 & Hin2) Hkeep]. split; [split; [done|]|].
  - split; [done|]. split; [cbn; congruence|]. split.
    + intros Hresp [|i] key' r' Hi [a Ha] Hr; cbn in Hi, Hr.
      * injection Hi as ->. injection Hr as <-. eapply Hup1; [by apply Hauths|done].
      * by eapply Hup2.
    + intros [|i] key' a Hi Ha Hr; cbn in Hi, Hr.
      * injection Hi as ->. injection Hr as ->. eapply Hkeep; [done|]. apply Hin1; [by apply Hauths|done].
      * by eapply Hin2.
  - intros k a Hk Hin. eapply Hkeep; [done|]. by eapply Hstay.
Qed.

(** What has succeeded once is in place at the end. *)
Lemma wp_fleet_both auths keys s :
  rbac_ok (rbacResources s) → holds_auths auths →
  let names := rbacNames (rbacResources s) in
  wp (reconcileAll keys) (λ rs s',
    (∀ i key a, keys !! i = Some key → auths !! key = Some a → rs !! i = Some None →
       in_place a names (stored (requests s'))) ∧
    (responsive stored → ∀ key a, key ∈ keys → auths !! key = Some a →
       in_place a names (stored (requests s')))) s.
Proof.
  intros Hok Hauths names. eapply wp_mono; [by apply (wp_reconcileAll auths)|]. cbn beta.
  intros rs s' [(_ & _ & Hlen & Hup & Hin) _]. split; [done|].
  intros Hresp key a [i Hi]%list_elem_of_lookup Ha.
  destruct (lookup_lt_is_Some_2 rs i) as [r Hr]; [rewrite Hlen; by eapply lookup_lt_Some|].
  eapply Hin; [done..|]. rewrite Hr. f_equal. eapply Hup; [done..|by eexists|done].
Qed.
(** C14. The whole fleet: over any run of the work queue, whatever order it takes,
    however often it repeats a key and whichever calls fail, nothing panics, and at
    the end everything is in place for every Authenticator for which a call has
    reported success once; and if the API server is up, that is for all of them. *)
Theorem reconcileAll_converges auths keys s :
  rbac_ok (rbacResources s) → holds_auths auths →
  let names := rbacNames (rbacResources s) in
  wp (reconcileAll keys) (λ rs s',
    (∀ i key a, keys !! i = Some key → auths !! key = Some a → rs !! i = Some None →
       in_place a names (stored (requests s'))) ∧
    (responsive stored → ∀ key a, key ∈ keys → auths !! key = Some a →
       in_place a names (stored (requests s')))) s.
Proof. apply wp_fleet_both. Qed.

Lemma wp_fleet auths keys s :
  rbac_ok (rbacResources s) → holds_auths auths →
  wp (reconcileAll keys) (λ _ s',
    responsive stored → ∀ key a, key ∈ keys → auths !! key = Some a →
      in_place a (rbacNames (rbacResources s)) (stored (requests s'))) s.
Proof.
  intros Hok Hauths. eapply wp_mono; [by apply (wp_fleet_both auths)|]. by intros rs s' [_ Hall].
Qed.
End fleet.

(** ** Witness: two Authenticators, the first one again after the second *)
Definition fleetKeys : list NamespacedName := [firstKey; ("other", "second"); firstKey].

Definition fleetAuths : gmap NamespacedName Authenticator :=
  {[firstKey := firstAuth; ("other", "second") := sampleAuth "other" "second" ["ens2"]]}.

Lemma fleetAuths_held : @holds_auths sampleServer fleetAuths.
Proof.
  intros tr key a. unfold fleetAuths. intros [[<- <-]|[_ [<- <-]%lookup_singleton_Some]]%lookup_insert_Some;
    vm_compute; reflexivity.
Qed.

Lemma reconcileAll_converges_witness :
  let names := ("authenticator", "authenticator", "authenticator") in
  wp (@reconcileAll sampleServer fleetKeys) (λ rs s',
    (∀ i key a, fleetKeys !! i = Some key → fleetAuths !! key = Some a → rs !! i = Some None →
       in_place a names (store (requests s'))) ∧
    (@responsive sampleServer store → ∀ key a, key ∈ fleetKeys → fleetAuths !! key = Some a →
       in_place a names (store (requests s')))) startState.
Proof.
  apply (@reconcileAll_converges sampleServer store (server_served _ _) fleetAuths fleetKeys startState).
  - split; [|split]; reflexivity.
  - exact fleetAuths_held.
Defined.
