(* ===== verification/Manifests.v ===== *)
(** * The operator's RBAC manifests: controllers/authenticator_resources.go

    At start-up the operator reads every file below a directory, finds out the
    kind of each manifest with a regular expression, and decodes the three
    objects that the reconciler copies into the namespaces of Authenticators.
    The file system and the YAML decoder are parameters. *)
From S2P Require Import Prelude GoStrings Regexp Api ConfigGen HostapdConf Controller.
From S2P Require Import ControllerSpec.
From Stdlib Require Import Ascii.

(** ** The files *)

(** What [filepath.Walk] meets at a path: a file, a directory with its entries
    in the order of their names or one that cannot be listed, or nothing. *)
Inductive node :=
| FileNode
| DirNode (entries : list (string * node))
| Unreadable
| Gone.

(** [filePathWalkDir]: the walk calls back for every path below, the function
    appends those that are not directories and never returns an error; where
    there is nothing it is called with a nil [os.FileInfo]. *)
Fixpoint walk (path : string) (n : node) : M (list string) unit :=
  match n with
  | FileNode => modify (λ files, files ++ [path])
  | DirNode entries =>
      (fix go (entries : list (string * node)) : M (list string) unit :=
         match entries with
         | [] => mret tt
         | (name, n') :: entries' =>
             _ ← walk (FilepathJoin [path; name]) n'; go entries'
         end) entries
  | Unreadable => mret tt
  | Gone => panic "invalid memory address or nil pointer dereference"
  end.

Definition filePathWalkDir (root : string) (n : node) : outcome (list string) unit :=
  walk root n [].

(** ** The manifests *)

(** "\b(\w*kind:\w*)\B.*\b" *)
Definition kindExpr : list item :=
  [Plain [Bound true];
   Group [Many word; lit "k"; lit "i"; lit "n"; lit "d"; lit ":"; Many word];
   Plain [Bound false; Many any; Bound true]].

(** The text of the expression's first match, split at colons, [slce[1]]: an
    index out of range when there is no match. *)
Definition manifestKind (m : string) : option string :=
  TrimSpace <$> (Split (FindString kindExpr m) colon !! 1%nat).

(** A decoded object, with the number of its subjects. *)
Record Decoded := { object : Object; subjects : nat }.

Record Loaded := {
  l_serviceAccount : option Object;
  l_role : option Object;
  l_roleBinding : option Object;
}.

Definition no_resources : Loaded :=
  {| l_serviceAccount := None; l_role := None; l_roleBinding := None |}.

Definition put_serviceAccount (o : Object) (l : Loaded) : Loaded :=
  {| l_serviceAccount := Some o; l_role := l_role l; l_roleBinding := l_roleBinding l |}.
Definition put_role (o : Object) (l : Loaded) : Loaded :=
  {| l_serviceAccount := l_serviceAccount l; l_role := Some o;
     l_roleBinding := l_roleBinding l |}.
Definition put_roleBinding (o : Object) (l : Loaded) : Loaded :=
  {| l_serviceAccount := l_serviceAccount l; l_role := l_role l; l_roleBinding := Some o |}.

Section code.
Variable ReadFile : string → result string.
Variable Decode : kind → string → result Decoded.

Definition panicIfError {S A} (r : result A) : M S A :=
  match r with
  | Ok a => mret a
  | Err _ => panic "error"
  end.

(** [getAssetsFrom]: the contents of all files, in order. *)
Fixpoint readAll {S} (files : list string) : M S (list string) :=
  match files with
  | [] => mret []
  | file :: files' =>
      buffer ← panicIfError (ReadFile file);
      manifests ← readAll files';
      mret (buffer :: manifests)
  end.

Definition getAssetsFrom {S} (path : string) (n : node) : M S (list string) := λ s,
  match filePathWalkDir path n with
  | Done _ files => readAll files s
  | Panic why _ => Panic why s
  end.

(** One manifest: an error to return, or the object put in its place. *)
Definition loadManifest (m : string) : M Loaded (option error) :=
  match manifestKind m with
  | None => panic "index out of range [1] with length 1"
  | Some kind =>
      if bool_decide (kind = "ServiceAccount") then
        d ← panicIfError (Decode KServiceAccount m);
        _ ← modify (put_serviceAccount (object d));
        mret None
      else if bool_decide (kind = "Role") then
        d ← panicIfError (Decode KRole m);
        _ ← modify (put_role (object d));
        mret None
      else if bool_decide (kind = "RoleBinding") then
        d ← panicIfError (Decode KRoleBinding m);
        if negb (Nat.eqb (subjects d) 1) then
          mret (Some (Error ROther "invalid subject length on authenticator rbac binding"))
        else
          _ ← modify (put_roleBinding (object d));
          mret None
      else mret (Some (Errorf "unknown resource: kind %s" [kind]))
  end.

Definition retrieveResources (path : string) (n : node) : M Loaded (result resources) :=
  manifests ← getAssetsFrom path n;
  err ← forE loadManifest manifests;
  match err with
  | Some e => mret (Err e)
  | None =>
      res ← gets id;
      mret match l_serviceAccount res, l_role res, l_roleBinding res with
           | None, _, _ => Err (Error ROther "authenticator service account object not found")
           | _, None, _ => Err (Error ROther "authenticator role object not found")
           | _, _, None => Err (Error ROther "authenticator role binding object not found")
           | Some sa, Some r, Some rb =>
               Ok {| serviceAccount_ := sa; role := r; roleBinding := rb |}
           end
  end.

(** [SetupWithManager]: the objects become the reconciler's, or the operator
    does not start. *)
Definition SetupWithManager (path : string) (n : node) : outcome Loaded (result RState) :=
  match retrieveResources path n no_resources with
  | Done (Ok res) l => Done (Ok {| rbacResources := res; requests := [] |}) l
  | Done (Err e) l => Done (Err e) l
  | Panic why l => Panic why l
  end.
End code.

(** ** Helper lemmas: the kind of a manifest *)
Lemma fits_lits s l r :
  str_forallb is_ascii s = true → fits (map lit (String.list_ascii_of_string s) ++ r) l →
  ∃ l2, l = singles s ++ l2 ∧ fits r l2.
Proof.
  revert l. induction s as [|c s IH]; intros l Ha Hl; [by exists l|]. cbn in *.
  apply andb_prop in Ha as [Hc Ha]. inversion Hl as [|f x ? l' Hx Hl'| | | |]; subst.
  destruct (IH l' Ha Hl') as (l2 & -> & Hl2). exists l2. split; [|done]. f_equal.
  unfold cls in Hx. destruct x as [|d [|]]; [done| |done].
  apply andb_prop in Hx as [_ <-%Ascii.eqb_eq]. done.
Qed.

(** A match of the expression starts with word characters and "kind:". *)
Lemma kindExpr_fits l :
  fits (items_re kindExpr) l →
  ∃ ws l2, l = ws ++ singles "kind:" ++ l2 ∧ Forall (λ x, word x = true) ws.
Proof.
  unfold items_re. cbn [kindExpr map item_re concat app]. intros Hl.
  inversion Hl as [| | |b r l' Hl'| |]; subst. clear Hl.
  inversion Hl' as [| |f ws r l2 Hws Hl2| | |]; subst.
  apply (fits_lits "kind:") in Hl2 as (l3 & -> & _); [|done]. by exists ws, l3.
Qed.

(** Text whose lines are all terminated and in which no "kind:" stands. *)
Definition no_kind (pre : string) : Prop :=
  str_forallb is_ascii pre = true ∧ Contains pre "kind:" = false ∧
  (pre = "" ∨ ∃ p, pre = p +:+ nl).

Lemma HasPrefix_singles s p l : singles s = singles p ++ l → HasPrefix s p = true.
Proof.
  revert s. induction p as [|d p IH]; intros s; [by destruct s|]. destruct s as [|c s]; [done|].
  cbn. intros [= -> Hs]. by rewrite Ascii.eqb_refl, (IH s).
Qed.

Lemma Contains_singles s p l1 l2 : singles s = l1 ++ singles p ++ l2 → Contains s p = true.
Proof.
  revert l1. induction s as [|c s IH]; intros l1 Hs.
  - destruct l1; [|done]. destruct p; done.
  - destruct l1 as [|x l1].
    + cbn [Contains]. by rewrite (HasPrefix_singles _ _ l2).
    + injection Hs as _ Hs. cbn [Contains]. by rewrite (IH l1), orb_true_r.
Qed.

Lemma HasPrefix_app s t p : HasPrefix s p = true → HasPrefix (s +:+ t) p = true.
Proof.
  revert s. induction p as [|d p IH]; intros s; [by destruct (s +:+ t)|]. destruct s as [|c s]; [done|].
  rewrite app_cons. cbn. intros [-> Hs]%andb_prop. by apply IH.
Qed.

Lemma Contains_app s t p : Contains s p = true → Contains (s +:+ t) p = true.
Proof.
  induction s as [|c s IH]; cbn [Contains].
  - rewrite orb_false_r. intros Hp. destruct p; [by destruct ("" +:+ t)|done].
  - rewrite app_cons. cbn [Contains]. intros [Hp|Hs]%orb_prop.
    + pose proof (HasPrefix_app _ t _ Hp) as Hp'. rewrite app_cons in Hp'. by rewrite Hp'.
    + rewrite IH by done. apply orb_true_r.
Qed.

Lemma prefix_before {A} (y : A) u x s' rest :
  u ++ x = s' ++ y :: rest → y ∉ u → ∃ z, s' = u ++ z.
Proof.
  revert s'. induction u as [|a u IH]; intros s' Heq Hy; [by exists s'|].
  destruct s' as [|b s']; cbn in Heq; injection Heq as -> Heq; [set_solver|].
  destruct (IH s' Heq) as [z ->]; [set_solver|]. by exists z.
Qed.

Lemma no_kind_no_match pre l1 l2 p rest :
  no_kind pre → singles pre = l1 ++ l2 → l2 ≠ [] → match_at kindExpr p (l2 ++ rest) "" [] = None.
Proof.
  intros (Ha & Hc & Hpre) Hl Hne. destruct (match_at _ _ _ _ _) eqn:Hm; [exfalso|done].
  apply match_at_fits in Hm as (l & rest' & Heq & Hl').
  apply kindExpr_fits in Hl' as (ws & l3 & -> & Hws).
  destruct Hpre as [->|(q & ->)]; [by destruct l1, l2|].
  rewrite singles_app in Hl. change (singles nl) with [nl] in Hl.
  destruct l2 as [|x l2 _] using rev_ind; [done|]. rewrite app_assoc in Hl.
  apply app_inj_tail in Hl as [Hl <-]. rewrite <-!app_assoc in Heq.
  symmetry in Heq. rewrite (app_assoc ws) in Heq.
  apply prefix_before in Heq as [z ->].
  - assert (singles q = (l1 ++ ws) ++ singles "kind:" ++ z) as Hq by by rewrite Hl, <-!app_assoc.
    by rewrite (Contains_app _ _ _ (Contains_singles _ _ _ _ Hq)) in Hc.
  - rewrite elem_of_app. intros [Hin|Hin]; [|by vm_compute in Hin; set_solver].
    rewrite Forall_forall in Hws. by apply Hws in Hin.
Qed.

(** The characters of kinds. *)
Definition is_letter (c : ascii) : bool := byte_in 65 90 c || byte_in 97 122 c.

Lemma letter_facts c :
  is_letter c = true →
  word (String c "") = true ∧ any (String c "") = true ∧ is_ascii c = true ∧
  is_graphic c = true ∧ Ascii.eqb c colon = false.
Proof. by destruct c as [[] [] [] [] [] [] [] []]. Qed.

Lemma letters s f :
  (∀ c, is_letter c = true → f c = true) → str_forallb is_letter s = true →
  str_forallb f s = true.
Proof. apply str_forallb_impl. Qed.

Lemma run_kind {A} (k : option rune → list rune → string → option A) prev rest :
  run [Many word; lit "k"; lit "i"; lit "n"; lit "d"; lit ":"; Many word] k prev
    (singles "kind: " ++ rest) "" = k (Some ":") (" " :: rest) "kind:".
Proof. reflexivity. Qed.

Lemma after_word prev s :
  str_forallb is_letter s = true → s ≠ "" → is_word (after prev (singles s)) = true.
Proof.
  revert prev. induction s as [|c s IH]; [done|]. cbn [singles str_forallb]. intros prev [Hc Hs]%andb_prop _.
  rewrite after_cons. destruct s as [|c' s]; [by apply letter_facts|]. by apply IH.
Qed.

Lemma run_value {A} (k : option rune → list rune → string → option A) K rest a :
  K ≠ "" → str_forallb is_letter K = true →
  match rest with [] => True | x :: _ => x = nl end →
  k (after (Some " ") (singles K)) rest (" " +:+ K) = Some a →
  run [Bound false; Many any; Bound true] k (Some ":") (" " :: singles K ++ rest) "" = Some a.
Proof.
  intros Hne HK Hrest Hk. cbn [run]. change (Bool.eqb false _) with true. cbn iota.
  change (" " :: singles K ++ rest) with ((" " :: singles K) ++ rest).
  apply run_many_longest.
  - constructor; [done|]. apply (singles_forall is_letter); [|done]. intros c Hc. by apply letter_facts.
  - intros x. destruct rest as [|y rest]; [done|]. intros [= <-]. by rewrite Hrest.
  - rewrite after_cons, after_word by done.
    assert (is_word (head rest) = false) as -> by (destruct rest as [|y rest]; [done|by rewrite Hrest]).
    cbn [xorb Bool.eqb text]. by rewrite text_singles.
Qed.

(** The expression at the line. *)
Lemma match_kind_line prev K rest :
  is_word prev = false → K ≠ "" → str_forallb is_letter K = true →
  match rest with [] => True | x :: _ => x = nl end →
  ∃ gs, match_at kindExpr prev (singles "kind: " ++ singles K ++ rest) "" [] =
    Some ("kind: " +:+ K, gs).
Proof.
  intros Hprev Hne HK Hrest. exists ["kind:"]. unfold kindExpr. cbn [match_at].
  change (run [Bound true] ?k prev ?l "") with
    (if Bool.eqb true (xorb (is_word prev) true) then k prev l "" else None).
  rewrite Hprev. cbn [xorb Bool.eqb]. rewrite run_kind. by apply run_value.
Qed.

(** The kind of a manifest is what its first line with "kind:" says. *)
Lemma manifestKind_line pre K tail :
  no_kind pre → K ≠ "" → str_forallb is_letter K = true →
  (tail = "" ∨ ∃ post, tail = String newline post) →
  manifestKind (pre +:+ "kind: " +:+ K +:+ tail) = Some K.
Proof.
  intros Hpre Hne HK Htail. pose proof Hpre as (Ha & _ & Hend).
  assert (FindString kindExpr (pre +:+ "kind: " +:+ K +:+ tail) = "kind: " +:+ K) as Hfind.
  { unfold FindString, FindSubmatch.
    assert (runes (pre +:+ "kind: " +:+ K +:+ tail) =
      singles pre ++ singles "kind: " ++ singles K ++ runes tail) as ->.
    { rewrite !runes_ascii_app; [done| |done|done]. eapply letters; [|done].
      intros c Hc. by apply letter_facts. }
    rewrite search_skip.
    - destruct (match_kind_line (after None (singles pre)) K (runes tail)) as [gs Hm]; [|done|done| |].
      + destruct Hend as [->|(p & ->)]; [done|]. rewrite singles_app, after_app. done.
      + destruct Htail as [->|(post & ->)]; [done|].
        change (String newline post) with (nl +:+ post). by rewrite runes_ascii_app.
      + apply search_first in Hm. by rewrite Hm.
    - intros l1 l2 p Hl Hl2. by eapply no_kind_no_match. }
  unfold manifestKind. rewrite Hfind.
  change ("kind: " +:+ K) with ("kind" +:+ String colon (" " +:+ K)).
  rewrite Split_app, Split_lacks; [|rewrite lacks_app|done].
  - cbn [lookup list_lookup]. cbn [fmap option_fmap option_map]. f_equal.
    change (" " +:+ K) with (String blank K). apply TrimSpace_leading.
    eapply letters; [|done]. intros c Hc. by apply letter_facts.
  - apply andb_true_intro. split; [done|]. eapply letters; [|done].
    intros c Hc. apply letter_facts in Hc as (_ & _ & _ & _ & Hc). by rewrite Hc.
Qed.

(** ** Loading *)
Definition kindName (k : kind) : string :=
  match k with
  | KConfigMap => "ConfigMap"
  | KDaemonSet => "DaemonSet"
  | KServiceAccount => "ServiceAccount"
  | KRole => "Role"
  | KRoleBinding => "RoleBinding"
  end.

Section specs.
Variable ReadFile : string → result string.
Variable Decode : kind → string → result Decoded.

Local Abbreviation loadManifest := (loadManifest Decode).
Local Abbreviation SetupWithManager := (SetupWithManager ReadFile Decode).

(** The manifest holds an object of kind [k]. *)
Definition holds (m : string) (k : kind) (d : Decoded) : Prop :=
  manifestKind m = Some (kindName k) ∧ Decode k m = Ok d ∧
  (k = KRoleBinding → subjects d = 1%nat) ∧
  (k = KServiceAccount ∨ k = KRole ∨ k = KRoleBinding).

(** The last object of a kind. *)
Definition last_of (k : kind) (l : list (kind * Decoded)) : option Object :=
  last (omap (λ kd, if bool_decide (kd.1 = k) then Some (object kd.2) else None) l).

Definition loaded (l : list (kind * Decoded)) : Loaded :=
  {| l_serviceAccount := last_of KServiceAccount l; l_role := last_of KRole l;
     l_roleBinding := last_of KRoleBinding l |}.

Lemma last_of_snoc k l kd :
  last_of k (l ++ [kd]) = if bool_decide (kd.1 = k) then Some (object kd.2) else last_of k l.
Proof.
  unfold last_of. rewrite omap_app. cbn. case_bool_decide; [|by rewrite app_nil_r].
  by rewrite last_snoc.
Qed.

Lemma loadManifest_holds m k d l :
  holds m k d → loadManifest m (loaded l) = Done None (loaded (l ++ [(k, d)])).
Proof.
  intros (Hk & Hd & Hsub & Hthree). unfold Manifests.loadManifest. rewrite Hk.
  unfold loaded at 2. rewrite !last_of_snoc.
  destruct Hthree as [->|[->| ->]]; cbn [kindName fst snd]; unfold mbind, M_bind, panicIfError.
  - repeat (rewrite bool_decide_true by done). rewrite Hd. reflexivity.
  - rewrite bool_decide_false, bool_decide_true by done. rewrite Hd. reflexivity.
  - rewrite !bool_decide_false, bool_decide_true by done. rewrite Hd. cbn [mret M_ret].
    rewrite Hsub by done. reflexivity.
Qed.

Lemma forE_loads ms kds l :
  Forall2 (λ m kd, holds m kd.1 kd.2) ms kds →
  forE loadManifest ms (loaded l) = Done None (loaded (l ++ kds)).
Proof.
  intros Hms. revert l. induction Hms as [|m [k d] ms kds Hm Hms IH]; intros l.
  { by rewrite app_nil_r. }
  cbn [forE]. unfold check, mbind, M_bind. rewrite (loadManifest_holds _ _ _ _ Hm).
  rewrite IH. by rewrite <-app_assoc.
Qed.

Lemma forE_app {S X} (body : X → M S (option error)) l1 l2 s s1 :
  forE body l1 s = Done None s1 → forE body (l1 ++ l2) s = forE body l2 s1.
Proof.
  revert s. induction l1 as [|x l1 IH]; intros s; cbn [forE app].
  { by intros [= ->]. }
  unfold check, mbind, M_bind. destruct (body x s) as [[e|] s'|]; [done| |done]. apply IH.
Qed.

Lemma readAll_ok {S} fs ms (s : S) :
  Forall2 (λ f m, ReadFile f = Ok m) fs ms → readAll ReadFile fs s = Done ms s.
Proof.
  induction 1 as [|f m fs ms Hf _ IH]; [done|]. cbn [readAll]. unfold mbind, M_bind, panicIfError.
  rewrite Hf. cbn [mret M_ret]. by rewrite IH.
Qed.

(** The files below [root] read as [ms]. *)
Definition reads (root : string) (n : node) (ms : list string) : Prop :=
  ∃ fs, filePathWalkDir root n = Done tt fs ∧ Forall2 (λ f m, ReadFile f = Ok m) fs ms.

Lemma getAssetsFrom_reads {S} root n ms (s : S) :
  reads root n ms → getAssetsFrom ReadFile root n s = Done ms s.
Proof. intros (fs & Hfs & Hms). unfold getAssetsFrom. rewrite Hfs. by apply readAll_ok. Qed.

(** ** Theorems *)

(** The kind that the regular expression finds in a manifest is the one that
    its first line with a "kind:" names, if the line starts with it, whatever
    stands before and after. *)
Lemma manifestKind_first_line pre K tail :
  no_kind pre → K ≠ "" → str_forallb is_letter K = true →
  (tail = "" ∨ ∃ post, tail = String newline post) →
  manifestKind (pre +:+ "kind: " +:+ K +:+ tail) = Some K.
Proof. apply manifestKind_line. Qed.

(** C18. From a directory of manifests of the three kinds the operator starts with
    the last object of each kind, each of the kind it stands for, as the
    reconciler needs them; where a kind is missing it does not start. *)
Theorem SetupWithManager_starts root n ms kds :
  reads root n ms → Forall2 (λ m kd, holds m kd.1 kd.2) ms kds →
  (∀ k m d, Decode k m = Ok d → kindOf (payload (object d)) = k) →
  match last_of KServiceAccount kds, last_of KRole kds, last_of KRoleBinding kds with
  | Some sa, Some r, Some rb => ∃ l,
      let res := {| serviceAccount_ := sa; role := r; roleBinding := rb |} in
      SetupWithManager root n = Done (Ok {| rbacResources := res; requests := [] |}) l ∧
      rbac_ok res
  | _, _, _ => ∃ e l, SetupWithManager root n = Done (Err e) l
  end.
Proof.
  intros Hreads Hms Hdec. unfold Manifests.SetupWithManager, retrieveResources, mbind, M_bind.
  rewrite (getAssetsFrom_reads _ _ _ _ Hreads). change no_resources with (loaded []).
  rewrite (forE_loads _ _ [] Hms). cbn [app gets id mret M_ret loaded l_serviceAccount l_role l_roleBinding].
  assert (∀ k o, last_of k kds = Some o → kindOf (payload o) = k) as Hkind.
  { intros k o Ho. unfold last_of in Ho. apply last_Some in Ho as [l' Ho].
    assert (o ∈ omap (λ kd, if bool_decide (kd.1 = k) then Some (object kd.2) else None) kds)
      as Hin by (rewrite Ho; set_solver).
    apply list_elem_of_omap in Hin as ([k' d] & Hin & Hd). cbn in Hd. case_bool_decide; [|done].
    injection Hd as <-. subst k'. apply list_elem_of_lookup_1 in Hin as [i Hi].
    destruct (Forall2_lookup_r _ _ _ _ _ Hms Hi) as (m & _ & Hh).
    by eapply Hdec, Hh. }
  destruct (last_of KServiceAccount kds) as [sa|] eqn:Hsa; [|by do 2 eexists].
  destruct (last_of KRole kds) as [r|] eqn:Hr; [|by do 2 eexists].
  destruct (last_of KRoleBinding kds) as [rb|] eqn:Hrb; [|by do 2 eexists].
  eexists. split; [done|]. split; [|split]; cbn; by apply Hkind.
Qed.

(** The first manifest that is not in order decides what happens: one of
    another kind, or a role binding that has not exactly one subject, keeps the
    operator from starting; one in which no kind is found, or that cannot be
    decoded, brings it down. *)
Lemma SetupWithManager_stops root n good kds bad rest :
  reads root n (good ++ bad :: rest) → Forall2 (λ m kd, holds m kd.1 kd.2) good kds →
  match manifestKind bad with
  | None => ∃ why l, SetupWithManager root n = Panic why l
  | Some name =>
      ((∀ k, (k = KServiceAccount ∨ k = KRole ∨ k = KRoleBinding) → name ≠ kindName k) →
       ∃ l, SetupWithManager root n = Done (Err (Errorf "unknown resource: kind %s" [name])) l) ∧
      (∀ k e, (k = KServiceAccount ∨ k = KRole ∨ k = KRoleBinding) → name = kindName k →
       Decode k bad = Err e → ∃ why l, SetupWithManager root n = Panic why l) ∧
      (∀ d, name = kindName KRoleBinding → Decode KRoleBinding bad = Ok d → subjects d ≠ 1%nat →
       ∃ e l, SetupWithManager root n = Done (Err e) l)
  end.
Proof.
  intros Hreads Hgood. unfold Manifests.SetupWithManager, retrieveResources, mbind, M_bind.
  rewrite (getAssetsFrom_reads _ _ _ _ Hreads). change no_resources with (loaded []).
  rewrite (forE_app _ _ _ _ _ (forE_loads _ _ [] Hgood)). cbn [app forE].
  unfold check, mbind, M_bind, Manifests.loadManifest.
  destruct (manifestKind bad) as [name|]; [|by do 2 eexists]. split; [|split].
  - intros Hname. rewrite !bool_decide_false; [by eexists|..].
    + apply (Hname KRoleBinding). auto.
    + apply (Hname KRole). auto.
    + apply (Hname KServiceAccount). auto.
  - intros k e Hk -> Hd. destruct Hk as [->|[->| ->]]; cbn [kindName];
      unfold mbind, M_bind, panicIfError; rewrite ?bool_decide_false, ?bool_decide_true by done;
      rewrite ?bool_decide_true by done; rewrite Hd; by do 2 eexists.
  - intros d -> Hd Hsub. cbn [kindName]. unfold mbind, M_bind, panicIfError.
    rewrite !bool_decide_false, bool_decide_true by done. rewrite Hd. cbn [mret M_ret].
    rewrite (proj2 (Nat.eqb_neq _ _)) by done. by do 2 eexists.
Qed.
End specs.

(** ** Witnesses: the manifests of src/bindata/deployment/authenticator-rbac *)
Definition roleYaml : string := Join
  ["apiVersion: rbac.authorization.k8s.io/v1"; "kind: Role"; "metadata:";
   "  creationTimestamp: null"; "  name: authenticator-role"; "rules:"; "- apiGroups:";
   "  - eapol.eapol.openshift.io"; "  resources:"; "  - authenticators"; "  verbs:";
   "  - create"; "  - delete"; "  - get"; "  - list"; "  - patch"; "  - update"; "  - watch";
   "- apiGroups:"; "  - eapol.eapol.openshift.io"; "  resources:";
   "  - authenticators/status"; "  verbs:"; "  - create"; "  - delete"; "  - get"; "  - list";
   "  - patch"; "  - update"; "  - watch"; "- apiGroups:"; "  - " +:+ dq +:+ dq;
   "  resources:"; "  - events"; "  verbs:"; "  - create"; "  - patch"; ""] nl.

Definition roleBindingYaml : string := Join
  ["apiVersion: rbac.authorization.k8s.io/v1"; "kind: RoleBinding"; "metadata:";
   "  name: authenticator-rolebinding"; "roleRef:"; "  apiGroup: rbac.authorization.k8s.io";
   "  kind: Role"; "  name: authenticator-role"; "subjects:"; "- kind: ServiceAccount";
   "  name: authenticator"; ""] nl.

Definition serviceAccountYaml : string := Join
  ["apiVersion: v1"; "kind: ServiceAccount"; "metadata:"; "  name: authenticator"; ""] nl.

Definition shipped : node :=
  DirNode [("role.yaml", FileNode); ("role_binding.yaml", FileNode); ("service_account.yaml", FileNode)].

Definition readShipped (file : string) : result string :=
  if bool_decide (file = "rbac/role.yaml") then Ok roleYaml
  else if bool_decide (file = "rbac/role_binding.yaml") then Ok roleBindingYaml
  else if bool_decide (file = "rbac/service_account.yaml") then Ok serviceAccountYaml
  else Err (Error ROther "no such file or directory").

Definition decoded (k : kind) : Decoded :=
  {| object := {| Ob_Name := "authenticator"; Ob_Namespace := ""; Ob_ResourceVersion := "";
                  OwnerReferences := [];
                  payload := match k with
                             | KConfigMap => PConfigMap ∅
                             | KDaemonSet => PDaemonSet (Ds_Spec (fst (Daemonset (confGen "")))) ∅
                             | KServiceAccount => PServiceAccount ""
                             | KRole => PRole "rules"
                             | KRoleBinding => PRoleBinding "" ""
                             end |};
     subjects := 1 |}.

Definition decodeShipped (k : kind) (_ : string) : result Decoded := Ok (decoded k).

Lemma reads_shipped :
  reads readShipped "rbac" shipped [roleYaml; roleBindingYaml; serviceAccountYaml].
Proof.
  exists ["rbac/role.yaml"; "rbac/role_binding.yaml"; "rbac/service_account.yaml"].
  split; [vm_compute; reflexivity|]. repeat constructor.
Qed.

Lemma shipped_holds :
  holds decodeShipped roleYaml KRole (decoded KRole) ∧
  holds decodeShipped roleBindingYaml KRoleBinding (decoded KRoleBinding) ∧
  holds decodeShipped serviceAccountYaml KServiceAccount (decoded KServiceAccount).
Proof.
  split; [|split]; (split; [vm_compute; reflexivity|]); (split; [reflexivity|]); split;
    [done|auto|done|auto|done|auto].
Qed.

Lemma manifestKind_first_line_witness :
  manifestKind ("apiVersion: v1" +:+ nl +:+ "kind: " +:+ "ServiceAccount" +:+ String newline "metadata:") =
  Some "ServiceAccount".
Proof.
  apply (manifestKind_first_line ("apiVersion: v1" +:+ nl)); [|done|reflexivity|right; by eexists].
  split; [reflexivity|]. split; [reflexivity|]. right. by exists "apiVersion: v1".
Defined.

Lemma SetupWithManager_starts_witness :
  ∃ l, let res := {| serviceAccount_ := object (decoded KServiceAccount);
                     role := object (decoded KRole);
                     roleBinding := object (decoded KRoleBinding) |} in
    SetupWithManager readShipped decodeShipped "rbac" shipped =
      Done (Ok {| rbacResources := res; requests := [] |}) l ∧ rbac_ok res.
Proof.
  destruct shipped_holds as (H1 & H2 & H3).
  apply (SetupWithManager_starts readShipped decodeShipped "rbac" shipped
    [roleYaml; roleBindingYaml; serviceAccountYaml]
    [(KRole, decoded KRole); (KRoleBinding, decoded KRoleBinding);
     (KServiceAccount, decoded KServiceAccount)] reads_shipped).
  - repeat constructor; done.
  - intros k m d [= <-]. by destruct k.
Defined.

(** A stray file without a kind beside the manifests. *)
Lemma SetupWithManager_stops_witness :
  ∃ why l, SetupWithManager (λ _, Ok "notes") decodeShipped "rbac"
    (DirNode [("README", FileNode)]) = Panic why l.
Proof.
  apply (SetupWithManager_stops (λ _, Ok "notes") decodeShipped "rbac"
    (DirNode [("README", FileNode)]) [] [] "notes" []); [|constructor].
  exists ["rbac/README"]. split; [vm_compute; reflexivity|]. repeat constructor.
Defined.
