(* ===== verification/MonitorArgs.v ===== *)
(** * The monitor's command line: monitor/main.go

    The container the DaemonSet runs gets its interfaces and unprotected ports
    in environment variables; [parseStringsArgs] and [parseIntArgs] read them
    back.  A [*string] argument is an [option]; a nil slice and an empty one
    behave alike here, both are [[]]. *)
From S2P Require Import Prelude GoStrings Api ConfigGen.

Definition parseStringsArgs (arg : option string) : list string :=
  match arg with
  | None => []
  | Some a =>
      if bool_decide (a = "") then []
      else map TrimSpace (Split a comma)
  end.

(** [for _, str := range strSlice { port, err := strconv.Atoi(str); ... }] *)
Fixpoint atoiAll (strs : list string) : result (list Z) :=
  match strs with
  | [] => Ok []
  | str :: strs' =>
      match Atoi str with
      | Err e => Err e
      | Ok port => match atoiAll strs' with
                   | Err e => Err e
                   | Ok ports => Ok (port :: ports)
                   end
      end
  end.

Definition parseIntArgs (arg : option string) : result (list Z) :=
  match arg with
  | None => Ok []
  | Some a =>
      if bool_decide (a = "") then Ok []
      else atoiAll (parseStringsArgs arg)
  end.

(** What [main] does with its settings before it touches the system: it needs
    an interface list, and leaves with status 1 when a port list does not parse. *)
Record Settings := {
  ifaces : list string;
  allowedTcpPorts : list Z;
  allowedUdpPorts : list Z;
}.

Definition readSettings (interfaces unprotectedTcpPorts unprotectedUdpPorts : option string)
  : result Settings :=
  match interfaces with
  | None => Err (Error ROther "IFACES env variable must be set")
  | Some i =>
      if bool_decide (i = "") then Err (Error ROther "IFACES env variable must be set")
      else match parseIntArgs unprotectedTcpPorts with
           | Err _ => Err (Error ROther "UNPROTECTED_TCP_PORTS env variable must be set properly")
           | Ok tcp =>
               match parseIntArgs unprotectedUdpPorts with
               | Err _ =>
                   Err (Error ROther "UNPROTECTED_UDP_PORTS env variable must be set properly")
               | Ok udp => Ok {| ifaces := parseStringsArgs interfaces;
                                 allowedTcpPorts := tcp; allowedUdpPorts := udp |}
               end
           end
  end.

(** ** The pod's environment *)

(** The value of a variable in the environment of the container [name]. *)
Definition containerEnv (ds : DaemonSet) (name var : string) : option string :=
  c ← list_find (λ c, Container_Name c = name) (Containers (ds_pod ds));
  e ← list_find (λ e, Env_Name e = var) (Env c.2);
  Some (Value e.2).

(** The settings the monitor starts with in a pod of the DaemonSet. *)
Definition podSettings (ds : DaemonSet) : result Settings :=
  readSettings (containerEnv ds "hostapd-monitor" "IFACES")
               (containerEnv ds "hostapd-monitor" "UNPROTECTED_TCP_PORTS")
               (containerEnv ds "hostapd-monitor" "UNPROTECTED_UDP_PORTS").

(** The port lists of a specification; absent means empty. *)
Definition specPorts (f : Ports → list Z) (sp : AuthenticatorSpec) : list Z :=
  match TrafficControl_ sp ≫= UnprotectedPorts with
  | Some p => f p
  | None => []
  end.

(** A Linux interface name, as far as the list format is concerned. *)
Definition ifname_ok (s : string) : bool :=
  negb (bool_decide (s = "")) && str_forallb is_graphic s && lacks comma s.

(** Inputs for the witnesses: the README's Authenticator with other port lists. *)
Definition sampleSpec (tcp udp : list Z) : AuthenticatorSpec :=
  {| Enabled := true; Interfaces := ["ens3f0"; "ens3f1"];
     Authentication := {| Local := None; Radius_ := None |}; Configuration := None;
     Image := ""; NodeSelector := None;
     TrafficControl_ := Some {| UnprotectedPorts := Some {| Tcp := tcp; Udp := udp |} |} |}.

Definition sampleGen (tcp udp : list Z) : ConfigGenerator :=
  New {| Name := "authenticator-sample"; Namespace := "default"; UID := "1";
         ResourceVersion := "1"; Spec := sampleSpec tcp udp;
         Status := {| Status_Interfaces := [] |} |} "authenticator".

(** ** Helper lemmas *)
Lemma parsePorts_spec g :
  parsePorts g = (writePorts (specPorts Tcp (Spec (a11r g))),
                  writePorts (specPorts Udp (Spec (a11r g)))).
Proof.
  unfold parsePorts, specPorts. destruct (TrafficControl_ _) as [tc|]; [|done]. cbn.
  by destruct (UnprotectedPorts tc).
Qed.

Lemma containerEnv_monitor g :
  let ds := fst (Daemonset g) in
  containerEnv ds "hostapd-monitor" "IFACES" = Some (Join (Interfaces (Spec (a11r g))) ",") ∧
  containerEnv ds "hostapd-monitor" "UNPROTECTED_TCP_PORTS" =
    Some (writePorts (specPorts Tcp (Spec (a11r g)))) ∧
  containerEnv ds "hostapd-monitor" "UNPROTECTED_UDP_PORTS" =
    Some (writePorts (specPorts Udp (Spec (a11r g)))).
Proof.
  unfold Daemonset. destruct (selectNodes _) as [ns callers].
  unfold containerEnv, ds_pod. cbn [fst Ds_Spec Template_Spec daemonSetSpec podSpec Containers].
  unfold podContainers. rewrite parsePorts_spec. done.
Qed.

Lemma ifname_not_empty w : ifname_ok w = true → w ≠ "".
Proof. by intros H ->. Qed.

Lemma Join_not_empty l sep :
  l ≠ [] → Forall (λ w, ifname_ok w = true) l → Join l sep ≠ "".
Proof.
  destruct l as [|w [|w' l]]; [done|..]; intros _ [Hw%ifname_not_empty _]%Forall_cons; cbn.
  - done.
  - by destruct w.
Qed.

Lemma parseStringsArgs_Join l :
  l ≠ [] → Forall (λ w, ifname_ok w = true) l → parseStringsArgs (Some (Join l ",")) = l.
Proof.
  intros Hne Hl. change (Join l ",") with (Join l (String comma "")).
  unfold parseStringsArgs. rewrite bool_decide_false.
  - rewrite (Split_Join l comma) by (done || by eapply Forall_impl; [done|];
      unfold ifname_ok; intros w [_ ?]%andb_prop).
    rewrite <-(map_id l) at 2. apply map_ext_Forall. eapply Forall_impl; [done|].
    intros w. unfold ifname_ok. intros [[_ H]%andb_prop _]%andb_prop.
    by apply TrimSpace_graphic.
  - by apply Join_not_empty.
Qed.

Lemma parseIntArgs_short ports :
  (length ports ≤ 1)%nat → Forall (λ p, int_ok p = true) ports →
  parseIntArgs (Some (writePorts ports)) = Ok ports.
Proof.
  intros Hlen Hok. rewrite writePorts_Join.
  destruct ports as [|p [|q ports]]; [done| |cbn in Hlen; lia].
  apply Forall_cons in Hok as [Hp _]. cbn [map Join].
  unfold parseIntArgs, parseStringsArgs.
  rewrite bool_decide_false by apply Itoa_not_empty.
  rewrite Split_lacks by by apply Itoa_lacks. cbn [map atoiAll].
  rewrite TrimSpace_graphic by apply Itoa_graphic. by rewrite Atoi_Itoa.
Qed.

Lemma Join_ports_last q ports :
  ∃ m t, Join (map Itoa (q :: ports)) " " = m +:+ t ∧ t ≠ "" ∧ str_forallb is_graphic t = true.
Proof.
  revert q. induction ports as [|r ports IH]; intros q.
  - exists "", (Itoa q). eauto using Itoa_not_empty, Itoa_graphic.
  - destruct (IH r) as (m & t & Heq & Ht & Hgt). exists (Itoa q +:+ " " +:+ m), t.
    split; [|done]. change (Join (map Itoa (q :: r :: ports)) " ")
      with (Itoa q +:+ " " +:+ Join (map Itoa (r :: ports)) " ").
    by rewrite Heq, !app_assoc_str.
Qed.

Lemma parseIntArgs_long p q ports :
  ∃ e, parseIntArgs (Some (writePorts (p :: q :: ports))) = Err e.
Proof.
  rewrite writePorts_Join.
  change (Join (map Itoa (p :: q :: ports)) " ")
    with (Itoa p +:+ String blank (Join (map Itoa (q :: ports)) " ")).
  assert (∃ m t, Join (map Itoa (q :: ports)) " " = m +:+ t ∧ t ≠ "" ∧
    str_forallb is_graphic t = true) as (m & t & Heq & Ht & Hgt) by apply Join_ports_last.
  assert (lacks comma (m +:+ t) = true) as Hlacks.
  { rewrite <-Heq. apply lacks_Join; [done|]. apply Forall_map, Forall_true.
    intros z. by apply Itoa_lacks. }
  rewrite Heq. clear Heq. unfold parseIntArgs, parseStringsArgs.
  assert (Itoa p +:+ String blank (m +:+ t) ≠ "") as Hne
    by (pose proof (Itoa_not_empty p); by destruct (Itoa p)).
  rewrite !bool_decide_false by done.
  rewrite Split_lacks by (rewrite lacks_app, Itoa_lacks by done; exact Hlacks).
  cbn [map atoiAll]. change (String blank (m +:+ t)) with (String blank m +:+ t).
  rewrite TrimSpace_between by eauto using Itoa_not_empty, Itoa_graphic.
  destruct (Atoi_blank (Itoa p) (m +:+ t)) as [e He]. exists e.
  change (String blank m +:+ t) with (String blank (m +:+ t)). unfold blank. by rewrite He.
Qed.

(** Round trip from the Authenticator to the monitor: with at least one interface
    name free of commas and blanks and at most one port in each list, the monitor
    in a pod of the generated DaemonSet reads back exactly the interfaces and ports
    of the specification. *)
Lemma podSettings_roundtrip g :
  let sp := Spec (a11r g) in
  Interfaces sp ≠ [] → Forall (λ i, ifname_ok i = true) (Interfaces sp) →
  (length (specPorts Tcp sp) ≤ 1)%nat → (length (specPorts Udp sp) ≤ 1)%nat →
  Forall (λ p, int_ok p = true) (specPorts Tcp sp ++ specPorts Udp sp) →
  podSettings (fst (Daemonset g)) =
  Ok {| ifaces := Interfaces sp;
        allowedTcpPorts := specPorts Tcp sp; allowedUdpPorts := specPorts Udp sp |}.
Proof.
  intros sp Hne Hifs Htcp Hudp [Hokt Hoku]%Forall_app. unfold podSettings.
  destruct (containerEnv_monitor g) as (-> & -> & ->). fold sp. unfold readSettings.
  rewrite !parseIntArgs_short, parseStringsArgs_Join by done.
  rewrite bool_decide_false; [done|]. by apply Join_not_empty.
Qed.

(** ** Theorems *)

(** C27. No such luck with two ports: a specification that lists two or more
    unprotected ports of one protocol generates a pod whose monitor leaves at
    start-up, because the ports are written with blanks between them and read
    with commas. *)
Theorem podSettings_rejects_port_lists g :
  let sp := Spec (a11r g) in
  (2 ≤ length (specPorts Tcp sp))%nat ∨ (2 ≤ length (specPorts Udp sp))%nat →
  ∃ e, podSettings (fst (Daemonset g)) = Err e.
Proof.
  intros sp Hlen. unfold podSettings.
  destruct (containerEnv_monitor g) as (-> & -> & ->). fold sp. unfold readSettings.
  case_bool_decide; [by eexists|].
  destruct (parseIntArgs _) as [tcp|e] eqn:Htcp; [|by eexists].
  destruct (parseIntArgs (Some (writePorts (specPorts Udp sp)))) as [udp|e] eqn:Hudp;
    [|by eexists].
  exfalso. destruct Hlen as [Hlen|Hlen].
  - destruct (specPorts Tcp sp) as [|p [|q ports]]; cbn in Hlen; [lia..|].
    destruct (parseIntArgs_long p q ports). congruence.
  - destruct (specPorts Udp sp) as [|p [|q ports]]; cbn in Hlen; [lia..|].
    destruct (parseIntArgs_long p q ports). congruence.
Qed.

(** ** Witnesses *)
(** The README's own example, with the ports 319 and 320. *)
Lemma podSettings_rejects_port_lists_witness :
  ∃ e, podSettings (fst (Daemonset (sampleGen [] [319%Z; 320%Z]))) = Err e.
Proof. apply (podSettings_rejects_port_lists (sampleGen [] [319%Z; 320%Z])). right. cbn. lia. Defined.
