(* ===== verification/Labels.v ===== *)
(** * The pod's labels: internal/k8s/k8s.go, [GetAuthNamespacedName]

    The DaemonSet's pods carry the Authenticator's namespace and name as labels
    ([ConfigGen.podLabels]); the kubelet writes them to a file, and the monitor
    reads them back from it.  The state threaded through the loops is the pair of
    variables [authNs] and [authName]. *)
From S2P Require Import Prelude GoStrings Api ConfigGen.
From Stdlib Require Import Ascii.

Definition backslash : ascii := "092"%char.

(** ** [bufio.Scanner] with its default split function and limit *)
Definition maxToken : Z := 65536.

(** The lines of a text: a newline at its very end starts no further line. *)
Fixpoint textLines (lines : list string) : list string :=
  match lines with
  | [] | [""] => []
  | l :: lines' => l :: textLines lines'
  end.

(** The scan stops at the first line that does not fit the buffer. *)
Fixpoint scanned (lines : list string) : list string :=
  match lines with
  | [] => []
  | l :: lines' =>
      if (Z.of_nat (String.length l) <? maxToken)%Z then dropCR l :: scanned lines' else []
  end.

Definition scanLines (text : string) : list string :=
  scanned (textLines (Split text newline)).

(** ** The function *)
Record NsName := { authNs : string; authName : string }.

Definition set_authNs (s : string) (n : NsName) : NsName :=
  {| authNs := s; authName := authName n |}.
Definition set_authName (s : string) (n : NsName) : NsName :=
  {| authNs := authNs n; authName := s |}.

(** [s[i:j]] *)
Definition slice {S} (s : string) (i j : Z) : M S string :=
  if ((0 <=? i) && (i <=? j) && (j <=? Z.of_nat (String.length s)))%Z
  then mret (String.substring (Z.to_nat i) (Z.to_nat (j - i)) s)
  else panic "slice bounds out of range".

Definition readLabel (l : string) : M NsName unit :=
  match Split l equals with
  | [key; value] =>
      let value := ReplaceAll value (String backslash "n") "" in
      let value := ReplaceAll value (String backslash "") "" in
      let value := ReplaceAll value " " "" in
      value ← slice value 1 (Z.of_nat (String.length value) - 1);
      if bool_decide (key = AuthNamespace) then modify (set_authNs value)
      else if bool_decide (key = AuthName) then modify (set_authName value)
      else mret tt
  | _ => mret tt
  end.

Definition readLine (text : string) : M NsName unit :=
  forU readLabel (Split (TrimSpace text) newline).

(** [labels] is what opening the file and reading it gives. *)
Definition GetAuthNamespacedName (labels : result string) : M NsName (result NsName) :=
  match labels with
  | Err err => mret (Err err)
  | Ok text =>
      _ ← forU readLine (scanLines text);
      n ← gets id;
      if bool_decide (authNs n = "") || bool_decide (authName n = "")
      then mret (Err (Error ROther "no authentication object found from labels"))
      else mret (Ok n)
  end.

(** The call, with its fresh variables. *)
Definition readAuth (labels : result string) : outcome NsName (result NsName) :=
  GetAuthNamespacedName labels {| authNs := ""; authName := "" |}.

(** ** The kubelet's file *)

(** The characters of label keys and values. *)
Definition label_char (c : ascii) : bool :=
  is_graphic c && negb (Ascii.eqb c equals) && negb (Ascii.eqb c backslash) &&
  negb (Ascii.eqb c dquote).

Definition label_ok (kv : string * string) : bool :=
  str_forallb label_char kv.1 && str_forallb label_char kv.2 &&
  (Z.of_nat (String.length kv.1 + String.length kv.2) <? maxToken - 3)%Z.

(** One [key="value"] line per label; a label's characters need no escapes. *)
Definition labelLine (kv : string * string) : string :=
  kv.1 +:+ String equals (String dquote (kv.2 +:+ dq)).

Definition labelsFile (labels : list (string * string)) : string :=
  Join (map labelLine labels) nl.

(** ** Helper lemmas *)
Lemma replace_lacks old s c old' :
  old = String c old' → lacks c s = true → ReplaceAll s old "" = s.
Proof.
  intros ->. unfold ReplaceAll. induction s as [|d s IH]; [done|].
  unfold lacks. cbn. intros [Hd Hs]%andb_prop. rewrite (proj1 (negb_true_iff _) Hd). cbn.
  f_equal. by apply IH.
Qed.

Lemma label_char_lacks c s :
  label_char c = false → str_forallb label_char s = true → lacks c s = true.
Proof.
  intros Hc. apply str_forallb_impl. intros d Hd. destruct (Ascii.eqb_spec d c); [|done].
  subst. congruence.
Qed.

Lemma label_char_graphic s : str_forallb label_char s = true → str_forallb is_graphic s = true.
Proof.
  apply str_forallb_impl. intros c. unfold label_char.
  by intros [[[H _]%andb_prop _]%andb_prop _]%andb_prop.
Qed.

Lemma substring_prefix s t : String.substring 0 (String.length s) (s +:+ t) = s.
Proof.
  induction s as [|c s IH]; [by destruct t|]. rewrite app_cons. cbn. by rewrite IH.
Qed.

(** The slice takes the quotes off again. *)
Lemma slice_quoted {S} v (s : S) :
  let q := String dquote (v +:+ dq) in
  slice q 1 (Z.of_nat (String.length q) - 1) s = Done v s.
Proof.
  cbn zeta. unfold slice. cbn [String.length]. rewrite length_app_str. cbn [String.length dq].
  rewrite !(proj2 (Z.leb_le _ _)) by lia. cbn [andb].
  replace (Z.to_nat (_ - 1 - 1)) with (String.length v) by lia.
  change (Z.to_nat 1) with 1%nat. cbn [String.substring]. by rewrite substring_prefix.
Qed.

Section line.
Variables (kv : string * string).
Hypothesis kv_ok : label_ok kv = true.

Lemma label_parts :
  str_forallb label_char kv.1 = true ∧ str_forallb label_char kv.2 = true ∧
  (Z.of_nat (String.length kv.1 + String.length kv.2) < maxToken - 3)%Z.
Proof.
  revert kv_ok. unfold label_ok. intros [[H1 H2]%andb_prop H3%Z.ltb_lt]%andb_prop.
  done.
Qed.

Lemma labelLine_graphic : str_forallb is_graphic (labelLine kv) = true.
Proof.
  destruct label_parts as (H1%label_char_graphic & H2%label_char_graphic & _). unfold labelLine.
  rewrite str_forallb_app, H1. cbn. by rewrite str_forallb_app, H2.
Qed.

Lemma labelLine_lacks_newline : lacks newline (labelLine kv) = true.
Proof.
  eapply str_forallb_impl; [|apply labelLine_graphic]. intros c Hc.
  by destruct (Ascii.eqb_spec c newline) as [->|].
Qed.

Lemma labelLine_short : (Z.of_nat (String.length (labelLine kv)) < maxToken)%Z.
Proof.
  destruct label_parts as (_ & _ & Hl). unfold labelLine. rewrite length_app_str.
  cbn [String.length]. rewrite length_app_str. cbn [String.length dq]. lia.
Qed.

Lemma readLabel_line n :
  readLabel (labelLine kv) n =
  Done tt (if bool_decide (kv.1 = AuthNamespace) then set_authNs kv.2 n
           else if bool_decide (kv.1 = AuthName) then set_authName kv.2 n else n).
Proof.
  destruct label_parts as (H1 & H2 & _). unfold readLabel, labelLine.
  assert (∀ c, c ≠ dquote → label_char c = false →
    lacks c (String dquote (kv.2 +:+ dq)) = true) as Hlacks.
  { intros c Hc Hl. change (String dquote (kv.2 +:+ dq)) with (dq +:+ (kv.2 +:+ dq)).
    rewrite !lacks_app, (label_char_lacks c kv.2) by done. unfold lacks, dq. cbn [str_forallb].
    rewrite (proj2 (Ascii.eqb_neq dquote c)) by congruence. done. }
  rewrite Split_app, Split_lacks by by (apply Hlacks || apply label_char_lacks).
  cbn zeta. rewrite (replace_lacks (String backslash "n") _ backslash "n") by
    by (done || apply Hlacks).
  rewrite (replace_lacks (String backslash "") _ backslash "") by
    by (done || apply Hlacks).
  rewrite (replace_lacks " " _ blank "") by by (done || apply Hlacks).
  unfold mbind, M_bind. rewrite slice_quoted. by repeat case_bool_decide.
Qed.

Lemma readLine_line n : readLine (labelLine kv) n = readLabel (labelLine kv) n.
Proof.
  unfold readLine. rewrite TrimSpace_graphic by apply labelLine_graphic.
  rewrite Split_lacks by apply labelLine_lacks_newline. cbn [forU].
  unfold mbind, M_bind. by rewrite readLabel_line.
Qed.

Lemma dropCR_line : dropCR (labelLine kv) = labelLine kv.
Proof.
  unfold labelLine. change (String dquote (kv.2 +:+ dq)) with (dq +:+ (kv.2 +:+ dq)).
  change (String equals (dq +:+ (kv.2 +:+ dq))) with ("=" +:+ (dq +:+ (kv.2 +:+ dq))).
  rewrite <-!app_assoc_str. by apply dropCR_app.
Qed.
End line.

(** What a label contributes. *)
Definition takeLabel (n : NsName) (kv : string * string) : NsName :=
  if bool_decide (kv.1 = AuthNamespace) then set_authNs kv.2 n
  else if bool_decide (kv.1 = AuthName) then set_authName kv.2 n
  else n.

Lemma labelLine_not_empty kv : labelLine kv ≠ "".
Proof. unfold labelLine. by destruct (kv.1). Qed.

Lemma scanLines_labelsFile labels :
  labels ≠ [] → Forall (λ kv, label_ok kv = true) labels →
  scanLines (labelsFile labels) = map labelLine labels.
Proof.
  intros Hne Hok. unfold scanLines, labelsFile, nl. rewrite Split_Join.
  - clear Hne. induction Hok as [|kv labels Hkv Hok IH]; [done|].
    assert (textLines (map labelLine (kv :: labels)) =
      labelLine kv :: textLines (map labelLine labels)) as ->.
    { cbn. pose proof (labelLine_not_empty kv). by destruct (labelLine kv), (map labelLine labels). }
    cbn [scanned]. rewrite (proj2 (Z.ltb_lt _ _)) by by apply labelLine_short.
    by rewrite dropCR_line, IH.
  - by destruct labels.
  - apply Forall_map. eapply Forall_impl; [done|]. apply labelLine_lacks_newline.
Qed.

Lemma readLines_labels labels n :
  Forall (λ kv, label_ok kv = true) labels →
  forU readLine (map labelLine labels) n = Done tt (foldl takeLabel n labels).
Proof.
  intros Hok. revert n. induction Hok as [|kv labels Hkv _ IH]; intros n; [done|].
  cbn [map forU foldl]. unfold mbind, M_bind. rewrite readLine_line, readLabel_line by done.
  apply IH.
Qed.

(** A variable that follows one key ends with the value the file has for it. *)
Lemma foldl_takeLabel (get : NsName → string) key v labels n :
  (∀ n kv, kv.1 = key → get (takeLabel n kv) = kv.2) →
  (∀ n kv, kv.1 ≠ key → get (takeLabel n kv) = get n) →
  NoDup labels.*1 → (key, v) ∈ labels → get (foldl takeLabel n labels) = v.
Proof.
  intros Hput Hkeep. induction labels as [|kv labels IH] using rev_ind; [set_solver|].
  rewrite foldl_snoc, fmap_app, NoDup_app. intros (Hnd & Hdisj & _) Hin.
  destruct (decide (kv.1 = key)) as [Hk|Hk].
  - rewrite Hput by done. apply elem_of_app in Hin as [Hin|Hin%list_elem_of_singleton].
    + exfalso. apply (Hdisj key); [by apply (list_elem_of_fmap_2 fst) in Hin|]. cbn. subst key.
      by left.
    + by subst kv.
  - rewrite Hkeep by done. apply IH; [done|].
    apply elem_of_app in Hin as [Hin|Hin%list_elem_of_singleton]; [done|]. by subst kv.
Qed.

Lemma readAuth_labels labels ns name :
  Forall (λ kv, label_ok kv = true) labels → NoDup labels.*1 →
  (AuthNamespace, ns) ∈ labels → (AuthName, name) ∈ labels → ns ≠ "" → name ≠ "" →
  ∃ n, readAuth (Ok (labelsFile labels)) = Done (Ok {| authNs := ns; authName := name |}) n.
Proof.
  intros Hok Hnd Hns Hname Hne Hne'. unfold readAuth, GetAuthNamespacedName, gets, mbind, M_bind.
  rewrite scanLines_labelsFile, readLines_labels by (done || by intros ->; set_solver).
  set (n0 := {| authNs := ""; authName := "" |}).
  assert (authNs (foldl takeLabel n0 labels) = ns) as Hn1.
  { apply (foldl_takeLabel authNs AuthNamespace); [..|done|done]; intros n kv Hk;
      unfold takeLabel; [by rewrite bool_decide_true|].
    rewrite bool_decide_false by done. by case_bool_decide. }
  assert (authName (foldl takeLabel n0 labels) = name) as Hn2.
  { apply (foldl_takeLabel authName AuthName); [..|done|done]; intros n kv Hk;
      unfold takeLabel.
    - by rewrite Hk.
    - rewrite (bool_decide_false (kv.1 = AuthName)) by done. by case_bool_decide. }
  cbn. rewrite !bool_decide_false by congruence. cbn. eexists. f_equal. f_equal.
  destruct (foldl takeLabel n0 labels). cbn in *. congruence.
Qed.

(** ** Theorems *)

(** The monitor finds its Authenticator: from any labels file that has the
    labels of the generated pods among others, in any order, it reads back the
    namespace and the name of the Authenticator the pods were generated for. *)
Lemma GetAuthNamespacedName_finds g labels :
  Forall (λ kv, label_ok kv = true) labels → NoDup labels.*1 →
  map_Forall (λ k v, (k, v) ∈ labels) (podLabels g) →
  Namespace (a11r g) ≠ "" → Name (a11r g) ≠ "" →
  ∃ n, readAuth (Ok (labelsFile labels)) =
    Done (Ok {| authNs := Namespace (a11r g); authName := Name (a11r g) |}) n.
Proof.
  intros Hok Hnd Hpod. apply readAuth_labels; [done|done|apply Hpod..].
  - unfold podLabels. by rewrite lookup_insert_ne, lookup_insert_eq.
  - unfold podLabels. by rewrite lookup_insert_eq.
Qed.

(** A label whose value is shorter than its two quotes brings the monitor
    down: the function cuts the first and the last byte off every value without
    looking at its length. *)
Lemma GetAuthNamespacedName_short_value key :
  str_forallb label_char key = true → (Z.of_nat (String.length key) < maxToken - 1)%Z →
  readAuth (Ok (key +:+ "=")) =
    Panic "slice bounds out of range" {| authNs := ""; authName := "" |}.
Proof.
  intros Hkey Hlen. unfold readAuth, GetAuthNamespacedName, mbind, M_bind.
  assert (str_forallb is_graphic (key +:+ "=") = true) as Hg
    by by rewrite str_forallb_app, (label_char_graphic key).
  assert (lacks newline (key +:+ "=") = true) as Hnl by (rewrite lacks_app;
    by rewrite (label_char_lacks newline key)).
  assert (scanLines (key +:+ "=") = [key +:+ "="]) as ->.
  { unfold scanLines. rewrite Split_lacks by done.
    assert (textLines [key +:+ "="] = [key +:+ "="]) as -> by by destruct key.
    cbn [scanned]. rewrite length_app_str. cbn [String.length].
    rewrite (proj2 (Z.ltb_lt _ _)) by lia. by rewrite dropCR_app. }
  cbn [forU]. unfold readLine, mbind, M_bind. rewrite TrimSpace_graphic, Split_lacks by done.
  cbn [forU]. unfold mbind, M_bind, readLabel. change "=" with (String equals "").
  by rewrite Split_app by by apply label_char_lacks.
Qed.

(** ** Witnesses *)
Definition labelledGen : ConfigGenerator :=
  New {| Name := "auth-sample"; Namespace := "default"; UID := "1"; ResourceVersion := "1";
         Spec := {| Enabled := true; Interfaces := []; Authentication :=
                      {| Local := None; Radius_ := None |};
                    Configuration := None; Image := ""; NodeSelector := None;
                    TrafficControl_ := None |};
         Status := {| Status_Interfaces := [] |} |} "authenticator".

Lemma GetAuthNamespacedName_finds_witness :
  let labels := [("app", AppId); (AuthName, "auth-sample"); (AuthNamespace, "default");
                 ("pod-template-generation", "1")] in
  ∃ n, readAuth (Ok (labelsFile labels)) =
    Done (Ok {| authNs := "default"; authName := "auth-sample" |}) n.
Proof.
  apply (GetAuthNamespacedName_finds labelledGen).
  - repeat constructor.
  - apply (bool_decide_unpack _). vm_compute. exact I.
  - apply (bool_decide_unpack _). vm_compute. exact I.
  - done.
  - done.
Defined.

Lemma GetAuthNamespacedName_short_value_witness :
  readAuth (Ok ("app" +:+ "=")) =
    Panic "slice bounds out of range" {| authNs := ""; authName := "" |}.
Proof.
  apply (GetAuthNamespacedName_short_value "app"); [reflexivity|].
  vm_compute. reflexivity.
Defined.
