(* ===== verification/Sys.v ===== *)
(** * The system around the program

    What the program observes and does outside its own memory is a trace of
    events, the newest first: commands run through bash, netlink requests,
    sysfs lookups, datagrams to hostapd, calls of the Kubernetes API, readings
    of the clock, and the order in which a [range] over a map visits it.

    The class [Sys] is everything the code cannot decide: the answer to each
    request, an arbitrary function of the trace so far.  A theorem that holds
    for every [Sys] holds whatever fails, in whatever order. *)
From S2P Require Import Prelude GoStrings Api.

(** ** Network links: the fields of [netlink.LinkAttrs] the program reads *)
Inductive LinkOperState := OperUnknown | OperNotPresent | OperDown | OperLowerLayerDown
  | OperTesting | OperDormant | OperUp.

#[global] Instance LinkOperState_eq_dec : EqDecision LinkOperState.
Proof. solve_decision. Defined.

Record VfAttrs := { VF_ID : Z; VF_Vlan : Z }.

Record Link := {
  Link_Name : string;
  OperState : LinkOperState;
  Vfs : list VfAttrs;
}.

Definition VF_LINK_STATE_AUTO : Z := 0.
Definition VF_LINK_STATE_DISABLE : Z := 2.

(** ** Events *)
Inductive event :=
| EvLookPath (file : string) (r : option error)
| EvRun (command : string) (r : option error)
| EvStat (path : string) (isDir : option bool)
| EvGlob (pattern : string) (r : result (list string))
| EvReadDir (path : string) (r : result (list string))
| EvLinkByName (name : string) (r : result Link)
| EvSetVfVlan (link : string) (vf vlan : Z) (r : option error)
| EvSetVfState (link : string) (vf state : Z) (r : option error)
| EvRange
| EvNow (t : Z)
| EvTempFile (r : option error)
| EvDial (ifName : string) (r : option error)
| EvWrite (command : string) (r : option error)
| EvRead (r : result string)
| EvCloseConn (r : option error)
| EvSubscribe (ifName : string)
| EvUnsubscribe (ifName : string)
| EvGo (goroutine : string)
| EvGetAuth (key : string * string) (r : result Authenticator)
| EvUpdateStatus (obj : Authenticator) (r : option error)
| EvRecord (about : Authenticator) (eventType reason message : string)
| EvWait
| EvStopHandler.

Abbreviation Trace := (list event).

(** ** The environment's answers *)
Class Sys := {
  sysLookPath : Trace → string → option error;
  sysRun : Trace → string → option error;
  sysStat : Trace → string → option bool;
  sysGlob : Trace → string → result (list string);
  sysReadDir : Trace → string → result (list string);
  sysLinkByName : Trace → string → result Link;
  sysSetVfVlan : Trace → Link → Z → Z → option error;
  sysSetVfState : Trace → Link → Z → Z → option error;
  sysNow : Trace → Z;
  sysTempFile : Trace → option error;
  sysDial : Trace → string → option error;
  sysWrite : Trace → string → option error;
  sysRead : Trace → result string;
  sysCloseConn : Trace → option error;
  sysGetAuth : Trace → string * string → result Authenticator;
  sysUpdateStatus : Trace → Authenticator → option error;
  (** The Go specification: a [range] over a map visits every entry once, in an
      unspecified order. *)
  sysOrder : ∀ A : Type, Trace → list A → list A;
  sysOrder_perm : ∀ A tr (l : list A), sysOrder A tr l ≡ₚ l;
}.

(** ** The state that the traffic control package works on

    A [*PFInfo] is an address in a store; the [VFInfo]s hang off their PF's
    map, and point back to it by its address. *)
Abbreviation ref := nat.

Record VFInfo := {
  Parent : ref;
  VF_Index : Z;
  Vlan : Z;
}.

Record PFInfo := {
  PF_Name : string;
  Authenticated : bool;
  AuthenticatedAddrs : gset string;
  VFs : gmap Z VFInfo;
}.

Record World := {
  trace : Trace;
  pfs : gmap ref PFInfo;
}.

Definition set_trace (tr : Trace) (w : World) : World := {| trace := tr; pfs := pfs w |}.
Definition set_pfs (m : gmap ref PFInfo) (w : World) : World := {| trace := trace w; pfs := m |}.

Definition set_Authenticated (b : bool) (pf : PFInfo) : PFInfo :=
  {| PF_Name := PF_Name pf; Authenticated := b;
     AuthenticatedAddrs := AuthenticatedAddrs pf; VFs := VFs pf |}.
Definition set_AuthenticatedAddrs (s : gset string) (pf : PFInfo) : PFInfo :=
  {| PF_Name := PF_Name pf; Authenticated := Authenticated pf;
     AuthenticatedAddrs := s; VFs := VFs pf |}.
Definition set_VFs (m : gmap Z VFInfo) (pf : PFInfo) : PFInfo :=
  {| PF_Name := PF_Name pf; Authenticated := Authenticated pf;
     AuthenticatedAddrs := AuthenticatedAddrs pf; VFs := m |}.
Definition set_Vlan (v : Z) (vf : VFInfo) : VFInfo :=
  {| Parent := Parent vf; VF_Index := VF_Index vf; Vlan := v |}.

(** ** Operations *)
Definition observe {A} (answer : Trace → A) (ev : A → event) : M World A := λ w,
  let a := answer (trace w) in
  Done a (set_trace (ev a :: trace w) w).

Definition readPF (p : ref) : M World PFInfo :=
  o ← gets (λ w, pfs w !! p); deref o.

Definition updatePF (p : ref) (f : PFInfo → PFInfo) : M World unit :=
  pf ← readPF p;
  modify (λ w, set_pfs (<[p := f pf]> (pfs w)) w).

Section operations.
Context `{Sys}.

Definition LookPath (file : string) : M World (option error) :=
  observe (λ tr, sysLookPath tr file) (EvLookPath file).

(** [exec.Command("bash", "-c", command).Run()] *)
Definition Run (command : string) : M World (option error) :=
  observe (λ tr, sysRun tr command) (EvRun command).

Definition Stat (path : string) : M World (option bool) :=
  observe (λ tr, sysStat tr path) (EvStat path).

Definition Glob (pattern : string) : M World (result (list string)) :=
  observe (λ tr, sysGlob tr pattern) (EvGlob pattern).

Definition ReadDir (path : string) : M World (result (list string)) :=
  observe (λ tr, sysReadDir tr path) (EvReadDir path).

Definition LinkByName (name : string) : M World (result Link) :=
  observe (λ tr, sysLinkByName tr name) (EvLinkByName name).

Definition LinkSetVfVlan (l : Link) (vf vlan : Z) : M World (option error) :=
  observe (λ tr, sysSetVfVlan tr l vf vlan) (EvSetVfVlan (Link_Name l) vf vlan).

Definition LinkSetVfState (l : Link) (vf state : Z) : M World (option error) :=
  observe (λ tr, sysSetVfState tr l vf state) (EvSetVfState (Link_Name l) vf state).

Definition Now : M World Z := observe sysNow EvNow.

(** The order of one [range] over a map whose entries are [l]. *)
Definition rangeOrder {A} (l : list A) : M World (list A) := λ w,
  Done (sysOrder A (trace w) l) (set_trace (EvRange :: trace w) w).
End operations.

(** ** What a trace says *)

(** The shell commands, in the order they were run. *)
Definition commandOf (e : event) : option string :=
  match e with
  | EvRun c _ => Some c
  | _ => None
  end.
Definition commands (tr : Trace) : list string := rev (omap commandOf tr).

(** The VLAN and the link state a VF was last given successfully. *)
Fixpoint vfVlan (tr : Trace) (link : string) (vf : Z) : option Z :=
  match tr with
  | [] => None
  | EvSetVfVlan l i v None :: tr' =>
      if bool_decide (l = link ∧ i = vf) then Some v else vfVlan tr' link vf
  | _ :: tr' => vfVlan tr' link vf
  end.

Fixpoint vfState (tr : Trace) (link : string) (vf : Z) : option Z :=
  match tr with
  | [] => None
  | EvSetVfState l i v None :: tr' =>
      if bool_decide (l = link ∧ i = vf) then Some v else vfState tr' link vf
  | _ :: tr' => vfState tr' link vf
  end.
