(* ===== verification/LinkEvents.v ===== *)
(** * Link events: pkg/netlink/eventhandle.go

    One handler per process takes link updates from the kernel and passes each on
    to the channel that its interface is subscribed with; a monitor's
    [handleIfEvents] receives on that channel.  The channels are unbuffered: the
    handler waits in the send, holding its mutex, until the monitor receives.

    The machine below has one step per operation on the mutex or a channel, those
    of the netlink library on the handler's channel included: its goroutine sends
    any updates until it closes the channel.
    [Subscribe] and [Unsubscribe] run under the mutex as a whole, so they cannot
    run while the handler is in a send; what the handler does between its lock and
    the send is one step too.  A monitor that has taken an update can always be done
    with it ([net_handled]): that its handling of the update ends is assumed here,
    and shown where it is modelled, in [HostapSteps]. *)
From S2P Require Import Prelude Sys.

(** ** The handler's state and operations *)
Abbreviation chan := nat.

Record LinkEventHandler := { ifaceChannels : gmap string chan }.

Definition Subscribe (eventChannel : option chan) (ifNames : list string) (l : LinkEventHandler)
  : option error * LinkEventHandler :=
  match eventChannel with
  | None => (Some (Error ROther "event channel can not be empty"), l)
  | Some ch =>
      (None, foldl (λ l ifName, {| ifaceChannels := <[ifName := ch]> (ifaceChannels l) |})
               l ifNames)
  end.

Definition Unsubscribe (ifNames : list string) (l : LinkEventHandler) : LinkEventHandler :=
  foldl (λ l ifName, {| ifaceChannels := delete ifName (ifaceChannels l) |}) l ifNames.

(** ** The system of the handler, the kernel's updates and the monitors' receivers *)

(** Where the handler's goroutine is: before it has subscribed to the kernel's
    updates, in the [select], before the mutex with an update, in a send, or gone. *)
Inductive position :=
| Subscribing
| Selecting
| Locking (link : Link)
| Sending (ch : chan) (link : Link)
| Exited.

(** Where the receiver of a channel is. *)
Inductive receiver :=
| Waiting
| Handling (link : Link)
| Left_.

(** [linkUpdateCh]: open, with the update that the netlink library's goroutine is
    sending on it, or closed. *)
Inductive Feed :=
| Feeding (offered : option Link)
| FeedClosed.

(** What has happened that bears on where an update goes: the subscriptions, and
    the updates, when they are received and when the handler has the mutex. *)
Inductive happening :=
| Subscribed (ch : chan) (ifNames : list string)
| Unsubscribed (ifNames : list string)
| Received (link : Link)
| Locked (link : Link).

(** [stopping]: [l.stop] has been closed; [closing]: the channels whose monitor has
    been told to stop; [done_]: [done] has been closed; [draining]: the goroutine of
    [closeLinkSubscribe] runs; [passed]: what was received on which channel, from
    the last to the first; [history]: what happened, from the last to the first. *)
Record Net := {
  handler : LinkEventHandler;
  at_ : position;
  stopping : bool;
  opened : gset chan;
  receivers : gmap chan receiver;
  closing : gset chan;
  feed : Feed;
  done_ : bool;
  draining : bool;
  passed : list (chan * Link);
  history : list happening;
}.

(** [Start]. *)
Definition net_start : Net :=
  {| handler := {| ifaceChannels := ∅ |}; at_ := Subscribing; stopping := false; opened := ∅;
     receivers := ∅; closing := ∅; feed := Feeding None; done_ := false; draining := false;
     passed := []; history := [] |}.

Definition set_handler (h : LinkEventHandler) (n : Net) : Net :=
  {| handler := h; at_ := at_ n; stopping := stopping n; opened := opened n;
     receivers := receivers n; closing := closing n; feed := feed n; done_ := done_ n;
     draining := draining n; passed := passed n; history := history n |}.
Definition set_at (p : position) (n : Net) : Net :=
  {| handler := handler n; at_ := p; stopping := stopping n; opened := opened n;
     receivers := receivers n; closing := closing n; feed := feed n; done_ := done_ n;
     draining := draining n; passed := passed n; history := history n |}.
Definition set_stopping (n : Net) : Net :=
  {| handler := handler n; at_ := at_ n; stopping := true; opened := opened n;
     receivers := receivers n; closing := closing n; feed := feed n; done_ := done_ n;
     draining := draining n; passed := passed n; history := history n |}.
Definition set_channels (o : gset chan) (r : gmap chan receiver) (c : gset chan) (n : Net) : Net :=
  {| handler := handler n; at_ := at_ n; stopping := stopping n; opened := o; receivers := r;
     closing := c; feed := feed n; done_ := done_ n; draining := draining n; passed := passed n;
     history := history n |}.
Definition set_feed (f : Feed) (n : Net) : Net :=
  {| handler := handler n; at_ := at_ n; stopping := stopping n; opened := opened n;
     receivers := receivers n; closing := closing n; feed := f; done_ := done_ n;
     draining := draining n; passed := passed n; history := history n |}.
Definition set_done (d : bool) (n : Net) : Net :=
  {| handler := handler n; at_ := at_ n; stopping := stopping n; opened := opened n;
     receivers := receivers n; closing := closing n; feed := feed n; done_ := true;
     draining := d; passed := passed n; history := history n |}.
Definition set_log (p : list (chan * Link)) (h : list happening) (n : Net) : Net :=
  {| handler := handler n; at_ := at_ n; stopping := stopping n; opened := opened n;
     receivers := receivers n; closing := closing n; feed := feed n; done_ := done_ n;
     draining := draining n; passed := p; history := h |}.

Definition note (h : happening) (n : Net) : Net := set_log (passed n) (h :: history n) n.

Definition set_receiver (ch : chan) (r : receiver) (n : Net) : Net :=
  set_channels (opened n) (<[ch := r]> (receivers n)) (closing n) n.

(** The mutex is held outside the step that takes it only during a send. *)
Definition mutex_free (p : position) : Prop :=
  match p with
  | Sending _ _ => False
  | _ => True
  end.

(** [handleEvents] with an update, when it has the mutex: to the send, if there is a
    channel. *)
Definition takeUpdate (link : Link) (n : Net) : Net :=
  match ifaceChannels (handler n) !! Link_Name link with
  | Some ch => set_at (Sending ch link) n
  | None => set_at Selecting n
  end.

(** [closeLinkSubscribe], and [handleEvents] returns. *)
Definition closeLinkSubscribe (n : Net) : Net := set_at Exited (set_done true n).

Inductive net_step (n : Net) : Net → Prop :=
(* StartMonitor: make(chan), Subscribe *)
| net_subscribe ch ifNames :
    mutex_free (at_ n) → ch ∉ opened n → receivers n !! ch = None → ch ∉ closing n →
    net_step n
      (note (Subscribed ch ifNames)
        (set_handler (snd (Subscribe (Some ch) ifNames (handler n)))
          (set_channels ({[ch]} ∪ opened n) (receivers n) (closing n) n)))
(* go handleIfEvents *)
| net_go ch :
    ch ∈ opened n → receivers n !! ch = None → net_step n (set_receiver ch Waiting n)
(* handleEvents: LinkSubscribe *)
| net_subscribed :
    at_ n = Subscribing → net_step n (set_at Selecting n)
(* LinkSubscribe fails: close(done), close(linkUpdateCh) *)
| net_refused :
    at_ n = Subscribing → net_step n (set_at Exited (set_feed FeedClosed (set_done false n)))
(* the library has an update, or it closes linkUpdateCh *)
| net_offer link :
    at_ n ≠ Subscribing → feed n = Feeding None → net_step n (set_feed (Feeding (Some link)) n)
| net_feed_ends :
    at_ n ≠ Subscribing → feed n = Feeding None → net_step n (set_feed FeedClosed n)
(* handleEvents: an update from the kernel *)
| net_take link :
    at_ n = Selecting → feed n = Feeding (Some link) →
    net_step n (note (Received link) (set_at (Locking link) (set_feed (Feeding None) n)))
(* handleEvents: the mutex, and the channel of the interface *)
| net_lock link :
    at_ n = Locking link → net_step n (note (Locked link) (takeUpdate link n))
(* handleEvents: linkUpdateCh is closed *)
| net_ended :
    at_ n = Selecting → feed n = FeedClosed → net_step n (closeLinkSubscribe n)
(* the send meets the receiver *)
| net_pass ch link :
    at_ n = Sending ch link → ch ∈ opened n → receivers n !! ch = Some Waiting →
    net_step n
      (set_at Selecting
        (set_log ((ch, link) :: passed n) (history n) (set_receiver ch (Handling link) n)))
(* the receiver is done with an update *)
| net_handled ch link :
    receivers n !! ch = Some (Handling link) → net_step n (set_receiver ch Waiting n)
(* StopMonitor: close(m.stop) *)
| net_close ch :
    ch ∈ opened n →
    net_step n (set_channels (opened n) (receivers n) ({[ch]} ∪ closing n) n)
(* handleIfEvents: <-m.stop, close(m.ifEventCh) *)
| net_leave ch :
    ch ∈ closing n → receivers n !! ch = Some Waiting →
    net_step n
      (set_channels (opened n ∖ {[ch]}) (<[ch := Left_]> (receivers n)) (closing n) n)
(* StopMonitor: Unsubscribe *)
| net_unsubscribe ifNames :
    mutex_free (at_ n) →
    net_step n (note (Unsubscribed ifNames) (set_handler (Unsubscribe ifNames (handler n)) n))
(* StopHandler: close(l.stop); stopWg.Wait() returns when handleEvents has *)
| net_stop :
    stopping n = false → net_step n (set_stopping n)
(* handleEvents: <-l.stop *)
| net_exit :
    at_ n = Selecting → stopping n = true → net_step n (closeLinkSubscribe n)
(* closeLinkSubscribe: for range linkUpdateCh *)
| net_drain link :
    draining n = true → feed n = Feeding (Some link) → net_step n (set_feed (Feeding None) n).

(** A send on a closed channel panics, even if it was waiting already. *)
Definition net_panics (n : Net) : Prop :=
  ∃ ch link, at_ n = Sending ch link ∧ ch ∉ opened n.

(** ** What the history calls for

    The channel of an interface is that of the last subscription of its name that
    has not been undone since. *)
Fixpoint channelFor (h : list happening) (ifName : string) : option chan :=
  match h with
  | [] => None
  | Subscribed ch ifNames :: h =>
      if bool_decide (ifName ∈ ifNames) then Some ch else channelFor h ifName
  | Unsubscribed ifNames :: h =>
      if bool_decide (ifName ∈ ifNames) then None else channelFor h ifName
  | _ :: h => channelFor h ifName
  end.

(** The updates received, and those the mutex was taken for. *)
Definition received (h : list happening) : list Link :=
  omap (λ e, match e with Received link => Some link | _ => None end) h.
Definition locked (h : list happening) : list Link :=
  omap (λ e, match e with Locked link => Some link | _ => None end) h.

(** Which update is due on which channel, from the last to the first: each update
    on the channel that its interface had when the mutex was taken for it. *)
Fixpoint due (h : list happening) : list (chan * Link) :=
  match h with
  | [] => []
  | Locked link :: h =>
      match channelFor h (Link_Name link) with
      | Some ch => (ch, link) :: due h
      | None => due h
      end
  | _ :: h => due h
  end.

(** ** The invariant *)
Record net_inv (n : Net) : Prop := {
  (* a subscribed channel is open or its monitor stops *)
  inv_subscribed : ∀ ifName ch, ifaceChannels (handler n) !! ifName = Some ch →
    ch ∈ opened n ∨ ch ∈ closing n;
  (* the handler sends on the channel of the update's interface *)
  inv_sending : ∀ ch link, at_ n = Sending ch link →
    ifaceChannels (handler n) !! Link_Name link = Some ch;
  (* the map is what the subscriptions call for *)
  inv_channels : ∀ ifName, ifaceChannels (handler n) !! ifName = channelFor (history n) ifName;
  (* what was received has been locked for, but for the one at hand *)
  inv_received : received (history n) = match at_ n with
                                        | Locking link => link :: locked (history n)
                                        | _ => locked (history n)
                                        end;
  (* what is due has been passed on, in order, but for the one being sent *)
  inv_due : due (history n) = match at_ n with
                              | Sending ch link => (ch, link) :: passed n
                              | _ => passed n
                              end;
  (* only a monitor that stops gives up its channel *)
  inv_left : ∀ ch, receivers n !! ch = Some Left_ → ch ∈ closing n ∧ ch ∉ opened n;
  (* the handler leaves nobody behind who sends on linkUpdateCh *)
  inv_exited : at_ n = Exited → done_ n = true ∧ (draining n = true ∨ feed n = FeedClosed);
}.

Lemma Subscribe_lookup ch ifNames l ifName ch' :
  ifaceChannels (snd (Subscribe (Some ch) ifNames l)) !! ifName = Some ch' →
  (ifName ∈ ifNames ∧ ch' = ch) ∨ (ifName ∉ ifNames ∧ ifaceChannels l !! ifName = Some ch').
Proof.
  cbn. induction ifNames as [|i rest IH] using rev_ind; [set_solver|]. rewrite foldl_snoc. cbn.
  intros [[<- <-]|[Hne Hl]]%lookup_insert_Some; [set_solver|]. destruct (IH Hl); set_solver.
Qed.

Lemma Unsubscribe_lookup ifNames l ifName :
  ifaceChannels (Unsubscribe ifNames l) !! ifName =
  if bool_decide (ifName ∈ ifNames) then None else ifaceChannels l !! ifName.
Proof.
  unfold Unsubscribe. induction ifNames as [|i rest IH] using rev_ind; [done|].
  rewrite foldl_snoc. cbn. destruct (decide (i = ifName)) as [->|Hne].
  - rewrite lookup_delete_eq, bool_decide_true; [done|set_solver].
  - rewrite lookup_delete_ne, IH by done.
    by rewrite (bool_decide_ext (ifName ∈ rest) (ifName ∈ rest ++ [i])) by set_solver.
Qed.

Lemma Subscribe_channel ch ifNames l ifName :
  ifaceChannels (snd (Subscribe (Some ch) ifNames l)) !! ifName =
  if bool_decide (ifName ∈ ifNames) then Some ch else ifaceChannels l !! ifName.
Proof.
  cbn. induction ifNames as [|j rest IH] using rev_ind; [done|]. rewrite foldl_snoc. cbn.
  destruct (decide (j = ifName)) as [->|Hne].
  - rewrite lookup_insert_eq, bool_decide_true; [done|set_solver].
  - rewrite lookup_insert_ne, IH by done.
    by rewrite (bool_decide_ext (ifName ∈ rest) (ifName ∈ rest ++ [j])) by set_solver.
Qed.

Lemma inv_sent_on n ch link :
  net_inv n → at_ n = Sending ch link → ch ∈ opened n ∨ ch ∈ closing n.
Proof. intros HI Hat. by eapply (inv_subscribed _ HI), (inv_sending _ HI). Qed.

(** Where a step leaves the history and the handler's place in it. *)
Lemma history_step n n' :
  net_inv n → net_step n n' →
  (∀ ifName, ifaceChannels (handler n') !! ifName = channelFor (history n') ifName) ∧
  received (history n') =
    match at_ n' with Locking link => link :: locked (history n') | _ => locked (history n') end ∧
  due (history n') =
    match at_ n' with Sending ch link => (ch, link) :: passed n' | _ => passed n' end.
Proof.
  intros [_ _ Hch Hrec Hdue _ _] Hstep.
  destruct Hstep as [ch ifNames Hm _ Hrn _|ch Hc _|Hat|Hat|link Hat Hf|Hat Hf|link Hat Hf|link Hat
    |Hat Hf|ch link Hat Hc Hr|ch link Hr|ch Hc|ch Hc Hr|ifNames Hm|Hs|Hat Hs|link Hd Hf];
    unfold takeUpdate in *; rewrite ?Hch; cbn [handler note set_log set_handler set_channels history
      set_at set_feed set_receiver set_stopping closeLinkSubscribe set_done channelFor at_ passed
      received locked omap list_omap due] in *; try done;
    try (by rewrite Hat in Hrec, Hdue).
  - split; [|done]. intros i. rewrite Subscribe_channel. by case_bool_decide.
  - rewrite Hat in Hrec, Hdue. split; [done|]. by split; [f_equal|].
  - rewrite Hat in Hrec, Hdue. destruct (channelFor (history n) (Link_Name link)) as [ch|] eqn:E.
    + split; [exact Hch|]. split; [exact Hrec|]. cbn. by rewrite E, Hdue.
    + split; [exact Hch|]. split; [exact Hrec|]. cbn. by rewrite E.
  - split; [|done]. intros i. rewrite Unsubscribe_lookup. by case_bool_decide.
Qed.

Lemma net_inv_step n n' : net_inv n → net_step n n' → net_inv n'.
Proof.
  intros HI Hstep. destruct (history_step _ _ HI Hstep) as (Hch' & Hrec' & Hdue').
  destruct HI as [Hsub Hsend _ _ _ Hleft Hex]. split; [| |exact Hch'|exact Hrec'|exact Hdue'| |];
  clear Hch' Hrec' Hdue';
  destruct Hstep as [ch ifNames Hm _ Hrn _|ch Hc _|Hat|Hat|link Hat Hf|Hat Hf|link Hat Hf|link Hat
    |Hat Hf|ch link Hat Hc Hr|ch link Hr|ch Hc|ch Hc Hr|ifNames Hm|Hs|Hat Hs|link Hd Hf];
    unfold takeUpdate in *; try (destruct (_ !! Link_Name link) as [c'|] eqn:Hl);
    cbn in *; try done;
    try (by intros c [[_ [=]]|[_ Hl]]%lookup_insert_Some; apply Hleft);
    try (by auto); try (intros Hat'; destruct (Hex Hat') as [? [?|?]]; [by auto|congruence]);
    try (unfold mutex_free in Hm; by intros c l Heq; rewrite Heq in Hm).
  - intros i c [[_ ->]|[_ Hl]]%Subscribe_lookup; [set_solver|]. destruct (Hsub _ _ Hl); set_solver.
  - intros i c Hl. destruct (Hsub _ _ Hl); set_solver.
  - intros i c Hl. destruct (decide (c = ch)); [set_solver|]. destruct (Hsub _ _ Hl); set_solver.
  - intros i c. rewrite Unsubscribe_lookup. case_bool_decide; [done|]. apply Hsub.
  - intros c l [= <- <-]. exact Hl.
  - intros c Hl. assert (c ≠ ch) by congruence. apply Hleft in Hl. set_solver.
  - intros c Hl. apply Hleft in Hl. set_solver.
  - intros c [[<- _]|[_ Hl]]%lookup_insert_Some; [set_solver|]. apply Hleft in Hl. set_solver.
Qed.

Lemma net_reachable_inv n : rtc net_step net_start n → net_inv n.
Proof.
  revert n. apply (rtc_ind_r (R := net_step) net_inv net_start).
  - split; cbn; [intros i c Hl; by rewrite lookup_empty in Hl|done|done|done|done| |done].
    intros c Hl. by rewrite lookup_empty in Hl.
  - intros n n' _ Hstep IH. by eapply net_inv_step.
Qed.

(** ** Theorems *)

(** C32. Delivery: whatever the monitors subscribe and unsubscribe and whenever,
    each update that the handler received from the kernel, but for the one it has
    at hand, is due on the channel of the last subscription of its interface's name
    that had not been undone when the handler took the mutex for it, or nowhere if
    there was none; and at every moment the updates received on the channels are
    the ones due, on these channels, in the order in which they came from the
    kernel, all but the one being sent. *)
Theorem link_updates_delivered n :
  rtc net_step net_start n →
  received (history n) = match at_ n with
                         | Locking link => link :: locked (history n)
                         | _ => locked (history n)
                         end ∧
  due (history n) = match at_ n with
                    | Sending ch link => (ch, link) :: passed n
                    | _ => passed n
                    end.
Proof.
  intros Hrun%net_reachable_inv. split; [by apply inv_received|by apply inv_due].
Qed.

(** The handler is safe while no monitor stops: it can only panic on the
    channel of a monitor that has been told to stop. *)
Lemma link_handler_safe n :
  rtc net_step net_start n → closing n = ∅ → ¬ net_panics n.
Proof.
  intros Hrun Hc (ch & link & Hat & Hopen).
  destruct (inv_sent_on _ _ _ (net_reachable_inv _ Hrun) Hat) as [Ho|Hcl]; [done|].
  rewrite Hc in Hcl. set_solver.
Qed.

(** How far a channel's receiver is from taking the next update: it has to be
    started, or to finish with the last one. *)
Definition behind (n : Net) (ch : chan) : nat :=
  match receivers n !! ch with
  | Some Waiting => 0
  | Some (Handling _) => 1
  | _ => 2
  end.

Definition delivered (ch : chan) (link : Link) (n n' : Net) : Prop :=
  at_ n' = Selecting ∧ passed n' = (ch, link) :: passed n.

Definition nearer (ch : chan) (n n' : Net) : Prop :=
  at_ n' = at_ n ∧ passed n' = passed n ∧ opened n' = opened n ∧ behind n' ch < behind n ch.

(** What the receiver can always do next. *)
Lemma receiver_enabled n ch link :
  net_inv n → ch ∈ opened n → at_ n = Sending ch link →
  ∃ n', net_step n n' ∧ stopping n' = stopping n ∧ (delivered ch link n n' ∨ nearer ch n n').
Proof.
  intros HI Ho Hat. pose proof (inv_left _ HI) as Hleft.
  assert (∀ r, behind n ch = S (behind (set_receiver ch r n) ch) → nearer ch n (set_receiver ch r n))
    as Hnear by (intros r Hb; split; [done|]; split; [done|]; split; [done|lia]).
  assert (∀ r, behind (set_receiver ch r n) ch =
    match r with Waiting => 0 | Handling _ => 1 | Left_ => 2 end) as Hb.
  { intros r. unfold behind. cbn. by rewrite lookup_insert_eq. }
  destruct (receivers n !! ch) as [[|l|]|] eqn:Hr.
  - eexists. split; [by eapply net_pass|]. split; [done|]. by left.
  - eexists. split; [by eapply net_handled|]. split; [done|]. right. apply Hnear.
    rewrite Hb. unfold behind. by rewrite Hr.
  - by apply Hleft in Hr as [_ Hr].
  - eexists. split; [by eapply (net_go _ ch)|]. split; [done|]. right.
    split; [done|]. split; [done|]. split; [done|]. rewrite Hb. unfold behind. rewrite Hr. lia.
Qed.

(** Nothing else puts it back, unless it closes the channel. *)
Lemma step_not_farther n n' ch link :
  net_step n n' → at_ n = Sending ch link →
  delivered ch link n n' ∨ net_panics n' ∨ (at_ n' = Sending ch link ∧ behind n' ch ≤ behind n ch).
Proof.
  intros Hstep Hat.
  assert (∀ c r, (c = ch → behind (set_receiver c r n) ch ≤ behind n ch) →
    behind (set_receiver c r n) ch ≤ behind n ch) as Hother.
  { intros c r Hc1. destruct (decide (c = ch)) as [->|Hne]; [by apply Hc1|].
    unfold behind. cbn. by rewrite lookup_insert_ne. }
  destruct Hstep as [c ifNames Hm _ _ _|c Ho Hr|Hat'|Hat'|l Hat' Hf|Hat' Hf|l Hat' Hf|l Hat'|Hat' Hf
    |c l Hat' Ho Hr|c l Hr|c Ho|c Hcl Hr|ifNames Hm|Hs|Hat' Hs|l Hd Hf];
    try (cbn in *; congruence); try (by right; right).
  - right. right. split; [done|]. apply Hother. intros ->. unfold behind. cbn.
    rewrite lookup_insert_eq. lia.
  - left. rewrite Hat in Hat'. by injection Hat' as <- <-.
  - right. right. split; [done|]. apply Hother. intros ->. unfold behind. cbn.
    rewrite lookup_insert_eq. lia.
  - right. destruct (decide (c = ch)) as [->|Hne].
    + left. exists ch, link. split; [done|]. cbn. set_solver.
    + right. split; [done|]. unfold behind. cbn. by rewrite lookup_insert_ne.
Qed.

Lemma not_panics_opened n ch link : ¬ net_panics n → at_ n = Sending ch link → ch ∈ opened n.
Proof.
  intros Hno Hat. destruct (decide (ch ∈ opened n)) as [?|Ho]; [done|].
  destruct Hno. by exists ch, link.
Qed.

Lemma update_received n ch link :
  net_inv n → ch ∈ opened n → at_ n = Sending ch link →
  ∃ n', rtc net_step n n' ∧ delivered ch link n n' ∧ stopping n' = stopping n.
Proof.
  remember (behind n ch) as b eqn:Hb. revert n Hb.
  induction b as [b IH] using lt_wf_ind. intros n -> HI Hc Hat.
  destruct (receiver_enabled n ch link HI Hc Hat) as (n1 & Hstep & Hs1 & [Hd|(Hat1 & Hp1 & Hc1 & Hlt)]).
  - exists n1. split; [by apply rtc_once|done].
  - destruct (IH (behind n1 ch) Hlt n1) as (n2 & Hrtc & [Hat2 Hp2] & Hs2);
      [done|by eapply net_inv_step|congruence..|].
    exists n2. split; [by eapply rtc_l|]. split; [split; [done|congruence]|congruence].
Qed.

(** C33. The handler is not held up, nor is its mutex: in every state in which it
    waits in a send and does not panic, the receiver of that channel has a step
    that takes the update or brings it nearer to doing so; no step of anything else
    puts it back, unless it closes the channel under the handler; and so the update
    can be received, the handler back in its [select]. *)
Theorem link_update_received n ch link :
  rtc net_step net_start n → at_ n = Sending ch link → ¬ net_panics n →
  (∃ n', net_step n n' ∧ (delivered ch link n n' ∨ nearer ch n n')) ∧
  (∀ n', net_step n n' →
     delivered ch link n n' ∨ net_panics n' ∨
     (at_ n' = Sending ch link ∧ behind n' ch ≤ behind n ch)) ∧
  ∃ n', rtc net_step n n' ∧ delivered ch link n n'.
Proof.
  intros Hrun%net_reachable_inv Hat Hno. pose proof (not_panics_opened _ _ _ Hno Hat) as Ho.
  split; [|split].
  - destruct (receiver_enabled n ch link) as (n' & Hstep & _ & Hn'); [done..|]. by exists n'.
  - intros n' Hstep. by eapply step_not_farther.
  - destruct (update_received n ch link) as (n' & Hrtc & Hd & _); [done..|]. by exists n'.
Qed.

(** With an update before the mutex: it goes to an open channel and is received, or
    the monitor of a closed one, which is in [StopMonitor], unsubscribes it first. *)
Lemma lock_ends n link :
  net_inv n → at_ n = Locking link →
  ∃ n', rtc net_step n n' ∧ at_ n' = Selecting ∧ stopping n' = stopping n.
Proof.
  intros HI Hat. pose proof (net_inv_step _ _ HI (net_lock n link Hat)) as HI1.
  destruct (ifaceChannels (handler n) !! Link_Name link) as [ch|] eqn:Hch.
  - destruct (decide (ch ∈ opened n)) as [Ho|Ho].
    + destruct (update_received (note (Locked link) (takeUpdate link n)) ch link)
        as (n' & Hrtc & [Hat' _] & Hs'); [done|by unfold takeUpdate; rewrite Hch..|].
      exists n'. split; [eapply rtc_l; [by apply net_lock|exact Hrtc]|]. split; [done|].
      rewrite Hs'. unfold takeUpdate. by rewrite Hch.
    + set (n1 := note (Unsubscribed [Link_Name link])
        (set_handler (Unsubscribe [Link_Name link] (handler n)) n)).
      exists (note (Locked link) (takeUpdate link n1)).
      assert (ifaceChannels (handler n1) !! Link_Name link = None) as Hn1
        by (cbn; apply lookup_delete_eq).
      split; [|by unfold takeUpdate; rewrite Hn1].
      eapply rtc_l; [apply net_unsubscribe; unfold mutex_free; by rewrite Hat|].
      by apply rtc_once, net_lock.
  - exists (note (Locked link) (takeUpdate link n)). split; [by apply rtc_once, net_lock|].
    unfold takeUpdate. by rewrite Hch.
Qed.

(** C34. [StopHandler] returns: when it has closed [l.stop], the handler's goroutine
    can go on to its end, unless it panics on the spot, which it does not when no
    interface is subscribed any more; it does not leave its end; and there [done] has
    been closed, and an update that the netlink library is still sending is always
    received, so that no goroutine of the library is left behind. *)
Theorem link_handler_stops n :
  rtc net_step net_start n →
  (stopping n = true → ¬ net_panics n → ∃ n', rtc net_step n n' ∧ at_ n' = Exited) ∧
  (ifaceChannels (handler n) = ∅ → ¬ net_panics n) ∧
  (at_ n = Exited →
   (∀ n', rtc net_step n n' → at_ n' = Exited) ∧ done_ n = true ∧
   ∀ link, feed n = Feeding (Some link) → ∃ n', net_step n n' ∧ feed n' = Feeding None).
Proof.
  intros Hrun%net_reachable_inv. split; [|split].
  - intros Hs Hno.
    assert (∀ n1, at_ n1 = Selecting → stopping n1 = true → ∃ n', rtc net_step n1 n' ∧ at_ n' = Exited)
      as Hsel by (intros n1 H1 H2; eexists; split; [by apply rtc_once, net_exit|done]).
    destruct (at_ n) as [| |link|ch link|] eqn:Hat; [| | | |by exists n].
    + destruct (Hsel (set_at Selecting n)) as (n' & Hrtc & Hn'); [done|done|].
      exists n'. split; [|done]. eapply rtc_l; [by apply net_subscribed|done].
    + by apply Hsel.
    + destruct (lock_ends n link Hrun Hat) as (n1 & Hrtc & Hat1 & Hs1).
      destruct (Hsel n1) as (n' & Hrtc' & Hn'); [done|congruence|].
      exists n'. split; [by etrans|done].
    + destruct (update_received n ch link) as (n1 & Hrtc & [Hat1 _] & Hs1);
        [done|by eapply not_panics_opened|done|].
      destruct (Hsel n1) as (n' & Hrtc' & Hn'); [done|congruence|].
      exists n'. split; [by etrans|done].
  - intros Hno (ch & link & Hat & _). pose proof (inv_sending _ Hrun ch link Hat) as Hch.
    by rewrite Hno, lookup_empty in Hch.
  - intros Hat. split; [|split; [by apply (inv_exited _ Hrun)|]].
    + intros n' Hrtc. induction Hrtc as [n|n n1 n' Hstep Hrtc IH]; [done|]. apply IH.
      * by eapply net_inv_step.
      * destruct Hstep; try done; congruence.
    + intros link Hf. destruct (inv_exited _ Hrun Hat) as [_ [Hd|Hd]]; [|congruence].
      eexists. split; [by eapply net_drain|done].
Qed.

(** Any update of the link [ens1], and what leads to its being sent. *)
Definition demoUpdate : Link := {| Link_Name := "ens1"; OperState := OperDown; Vfs := [] |}.

(** The handler is about to pass a first update to the only monitor. *)
Definition sendingNet : Net :=
  {| handler := {| ifaceChannels := {["ens1" := 0%nat]} |}; at_ := Sending 0%nat demoUpdate;
     stopping := false; opened := {[0%nat]} ∪ ∅; receivers := {[0%nat := Waiting]};
     closing := ∅; feed := Feeding None; done_ := false; draining := false; passed := [];
     history := [Locked demoUpdate; Received demoUpdate; Subscribed 0%nat ["ens1"]] |}.

Lemma sendingNet_reachable : rtc net_step net_start sendingNet.
Proof.
  eapply rtc_l; [apply (net_subscribe _ 0%nat ["ens1"]); done|].
  eapply rtc_l; [apply (net_go _ 0%nat); [set_solver|done]|].
  eapply rtc_l; [by apply net_subscribed|].
  eapply rtc_l; [by apply (net_offer _ demoUpdate)|].
  eapply rtc_l; [by apply (net_take _ demoUpdate)|].
  eapply rtc_l; [by apply (net_lock _ demoUpdate)|]. apply rtc_refl.
Qed.

(** Stopping a monitor can bring the process down: its receiver closes the
    channel before the subscription is removed, and the handler may be sending
    on it. *)
Lemma link_handler_crash :
  ∃ n, rtc net_step net_start n ∧ net_panics n.
Proof.
  eexists. split.
  - etrans; [exact sendingNet_reachable|].
    eapply rtc_l; [apply (net_close _ 0%nat); set_solver|].
    eapply rtc_l; [apply (net_leave _ 0%nat); [set_solver|done]|].
    apply rtc_refl.
  - exists 0%nat, demoUpdate. split; [done|cbn; set_solver].
Qed.

(** Subscriptions: after [Subscribe] the named interfaces lead to the
    channel and the others where they led before; after [Unsubscribe] the named
    ones lead nowhere; a nil channel is refused and changes nothing. *)
Lemma subscriptions_correct ch names l :
  (∀ i, ifaceChannels (snd (Subscribe (Some ch) names l)) !! i =
     if bool_decide (i ∈ names) then Some ch else ifaceChannels l !! i) ∧
  (∀ i, ifaceChannels (Unsubscribe names l) !! i =
     if bool_decide (i ∈ names) then None else ifaceChannels l !! i) ∧
  fst (Subscribe (Some ch) names l) = None ∧
  is_Some (fst (Subscribe None names l)) ∧ snd (Subscribe None names l) = l.
Proof.
  split; [apply Subscribe_channel|]. by split; [apply Unsubscribe_lookup|].
Qed.

(** ** Witnesses *)
Lemma link_updates_delivered_witness :
  received (history sendingNet) = locked (history sendingNet) ∧
  due (history sendingNet) = (0%nat, demoUpdate) :: passed sendingNet.
Proof. exact (link_updates_delivered sendingNet sendingNet_reachable). Defined.

Lemma link_handler_safe_witness : ¬ net_panics sendingNet.
Proof. exact (link_handler_safe sendingNet sendingNet_reachable eq_refl). Defined.

Lemma link_update_received_witness :
  (∃ n', net_step sendingNet n' ∧
    (delivered 0%nat demoUpdate sendingNet n' ∨ nearer 0%nat sendingNet n')) ∧
  (∀ n', net_step sendingNet n' →
    delivered 0%nat demoUpdate sendingNet n' ∨ net_panics n' ∨
    (at_ n' = Sending 0%nat demoUpdate ∧ behind n' 0%nat ≤ behind sendingNet 0%nat)) ∧
  ∃ n', rtc net_step sendingNet n' ∧ delivered 0%nat demoUpdate sendingNet n'.
Proof.
  apply (link_update_received sendingNet 0%nat demoUpdate sendingNet_reachable eq_refl).
  intros (ch & link & [= <- <-] & Ho). apply Ho. cbn. set_solver.
Defined.

(** The handler has been stopped with an update on the way. *)
Definition stoppedNet : Net :=
  closeLinkSubscribe (set_stopping (set_feed (Feeding (Some demoUpdate)) (set_at Selecting net_start))).

Lemma link_handler_stops_witness :
  (stopping stoppedNet = true → ¬ net_panics stoppedNet →
   ∃ n', rtc net_step stoppedNet n' ∧ at_ n' = Exited) ∧
  (ifaceChannels (handler stoppedNet) = ∅ → ¬ net_panics stoppedNet) ∧
  (at_ stoppedNet = Exited →
   (∀ n', rtc net_step stoppedNet n' → at_ n' = Exited) ∧ done_ stoppedNet = true ∧
   ∀ link, feed stoppedNet = Feeding (Some link) →
     ∃ n', net_step stoppedNet n' ∧ feed n' = Feeding None).
Proof.
  apply (link_handler_stops stoppedNet).
  eapply rtc_l; [by apply net_subscribed|].
  eapply rtc_l; [by apply (net_offer _ demoUpdate)|].
  eapply rtc_l; [by apply net_stop|].
  eapply rtc_l; [by apply net_exit|]. apply rtc_refl.
Defined.
