(* ===== verification/TrafficControl.v ===== *)
(** * Traffic control: internal/trafficcontrol (sriov.go, tc.go)

    The virtual functions of a PF are closed (reserved VLAN, link disabled)
    while no client is authenticated and follow their own configuration
    otherwise; a client's MAC address is let through or dropped by a tc filter
    on the PF and on each VF interface.  The network link manager of a PF and
    the one passed to the tc functions are the same object in the program: the
    environment of [Sys]. *)
From S2P Require Import Prelude GoStrings Api Sys.

Definition ReservedVlan : Z := 4095.
Definition sysClassNet := "/sys/class/net/".
Definition tcpProtoStr := "tcp".
Definition udpProtoStr := "udp".

Section code.
Context `{Sys}.

(** ** sriov.go *)
Definition ConfigureVlanState (vf : VFInfo) : M World (option error) :=
  parent ← readPF (Parent vf);
  val! pfLink := LinkByName (PF_Name parent) ;;
  parent ← readPF (Parent vf);
  let '(vlan, state) :=
    if negb (Authenticated parent) then (ReservedVlan, VF_LINK_STATE_DISABLE)
    else (Vlan vf, VF_LINK_STATE_AUTO) in
  check! LinkSetVfVlan pfLink (VF_Index vf) vlan ;;
  LinkSetVfState pfLink (VF_Index vf) state.

Definition ConfigureVlanStateForVFs (p : ref) : M World (option error) :=
  pf ← readPF p;
  vfs ← rangeOrder (map_to_list (VFs pf));
  forE (λ '(_, vfInfo), ConfigureVlanState vfInfo) vfs.

Definition HandlePfEventForVlanChange (p : ref) : M World (option error) :=
  pf ← readPF p;
  val! pfLink := LinkByName (PF_Name pf) ;;
  forE (λ vf : VfAttrs,
    pf ← readPF p;
    match VFs pf !! VF_ID vf with
    | Some vfInfo =>
        if negb (VF_Vlan vf =? ReservedVlan)%Z && negb (Vlan vfInfo =? VF_Vlan vf)%Z then
          let vfInfo' := set_Vlan (VF_Vlan vf) vfInfo in
          _ ← updatePF p (λ pf, set_VFs (<[VF_ID vf := vfInfo']> (VFs pf)) pf);
          ConfigureVlanState vfInfo'
        else mret None
    | None => mret None
    end) (Vfs pfLink).

(** [pf := &PFInfo{...}] allocates; the loop then fills its VF map. *)
Definition allocPF (pf : PFInfo) : M World ref :=
  p ← gets (λ w, fresh (dom (pfs w)));
  _ ← modify (λ w, set_pfs (<[p := pf]> (pfs w)) w);
  mret p.

Definition GetSriovPFInfo (ifName : string) : M World (result ref) :=
  r ← LinkByName ifName;
  match r with
  | Err err => mret (Err err)
  | Ok pfLink =>
      p ← allocPF {| PF_Name := ifName; Authenticated := false;
                     AuthenticatedAddrs := ∅; VFs := ∅ |};
      _ ← forU (λ vf : VfAttrs,
             updatePF p (λ pf, set_VFs (<[VF_ID vf :=
               {| Parent := p; VF_Index := VF_ID vf; Vlan := VF_Vlan vf |}]> (VFs pf)) pf))
           (Vfs pfLink);
      mret (Ok p)
  end.

Definition IsSriovPF (ifName : string) : M World bool :=
  r ← Stat (FilepathJoin [sysClassNet; ifName; "device"; "sriov_numvfs"]);
  mret (bool_decide (is_Some r)).

Definition dirExists (dirname : string) : M World bool :=
  r ← Stat dirname;
  mret (bool_decide (r = Some true)).

(** The body of the loop over the VF directories: the names found so far. *)
Fixpoint vfNamesFrom (vfNames : list string) (vfsDir : list string)
  : M World (result (list string)) :=
  match vfsDir with
  | [] => mret (Ok vfNames)
  | vfDir :: rest =>
      let vfNetDir := FilepathJoin [vfDir; "net"] in
      exists_ ← dirExists vfNetDir;
      if negb exists_ then vfNamesFrom vfNames rest
      else
        info ← ReadDir vfNetDir;
        match info with
        | Err err => mret (Err (ErrorfWith "failed to read vf net directory %s: %q" [vfNetDir] err))
        | Ok [] => vfNamesFrom vfNames rest
        | Ok (vfIfName :: _) =>
            l ← LinkByName vfIfName;
            match l with
            | Err err => mret (Err (ErrorfWith "failed to get netlink %s: %q" [vfIfName] err))
            | Ok vfLink => vfNamesFrom (vfNames ++ [Link_Name vfLink]) rest
            end
        end
  end.

Definition GetSriovVFs (ifName : string) : M World (result (list string)) :=
  isPF ← IsSriovPF ifName;
  if negb isPF then mret (Err (Errorf "interface %s is not a sriov pf type" [ifName]))
  else
    dirs ← Glob (FilepathJoin [sysClassNet; ifName; "device"; "virtfn*"]);
    match dirs with
    | Err err => mret (Err err)
    | Ok vfsDir => vfNamesFrom [] vfsDir
    end.

Definition GetAssociatedInterfaces (ifName : string) : M World (result (list string)) :=
  isPF ← IsSriovPF ifName;
  if isPF : bool then
    vfs ← GetSriovVFs ifName;
    match vfs with
    | Err err => mret (Err err)
    | Ok vfs => mret (Ok ([ifName] ++ vfs))
    end
  else mret (Ok [ifName]).

(** ** tc.go *)
Definition macFilter (iface macAddress action : string) : string :=
  "tc filter replace dev " +:+ iface +:+
  " ingress pref 9000 protocol all flower src_mac " +:+ macAddress +:+ " action " +:+ action.

(** The part [AllowTrafficFromMac] and [DenyTrafficFromMac] share. *)
Definition filterMac (p : ref) (macAddress action : string) : M World (option error) :=
  check! LookPath "tc" ;;
  pf ← readPF p;
  val! interfaces := GetAssociatedInterfaces (PF_Name pf) ;;
  forE (λ iface, Run (macFilter iface macAddress action)) interfaces.

Definition AllowTrafficFromMac (p : ref) (macAddress : string) : M World (option error) :=
  pf ← readPF p;
  check!
    (if bool_decide (size (AuthenticatedAddrs pf) = 1) then
       _ ← updatePF p (set_Authenticated true);
       ConfigureVlanStateForVFs p
     else mret None) ;;
  filterMac p macAddress "ok".

Definition DenyTrafficFromMac (p : ref) (macAddress : string) : M World (option error) :=
  pf ← readPF p;
  check!
    (if bool_decide (size (AuthenticatedAddrs pf) = 0) then
       _ ← updatePF p (set_Authenticated false);
       ConfigureVlanStateForVFs p
     else mret None) ;;
  filterMac p macAddress "drop".

Definition ResetInterface (ifName : string) : M World (option error) :=
  check! LookPath "tc" ;;
  check! Run ("tc qdisc del dev " +:+ ifName +:+ " ingress >/dev/null 2>&1 || true") ;;
  Run ("tc qdisc del dev " +:+ ifName +:+ " clsact >/dev/null 2>&1 || true").

Definition portFilter (ifName protocol : string) (port : Z) : string :=
  "tc filter add dev " +:+ ifName +:+ " ingress pref 9999 protocol ip u32 match " +:+
  protocol +:+ " dst " +:+ Itoa port +:+ " 0xffff action ok index 99".

Definition portFilter6 (ifName : string) (port : Z) : string :=
  "tc filter add dev " +:+ ifName +:+ " ingress pref 9999 protocol ipv6 u32 match ip6 dport " +:+
  Itoa port +:+ " 0xffff action ok index 100".

(** A failed command is logged and the loop goes on. *)
Definition UnprotectPorts (ifName protocol : string) (ports : list Z) : M World (option error) :=
  check! LookPath "tc" ;;
  _ ← forU (λ port, _ ← Run (portFilter ifName protocol port); mret tt) ports;
  mret None.

Definition UnprotectIPv6Ports (ifName : string) (ports : list Z) : M World (option error) :=
  check! LookPath "tc" ;;
  _ ← forU (λ port, _ ← Run (portFilter6 ifName port); mret tt) ports;
  mret None.

Definition clsactAdd (ifName : string) : string :=
  "tc qdisc add dev " +:+ ifName +:+ " clsact || return $?".
Definition dropAll (ifName : string) : string :=
  "tc filter add dev " +:+ ifName +:+
  " ingress pref 10001 protocol all matchall action drop index 101 || return $?".
Definition passEapol (ifName : string) : string :=
  "tc filter add dev " +:+ ifName +:+
  " ingress pref 10000 protocol 0x888e matchall action ok index 100 || return $?".

Definition InitInterfaceForEAPTraffic (ifName : string)
    (unprotectTcpPorts unprotectUdpPorts : list Z) : M World (option error) :=
  check! ResetInterface ifName ;;
  check! Run (clsactAdd ifName) ;;
  check! Run (dropAll ifName) ;;
  isPF ← IsSriovPF ifName;
  if negb isPF then mret None
  else
    check! Run (passEapol ifName) ;;
    check! (if bool_decide (0 < length unprotectTcpPorts)%nat
            then UnprotectPorts ifName tcpProtoStr unprotectTcpPorts else mret None) ;;
    check! (if bool_decide (0 < length unprotectUdpPorts)%nat
            then UnprotectPorts ifName udpProtoStr unprotectUdpPorts else mret None) ;;
    let unprotectPorts := unprotectTcpPorts ++ unprotectUdpPorts in
    if bool_decide (0 < length unprotectPorts)%nat
    then UnprotectIPv6Ports ifName unprotectPorts else mret None.
End code.
