(* ===== verification/TrafficControlSpec.v ===== *)
(** * What traffic control guarantees

    Specifications of the operations of [TrafficControl] as weakest
    preconditions, for every environment: what each may change, what it has
    programmed when it reports success, and that it never panics on a
    well-formed PF. *)
From S2P Require Import Prelude GoStrings Api Sys TrafficControl.

(** ** Well-formed PFs and frames *)

(** Every VF of the PF at [p] points back to [p] and sits under its own index. *)
Definition pf_wf (p : ref) (pf : PFInfo) : Prop :=
  ∀ id vf, VFs pf !! id = Some vf → Parent vf = p ∧ VF_Index vf = id.

(** No VF of link [l] was programmed between the two traces. *)
Definition same_vfs (tr tr' : Trace) : Prop :=
  ∀ l i, vfVlan tr' l i = vfVlan tr l i ∧ vfState tr' l i = vfState tr l i.

(** Pure observation: memory, VFs and tc are as before. *)
Record quiet (w w' : World) : Prop := {
  quiet_pfs : pfs w' = pfs w;
  quiet_vfs : same_vfs (trace w) (trace w');
  quiet_commands : commands (trace w') = commands (trace w);
  quiet_ext : trace w `suffix_of` trace w';
}.

(** Only netlink requests: memory and tc are as before. *)
Record netlink_only (w w' : World) : Prop := {
  nl_pfs : pfs w' = pfs w;
  nl_commands : commands (trace w') = commands (trace w);
  nl_ext : trace w `suffix_of` trace w';
}.

(** Only the commands [cs] were run. *)
Record ran (cs : list string) (w w' : World) : Prop := {
  ran_pfs : pfs w' = pfs w;
  ran_vfs : same_vfs (trace w) (trace w');
  ran_commands : commands (trace w') = commands (trace w) ++ cs;
  ran_ext : trace w `suffix_of` trace w';
}.

(** The VF [i] of link [l] was not programmed between the two traces. *)
Definition same_vf (tr tr' : Trace) (l : string) (i : Z) : Prop :=
  vfVlan tr' l i = vfVlan tr l i ∧ vfState tr' l i = vfState tr l i.

(** Only the PF at [p] and the VFs of the link [name] may have changed. *)
Record framed (p : ref) (name : string) (w w' : World) : Prop := {
  framed_pfs : ∀ q, q ≠ p → pfs w' !! q = pfs w !! q;
  framed_vfs : ∀ l i, l ≠ name → same_vf (trace w) (trace w') l i;
  framed_ext : trace w `suffix_of` trace w';
}.

(** What a VF must be programmed to, given the PF's authentication state. *)
Definition expected (authenticated : bool) (vf : VFInfo) : Z * Z :=
  if authenticated then (Vlan vf, VF_LINK_STATE_AUTO) else (ReservedVlan, VF_LINK_STATE_DISABLE).

Definition programmed (tr : Trace) (name : string) (authenticated : bool) (vf : VFInfo) : Prop :=
  vfVlan tr name (VF_Index vf) = Some (expected authenticated vf).1 ∧
  vfState tr name (VF_Index vf) = Some (expected authenticated vf).2.

Definition all_programmed (tr : Trace) (pf : PFInfo) : Prop :=
  ∀ id vf, VFs pf !! id = Some vf → programmed tr (PF_Name pf) (Authenticated pf) vf.

(** [LinkByName] answers with the link of that name. *)
Class LinkNames `{Sys} : Prop :=
  link_name : ∀ tr n l, sysLinkByName tr n = Ok l → Link_Name l = n.

(** Requests about the PF [name] and its VFs do not fail. *)
Definition netlink_ok `{Sys} (name : string) : Prop :=
  (∀ tr, ∃ l, sysLinkByName tr name = Ok l) ∧
  (∀ tr l i v, sysSetVfVlan tr l i v = None) ∧
  (∀ tr l i v, sysSetVfState tr l i v = None).

(** The set-up script of an interface, and the part of it that unprotects ports. *)
Definition portScript (ifName : string) (tcp udp : list Z) : list string :=
  map (portFilter ifName tcpProtoStr) tcp ++ map (portFilter ifName udpProtoStr) udp ++
  map (portFilter6 ifName) (tcp ++ udp).

Definition resetScript (ifName : string) : list string :=
  ["tc qdisc del dev " +:+ ifName +:+ " ingress >/dev/null 2>&1 || true";
   "tc qdisc del dev " +:+ ifName +:+ " clsact >/dev/null 2>&1 || true"].

Definition initScript (isPF : bool) (ifName : string) (tcp udp : list Z) : list string :=
  resetScript ifName ++ [clsactAdd ifName; dropAll ifName] ++
  (if isPF then passEapol ifName :: portScript ifName tcp udp else []).

(** ** Frames compose *)
#[global] Instance same_vfs_preorder : PreOrder same_vfs.
Proof.
  split; [by intros tr l i|]. intros tr1 tr2 tr3 H12 H23 l i.
  destruct (H12 l i), (H23 l i). split; congruence.
Qed.

#[global] Instance quiet_preorder : PreOrder quiet.
Proof.
  split; [by intros w; split|]. intros w1 w2 w3 [? ? ? ?] [? ? ? ?].
  split; [congruence|by etrans|congruence|by etrans].
Qed.

#[global] Instance netlink_only_preorder : PreOrder netlink_only.
Proof.
  split; [by intros w; split|]. intros w1 w2 w3 [? ? ?] [? ? ?].
  split; [congruence..|by etrans].
Qed.

#[global] Instance framed_preorder p name : PreOrder (framed p name).
Proof.
  split; [by intros w; split|]. intros w1 w2 w3 [Hp1 Hv1 He1] [Hp2 Hv2 He2].
  split; [|intros l i Hl; destruct (Hv1 l i Hl), (Hv2 l i Hl); split; congruence|by etrans].
  intros q Hq. by rewrite Hp2, Hp1.
Qed.

Lemma quiet_framed p name w w' : quiet w w' → framed p name w w'.
Proof. intros [Hp Hv _ He]. split; [by rewrite Hp|intros l i _; apply Hv|done]. Qed.

Lemma netlink_framed p name w w' :
  netlink_only w w' → (∀ l i, l ≠ name → same_vf (trace w) (trace w') l i) → framed p name w w'.
Proof. intros [Hp _ He] Hv. split; [by rewrite Hp|done..]. Qed.

(** Nothing changed, so nothing but a PF that is not there. *)
Lemma quiet_nothing name w w' :
  quiet w w' → ∃ p, pfs w !! p = None ∧ framed p name w w'.
Proof.
  intros Hq. exists (fresh (dom (pfs w))). split; [apply not_elem_of_dom, is_fresh|].
  by apply quiet_framed.
Qed.

Lemma quiet_netlink_only w w' : quiet w w' → netlink_only w w'.
Proof. intros [? ? ? ?]. by split. Qed.

Lemma ran_nil w w' : ran [] w w' ↔ quiet w w'.
Proof. split; intros [? ? Hc ?]; split; rewrite ?app_nil_r in *; done. Qed.

Lemma ran_trans cs1 cs2 w1 w2 w3 : ran cs1 w1 w2 → ran cs2 w2 w3 → ran (cs1 ++ cs2) w1 w3.
Proof.
  intros [? ? H1 ?] [? ? H2 ?]. split; [congruence|by etrans| |by etrans].
  by rewrite H2, H1, app_assoc.
Qed.

Lemma ran_quiet_l cs w1 w2 w3 : quiet w1 w2 → ran cs w2 w3 → ran cs w1 w3.
Proof. rewrite <-ran_nil. apply (ran_trans []). Qed.

Lemma ran_quiet_r cs w1 w2 w3 : ran cs w1 w2 → quiet w2 w3 → ran cs w1 w3.
Proof. rewrite <-ran_nil. intros H1 H2. rewrite <-(app_nil_r cs). by eapply ran_trans. Qed.

Lemma commands_cons_run c r tr : commands (EvRun c r :: tr) = commands tr ++ [c].
Proof. done. Qed.

Lemma all_programmed_same tr tr' pf :
  same_vfs tr tr' → all_programmed tr pf → all_programmed tr' pf.
Proof.
  intros Hs Hp id vf Hvf. destruct (Hp id vf Hvf) as [Hv Hst].
  destruct (Hs (PF_Name pf) (VF_Index vf)) as [Hsv Hss]. split; congruence.
Qed.

#[export] Hint Resolve quiet_netlink_only : go.

(** ** Primitive operations *)
Section specs.
Context `{Sys}.

Lemma wp_observe {A} P (answer : Trace → A) (ev : A → event) Q w :
  Q (answer (trace w)) (set_trace (ev (answer (trace w)) :: trace w) w) →
  wpx P (observe answer ev) Q w.
Proof. done. Qed.

Lemma wp_readPF P p pf Q w : pfs w !! p = Some pf → Q pf w → wpx P (readPF p) Q w.
Proof. intros Hp HQ. unfold readPF. wp_step. wp_step. by eapply wp_deref. Qed.

Lemma wp_updatePF P p pf f Q w :
  pfs w !! p = Some pf → Q tt (set_pfs (<[p := f pf]> (pfs w)) w) → wpx P (updatePF p f) Q w.
Proof. intros Hp HQ. unfold updatePF. wp_step. eapply wp_readPF; [done|]. by wp_step. Qed.

Lemma quiet_event ev w :
  commandOf ev = None →
  (∀ l i v r, ev ≠ EvSetVfVlan l i v r) → (∀ l i v r, ev ≠ EvSetVfState l i v r) →
  quiet w (set_trace (ev :: trace w) w).
Proof.
  intros Hc Hv Hs. split; [done|..].
  - intros l i. cbn. destruct ev; try done; naive_solver.
  - unfold commands. cbn. by rewrite Hc.
  - by exists [ev].
Qed.

Lemma netlink_event ev w :
  commandOf ev = None → netlink_only w (set_trace (ev :: trace w) w).
Proof.
  intros Hc. split; [done| |by exists [ev]]. unfold commands. cbn. by rewrite Hc.
Qed.

Lemma wp_quiet_observe {A} (answer : Trace → A) (ev : A → event) w :
  (∀ a, commandOf (ev a) = None) →
  (∀ a l i v r, ev a ≠ EvSetVfVlan l i v r) → (∀ a l i v r, ev a ≠ EvSetVfState l i v r) →
  wp (observe answer ev) (λ a w', a = answer (trace w) ∧ quiet w w') w.
Proof. intros. apply wp_observe. split; [done|]. by apply quiet_event. Qed.

Lemma wp_Run c w : wp (Run c) (λ r w', r = sysRun (trace w) c ∧ ran [c] w w') w.
Proof. apply wp_observe. split; [done|]. split; [done..|by eexists [_]]. Qed.

Lemma wp_rangeOrder {A} (l : list A) w : wp (rangeOrder l) (λ l' w', l' ≡ₚ l ∧ quiet w w') w.
Proof. split; [apply sysOrder_perm|by apply quiet_event]. Qed.

Lemma wp_LookPath f w : wp (LookPath f) (λ r w', r = sysLookPath (trace w) f ∧ quiet w w') w.
Proof. by apply wp_quiet_observe. Qed.

Lemma wp_LinkByName n w :
  wp (LinkByName n) (λ r w', r = sysLinkByName (trace w) n ∧ quiet w w') w.
Proof. by apply wp_quiet_observe. Qed.

Lemma wp_Stat f w : wp (Stat f) (λ r w', r = sysStat (trace w) f ∧ quiet w w') w.
Proof. by apply wp_quiet_observe. Qed.

(** ** Observation of the interfaces *)
Lemma wp_ReadDir f w : wp (ReadDir f) (λ r w', r = sysReadDir (trace w) f ∧ quiet w w') w.
Proof. by apply wp_quiet_observe. Qed.

Lemma wp_Glob f w : wp (Glob f) (λ r w', r = sysGlob (trace w) f ∧ quiet w w') w.
Proof. by apply wp_quiet_observe. Qed.

Lemma wp_IsSriovPF n w :
  wp (IsSriovPF n) (λ b w',
    b = bool_decide (is_Some (sysStat (trace w)
          (FilepathJoin [sysClassNet; n; "device"; "sriov_numvfs"]))) ∧ quiet w w') w.
Proof. unfold IsSriovPF. wp_step. wp_use wp_Stat. intros r w' [-> Hq]. by wp_step. Qed.

Lemma wp_dirExists n w : wp (dirExists n) (λ _ w', quiet w w') w.
Proof. unfold dirExists. wp_step. wp_use wp_Stat. intros r w' [-> Hq]. by wp_step. Qed.

Lemma wp_vfNamesFrom dirs names w :
  wp (vfNamesFrom names dirs)
     (λ r w', quiet w w' ∧ ∀ l, r = Ok l → ∃ vfs, l = names ++ vfs) w.
Proof.
  revert names w. induction dirs as [|d dirs IH]; intros names w; cbn [vfNamesFrom].
  { wp_step. split; [done|]. intros l [= <-]. exists []. by rewrite app_nil_r. }
  wp_step. wp_use wp_dirExists. intros b w1 H1. wp_step.
  { wp_use IH. intros r w2 [H2 Hr]. split; [by etrans|done]. }
  wp_step. wp_use wp_ReadDir. intros r w2 [_ H2].
  assert (quiet w w2) as H02 by by etrans.
  destruct r as [[|n ns]|e].
  - wp_use IH. intros r w3 [H3 Hr]. split; [by etrans|done].
  - wp_step. wp_use wp_LinkByName. intros r w3 [_ H3].
    assert (quiet w w3) as H03 by by etrans.
    wp_step; [|by wp_step].
    wp_use IH. intros r4 w4 [H4 Hr]. split; [by etrans|].
    intros l Hl. destruct (Hr l Hl) as [vfs ->]. eexists. by rewrite <-app_assoc.
  - by wp_step.
Qed.

Lemma wp_GetSriovVFs n w : wp (GetSriovVFs n) (λ _ w', quiet w w') w.
Proof.
  unfold GetSriovVFs. wp_step. wp_use wp_IsSriovPF. intros b w1 [_ H1].
  wp_step; [by wp_step|]. wp_step. wp_use wp_Glob. intros r w2 [_ H2].
  wp_step; [|wp_step; by etrans].
  wp_use wp_vfNamesFrom. intros r3 w3 [H3 _]. by do 2 (etrans; [done|]).
Qed.

(** The interface itself comes first in what it is associated with. *)
Lemma wp_GetAssociatedInterfaces n w :
  wp (GetAssociatedInterfaces n)
     (λ r w', quiet w w' ∧ ∀ l, r = Ok l → ∃ vfs, l = n :: vfs) w.
Proof.
  unfold GetAssociatedInterfaces. wp_step. wp_use wp_IsSriovPF. intros b w1 [_ H1].
  wp_step; [|wp_step; split; [done|]; intros l [= <-]; by eexists].
  wp_step. wp_use wp_GetSriovVFs. intros r w2 H2.
  wp_step; wp_step; (split; [by etrans|]); [|done]. intros l [= <-]. by eexists.
Qed.

(** ** Programming the VFs *)
Lemma programmed_same tr tr' n b vf :
  same_vf tr tr' n (VF_Index vf) → programmed tr n b vf → programmed tr' n b vf.
Proof. intros [Hv Hs] [? ?]. split; congruence. Qed.

Context `{!LinkNames}.

Lemma wp_ConfigureVlanState vf pf w :
  pfs w !! Parent vf = Some pf →
  wp (ConfigureVlanState vf) (λ r w',
    netlink_only w w' ∧
    (∀ l i, l ≠ PF_Name pf ∨ i ≠ VF_Index vf → same_vf (trace w) (trace w') l i) ∧
    (r = None → programmed (trace w') (PF_Name pf) (Authenticated pf) vf) ∧
    (netlink_ok (PF_Name pf) → r = None)) w.
Proof.
  intros Hp. unfold ConfigureVlanState. wp_step. eapply wp_readPF; [done|].
  wp_step. wp_use wp_LinkByName. intros r w1 [-> H1].
  destruct (sysLinkByName _ _) as [l|e] eqn:Hl.
  2: { split; [by apply quiet_netlink_only|]. split; [|split; [done|]].
       - intros l i _. apply (quiet_vfs _ _ H1).
       - intros [Hok _]. destruct (Hok (trace w)). congruence. }
  wp_step. eapply wp_readPF; [by rewrite (quiet_pfs _ _ H1)|].
  apply link_name in Hl. destruct (if negb _ then _ else _) as [vlan state] eqn:Hexp.
  assert (expected (Authenticated pf) vf = (vlan, state)) as Hexp'
    by (unfold expected; by destruct (Authenticated pf)).
  wp_step. apply wp_observe. destruct (sysSetVfVlan _ _ _ _) as [e|] eqn:Hv0.
  { split; [etrans; [by apply quiet_netlink_only|by apply netlink_event]|].
    split; [|split; [done|]].
    - intros l' i' _. apply (quiet_vfs _ _ H1).
    - intros (_ & Hok & _). by rewrite Hok in Hv0. }
  apply wp_observe. split; [|split; [|split]].
  - etrans; [by apply quiet_netlink_only|]. etrans; by apply netlink_event.
  - intros l' i' Hne. destruct (quiet_vfs _ _ H1 l' i') as [Hv Hs].
    unfold same_vf. cbn. destruct (sysSetVfState _ _ _ _); cbn;
    rewrite !bool_decide_false by (intros [? ?]; destruct Hne; congruence); done.
  - intros Hr. unfold programmed. rewrite Hexp'. cbn in Hr |- *. rewrite Hr, Hl. cbn.
    by rewrite !bool_decide_true.
  - by intros (_ & _ & Hok).
Qed.

Lemma wp_ConfigureVlanStateForVFs p pf w :
  pfs w !! p = Some pf → pf_wf p pf →
  wp (ConfigureVlanStateForVFs p) (λ r w',
    netlink_only w w' ∧
    (∀ l i, l ≠ PF_Name pf → same_vf (trace w) (trace w') l i) ∧
    (r = None → all_programmed (trace w') pf) ∧
    (netlink_ok (PF_Name pf) → r = None)) w.
Proof.
  intros Hp Hwf. unfold ConfigureVlanStateForVFs. wp_step. eapply wp_readPF; [done|].
  wp_step. wp_use (wp_rangeOrder (map_to_list (VFs pf))). intros vfs w1 [Hperm H1].
  assert (∀ id vf, (id, vf) ∈ vfs ↔ VFs pf !! id = Some vf) as Hvfs
    by (intros id vf; by rewrite Hperm, elem_of_map_to_list).
  apply (wp_forE _ (λ pre s, netlink_only w s ∧
    (∀ l i, l ≠ PF_Name pf → same_vf (trace w) (trace s) l i) ∧
    ∀ id vf, (id, vf) ∈ pre → programmed (trace s) (PF_Name pf) (Authenticated pf) vf)).
  - intros pre [id vf] post s Hsplit (Hnl & Hframe & Hdone).
    assert (VFs pf !! id = Some vf) as Hvf by (apply Hvfs; rewrite Hsplit; apply elem_of_middle).
    destruct (Hwf id vf Hvf) as [Hpar Hidx].
    wp_use (wp_ConfigureVlanState vf pf); [by rewrite Hpar, (nl_pfs _ _ Hnl)|].
    intros r s' (Hnl' & Hother & Hprog & Hok).
    assert (∀ l i, l ≠ PF_Name pf → same_vf (trace w) (trace s') l i) as Hframe'.
    { intros l i Hl. destruct (Hframe l i Hl), (Hother l i (or_introl Hl)). split; congruence. }
    destruct r as [e|].
    + split; [by etrans|]. split; [done|]. split; [discriminate|done].
    + split; [by etrans|]. split; [done|].
      intros id' vf' [Hin|Heq%list_elem_of_singleton]%elem_of_app; [|by simplify_eq; apply Hprog].
      assert (VFs pf !! id' = Some vf') as Hvf' by (apply Hvfs; rewrite Hsplit; by apply elem_of_app; left).
      destruct (decide (id' = id)) as [->|Hne]; [by simplify_eq; apply Hprog|].
      eapply programmed_same; [|by eapply Hdone]. apply Hother. right.
      destruct (Hwf _ _ Hvf'). congruence.
  - intros s (Hnl & Hframe & Hdone). split; [done|]. split; [done|].
    split; [|done]. intros _ id vf Hvf. by eapply Hdone, Hvfs.
  - split; [by apply quiet_netlink_only|]. split; [|set_solver].
    intros l i _. apply (quiet_vfs _ _ H1).
Qed.

(** The VF map a link's attributes give a new PF. *)
Definition vfsOf (p : ref) (l : list VfAttrs) : gmap Z VFInfo :=
  foldl (λ m a, <[VF_ID a := {| Parent := p; VF_Index := VF_ID a; Vlan := VF_Vlan a |}]> m) ∅ l.

Lemma vfsOf_wf p l n b s :
  pf_wf p {| PF_Name := n; Authenticated := b; AuthenticatedAddrs := s; VFs := vfsOf p l |}.
Proof.
  intros id vf. cbn. unfold vfsOf. induction l as [|a l IH] using rev_ind; [done|].
  rewrite foldl_snoc. intros [[<- <-]|[_ H']]%lookup_insert_Some; [done|by apply IH].
Qed.

Lemma wp_GetSriovPFInfo ifName w :
  wp (GetSriovPFInfo ifName) (λ r w',
    match r with
    | Err e => quiet w w' ∧ sysLinkByName (trace w) ifName = Err e
    | Ok p => pfs w !! p = None ∧ framed p ifName w w' ∧ same_vfs (trace w) (trace w') ∧
        commands (trace w') = commands (trace w) ∧
        ∃ l, sysLinkByName (trace w) ifName = Ok l ∧
          pfs w' = <[p := {| PF_Name := ifName; Authenticated := false;
                             AuthenticatedAddrs := ∅; VFs := vfsOf p (Vfs l) |}]> (pfs w)
    end) w.
Proof.
  unfold GetSriovPFInfo. wp_step. wp_use wp_LinkByName. intros r w1 [-> H1].
  destruct (sysLinkByName _ _) as [l|e] eqn:Hl; [|by wp_step].
  wp_step. unfold allocPF. do 3 wp_step. wp_step. cbn beta.
  set (p := fresh (dom (pfs w1))). do 2 wp_step.
  eapply (wp_forU _ (λ pre s, trace s = trace w1 ∧
    pfs s = <[p := {| PF_Name := ifName; Authenticated := false;
                      AuthenticatedAddrs := ∅; VFs := vfsOf p pre |}]> (pfs w1))).
  - intros pre a post s _ [Ht Hpf]. eapply wp_updatePF; [rewrite Hpf; apply lookup_insert_eq|].
    split; [done|]. cbn. rewrite Hpf, insert_insert_eq. unfold vfsOf. by rewrite foldl_snoc.
  - intros s [Ht Hpf]. wp_step. destruct H1 as [Hpfs Hvfs Hc Hext]. split; [|split; [|split; [|split]]].
    + apply not_elem_of_dom. rewrite <-Hpfs. apply is_fresh.
    + split; [|rewrite Ht; intros l' i _; apply Hvfs|by rewrite Ht].
      intros q Hq. by rewrite Hpf, lookup_insert_ne, Hpfs.
    + by rewrite Ht.
    + by rewrite Ht.
    + exists l. split; [done|]. by rewrite Hpf, Hpfs.
  - done.
Qed.

(** ** VLAN changes seen on the PF *)

(** A VF's configuration follows the VLAN the link reports, unless that is the
    reserved one: then it is the monitor's own doing. *)
Definition learnVlan (m : gmap Z VFInfo) (a : VfAttrs) : gmap Z VFInfo :=
  if bool_decide (VF_Vlan a = ReservedVlan) then m
  else alter (set_Vlan (VF_Vlan a)) (VF_ID a) m.

Lemma learnVlan_none m a : m !! VF_ID a = None → learnVlan m a = m.
Proof. intros Hm. unfold learnVlan. case_bool_decide; [done|]. by apply alter_id'. Qed.

Lemma learnVlan_some m a vf :
  m !! VF_ID a = Some vf →
  learnVlan m a =
    if negb (VF_Vlan a =? ReservedVlan)%Z && negb (Vlan vf =? VF_Vlan a)%Z
    then <[VF_ID a := set_Vlan (VF_Vlan a) vf]> m else m.
Proof.
  intros Hm. unfold learnVlan. case_bool_decide as Hr.
  - by rewrite (proj2 (Z.eqb_eq _ _) Hr).
  - rewrite (proj2 (Z.eqb_neq _ _) Hr). cbn. destruct (Z.eqb_spec (Vlan vf) (VF_Vlan a)) as [Hv|Hv].
    + cbn. apply alter_id. intros vf' Hvf'. rewrite <-Hv. by destruct vf', vf; simplify_eq.
    + cbn. apply map_eq. intros id. rewrite lookup_alter. case_decide as Hid.
      * subst. by rewrite lookup_insert_eq, Hm.
      * by rewrite lookup_insert_ne.
Qed.

Lemma learnVlan_wf p pf m a :
  pf_wf p (set_VFs m pf) → pf_wf p (set_VFs (learnVlan m a) pf).
Proof.
  intros Hwf id vf. cbn. unfold learnVlan. case_bool_decide; [by apply Hwf|].
  intros [(<- & vf' & Hvf' & ->)|[_ Hvf]]%lookup_alter_Some; [|by apply Hwf].
  by apply (Hwf _ vf').
Qed.

(** The loop over the link's VFs has come to the map [m]. *)
Definition learned (p : ref) (pf : PFInfo) (w : World) (m : gmap Z VFInfo) (s : World) : Prop :=
  pfs s = <[p := set_VFs m pf]> (pfs w) ∧ pf_wf p (set_VFs m pf) ∧
  commands (trace s) = commands (trace w) ∧ trace w `suffix_of` trace s ∧
  (∀ l i, l ≠ PF_Name pf → same_vf (trace w) (trace s) l i).

Lemma learned_pf p pf w m s : learned p pf w m s → pfs s !! p = Some (set_VFs m pf).
Proof. intros [-> _]. apply lookup_insert_eq. Qed.

Lemma learned_framed p pf w m s : learned p pf w m s → framed p (PF_Name pf) w s.
Proof.
  intros (Hp & _ & _ & Hext & Hsame). split; [|done..]. intros q Hq.
  by rewrite Hp, lookup_insert_ne.
Qed.

(** One new VLAN: the VF is written back and programmed. *)
Lemma wp_learn p pf w m a vf s :
  learned p pf w m s → m !! VF_ID a = Some vf →
  (negb (VF_Vlan a =? ReservedVlan) && negb (Vlan vf =? VF_Vlan a))%Z = true →
  let vf' := set_Vlan (VF_Vlan a) vf in
  wp (_ ← updatePF p (λ pf, set_VFs (<[VF_ID a := vf']> (VFs pf)) pf); ConfigureVlanState vf')
    (λ r s', learned p pf w (learnVlan m a) s' ∧
      (r = None → all_programmed (trace s) (set_VFs m pf) →
       all_programmed (trace s') (set_VFs (learnVlan m a) pf)) ∧
      (netlink_ok (PF_Name pf) → r = None)) s.
Proof.
  intros Hl Hm Hcond vf'. pose proof Hl as (Hpfs & Hwf & Hc & Hext & Hsame).
  pose proof (learnVlan_wf p pf m a Hwf) as Hwf'.
  rewrite (learnVlan_some _ _ _ Hm), Hcond in *. fold vf' in Hwf' |- *.
  set (m' := <[VF_ID a := vf']> m) in *.
  destruct (Hwf' (VF_ID a) vf' (lookup_insert_eq _ _ _)) as [Hpar Hidx].
  wp_step. eapply wp_updatePF; [by eapply learned_pf|].
  wp_use (wp_ConfigureVlanState vf' (set_VFs m' pf)).
  { rewrite Hpar. cbn. by rewrite lookup_insert_eq. }
  intros r s' ([Hpfs' Hc' Hext'] & Hother & Hvf' & Hok). cbn in Hpfs', Hother, Hvf'.
  split; [|split; [|done]].
  - split; [by rewrite Hpfs', Hpfs, insert_insert_eq|]. split; [done|].
    split; [exact (eq_trans Hc' Hc)|]. split; [by etrans|]. intros l i Hne.
    destruct (Hsame l i Hne), (Hother l i (or_introl Hne)). split; congruence.
  - intros Hr Hall id v Hv. change (m' !! id = Some v) in Hv.
    apply lookup_insert_Some in Hv as [[<- <-]|[Hne Hv]]; [by apply Hvf'|].
    eapply programmed_same; [|by eapply Hall]. apply Hother. right.
    destruct (Hwf id v Hv) as [_ ->]. cbn in Hidx. congruence.
Qed.

Lemma wp_HandlePfEventForVlanChange p pf w :
  pfs w !! p = Some pf → pf_wf p pf →
  wp (HandlePfEventForVlanChange p) (λ r w', ∃ m, learned p pf w m w' ∧
    (r = None →
      (∃ l, sysLinkByName (trace w) (PF_Name pf) = Ok l ∧ m = foldl learnVlan (VFs pf) (Vfs l)) ∧
      (all_programmed (trace w) pf → all_programmed (trace w') (set_VFs m pf))) ∧
    (netlink_ok (PF_Name pf) → r = None)) w.
Proof.
  intros Hp Hwf. assert (set_VFs (VFs pf) pf = pf) as Hid by by destruct pf.
  unfold HandlePfEventForVlanChange. wp_step. eapply wp_readPF; [done|].
  wp_step. wp_use wp_LinkByName. intros r w1 [-> H1].
  assert (learned p pf w (VFs pf) w1) as Hl1.
  { unfold learned. rewrite Hid, insert_id by done. destruct H1 as [Hpfs1 Hvfs1 Hc1 Hext1].
    do 4 (split; [done|]). intros l i _. apply Hvfs1. }
  destruct (sysLinkByName _ _) as [l|e] eqn:Hl.
  2: { exists (VFs pf). split; [done|]. split; [done|]. intros [Hok _].
       destruct (Hok (trace w)). congruence. }
  apply (wp_forE _ (λ pre s, let m := foldl learnVlan (VFs pf) pre in
    learned p pf w m s ∧
    (all_programmed (trace w) pf → all_programmed (trace s) (set_VFs m pf)))).
  - cbn zeta. intros pre a post s _ [Hls Hprog]. rewrite foldl_snoc.
    set (m := foldl learnVlan (VFs pf) pre) in *.
    wp_step. eapply wp_readPF; [by eapply learned_pf|].
    change (VFs (set_VFs m pf)) with m.
    destruct (m !! VF_ID a) as [vf|] eqn:Hm; [|wp_step; by rewrite learnVlan_none].
    destruct (negb _ && negb _) eqn:Hcond;
      [|wp_step; by rewrite (learnVlan_some _ _ _ Hm), Hcond].
    eapply wp_mono; [by eapply wp_learn|]. cbn beta. intros [e|] s' (Hls' & Hall & Hok).
    + by exists (learnVlan m a).
    + split; [done|]. by auto.
  - cbn zeta. intros s [Hls Hprog]. eexists. split; [done|]. split; [|done].
    intros _. split; [by exists l|done].
  - cbn. split; [done|]. rewrite Hid. by apply all_programmed_same, H1.
Qed.

(** ** MAC filters *)

(** Between the traces, [GetAssociatedInterfaces] was asked about the PF and
    found [ifs]. *)
Definition associated (tr tr' : Trace) (name : string) (ifs : list string) : Prop :=
  ∃ w1 w2, tr `suffix_of` trace w1 ∧ trace w2 `suffix_of` tr' ∧
    GetAssociatedInterfaces name w1 = Done (Ok ifs) w2.

Lemma associated_weaken tr0 tr tr' name ifs :
  tr0 `suffix_of` tr → associated tr tr' name ifs → associated tr0 tr' name ifs.
Proof. intros Hs (w1 & w2 & Hw1 & Hw2 & Hrun). exists w1, w2. split; [by etrans|done]. Qed.

Lemma wp_runAll {X} (cmd : X → string) l w :
  wp (forE (λ x, Run (cmd x)) l) (λ r w', ∃ pre, pre `prefix_of` l ∧
    ran (map cmd pre) w w' ∧ (r = None → pre = l) ∧
    ((∀ tr c, sysRun tr c = None) → r = None)) w.
Proof.
  apply (wp_forE _ (λ pre s, pre `prefix_of` l ∧ ran (map cmd pre) w s)).
  - intros pre x post s Hl [_ Hran]. wp_use wp_Run. intros r s' [-> Hran'].
    assert (pre ++ [x] `prefix_of` l) as Hpre
      by (rewrite Hl; exists post; by rewrite <-app_assoc).
    assert (ran (map cmd (pre ++ [x])) w s') as Hran''
      by (rewrite map_app; by eapply ran_trans).
    destruct (sysRun _ _) as [e|] eqn:Hr; [|done].
    exists (pre ++ [x]). split; [done|]. split; [done|]. split; [done|].
    intros Hok. by rewrite Hok in Hr.
  - intros s [_ Hran]. by exists l.
  - split; [apply prefix_nil|]. by apply ran_nil.
Qed.

Lemma wp_filterMac p pf mac action w :
  pfs w !! p = Some pf →
  wp (filterMac p mac action) (λ r w', ∃ ifs,
    ran (map (λ i, macFilter i mac action) ifs) w w' ∧
    (r = None → associated (trace w) (trace w') (PF_Name pf) ifs)) w.
Proof.
  intros Hp. unfold filterMac. wp_step. wp_use wp_LookPath. intros r w1 [-> H1].
  destruct (sysLookPath _ _) as [e|]; [by exists []; split; [apply ran_nil|]|].
  wp_step. eapply wp_readPF; [by rewrite (quiet_pfs _ _ H1)|].
  wp_step. eapply wp_mono; [apply wp_run, wp_GetAssociatedInterfaces|cbn beta].
  intros r w2 (Hrun & H2 & _).
  assert (quiet w w2) as H02 by by etrans.
  destruct r as [all|e]; [|by exists []; split; [apply ran_nil|]].
  eapply wp_mono; [apply wp_runAll|cbn beta]. intros r w3 (pre & _ & Hran & Hpre & _).
  exists pre. split; [by eapply ran_quiet_l|].
  intros Hr. rewrite (Hpre Hr). exists w1, w2.
  split; [apply H1|]. split; [apply Hran|done].
Qed.

(** What [AllowTrafficFromMac] and [DenyTrafficFromMac] have in common: a gate
    for the VFs that moves when the number of clients is [n]. *)
Definition gate (n : nat) (b : bool) (action : string) (p : ref) (mac : string)
  : M World (option error) :=
  pf ← readPF p;
  check!
    (if bool_decide (size (AuthenticatedAddrs pf) = n) then
       _ ← updatePF p (set_Authenticated b);
       ConfigureVlanStateForVFs p
     else mret None) ;;
  filterMac p mac action.

Lemma AllowTrafficFromMac_gate p mac : AllowTrafficFromMac p mac = gate 1 true "ok" p mac.
Proof. done. Qed.

Lemma DenyTrafficFromMac_gate p mac : DenyTrafficFromMac p mac = gate 0 false "drop" p mac.
Proof. done. Qed.

Definition gated (n : nat) (b : bool) (pf : PFInfo) : PFInfo :=
  if bool_decide (size (AuthenticatedAddrs pf) = n) then set_Authenticated b pf else pf.

Lemma gated_wf n b p pf : pf_wf p pf → pf_wf p (gated n b pf).
Proof. unfold gated. by case_bool_decide. Qed.

Lemma wp_gate n b action p pf mac w :
  pfs w !! p = Some pf → pf_wf p pf →
  wp (gate n b action p mac) (λ r w', ∃ ifs,
    let pf' := gated n b pf in
    pfs w' = <[p := pf']> (pfs w) ∧
    commands (trace w') = commands (trace w) ++ map (λ i, macFilter i mac action) ifs ∧
    (∀ l i, l ≠ PF_Name pf → same_vf (trace w) (trace w') l i) ∧
    (r = None → associated (trace w) (trace w') (PF_Name pf) ifs) ∧
    (r = None ∨ netlink_ok (PF_Name pf) →
       all_programmed (trace w) pf → all_programmed (trace w') pf') ∧
    trace w `suffix_of` trace w') w.
Proof.
  intros Hp Hwf. unfold gate. wp_step. eapply wp_readPF; [done|]. wp_step.
  enough (wp (if bool_decide (size (AuthenticatedAddrs pf) = n) then
      _ ← updatePF p (set_Authenticated b); ConfigureVlanStateForVFs p else mret None)
    (λ r w1, let pf' := gated n b pf in
      pfs w1 = <[p := pf']> (pfs w) ∧ commands (trace w1) = commands (trace w) ∧
      (∀ l i, l ≠ PF_Name pf → same_vf (trace w) (trace w1) l i) ∧
      (r = None → all_programmed (trace w) pf → all_programmed (trace w1) pf') ∧
      (netlink_ok (PF_Name pf) → r = None) ∧ trace w `suffix_of` trace w1) w) as Hgate.
  { eapply wp_mono; [exact Hgate|]. cbn zeta. clear Hgate.
    intros r w1 (Hpf & Hc & Hsame & Hprog & Hok & Hext).
    destruct r as [e|].
    { exists []. rewrite app_nil_r. do 3 (split; [done|]). split; [done|].
      split; [|done]. intros [?|?]; [done|naive_solver]. }
    wp_use wp_filterMac; [by rewrite Hpf, lookup_insert_eq|].
    assert (PF_Name (gated n b pf) = PF_Name pf) as ->
      by (unfold gated; by case_bool_decide).
    intros r w2 (ifs & [Hpf2 Hvf2 Hc2 Hext2] & Hass). exists ifs.
    split; [by rewrite Hpf2|]. split; [by rewrite Hc2, Hc|]. split.
    { intros l i Hl. destruct (Hsame l i Hl), (Hvf2 l i). split; congruence. }
    split; [intros Hr; eapply associated_weaken; [done|by apply Hass]|].
    split; [|by etrans]. intros _ Hall. eapply all_programmed_same; [done|auto]. }
  cbn zeta. unfold gated. case_bool_decide as Hn.
  - wp_step. eapply wp_updatePF; [done|].
    wp_use (wp_ConfigureVlanStateForVFs p (set_Authenticated b pf)).
    { cbn. apply lookup_insert_eq. } { done. }
    intros r w1 ([Hpf1 Hc1 Hext1] & Hsame & Hprog & Hok). cbn in *. auto 8.
  - wp_step. rewrite insert_id by done. do 3 (split; [done|]). auto.
Qed.

(** ** Scripts: sequences of commands that stop at the first failure *)

(** A prefix of [cs] was run, all of it when no error is returned, and no error
    is returned when tc is there and every command succeeds. *)
Definition tc_ok : Prop := (∀ tr, sysLookPath tr "tc" = None) ∧ (∀ tr c, sysRun tr c = None).

Definition follows (cs : list string) (w : World) (r : option error) (w' : World) : Prop :=
  ∃ pre, pre `prefix_of` cs ∧ ran pre w w' ∧ (r = None → pre = cs) ∧ (tc_ok → r = None).

Lemma follows_done cs w w' : ran cs w w' → follows cs w None w'.
Proof. intros Hr. by exists cs. Qed.

Lemma follows_fail cs w w' e : quiet w w' → (tc_ok → False) → follows cs w (Some e) w'.
Proof.
  intros Hq Hno. exists []. split; [apply prefix_nil|]. split; [by apply ran_nil|].
  split; [done|]. by intros ?%Hno.
Qed.

Lemma follows_quiet_l cs w w1 r w2 : quiet w w1 → follows cs w1 r w2 → follows cs w r w2.
Proof.
  intros Hq (pre & Hpre & Hran & H'). exists pre. split; [done|].
  split; [by eapply ran_quiet_l|done].
Qed.

Lemma wp_check_follows m k cs1 cs2 w :
  wp m (follows cs1 w) w → (∀ w1, wp k (follows cs2 w1) w1) →
  wp (check m k) (follows (cs1 ++ cs2) w) w.
Proof.
  intros Hm Hk. wp_step. eapply wp_mono; [exact Hm|].
  intros [e|] w1 (pre & Hpre & Hran & Hall & Hok).
  - exists pre. split; [by apply prefix_app_r|]. split; [done|].
    split; [done|]. intros ?%Hok. done.
  - eapply wp_mono; [apply Hk|]. intros r w2 (pre2 & Hpre2 & Hran2 & Hall2 & Hok2).
    rewrite (Hall eq_refl) in Hran. exists (cs1 ++ pre2).
    split; [by apply prefix_app|]. split; [by eapply ran_trans|].
    split; [|done]. intros Hr. by rewrite Hall2.
Qed.

Lemma wp_Run_follows c w : wp (Run c) (follows [c] w) w.
Proof.
  wp_use wp_Run. intros r w' [-> Hran]. exists [c]. split; [done|]. split; [done|].
  split; [done|]. by intros [_ ->].
Qed.

Lemma wp_LookPath_follows w : wp (LookPath "tc") (follows [] w) w.
Proof.
  wp_use wp_LookPath. intros r w' [-> Hq]. exists []. split; [done|].
  split; [by apply ran_nil|]. split; [done|]. by intros [-> _].
Qed.

Lemma wp_None_follows w : wp (mret None) (follows [] w) w.
Proof. apply wp_ret, follows_done. by apply ran_nil. Qed.

Lemma wp_runEach {X} (cmd : X → string) l w :
  wp (forU (λ x, _ ← Run (cmd x); mret tt) l) (λ _ w', ran (map cmd l) w w') w.
Proof.
  apply (wp_forU _ (λ pre s, ran (map cmd pre) w s)).
  - intros pre x post s _ Hran. wp_step. wp_use wp_Run. intros r s' [_ Hran']. wp_step.
    rewrite map_app. by eapply ran_trans.
  - done.
  - by apply ran_nil.
Qed.

Lemma wp_UnprotectPorts n proto ports w :
  wp (UnprotectPorts n proto ports) (follows (map (portFilter n proto) ports) w) w.
Proof.
  apply (wp_check_follows _ _ []); [apply wp_LookPath_follows|]. intros w1.
  wp_step. eapply wp_mono; [apply wp_runEach|]. intros [] w2 Hran. wp_step.
  by apply follows_done.
Qed.

Lemma wp_UnprotectIPv6Ports n ports w :
  wp (UnprotectIPv6Ports n ports) (follows (map (portFilter6 n) ports) w) w.
Proof.
  apply (wp_check_follows _ _ []); [apply wp_LookPath_follows|]. intros w1.
  wp_step. eapply wp_mono; [apply wp_runEach|]. intros [] w2 Hran. wp_step.
  by apply follows_done.
Qed.

Lemma wp_ResetInterface n w : wp (ResetInterface n) (follows (resetScript n) w) w.
Proof.
  apply (wp_check_follows _ _ []); [apply wp_LookPath_follows|]. intros w1.
  apply (wp_check_follows _ _ [_] [_]); [apply wp_Run_follows|]. intros w2.
  apply wp_Run_follows.
Qed.

Lemma wp_when_nonempty {X} (l : list X) m cs w :
  wp m (follows cs w) w → (l = [] → cs = []) →
  wp (if bool_decide (0 < length l)%nat then m else mret None) (follows cs w) w.
Proof.
  intros Hm Hl. case_bool_decide as Hlen; [done|].
  rewrite Hl; [apply wp_None_follows|]. destruct l; [done|cbn in Hlen; lia].
Qed.

Lemma wp_InitInterfaceForEAPTraffic isPF n tcp udp w :
  (∀ tr, bool_decide (is_Some (sysStat tr
     (FilepathJoin [sysClassNet; n; "device"; "sriov_numvfs"]))) = isPF) →
  wp (InitInterfaceForEAPTraffic n tcp udp) (follows (initScript isPF n tcp udp) w) w.
Proof.
  intros Hstat. apply wp_check_follows; [apply wp_ResetInterface|]. intros w1.
  apply (wp_check_follows _ _ [_]); [apply wp_Run_follows|]. intros w2.
  apply (wp_check_follows _ _ [_]); [apply wp_Run_follows|]. intros w3.
  wp_step. wp_use wp_IsSriovPF. intros b w4 [Hb Hq]. rewrite Hstat in Hb. subst b.
  destruct isPF; cbn [negb]; [|apply wp_ret, follows_done; by apply ran_nil].
  eapply wp_mono; [|intros r w5 Hf; by eapply follows_quiet_l].
  apply (wp_check_follows _ _ [_]); [apply wp_Run_follows|]. intros w5.
  apply wp_check_follows; [apply wp_when_nonempty; [apply wp_UnprotectPorts|by intros ->]|].
  intros w6.
  apply wp_check_follows; [apply wp_when_nonempty; [apply wp_UnprotectPorts|by intros ->]|].
  intros w7.
  apply wp_when_nonempty; [apply wp_UnprotectIPv6Ports|]. by intros ->.
Qed.
End specs.
