(* ===== verification/Hostap.v ===== *)
(** * The interface monitor: pkg/hostap (monitor.go, stats.go)

    One monitor watches one interface: it listens to hostapd's control socket,
    keeps the set of authenticated clients in its PF, opens and closes traffic
    accordingly, reports the interface's status, and gives up on clients that do
    not answer a deauthentication in time.

    Four goroutines run the handlers below; everything that touches the client
    set or the pending deauthentications holds [addrMutex], so a handler is one
    atomic step of the system (see [HostapSteps]). *)
From S2P Require Import Prelude GoStrings Api Sys TrafficControl.

(** ** Constants *)
Definition staConnectedEvent := "AP-STA-CONNECTED".
Definition eapSuccessEvent := "CTRL-EVENT-EAP-SUCCESS".
Definition staDisconnectedEvent := "AP-STA-DISCONNECTED".
Definition eapFailureEvent := "CTRL-EVENT-EAP-FAILURE".
Definition pingCommand := "PING".
Definition attachCommand := "ATTACH".
Definition statusCommand := "STATUS".
Definition deauthenticateCommand := "DEAUTHENTICATE".

Definition statusReply := "state=".
Definition solicitedEvents : list string := ["PONG" +:+ nl; "OK" +:+ nl; statusReply].
(** Two seconds, in microseconds. *)
Definition requestTimeout : Z := 2000000.

Definition EventTypeNormal := "Normal".
Definition EventTypeWarning := "Warning".

(** ** stats.go *)
Record Metrics := {
  authSuccess : gmap string Z;
  authFailed : gmap string Z;
}.

(** [vec.WithLabelValues(iface).Add(n)]: the series starts at zero. *)
Definition addTo (iface : string) (n : Z) (vec : gmap string Z) : gmap string Z :=
  <[iface := (default 0 (vec !! iface) + n)%Z]> vec.

Definition stats_Authenticated (iface : string) (m : Metrics) : Metrics :=
  {| authSuccess := addTo iface 1 (authSuccess m); authFailed := authFailed m |}.
Definition stats_DeAuthenticated (iface : string) (m : Metrics) : Metrics :=
  {| authSuccess := addTo iface (-1) (authSuccess m); authFailed := authFailed m |}.
Definition stats_AuthFailed (iface : string) (m : Metrics) : Metrics :=
  {| authSuccess := authSuccess m; authFailed := addTo iface 1 (authFailed m) |}.

(** ** The monitor's state *)

(** A channel used to signal an end, and a connection: nil, open or closed. *)
Inductive handle := HNil | HOpen | HClosed.

#[global] Instance handle_eq_dec : EqDecision handle.
Proof. solve_decision. Defined.

(** [Client] says whether a Kubernetes client is set. *)
Record InterfaceMonitor := {
  Client : bool;
  AuthNsName : string * string;
  IfName : string;
  PfInfo : option ref;
  hostApdConn : handle;
  deauthRequests : gmap string Z;
  stopWg : Z;
  stop : handle;
  operState : LinkOperState;
  ifEAPState : IfState;
}.

Record MState := {
  mon : InterfaceMonitor;
  wld : World;
  stats : Metrics;
}.

Definition set_mon (m : InterfaceMonitor) (s : MState) : MState :=
  {| mon := m; wld := wld s; stats := stats s |}.
Definition set_wld (w : World) (s : MState) : MState :=
  {| mon := mon s; wld := w; stats := stats s |}.
Definition set_stats (x : Metrics) (s : MState) : MState :=
  {| mon := mon s; wld := wld s; stats := x |}.

Definition set_PfInfo (p : option ref) (m : InterfaceMonitor) : InterfaceMonitor :=
  {| Client := Client m; AuthNsName := AuthNsName m; IfName := IfName m; PfInfo := p;
     hostApdConn := hostApdConn m; deauthRequests := deauthRequests m; stopWg := stopWg m;
     stop := stop m; operState := operState m; ifEAPState := ifEAPState m |}.
Definition set_hostApdConn (h : handle) (m : InterfaceMonitor) : InterfaceMonitor :=
  {| Client := Client m; AuthNsName := AuthNsName m; IfName := IfName m; PfInfo := PfInfo m;
     hostApdConn := h; deauthRequests := deauthRequests m; stopWg := stopWg m;
     stop := stop m; operState := operState m; ifEAPState := ifEAPState m |}.
Definition set_deauthRequests (d : gmap string Z) (m : InterfaceMonitor) : InterfaceMonitor :=
  {| Client := Client m; AuthNsName := AuthNsName m; IfName := IfName m; PfInfo := PfInfo m;
     hostApdConn := hostApdConn m; deauthRequests := d; stopWg := stopWg m;
     stop := stop m; operState := operState m; ifEAPState := ifEAPState m |}.
Definition set_stopWg (n : Z) (m : InterfaceMonitor) : InterfaceMonitor :=
  {| Client := Client m; AuthNsName := AuthNsName m; IfName := IfName m; PfInfo := PfInfo m;
     hostApdConn := hostApdConn m; deauthRequests := deauthRequests m; stopWg := n;
     stop := stop m; operState := operState m; ifEAPState := ifEAPState m |}.
Definition set_stop (h : handle) (m : InterfaceMonitor) : InterfaceMonitor :=
  {| Client := Client m; AuthNsName := AuthNsName m; IfName := IfName m; PfInfo := PfInfo m;
     hostApdConn := hostApdConn m; deauthRequests := deauthRequests m; stopWg := stopWg m;
     stop := h; operState := operState m; ifEAPState := ifEAPState m |}.
Definition set_operState (o : LinkOperState) (m : InterfaceMonitor) : InterfaceMonitor :=
  {| Client := Client m; AuthNsName := AuthNsName m; IfName := IfName m; PfInfo := PfInfo m;
     hostApdConn := hostApdConn m; deauthRequests := deauthRequests m; stopWg := stopWg m;
     stop := stop m; operState := o; ifEAPState := ifEAPState m |}.
Definition set_ifEAPState (st : IfState) (m : InterfaceMonitor) : InterfaceMonitor :=
  {| Client := Client m; AuthNsName := AuthNsName m; IfName := IfName m; PfInfo := PfInfo m;
     hostApdConn := hostApdConn m; deauthRequests := deauthRequests m; stopWg := stopWg m;
     stop := stop m; operState := operState m; ifEAPState := st |}.

(** ** Reading the status reply *)
Definition isSolicitedEvent (eventStr : string) : bool :=
  existsb (Contains eventStr) solicitedEvents.

(** The key=value lines of a reply; a later line replaces an earlier one, a
    line with two or more equals signs is skipped. *)
Definition addStatus (statuses : gmap string string) (line : string) : gmap string string :=
  match Split line equals with
  | [k] => <[k := ""]> statuses
  | [k; v] => <[k := v]> statuses
  | _ => statuses
  end.

Definition ifStateOf (state : string) : IfState :=
  if bool_decide (state = "UNINITIALIZED") then IfStateUninitialized
  else if bool_decide (state = "DISABLED") then IfStateDisabled
  else if bool_decide (state = "COUNTRY_UPDATE") then IfStateCountryUpdate
  else if bool_decide (state = "ACS") then IfStateAcs
  else if bool_decide (state = "HT_SCAN") then IfStateHtScan
  else if bool_decide (state = "DFS") then IfStateDfs
  else if bool_decide (state = "ENABLED") then IfStateEnabled
  else IfStateUnknown.

Definition getIfState (eventStr : string) : IfState :=
  let statuses := foldl addStatus ∅ (Split eventStr newline) in
  ifStateOf (default "" (statuses !! "state")).

(** [eventStrSlice[0][strings.Index(eventStrSlice[0], ">")+1:]] *)
Definition eventKey (word : string) : string :=
  drop_str (Z.to_nat (Index word greater + 1)) word.

(** ** The monitor's operations *)
Definition world {A} (m : M World A) : M MState A := zoom wld set_wld m.
Definition updateMon (f : InterfaceMonitor → InterfaceMonitor) : M MState unit :=
  modify (λ s, set_mon (f (mon s)) s).
Definition updateStats (f : Metrics → Metrics) : M MState unit :=
  modify (λ s, set_stats (f (stats s)) s).
Definition emit (e : event) : M MState unit :=
  world (modify (λ w, set_trace (e :: trace w) w)).

(** [m.PfInfo], dereferenced. *)
Definition monPF : M MState ref := o ← gets (λ s, PfInfo (mon s)); deref o.

(** The status entry of the interface: its position, or nil when there is none;
    the outer [None] is the dereference of a nil entry. *)
Fixpoint findInterface (l : list (option Interface)) (name : string) : option (option nat) :=
  match l with
  | [] => Some None
  | None :: _ => None
  | Some i :: l' =>
      if bool_decide (Interface_Name i = name) then Some (Some 0%nat)
      else match findInterface l' name with
           | Some (Some n) => Some (Some (S n))
           | r => r
           end
  end.

Definition putInterface (l : list (option Interface)) (pos : option nat) (i : Interface) :=
  match pos with
  | Some n => <[n := Some i]> l
  | None => l ++ [Some i]
  end.

Section code.
Context `{Sys}.

(** [m.hostApdConn.Write([]byte(command))] *)
Definition Write (command : string) : M MState (option error) :=
  h ← gets (λ s, hostApdConn (mon s));
  if bool_decide (h = HNil) then panic "invalid memory address or nil pointer dereference"
  else world (observe (λ tr, sysWrite tr command) (EvWrite command)).

Definition writeCommand (command : string) : M MState (option error) := Write command.

Definition deauthenticate (addr : string) : M MState (option error) :=
  if bool_decide (addr = "") then mret None
  else Write (deauthenticateCommand +:+ " " +:+ addr).

Definition getCurrentTimestamp : M MState Z := world Now.

Definition getAuthObject : M MState (result Authenticator) :=
  key ← gets (λ s, AuthNsName (mon s));
  world (observe (λ tr, sysGetAuth tr key) (EvGetAuth key)).

(** [m.Recorder.Eventf(authObj, ...)]: a nil object is dereferenced for its kind. *)
Definition Eventf (authObj : option Authenticator) (eventType reason message : string)
  : M MState unit :=
  obj ← deref authObj;
  emit (EvRecord obj eventType reason message).

Definition logEvent (eventType message : string) : M MState unit :=
  client ← gets (λ s, Client (mon s));
  if negb client then mret tt
  else
    r ← getAuthObject;
    ifName ← gets (λ s, IfName (mon s));
    Eventf (match r with Ok a => Some a | Err _ => None end) eventType ifName message.

(** One attempt of the status update, the argument of [RetryOnConflict]. *)
Definition statusAttempt : M MState (option error) :=
  val! authObj := getAuthObject ;;
  m ← gets mon;
  let l := Status_Interfaces (Status authObj) in
  pos ← deref (findInterface l (IfName m));
  p ← monPF;
  pf ← world (readPF p);
  clients ← world (rangeOrder (elements (AuthenticatedAddrs pf)));
  let ifStatus := {| Interface_Name := IfName m; State := ifEAPState m;
                     AuthenticatedClients := clients |} in
  let authObj' := set_Status_Interfaces (putInterface l pos ifStatus) authObj in
  world (observe (λ tr, sysUpdateStatus tr authObj') (EvUpdateStatus authObj')).

(** [retry.RetryOnConflict]: at most [steps] attempts, repeated on a conflict. *)
Fixpoint RetryOnConflict (steps : nat) (fn : M MState (option error)) : M MState (option error) :=
  match steps with
  | O => mret None
  | S n =>
      err ← fn;
      match err with
      | Some e => if IsConflict e && bool_decide (n ≠ 0)%nat then RetryOnConflict n fn
                  else mret (Some e)
      | None => mret None
      end
  end.

Definition DefaultRetry_Steps : nat := 5.

Definition updateInterfaceStatus : M MState (option error) :=
  client ← gets (λ s, Client (mon s));
  if negb client then mret None
  else RetryOnConflict DefaultRetry_Steps statusAttempt.

(** Its result is logged where it is called. *)
Definition reportStatus : M MState unit := _ ← updateInterfaceStatus; mret tt.

Definition handleAuthenticateEvent (addr : string) : M MState (option error) :=
  p ← monPF;
  _ ← world (updatePF p (λ pf,
         set_AuthenticatedAddrs ({[addr]} ∪ AuthenticatedAddrs pf) pf));
  _ ← updateMon (λ m, set_deauthRequests (delete addr (deauthRequests m)) m);
  world (AllowTrafficFromMac p addr).

Definition handleDeAuthenticateEvent (addr : string) : M MState (option error) :=
  p ← monPF;
  _ ← world (updatePF p (λ pf,
         set_AuthenticatedAddrs (AuthenticatedAddrs pf ∖ {[addr]}) pf));
  _ ← updateMon (λ m, set_deauthRequests (delete addr (deauthRequests m)) m);
  world (DenyTrafficFromMac p addr).

Definition dispatchEvent (eventKeyStr addr : string) : M MState (option error) :=
  ifName ← gets (λ s, IfName (mon s));
  if bool_decide (eventKeyStr = staConnectedEvent) then handleAuthenticateEvent addr
  else if bool_decide (eventKeyStr = eapSuccessEvent) then
    _ ← logEvent EventTypeNormal ("authenticated supplicant " +:+ addr);
    _ ← updateStats (stats_Authenticated ifName);
    mret None
  else if bool_decide (eventKeyStr = staDisconnectedEvent) then
    _ ← logEvent EventTypeNormal ("deauthenticated supplicant " +:+ addr);
    _ ← updateStats (stats_DeAuthenticated ifName);
    handleDeAuthenticateEvent addr
  else if bool_decide (eventKeyStr = eapFailureEvent) then
    _ ← logEvent EventTypeWarning ("authentication failure for supplicant " +:+ addr);
    _ ← updateStats (stats_AuthFailed ifName);
    mret None
  else mret None.

Definition handleHostapdEvent (eventStr : string) : M MState (option error) :=
  match Split eventStr blank with
  | word :: addr :: _ => deferred (dispatchEvent (eventKey word) addr) reportStatus
  | _ =>
      if isSolicitedEvent eventStr then
        if Contains eventStr statusReply then
          _ ← updateMon (set_ifEAPState (getIfState eventStr));
          _ ← reportStatus;
          mret None
        else mret None
      else mret None
  end.

(** ** One round of the loops on the control socket: whether the loop goes on *)
Definition hostapdReplyRound : M MState bool :=
  r ← world (observe sysRead EvRead);
  match r with
  | Err err => mret (IsTimeout err)
  | Ok eventStr =>
      if bool_decide (eventStr = "") then mret true
      else _ ← handleHostapdEvent eventStr; mret true
  end.

Definition keepAliveRound : M MState bool :=
  err ← Write pingCommand;
  match err with
  | Some e => mret (IsTimeout e)
  | None => mret true
  end.

(** ** Link events *)
Definition handlePfEventForVfVlanChange : M MState unit :=
  p ← monPF;
  _ ← world (HandlePfEventForVlanChange p);
  mret tt.

(** The part that holds [addrMutex], after the operational state is noted. *)
Definition applyOpState (link : Link) : M MState unit :=
  _ ← updateMon (set_operState (OperState link));
  if bool_decide (OperState link = OperDown) then
    p ← monPF;
    pf ← world (readPF p);
    addrs ← world (rangeOrder (elements (AuthenticatedAddrs pf)));
    _ ← forU (λ addr,
           _ ← deauthenticate addr;
           t ← getCurrentTimestamp;
           updateMon (λ m, set_deauthRequests (<[addr := t]> (deauthRequests m)) m)) addrs;
    logEvent EventTypeWarning "interface is down"
  else if bool_decide (OperState link = OperUp) then
    p ← monPF;
    pf ← world (readPF p);
    addrs ← world (rangeOrder (elements (AuthenticatedAddrs pf)));
    _ ← forU (λ addr,
           updateMon (λ m, set_deauthRequests (delete addr (deauthRequests m)) m)) addrs;
    logEvent EventTypeNormal "interface is up"
  else mret tt.

Definition handlePfEventForOpStateChange (link : Link) : M MState unit :=
  _ ← applyOpState link;
  _ ← writeCommand statusCommand;
  mret tt.

(** What [handleIfEvents] does with one update from the channel. *)
Definition handleIfEvent (link : Link) : M MState unit :=
  st ← gets (λ s, operState (mon s));
  _ ← (if negb (bool_decide (OperState link = st)) then handlePfEventForOpStateChange link
       else mret tt);
  handlePfEventForVfVlanChange.

(** ** One round of [handleRequestsTimeout], before it sleeps *)
Definition timeoutRequest (now : Z) (req : string * Z) : M MState bool :=
  let '(addr, reqTimeStamp) := req in
  if (now - reqTimeStamp <? requestTimeout)%Z then mret false
  else
    p ← monPF;
    _ ← world (updatePF p (λ pf,
           set_AuthenticatedAddrs (AuthenticatedAddrs pf ∖ {[addr]}) pf));
    _ ← world (DenyTrafficFromMac p addr);
    _ ← updateMon (λ m, set_deauthRequests (delete addr (deauthRequests m)) m);
    mret true.

(** The part that holds [addrMutex]; the clock is read before it. *)
Definition expireRequests (now : Z) : M MState unit :=
  reqs ← gets (λ s, map_to_list (deauthRequests (mon s)));
  reqs ← world (rangeOrder reqs);
  forBreak (timeoutRequest now) reqs.

Definition requestsTimeoutRound : M MState unit :=
  now ← getCurrentTimestamp;
  expireRequests now.

(** ** Start and stop *)

(** The write is repeated while it times out: [None] after [fuel] attempts that
    all did. *)
Fixpoint attachHostapd (fuel : nat) : M MState (option (option error)) :=
  match fuel with
  | O => mret None
  | S f =>
      err ← Write attachCommand;
      match err with
      | Some e => if IsTimeout e then attachHostapd f else mret (Some (Some e))
      | None => mret (Some None)
      end
  end.

Definition closeStop : M MState unit :=
  h ← gets (λ s, stop (mon s));
  match h with
  | HNil => panic "close of nil channel"
  | HClosed => panic "close of closed channel"
  | HOpen => updateMon (set_stop HClosed)
  end.

Definition closeConn : M MState (option error) :=
  h ← gets (λ s, hostApdConn (mon s));
  match h with
  | HNil => panic "invalid memory address or nil pointer dereference"
  | _ => _ ← updateMon (set_hostApdConn HClosed);
         world (observe sysCloseConn EvCloseConn)
  end.

(** Up to the wait for the goroutines, which [EvWait] stands for. *)
Definition StopMonitor : M MState unit :=
  o ← gets (λ s, PfInfo (mon s));
  _ ← match o with
      | None => mret tt
      | Some p =>
          pf ← world (readPF p);
          if negb (Authenticated pf) then
            _ ← world (updatePF p (set_Authenticated true));
            _ ← world (ConfigureVlanStateForVFs p);
            mret tt
          else mret tt
      end;
  _ ← closeStop;
  ifName ← gets (λ s, IfName (mon s));
  _ ← emit (EvUnsubscribe ifName);
  _ ← closeConn;
  emit EvWait.

Definition startGoroutines : M MState unit :=
  forU (λ g, emit (EvGo g))
    ["handleHostapdReply"; "handleIfEvents"; "sendKeepAlive"; "handleRequestsTimeout"].

(** [StartMonitor] up to its [go] statements. *)
Definition startUp : M MState (option error) :=
  ifName ← gets (λ s, IfName (mon s));
  check! world (observe sysTempFile EvTempFile) ;;
  check! world (observe (λ tr, sysDial tr ifName) (EvDial ifName)) ;;
  _ ← updateMon (λ m, set_deauthRequests ∅ (set_stopWg (stopWg m + 4)
                        (set_stop HOpen (set_hostApdConn HOpen m))));
  val! pfInfo := world (GetSriovPFInfo ifName) ;;
  check! world (ConfigureVlanStateForVFs pfInfo) ;;
  _ ← updateMon (set_PfInfo (Some pfInfo));
  _ ← emit (EvSubscribe ifName);
  _ ← startGoroutines;
  mret None.

(** [None]: still trying to attach after [fuel] attempts. *)
Definition StartMonitor (fuel : nat) : M MState (option (option error)) :=
  err ← startUp;
  match err with
  | Some e => mret (Some (Some e))
  | None =>
      err ← attachHostapd fuel;
      match err with
      | None => mret None
      | Some (Some e) => _ ← StopMonitor; mret (Some (Some e))
      | Some None =>
          _ ← writeCommand statusCommand;
          _ ← reportStatus;
          mret (Some None)
      end
  end.

(** [NewInterfaceMonitor(logger, ifName, opt)] with the option of [main]. *)
Definition NewInterfaceMonitor (ifName : string) (client : bool) (nsName : string * string)
  : InterfaceMonitor :=
  {| Client := client; AuthNsName := nsName; IfName := ifName; PfInfo := None;
     hostApdConn := HNil; deauthRequests := ∅; stopWg := 0; stop := HNil;
     operState := OperUnknown; ifEAPState := "" |}.
End code.
