(* ===== verification/ClientSpec.v ===== *)
(** * What a monitor promises about its clients

    The abstract specification of the interface monitor (pkg/hostap): which
    stations are let through, and which of them are on notice because the link
    went down.  A station comes in only when hostapd reports it connected, and
    goes only when hostapd reports it disconnected or when it has been on notice
    for the request timeout without answering.

    [HostapSteps] shows that the monitor's goroutines, interleaved in any way,
    refine this machine. *)
From S2P Require Import Prelude GoStrings Api Sys TrafficControl Hostap.

Record Clients := {
  clients : gset string;
  pending : gmap string Z;
}.

Inductive action :=
| Connect (addr : string)
| Disconnect (addr : string)
| LinkDown
| LinkUp
| Timeout (now : Z)
| Silent.

#[global] Instance action_eq_dec : EqDecision action.
Proof. solve_decision. Defined.

(** A station on notice since [requestTimeout] before [now]. *)
Definition expired (now : Z) (c : Clients) (addr : string) : Prop :=
  ∃ t, pending c !! addr = Some t ∧ (requestTimeout ≤ now - t)%Z.

Definition evict (R : gset string) (c : Clients) : Clients :=
  {| clients := clients c ∖ R; pending := filter (λ e, e.1 ∉ R) (pending c) |}.

Inductive client_step (c : Clients) : action → Clients → Prop :=
| step_connect addr :
    client_step c (Connect addr)
      {| clients := {[addr]} ∪ clients c; pending := delete addr (pending c) |}
| step_disconnect addr :
    client_step c (Disconnect addr)
      {| clients := clients c ∖ {[addr]}; pending := delete addr (pending c) |}
| step_down P :
    dom P = clients c → client_step c LinkDown {| clients := clients c; pending := P |}
| step_up :
    client_step c LinkUp {| clients := clients c; pending := ∅ |}
| step_timeout now R :
    (∀ addr, addr ∈ R → expired now c addr) → client_step c (Timeout now) (evict R c)
| step_silent :
    client_step c Silent c.

(** Runs, with their actions from the last to the first. *)
Inductive client_run : list action → Clients → Prop :=
| run_start : client_run [] {| clients := ∅; pending := ∅ |}
| run_step l c a c' : client_run l c → client_step c a c' → client_run (a :: l) c'.

Definition clients_wf (c : Clients) : Prop := dom (pending c) ⊆ clients c.

Lemma client_step_wf c a c' : clients_wf c → client_step c a c' → clients_wf c'.
Proof.
  unfold clients_wf. intros Hwf. destruct 1 as [addr|addr|P HP| |now R HR|]; cbn.
  - rewrite dom_delete_L. set_solver.
  - rewrite dom_delete_L. set_solver.
  - by rewrite HP.
  - rewrite dom_empty_L. set_solver.
  - intros x. rewrite elem_of_dom. intros [t [Ht Hx]%map_lookup_filter_Some].
    apply elem_of_difference. split; [|done]. by apply Hwf, elem_of_dom_2 with t.
  - done.
Qed.

Lemma client_run_wf l c : client_run l c → clients_wf c.
Proof.
  induction 1 as [|l c a c' _ IH Hs]; [|by eapply client_step_wf].
  unfold clients_wf. cbn. by rewrite dom_empty_L.
Qed.

Lemma step_silent_inv c c' : client_step c Silent c' → c' = c.
Proof. by inversion 1. Qed.

(** The last thing hostapd said about a station was that it is connected, or
    it has never been mentioned. *)
Fixpoint last_report (l : list action) (addr : string) : option bool :=
  match l with
  | [] => None
  | Connect b :: l' => if bool_decide (b = addr) then Some true else last_report l' addr
  | Disconnect b :: l' => if bool_decide (b = addr) then Some false else last_report l' addr
  | _ :: l' => last_report l' addr
  end.

(** No link failure has been noticed. *)
Definition never_down (l : list action) : Prop := LinkDown ∉ l.

Lemma client_run_last_report l c addr :
  client_run l c → addr ∈ clients c → last_report l addr = Some true.
Proof.
  induction 1 as [|l c a c' _ IH Hs]; [set_solver|].
  destruct Hs as [b|b|P HP| |now R HR|]; cbn; try done.
  - case_bool_decide; set_solver.
  - case_bool_decide; set_solver.
  - set_solver.
Qed.

Lemma never_down_pending l c : client_run l c → never_down l → pending c = ∅.
Proof.
  unfold never_down. induction 1 as [|l c a c' _ IH Hs]; [done|].
  rewrite not_elem_of_cons. intros [Ha Hl]. specialize (IH Hl).
  destruct Hs as [b|b|P HP| |now R HR|]; cbn; try done; rewrite IH.
  - apply delete_empty.
  - apply delete_empty.
  - apply map_filter_empty.
Qed.

Lemma client_run_never_down l c addr :
  client_run l c → never_down l → addr ∈ clients c ↔ last_report l addr = Some true.
Proof.
  intros Hrun Hnd. split; [by apply client_run_last_report|]. revert Hnd. unfold never_down.
  induction Hrun as [|l c a c' Hrun IH Hs]; [done|].
  rewrite not_elem_of_cons. intros [Ha Hl] Hlast. specialize (IH Hl).
  destruct Hs as [b|b|P HP| |now R HR|]; cbn in *.
  - case_bool_decide; set_solver.
  - case_bool_decide; [done|]. set_solver.
  - done.
  - by apply IH.
  - apply elem_of_difference. split; [by apply IH|]. intros HaR.
    destruct (HR addr HaR) as (t & Ht & _). by rewrite (never_down_pending l c Hrun Hl) in Ht.
  - by apply IH.
Qed.
