(* ===== verification/HostapSpec.v ===== *)
(** * What the monitor guarantees

    The invariant of a started monitor, and the specification of each handler
    against it: for every environment, whatever fails.  A handler panics only
    when the API server fails to return the Authenticator while an event is
    recorded, or returns a status with a null entry; [api_ok] excludes both. *)
From S2P Require Import Prelude GoStrings Api Sys TrafficControl TrafficControlSpec Hostap ClientSpec.

(** ** The invariant *)
Record Inv (s : MState) (p : ref) (pf : PFInfo) : Prop := {
  inv_pfinfo : PfInfo (mon s) = Some p;
  inv_pf : pfs (wld s) !! p = Some pf;
  inv_name : PF_Name pf = IfName (mon s);
  inv_wf : pf_wf p pf;
  (** The gate is open exactly when a client is authenticated. *)
  inv_gate : Authenticated pf = bool_decide (AuthenticatedAddrs pf ≠ ∅);
  (** Only authenticated clients wait for a deauthentication. *)
  inv_pending : dom (deauthRequests (mon s)) ⊆ AuthenticatedAddrs pf;
  inv_conn : hostApdConn (mon s) ≠ HNil;
  (** It has not been told to stop. *)
  inv_stop : stop (mon s) = HOpen;
}.

Definition MonInv (s : MState) : Prop := ∃ p pf, Inv s p pf.

(** Only observations: the monitor, its counters, its PF and tc are as before. *)
Record watched (s s' : MState) : Prop := {
  watched_mon : mon s' = mon s;
  watched_stats : stats s' = stats s;
  watched_wld : quiet (wld s) (wld s');
}.

(** The API server, when it answers, gives no status with a null entry. *)
Definition no_null_entry `{Sys} : Prop :=
  ∀ tr k a, sysGetAuth tr k = Ok a → None ∉ Status_Interfaces (Status a).

Definition api_ok `{Sys} : Prop :=
  (∀ tr k, ∃ a, sysGetAuth tr k = Ok a) ∧ no_null_entry.

#[global] Instance watched_preorder : PreOrder watched.
Proof.
  split; [by intros s; split|]. intros s1 s2 s3 [? ? ?] [? ? ?].
  split; [congruence|congruence|by etrans].
Qed.

Lemma wp_world {A} P (m : M World A) Q s :
  wpx P m (λ a w, Q a (set_wld w s)) (wld s) → wpx P (world m) Q s.
Proof. apply wp_zoom. Qed.

Ltac mon_step := first [wp_step | apply wp_world; cbn beta].

Lemma set_mon_id s : set_mon (mon s) s = s.
Proof. by destruct s. Qed.

Lemma set_wld_id s : set_wld (wld s) s = s.
Proof. by destruct s. Qed.

Lemma Inv_watched s s' p pf : watched s s' → Inv s p pf → Inv s' p pf.
Proof.
  intros [Hm _ [Hp _ _ _]] [? ? ? ? ? ? ? ?]. split; rewrite ?Hm, ?Hp; done.
Qed.

Lemma Inv_set_stats x s p pf : Inv s p pf → Inv (set_stats x s) p pf.
Proof. by intros []. Qed.

Lemma gate_insert addr pf :
  Authenticated pf = bool_decide (AuthenticatedAddrs pf ≠ ∅) →
  Authenticated (gated 1 true (set_AuthenticatedAddrs ({[addr]} ∪ AuthenticatedAddrs pf) pf)) =
  bool_decide ({[addr]} ∪ AuthenticatedAddrs pf ≠ ∅).
Proof.
  intros Hg. rewrite (bool_decide_true ({[addr]} ∪ _ ≠ ∅)) by set_solver.
  unfold gated. cbn. destruct (bool_decide_reflect
    (size ({[addr]} ∪ AuthenticatedAddrs pf) = 1)) as [|Hsz]; [done|]. cbn. rewrite Hg.
  apply bool_decide_true. intros He. apply Hsz.
  by rewrite He, (right_id_L ∅ (∪)), size_singleton.
Qed.

Lemma gate_remove X pf :
  Authenticated pf = bool_decide (AuthenticatedAddrs pf ≠ ∅) → X ⊆ AuthenticatedAddrs pf →
  Authenticated (gated 0 false (set_AuthenticatedAddrs X pf)) = bool_decide (X ≠ ∅).
Proof.
  intros Hg Hsub. unfold gated. cbn.
  destruct (bool_decide_reflect (size X = 0)) as [Hsz|Hsz]; cbn.
  - symmetry. apply bool_decide_false. intros Hne. by apply Hne, leibniz_equiv, size_empty_iff.
  - rewrite Hg, !bool_decide_true; [done|..].
    + intros ->. by apply Hsz, size_empty.
    + intros He. apply Hsz. assert (X = ∅) as -> by set_solver. apply size_empty.
Qed.

(** ** Operations that only observe *)
Section specs.
Context `{Sys}.

Lemma watched_event s ev :
  quiet (wld s) (set_trace (ev :: trace (wld s)) (wld s)) →
  watched s (set_wld (set_trace (ev :: trace (wld s)) (wld s)) s).
Proof. by split. Qed.

Lemma wp_getAuthObject P s :
  wpx P getAuthObject (λ r s',
    r = sysGetAuth (trace (wld s)) (AuthNsName (mon s)) ∧ watched s s') s.
Proof.
  unfold getAuthObject. repeat mon_step. apply wp_observe. split; [done|].
  apply watched_event. by apply quiet_event.
Qed.

Lemma wp_logEvent ty msg s : wpx api_ok (logEvent ty msg) (λ _ s', watched s s') s.
Proof.
  unfold logEvent. do 3 wp_step; [by wp_step|]. wp_step. wp_use wp_getAuthObject.
  intros r s1 [-> Hw]. do 2 wp_step. unfold Eventf. wp_step.
  apply wp_deref_maybe.
  - intros [Hget _]. by destruct (Hget (trace (wld s)) (AuthNsName (mon s))) as [a ->].
  - intros a _. unfold emit. repeat mon_step. etrans; [done|]. apply watched_event.
    by apply quiet_event.
Qed.

Lemma wp_Write c s :
  hostApdConn (mon s) ≠ HNil → wp (Write c) (λ r s', watched s s') s.
Proof.
  intros Hc. unfold Write. do 3 wp_step; [by case_bool_decide|]. mon_step.
  apply wp_observe. apply watched_event. by apply quiet_event.
Qed.

Lemma wp_deauthenticate a s :
  hostApdConn (mon s) ≠ HNil → wp (deauthenticate a) (λ r s', watched s s') s.
Proof. intros Hc. unfold deauthenticate. wp_step; [by wp_step|by apply wp_Write]. Qed.

Lemma findInterface_total l name : None ∉ l → is_Some (findInterface l name).
Proof.
  induction l as [|[i|] l IH]; [done| |set_solver].
  rewrite not_elem_of_cons. intros [_ Hl]. cbn. case_bool_decide; [done|].
  destruct (IH Hl) as [[n|] ->]; done.
Qed.

Lemma wp_statusAttempt s p pf :
  Inv s p pf → wpx no_null_entry statusAttempt (λ _ s', watched s s') s.
Proof.
  intros HI. unfold statusAttempt. wp_step. wp_use wp_getAuthObject. intros r s1 [Hr Hw].
  destruct r as [a|e]; [|done]. do 3 wp_step.
  apply wp_deref_maybe.
  { intros Hnil. by eapply findInterface_total, Hnil. }
  intros pos _. destruct (Inv_watched _ _ _ _ Hw HI) as [Hp Hpf _ _ _ _ _ _].
  wp_step. unfold monPF. wp_step. wp_step. eapply wp_deref; [done|].
  do 2 mon_step. eapply wp_readPF; [done|].
  do 2 mon_step. wp_use (wp_rangeOrder (elements (AuthenticatedAddrs pf))).
  intros clients w2 [_ Hq]. rewrite set_wld_id. cbn zeta. mon_step. apply wp_observe.
  etrans; [done|]. split; [done..|]. cbn. etrans; [done|]. by apply quiet_event.
Qed.

Lemma wp_RetryOnConflict n fn s P (R : MState → MState → Prop) `{!PreOrder R} :
  (∀ s', R s s' → wpx P fn (λ _ s'', R s' s'') s') →
  wpx P (RetryOnConflict n fn) (λ _ s', R s s') s.
Proof.
  intros Hfn. enough (∀ s', R s s' → wpx P (RetryOnConflict n fn) (λ _ s'', R s s'') s') as Hgo
    by by apply Hgo.
  induction n as [|n IH]; intros s' Hs'; cbn [RetryOnConflict]; [by wp_step|].
  wp_step. eapply wp_mono; [by apply Hfn|]. intros r s2 Hs2.
  assert (R s s2) by by etrans. destruct r as [e|]; [|by wp_step].
  wp_step; [by apply IH|by wp_step].
Qed.

Lemma wp_reportStatus_watched s p pf :
  Inv s p pf → wpx no_null_entry reportStatus (λ _ s', watched s s') s.
Proof.
  intros HI. unfold reportStatus, updateInterfaceStatus. do 4 wp_step; [by do 2 wp_step|].
  eapply wp_mono.
  - apply (wp_RetryOnConflict _ _ _ _ watched). intros s' Hw.
    eapply wp_statusAttempt. by eapply Inv_watched.
  - intros r s' Hw. by wp_step.
Qed.

Lemma wp_reportStatus s p pf :
  Inv s p pf → wpx api_ok reportStatus (λ _ s', watched s s') s.
Proof.
  intros HI. eapply wp_weaken; [by eapply wp_reportStatus_watched|by intros [_ ?]|done].
Qed.

(** ** A client comes or goes *)

(** The client set becomes [X], the pending request of [addr] is dropped, the
    gate of the VFs moves as [gated] says, and [addr] gets the verdict [action]
    on the interfaces [ifs]. *)
Record moved (n : nat) (b : bool) (action : string) (X : gset string) (addr : string)
    (s : MState) (p : ref) (pf : PFInfo) (ifs : list string)
    (r : option error) (s' : MState) : Prop := {
  moved_mon : mon s' = set_deauthRequests (delete addr (deauthRequests (mon s))) (mon s);
  moved_stats : stats s' = stats s;
  moved_ext : trace (wld s) `suffix_of` trace (wld s');
  moved_pfs : pfs (wld s') = <[p := gated n b (set_AuthenticatedAddrs X pf)]> (pfs (wld s));
  moved_commands : commands (trace (wld s')) =
    commands (trace (wld s)) ++ map (λ i, macFilter i addr action) ifs;
  moved_ifs : r = None →
    associated (trace (wld s)) (trace (wld s')) (PF_Name pf) ifs;
  moved_vfs : r = None ∨ netlink_ok (PF_Name pf) →
    all_programmed (trace (wld s)) pf →
    all_programmed (trace (wld s')) (gated n b (set_AuthenticatedAddrs X pf));
  moved_same : ∀ l i, l ≠ PF_Name pf → same_vf (trace (wld s)) (trace (wld s')) l i;
}.

Lemma moved_framed n b action X addr s p pf ifs r s' :
  Inv s p pf → moved n b action X addr s p pf ifs r s' →
  framed p (IfName (mon s)) (wld s) (wld s').
Proof.
  intros HI [_ _ Hext Hpfs _ _ _ Hsame]. rewrite <-(inv_name _ _ _ HI).
  split; [|done..]. intros q Hq. by rewrite Hpfs, lookup_insert_ne.
Qed.

Lemma gated_name n b pf : PF_Name (gated n b pf) = PF_Name pf.
Proof. unfold gated. by destruct (bool_decide _). Qed.

Lemma gated_addrs n b pf : AuthenticatedAddrs (gated n b pf) = AuthenticatedAddrs pf.
Proof. unfold gated. by destruct (bool_decide _). Qed.

Lemma gated_VFs n b pf : VFs (gated n b pf) = VFs pf.
Proof. unfold gated. by destruct (bool_decide _). Qed.

Lemma moved_Inv n b action X addr s p pf ifs r s' :
  Inv s p pf → moved n b action X addr s p pf ifs r s' →
  Authenticated (gated n b (set_AuthenticatedAddrs X pf)) = bool_decide (X ≠ ∅) →
  dom (deauthRequests (mon s)) ∖ {[addr]} ⊆ X →
  Inv s' p (gated n b (set_AuthenticatedAddrs X pf)).
Proof.
  intros [Hp Hpf Hn Hwf Hg Hd Hc Hstop] [Hm _ _ Hpfs _ _ _ _] Hgate Hdom.
  split; rewrite ?Hm, ?Hpfs; cbn; try done.
  - apply lookup_insert_eq.
  - by rewrite gated_name.
  - by apply gated_wf.
  - by rewrite gated_addrs.
  - rewrite gated_addrs, dom_delete_L. done.
Qed.

Context `{!LinkNames}.

Lemma wp_move n b action X addr p pf f s :
  Inv s p pf → f pf = set_AuthenticatedAddrs X pf →
  wp (_ ← world (updatePF p f);
      _ ← updateMon (λ m, set_deauthRequests (delete addr (deauthRequests m)) m);
      world (gate n b action p addr))
     (λ r s', ∃ ifs, moved n b action X addr s p pf ifs r s') s.
Proof.
  intros [Hp Hpf Hn Hwf Hg Hd Hc Hstop] Hf. do 2 mon_step. eapply wp_updatePF; [done|]. rewrite Hf.
  unfold updateMon. do 3 mon_step.
  wp_use (wp_gate n b action p (set_AuthenticatedAddrs X pf) addr); [apply lookup_insert_eq|done|].
  cbn zeta. intros r w' (ifs & Hpfs & Hcmd & Hsame & Hass & Hprog & Hext).
  exists ifs. split; try done. cbn. by rewrite Hpfs; cbn; rewrite insert_insert_eq.
Qed.

(** A client's arrival and departure as the handlers perform them: the outcome
    and the state of the PF afterwards. *)
Definition arrived (addr : string) (pf : PFInfo) : PFInfo :=
  gated 1 true (set_AuthenticatedAddrs ({[addr]} ∪ AuthenticatedAddrs pf) pf).
Definition departed (addr : string) (pf : PFInfo) : PFInfo :=
  gated 0 false (set_AuthenticatedAddrs (AuthenticatedAddrs pf ∖ {[addr]}) pf).

Lemma wp_handleAuthenticateEvent addr s p pf :
  Inv s p pf →
  wp (handleAuthenticateEvent addr) (λ r s', Inv s' p (arrived addr pf) ∧ ∃ ifs,
    moved 1 true "ok" ({[addr]} ∪ AuthenticatedAddrs pf) addr s p pf ifs r s') s.
Proof.
  intros HI. destruct (HI) as [Hp _ _ _ Hg Hd _ _]. unfold handleAuthenticateEvent.
  wp_step. unfold monPF. do 2 wp_step. eapply wp_deref; [done|].
  eapply wp_mono; [by eapply (wp_move 1 true "ok")|]. intros r s' (ifs & Hm). split; [|by exists ifs].
  eapply moved_Inv; [done..|by apply gate_insert|set_solver].
Qed.

Lemma wp_handleDeAuthenticateEvent addr s p pf :
  Inv s p pf →
  wp (handleDeAuthenticateEvent addr) (λ r s', Inv s' p (departed addr pf) ∧ ∃ ifs,
    moved 0 false "drop" (AuthenticatedAddrs pf ∖ {[addr]}) addr s p pf ifs r s') s.
Proof.
  intros HI. destruct (HI) as [Hp _ _ _ Hg Hd _ _]. unfold handleDeAuthenticateEvent.
  wp_step. unfold monPF. do 2 wp_step. eapply wp_deref; [done|].
  eapply wp_mono; [by eapply (wp_move 0 false "drop")|].
  intros r s' (ifs & Hm). split; [|by exists ifs].
  eapply moved_Inv; [done..|apply gate_remove; [done|set_solver]|set_solver].
Qed.

(** ** Steps *)

Definition clientsOf (s : MState) (pf : PFInfo) : Clients :=
  {| clients := AuthenticatedAddrs pf; pending := deauthRequests (mon s) |}.

(** From a state with the invariant: the invariant is kept, the clients take one
    step of their specification, nothing changes but the monitor's PF and its VFs,
    and those stay programmed as the gate says, provided netlink works. *)
Definition evolves (a : action) (s s' : MState) : Prop :=
  ∀ p pf, Inv s p pf → ∃ pf', Inv s' p pf' ∧
    client_step (clientsOf s pf) a (clientsOf s' pf') ∧
    IfName (mon s') = IfName (mon s) ∧ framed p (IfName (mon s)) (wld s) (wld s') ∧
    (netlink_ok (IfName (mon s)) →
      all_programmed (trace (wld s)) pf → all_programmed (trace (wld s')) pf').

Lemma evolves_MonInv a s s' : evolves a s s' → MonInv s → MonInv s'.
Proof. intros He (p & pf & HI). destruct (He p pf HI) as (pf' & HI' & _). by exists p, pf'. Qed.

Lemma watched_framed p name s s' : watched s s' → framed p name (wld s) (wld s').
Proof. intros [_ _ Hq]. by apply quiet_framed. Qed.

Lemma evolves_watched s s' : watched s s' → evolves Silent s s'.
Proof.
  intros Hw p pf HI. exists pf. split; [by eapply Inv_watched|].
  unfold clientsOf. rewrite (watched_mon _ _ Hw). split; [constructor|].
  split; [done|]. split; [by apply watched_framed|]. intros _. apply all_programmed_same, Hw.
Qed.

Lemma evolves_refl s : evolves Silent s s.
Proof. by apply evolves_watched. Qed.

Lemma evolves_silent_l a s s1 s2 : evolves Silent s s1 → evolves a s1 s2 → evolves a s s2.
Proof.
  intros H1 H2 p pf HI. destruct (H1 p pf HI) as (pf1 & HI1 & Hc1 & Hn1 & He1 & Hp1).
  destruct (H2 p pf1 HI1) as (pf2 & HI2 & Hc2 & Hn2 & He2 & Hp2). exists pf2.
  split; [done|]. rewrite (step_silent_inv _ _ Hc1) in Hc2. split; [done|].
  rewrite Hn1 in Hn2, He2, Hp2. split; [done|]. split; [by etrans|]. auto.
Qed.

Lemma evolves_silent_r a s s1 s2 : evolves a s s1 → evolves Silent s1 s2 → evolves a s s2.
Proof.
  intros H1 H2 p pf HI. destruct (H1 p pf HI) as (pf1 & HI1 & Hc1 & Hn1 & He1 & Hp1).
  destruct (H2 p pf1 HI1) as (pf2 & HI2 & Hc2 & Hn2 & He2 & Hp2). exists pf2.
  split; [done|]. rewrite (step_silent_inv _ _ Hc2). split; [done|].
  rewrite Hn1 in Hn2, He2, Hp2. split; [done|]. split; [by etrans|]. auto.
Qed.

Lemma evolves_stats x s s' : evolves Silent s s' → evolves Silent s (set_stats x s').
Proof.
  intros He. eapply evolves_silent_r; [done|]. intros p pf HI. exists pf.
  split; [by apply Inv_set_stats|]. split; [apply step_silent|]. by split.
Qed.

Lemma moved_evolves n b action X addr s p pf ifs r s' a :
  moved n b action X addr s p pf ifs r s' →
  Inv s p pf → Inv s' p (gated n b (set_AuthenticatedAddrs X pf)) →
  client_step (clientsOf s pf) a
    {| clients := X; pending := delete addr (deauthRequests (mon s)) |} →
  evolves a s s'.
Proof.
  intros Hm HI HI' Hstep p0 pf0 HI0.
  assert (p0 = p) as -> by (pose proof (inv_pfinfo _ _ _ HI); destruct HI0; congruence).
  assert (pf0 = pf) as -> by (pose proof (inv_pf _ _ _ HI); destruct HI0; congruence).
  eexists. split; [done|]. pose proof (moved_mon _ _ _ _ _ _ _ _ _ _ _ Hm) as Hmon.
  unfold clientsOf at 2. rewrite gated_addrs, Hmon. split; [done|]. split; [done|].
  split; [by eapply moved_framed|].
  rewrite <-(inv_name _ _ _ HI). intros Hok. apply (moved_vfs _ _ _ _ _ _ _ _ _ _ _ Hm). by right.
Qed.

Lemma handleAuthenticateEvent_evolves addr s :
  MonInv s → wp (handleAuthenticateEvent addr) (λ _ s', evolves (Connect addr) s s') s.
Proof.
  intros (p & pf & HI). wp_use wp_handleAuthenticateEvent; [done|].
  intros r s' [HI' (ifs & Hm)]. eapply moved_evolves; [done..|]. apply step_connect.
Qed.

Lemma handleDeAuthenticateEvent_evolves addr s :
  MonInv s → wp (handleDeAuthenticateEvent addr) (λ _ s', evolves (Disconnect addr) s s') s.
Proof.
  intros (p & pf & HI). wp_use wp_handleDeAuthenticateEvent; [done|].
  intros r s' [HI' (ifs & Hm)]. eapply moved_evolves; [done..|]. apply step_disconnect.
Qed.

Lemma logEvent_evolves ty msg s : wpx api_ok (logEvent ty msg) (λ _ s', evolves Silent s s') s.
Proof. eapply wp_mono; [apply wp_logEvent|]. intros r s'. apply evolves_watched. Qed.

Lemma Write_evolves c s : MonInv s → wp (Write c) (λ _ s', evolves Silent s s') s.
Proof.
  intros (p & pf & HI). eapply wp_mono; [apply wp_Write, HI|]. intros r s'. apply evolves_watched.
Qed.

Lemma reportStatus_evolves s :
  MonInv s → wpx api_ok reportStatus (λ _ s', evolves Silent s s') s.
Proof.
  intros (p & pf & HI). eapply wp_mono; [by eapply wp_reportStatus|].
  intros r s'. apply evolves_watched.
Qed.

(** ** Events from hostapd *)

(** What an event means for the clients. *)
Definition keyAction (key addr : string) : action :=
  if bool_decide (key = staConnectedEvent) then Connect addr
  else if bool_decide (key = staDisconnectedEvent) then Disconnect addr
  else Silent.

Definition eventAction (eventStr : string) : action :=
  match Split eventStr blank with
  | word :: addr :: _ => keyAction (eventKey word) addr
  | _ => Silent
  end.

Lemma updateMon_evolves f s :
  (∀ m, PfInfo (f m) = PfInfo m ∧ IfName (f m) = IfName m ∧ hostApdConn (f m) = hostApdConn m ∧
        deauthRequests (f m) = deauthRequests m ∧ stop (f m) = stop m) →
  evolves Silent s (set_mon (f (mon s)) s).
Proof.
  intros Hf p pf [? ? ? ? ? ? ? ?]. destruct (Hf (mon s)) as (H1 & H2 & H3 & H4 & H5).
  exists pf. split; [split; cbn; by rewrite ?H1, ?H2, ?H3, ?H4, ?H5|].
  unfold clientsOf. cbn. rewrite H4. split; [apply step_silent|by rewrite H2].
Qed.

(** Two handlers in a row, the first of them silent. *)
Lemma wp_evolves_bind {A B} P (m : M MState A) (k : A → M MState B) a s :
  MonInv s →
  wpx P m (λ _ s', evolves Silent s s') s →
  (∀ x s', MonInv s' → wpx P (k x) (λ _ s'', evolves a s' s'') s') →
  wpx P (m ≫= k) (λ _ s', evolves a s s') s.
Proof.
  intros HI Hm Hk. wp_step. eapply wp_mono; [exact Hm|]. intros x s1 H1. cbn in H1.
  eapply wp_mono; [apply Hk; eapply evolves_MonInv; eassumption|].
  intros y s2 H2. by eapply evolves_silent_l.
Qed.

Lemma updateStats_evolves f s : wp (updateStats f) (λ _ s', evolves Silent s s') s.
Proof. unfold updateStats. wp_step. by apply evolves_stats, evolves_refl. Qed.

Lemma log_then_evolves {B} ty msg f (k : M MState B) a s :
  MonInv s → (∀ s', MonInv s' → wp k (λ _ s'', evolves a s' s'') s') →
  wpx api_ok (_ ← logEvent ty msg; _ ← updateStats f; k) (λ _ s', evolves a s s') s.
Proof.
  intros HI Hk. apply wp_evolves_bind; [done|apply logEvent_evolves|]. intros _ s1 HI1.
  apply wp_evolves_bind; [done|apply wp_any_P, updateStats_evolves|]. intros _ s2 HI2.
  by apply wp_any_P, Hk.
Qed.

Lemma dispatchEvent_evolves key addr s :
  MonInv s →
  wpx api_ok (dispatchEvent key addr) (λ _ s', evolves (keyAction key addr) s s') s.
Proof.
  intros HI. unfold dispatchEvent, keyAction. do 2 wp_step.
  destruct (bool_decide_reflect (key = staConnectedEvent)) as [->|Hk1].
  { by apply wp_any_P, handleAuthenticateEvent_evolves. }
  destruct (bool_decide_reflect (key = eapSuccessEvent)) as [->|Hk2].
  { rewrite bool_decide_false by done. apply log_then_evolves; [done|].
    intros s' _. wp_step. apply evolves_refl. }
  destruct (bool_decide_reflect (key = staDisconnectedEvent)) as [->|Hk3].
  { apply log_then_evolves; [done|]. intros s' HI'.
    by apply handleDeAuthenticateEvent_evolves. }
  case_bool_decide.
  { apply log_then_evolves; [done|]. intros s' _. wp_step. apply evolves_refl. }
  wp_step. apply evolves_refl.
Qed.

Lemma then_report_evolves a s s1 :
  MonInv s → evolves a s s1 → wpx api_ok reportStatus (λ _ s2, evolves a s s2) s1.
Proof.
  intros HI H1. eapply wp_mono; [eapply reportStatus_evolves, evolves_MonInv; eassumption|].
  intros [] s2. by apply evolves_silent_r.
Qed.

Lemma handleHostapdEvent_evolves eventStr s :
  MonInv s →
  wpx api_ok (handleHostapdEvent eventStr) (λ _ s', evolves (eventAction eventStr) s s') s.
Proof.
  intros HI. unfold handleHostapdEvent, eventAction.
  assert (wpx api_ok
    (if isSolicitedEvent eventStr then
        if Contains eventStr statusReply then
          _ ← updateMon (set_ifEAPState (getIfState eventStr)); _ ← reportStatus; mret None
        else mret (@None error)
      else mret None) (λ _ s', evolves Silent s s') s) as Hshort.
  { do 2 (wp_step; [|wp_step; apply evolves_refl]).
    unfold updateMon. do 3 wp_step.
    eapply wp_mono; [eapply then_report_evolves; [done|]|intros [] s' ?; by wp_step].
    by apply updateMon_evolves. }
  destruct (Split eventStr blank) as [|word [|addr rest]]; [done..|].
  wp_step. eapply wp_mono; [by apply dispatchEvent_evolves|].
  intros r s1 Hs. by eapply then_report_evolves.
Qed.

(** ** Link events *)
Lemma handlePfEventForVfVlanChange_evolves s :
  MonInv s → wp handlePfEventForVfVlanChange (λ _ s', evolves Silent s s') s.
Proof.
  intros (p & pf & HI). pose proof HI as [Hp Hpf Hn Hwf Hg Hd Hc Hstop].
  unfold handlePfEventForVfVlanChange. wp_step. unfold monPF. do 2 wp_step.
  eapply wp_deref; [done|]. do 2 mon_step. wp_use wp_HandlePfEventForVlanChange; [done..|].
  intros r w' (m & Hl & Hprog & Hok). pose proof (learned_framed _ _ _ _ _ Hl) as Hfr.
  destruct Hl as (Hpfs & Hwf' & _). wp_step. rewrite Hn in Hfr, Hok.
  intros p0 pf0 HI0.
  assert (p0 = p) as -> by (destruct HI0; congruence).
  assert (pf0 = pf) as -> by (destruct HI0; congruence).
  exists (set_VFs m pf). split.
  { split; try done. cbn. rewrite Hpfs. apply lookup_insert_eq. }
  split; [apply step_silent|]. do 2 (split; [done|]). cbn. intros Hnet. by apply Hprog, Hok.
Qed.

(** Only the pending deauthentications changed, to [D]. *)
Record repend (D : gmap string Z) (s s' : MState) : Prop := {
  repend_mon : mon s' = set_deauthRequests D (mon s);
  repend_stats : stats s' = stats s;
  repend_wld : quiet (wld s) (wld s');
}.

Lemma repend_refl s : repend (deauthRequests (mon s)) s s.
Proof. split; [by destruct (mon s)|done..]. Qed.

Lemma repend_watched D s s1 s2 : repend D s s1 → watched s1 s2 → repend D s s2.
Proof. intros [? ? ?] [? ? ?]. split; [congruence|congruence|by etrans]. Qed.

Lemma repend_set D D' s s1 :
  repend D s s1 → repend D' s (set_mon (set_deauthRequests D' (mon s1)) s1).
Proof. intros [Hm ? ?]. split; [cbn; by rewrite Hm|done..]. Qed.

Lemma repend_evolves D s s' p pf a :
  Inv s p pf → repend D s s' →
  client_step (clientsOf s pf) a {| clients := AuthenticatedAddrs pf; pending := D |} →
  evolves a s s'.
Proof.
  intros HI [Hm Hst Hq] Hstep p0 pf0 HI0. pose proof HI as [Hp Hpf Hn Hwf Hg Hd Hc Hstop].
  assert (p0 = p) as -> by (destruct HI0; congruence).
  assert (pf0 = pf) as -> by (destruct HI0; congruence).
  exists pf. split.
  - split; rewrite ?Hm; cbn; try done; [by rewrite (quiet_pfs _ _ Hq)|].
    by apply (client_step_wf (clientsOf s pf) a) in Hstep.
  - unfold clientsOf at 2. rewrite Hm. split; [done|]. split; [done|].
    split; [by apply quiet_framed|]. intros _. apply all_programmed_same, Hq.
Qed.

(** Putting every client on notice, and taking every one off it. *)
Lemma wp_noteAll s p pf addrs :
  Inv s p pf → addrs ≡ₚ elements (AuthenticatedAddrs pf) →
  wp (forU (λ addr, _ ← deauthenticate addr; t ← getCurrentTimestamp;
        updateMon (λ m, set_deauthRequests (<[addr := t]> (deauthRequests m)) m)) addrs)
     (λ _ s', ∃ D, repend D s s' ∧ dom D = AuthenticatedAddrs pf) s.
Proof.
  intros HI Hperm. apply (wp_forU _ (λ pre s', ∃ D, repend D s s' ∧
    dom D = dom (deauthRequests (mon s)) ∪ list_to_set pre)).
  - intros pre x post s1 _ (D & Hre & Hdom). pose proof Hre as [Hm _ _].
    wp_step. eapply wp_mono; [apply wp_deauthenticate; rewrite Hm; apply HI|].
    cbn beta. intros r s2 Hw2. wp_step. unfold getCurrentTimestamp, Now. apply wp_world, wp_observe.
    unfold updateMon. wp_step. cbn beta.
    assert (watched s1 (set_wld (set_trace
      (EvNow (sysNow (trace (wld s2))) :: trace (wld s2)) (wld s2)) s2)) as Hw3.
    { etrans; [done|]. apply watched_event. by apply quiet_event. }
    eexists. split; [eapply repend_set; by eapply repend_watched|]. cbn [mon set_wld].
    rewrite (watched_mon _ _ Hw2), Hm. cbn. rewrite dom_insert_L, Hdom. set_solver.
  - intros s1 (D & Hre & Hdom). exists D. split; [done|]. rewrite Hdom, Hperm.
    rewrite list_to_set_elements_L. pose proof (inv_pending _ _ _ HI). set_solver.
  - eexists. split; [apply repend_refl|]. set_solver.
Qed.

Lemma wp_clearAll s p pf addrs :
  Inv s p pf → addrs ≡ₚ elements (AuthenticatedAddrs pf) →
  wp (forU (λ addr,
        updateMon (λ m, set_deauthRequests (delete addr (deauthRequests m)) m)) addrs)
     (λ _ s', repend ∅ s s') s.
Proof.
  intros HI Hperm. apply (wp_forU _ (λ pre s', ∃ D, repend D s s' ∧
    dom D = dom (deauthRequests (mon s)) ∖ list_to_set pre)).
  - intros pre x post s1 _ (D & Hre & Hdom). unfold updateMon. wp_step.
    eexists. split; [by eapply repend_set|]. destruct Hre as [-> _ _]. cbn.
    rewrite dom_delete_L, Hdom. set_solver.
  - intros s1 (D & Hre & Hdom). enough (D = ∅) as <- by done.
    apply dom_empty_inv_L. rewrite Hdom, Hperm, list_to_set_elements_L.
    pose proof (inv_pending _ _ _ HI). set_solver.
  - eexists. split; [apply repend_refl|]. set_solver.
Qed.

(** What the operational state of the link means for the clients. *)
Definition linkAction (st : LinkOperState) : action :=
  if bool_decide (st = OperDown) then LinkDown
  else if bool_decide (st = OperUp) then LinkUp
  else Silent.

Lemma then_log_evolves a ty msg s s1 :
  MonInv s → evolves a s s1 → wpx api_ok (logEvent ty msg) (λ _ s2, evolves a s s2) s1.
Proof.
  intros HI H1. eapply wp_mono; [apply logEvent_evolves|]. intros [] s2. by apply evolves_silent_r.
Qed.

Lemma wp_readClients {A} P p pf (k : list string → M MState A) Q s :
  pfs (wld s) !! p = Some pf → PfInfo (mon s) = Some p →
  (∀ addrs s', addrs ≡ₚ elements (AuthenticatedAddrs pf) → watched s s' → wpx P (k addrs) Q s') →
  wpx P (p ← monPF; pf ← world (readPF p);
         addrs ← world (rangeOrder (elements (AuthenticatedAddrs pf))); k addrs) Q s.
Proof.
  intros Hpf Hp Hk. unfold monPF. do 3 wp_step. eapply wp_deref; [done|].
  do 2 mon_step. eapply wp_readPF; [done|].
  do 2 mon_step. wp_use (wp_rangeOrder (elements (AuthenticatedAddrs pf))).
  intros addrs w' [Hperm Hq]. rewrite set_wld_id. by apply Hk.
Qed.

Lemma applyOpState_evolves link s :
  MonInv s →
  wpx api_ok (applyOpState link) (λ _ s', evolves (linkAction (OperState link)) s s') s.
Proof.
  intros HI. unfold applyOpState. apply wp_evolves_bind; [done| |].
  { unfold updateMon. wp_step. by apply updateMon_evolves. }
  intros _ s0 HI0. unfold linkAction. pose proof HI0 as (p & pf & HI1).
  case_bool_decide; [|case_bool_decide]; [| |wp_step; apply evolves_refl].
  - eapply wp_readClients; [apply HI1..|]. intros addrs s1 Hperm Hw. wp_step.
    eapply wp_mono; [apply wp_any_P; eapply wp_noteAll; [by eapply Inv_watched|done]|].
    intros [] s2 (D & Hre & Hdom). apply then_log_evolves; [done|].
    eapply evolves_silent_l; [by apply evolves_watched|].
    eapply repend_evolves; [by eapply Inv_watched|done|]. by constructor.
  - eapply wp_readClients; [apply HI1..|]. intros addrs s1 Hperm Hw. wp_step.
    eapply wp_mono; [apply wp_any_P; eapply wp_clearAll; [by eapply Inv_watched|done]|].
    intros [] s2 Hre. apply then_log_evolves; [done|].
    eapply evolves_silent_l; [by apply evolves_watched|].
    eapply repend_evolves; [by eapply Inv_watched|done|]. apply step_up.
Qed.

(** ** Requests that time out *)
Lemma wp_timeoutRequest now addr t s p pf :
  Inv s p pf →
  wp (timeoutRequest now (addr, t)) (λ b s',
    if b : bool then (requestTimeout ≤ now - t)%Z ∧ Inv s' p (departed addr pf) ∧ ∃ ifs r,
      moved 0 false "drop" (AuthenticatedAddrs pf ∖ {[addr]}) addr s p pf ifs r s'
    else s' = s ∧ (now - t < requestTimeout)%Z) s.
Proof.
  intros HI. pose proof HI as [Hp Hpf Hn Hwf Hg Hd Hc Hstop]. unfold timeoutRequest.
  destruct (Z.ltb_spec (now - t) requestTimeout) as [Hlt|Hle]; [by wp_step|].
  set (X := AuthenticatedAddrs pf ∖ {[addr]}).
  unfold monPF. do 3 wp_step. eapply wp_deref; [done|]. do 2 mon_step.
  eapply wp_updatePF; [done|]. do 2 mon_step. rewrite DenyTrafficFromMac_gate.
  wp_use (wp_gate 0 false "drop" p (set_AuthenticatedAddrs X pf) addr);
    [apply lookup_insert_eq|done|].
  cbn zeta. intros r w' (ifs & Hpfs & Hcmd & Hsame & Hass & Hprog & Hext).
  unfold updateMon. do 3 wp_step. split; [done|].
  match goal with |- Inv ?s' _ _ ∧ _ => assert (moved 0 false "drop" X addr s p pf ifs r s') as Hm end.
  { split; try done. cbn. by rewrite Hpfs; cbn; rewrite insert_insert_eq. }
  split; [|by exists ifs, r].
  eapply moved_Inv; [done..|apply gate_remove; [done|set_solver]|set_solver].
Qed.

(** The round evicted [R], all of them expired, and stopped early only at a
    request that has not. *)
Definition evicts (now : Z) (R : gset string) (c : Clients) : Prop :=
  (∀ addr, addr ∈ R → expired now c addr) ∧
  (R = dom (pending c) ∨ ∃ addr, addr ∈ dom (pending c) ∖ R ∧ ¬ expired now c addr).

Lemma evict_nil c : evict ∅ c = c.
Proof.
  unfold evict. destruct c as [X P]. cbn. rewrite map_filter_id; [|set_solver].
  by rewrite difference_empty_L.
Qed.

Lemma evict_snoc R addr c :
  evict (R ∪ {[addr]}) c =
  {| clients := clients (evict R c) ∖ {[addr]}; pending := delete addr (pending (evict R c)) |}.
Proof.
  unfold evict. cbn. f_equal; [set_solver|]. apply map_eq. intros x.
  destruct (decide (x = addr)) as [->|Hne].
  - rewrite lookup_delete_eq. apply map_lookup_filter_None_2. right. set_solver.
  - rewrite lookup_delete_ne by done. apply option_eq. intros t.
    rewrite !map_lookup_filter_Some. cbn. set_solver.
Qed.

Lemma evolves_evict now R s p pf s' pf' :
  Inv s p pf → Inv s' p pf' → clientsOf s' pf' = evict R (clientsOf s pf) →
  (∀ addr, addr ∈ R → expired now (clientsOf s pf) addr) →
  IfName (mon s') = IfName (mon s) → framed p (IfName (mon s)) (wld s) (wld s') →
  (netlink_ok (IfName (mon s)) →
      all_programmed (trace (wld s)) pf → all_programmed (trace (wld s')) pf') →
  evolves (Timeout now) s s'.
Proof.
  intros HI HI' Hc HR Hn Hext Hprog p0 pf0 HI0.
  assert (p0 = p) as -> by (pose proof (inv_pfinfo _ _ _ HI); destruct HI0; congruence).
  assert (pf0 = pf) as -> by (pose proof (inv_pf _ _ _ HI); destruct HI0; congruence).
  exists pf'. split; [done|]. rewrite Hc. split; [by constructor|done].
Qed.
End specs.
