(* ===== verification/HostapReport.v ===== *)
(** * What the monitor reports

    The counters of stats.go and the interface's entry in the Authenticator's
    status: what an event adds, what one update sends, and how often it is
    tried. *)
From S2P Require Import Prelude GoStrings Api Sys TrafficControl TrafficControlSpec Hostap.
From S2P Require Import ClientSpec HostapSpec.

(** ** Reference definitions *)

(** What an event adds to the counters. *)
Definition keyStats (ifName key : string) (m : Metrics) : Metrics :=
  if bool_decide (key = eapSuccessEvent) then stats_Authenticated ifName m
  else if bool_decide (key = staDisconnectedEvent) then stats_DeAuthenticated ifName m
  else if bool_decide (key = eapFailureEvent) then stats_AuthFailed ifName m
  else m.

Definition eventStats (ifName eventStr : string) (m : Metrics) : Metrics :=
  match Split eventStr blank with
  | word :: _ :: _ => keyStats ifName (eventKey word) m
  | _ => m
  end.

(** One attempt at a status update: the server did not return the object, or
    returned [a], was sent [a'], and answered [r]. *)
Inductive attempt :=
| Unread (e : error)
| Sent (a a' : Authenticator) (r : option error).

Definition attempt_result (t : attempt) : option error :=
  match t with
  | Unread e => Some e
  | Sent _ _ r => r
  end.

(** What it leaves in the trace. *)
Definition attempt_trace (key : string * string) (t : attempt) : Trace :=
  match t with
  | Unread e => [EvGetAuth key (Err e)]
  | Sent a a' r => [EvUpdateStatus a' r; EvRange; EvGetAuth key (Ok a)]
  end.

Definition attempts_trace (key : string * string) (ts : list attempt) : Trace :=
  mjoin (attempt_trace key <$> rev ts).

Definition in_conflict (t : attempt) : Prop :=
  ∃ e, attempt_result t = Some e ∧ IsConflict e = true.

(** At most [n] attempts: each but the last ended in a conflict, and the last,
    whose result is [r], did not, or was the [n]th. *)
Definition on_conflict (n : nat) (ts : list attempt) (r : option error) : Prop :=
  ∃ init t, ts = init ++ [t] ∧ r = attempt_result t ∧ Forall in_conflict init ∧
    (length ts ≤ n)%nat ∧ (in_conflict t → length ts = n).

(** The entry an update sends for the monitor's interface. *)
Definition ownEntry (m : InterfaceMonitor) (clients : list string) : Interface :=
  {| Interface_Name := IfName m; State := ifEAPState m; AuthenticatedClients := clients |}.

(** [l'] is [l] with [i] in the place of the first entry of its name, or after
    all others when no entry has that name. *)
Definition other (i : Interface) (o : option Interface) : Prop :=
  ∃ j, o = Some j ∧ Interface_Name j ≠ Interface_Name i.

Inductive entry_set (l : list (option Interface)) (i : Interface)
  : list (option Interface) → Prop :=
| entry_replaced pre old post :
    l = pre ++ Some old :: post → Interface_Name old = Interface_Name i →
    Forall (other i) pre → entry_set l i (pre ++ Some i :: post)
| entry_added : Forall (other i) l → entry_set l i (l ++ [Some i]).

(** ** The entry *)
Lemma findInterface_spec l i :
  match findInterface l (Interface_Name i) with
  | Some (Some n) => ∃ pre old post, l = pre ++ Some old :: post ∧ length pre = n ∧
      Interface_Name old = Interface_Name i ∧ Forall (other i) pre
  | Some None => Forall (other i) l
  | None => True
  end.
Proof.
  induction l as [|[j|] l IH]; cbn; [by constructor| |done].
  case_bool_decide as Hj; [by exists [], j, l|].
  destruct (findInterface l (Interface_Name i)) as [[n|]|]; [| |done].
  - destruct IH as (pre & old & post & -> & <- & Hold & Hpre).
    exists (Some j :: pre), old, post. do 3 (split; [done|]). constructor; [by exists j|done].
  - constructor; [by exists j|done].
Qed.

Lemma putInterface_entry_set l pos i :
  findInterface l (Interface_Name i) = Some pos → entry_set l i (putInterface l pos i).
Proof.
  intros Hf. pose proof (findInterface_spec l i) as Hs. rewrite Hf in Hs.
  destruct pos as [n|]; cbn; [|by constructor].
  destruct Hs as (pre & old & post & -> & <- & Hold & Hpre).
  rewrite insert_app_r_alt, Nat.sub_diag by lia. by eapply entry_replaced.
Qed.

Section specs.
Context `{Sys}.

(** ** One update *)

(** The object that an attempt sent back: the one just read, with the entry of
    the interface set to its state and its clients, and nothing else changed. *)
Definition sent_own_entry (m : InterfaceMonitor) (pf : PFInfo) (t : attempt) : Prop :=
  match t with
  | Unread _ => True
  | Sent a a' _ => ∃ addrs l', addrs ≡ₚ elements (AuthenticatedAddrs pf) ∧
      entry_set (Status_Interfaces (Status a)) (ownEntry m addrs) l' ∧
      a' = set_Status_Interfaces l' a
  end.

Lemma wp_statusAttempt_sent s p pf :
  Inv s p pf → wpx no_null_entry statusAttempt (λ r s', ∃ t,
    watched s s' ∧ r = attempt_result t ∧ sent_own_entry (mon s) pf t ∧
    trace (wld s') = attempt_trace (AuthNsName (mon s)) t ++ trace (wld s)) s.
Proof.
  intros HI. unfold statusAttempt. wp_step. unfold getAuthObject. do 3 mon_step.
  apply wp_observe. destruct (sysGetAuth _ _) as [a|e] eqn:Hget; cycle 1.
  { exists (Unread e). split; [|done]. apply watched_event. by apply quiet_event. }
  do 2 mon_step. mon_step. apply wp_deref_maybe.
  { intros Hnil. by eapply findInterface_total, Hnil. }
  intros pos Hpos. destruct HI as [Hp Hpf _ _ _ _ _ _]. cbn in Hpos.
  wp_step. unfold monPF. wp_step. wp_step. eapply wp_deref; [done|].
  do 2 mon_step. eapply wp_readPF; [done|].
  do 3 mon_step. unfold rangeOrder, wpx. set (addrs := sysOrder _ _ _). cbn.
  eexists (Sent a _ _). split; [|split; [reflexivity|split; [|reflexivity]]].
  - split; [done|done|]. split; [done|by intros ? ?|done|by eexists [_; _; _]].
  - exists addrs. eexists. split; [apply sysOrder_perm|]. split; [|done].
    by apply (putInterface_entry_set _ pos (ownEntry (mon s) addrs)).
Qed.

(** ** Repeated on conflict *)
Record reported (n : nat) (s : MState) (pf : PFInfo) (r : option error) (s' : MState) : Prop := {
  reported_watched : watched s s';
  reported_attempts : ∃ ts, on_conflict n ts r ∧ Forall (sent_own_entry (mon s) pf) ts ∧
    trace (wld s') = attempts_trace (AuthNsName (mon s)) ts ++ trace (wld s);
}.

Lemma attempts_trace_cons key t ts :
  attempts_trace key (t :: ts) = attempts_trace key ts ++ attempt_trace key t.
Proof. unfold attempts_trace. cbn. rewrite fmap_app, join_app. cbn. by rewrite (right_id_L [] (++)). Qed.

Lemma on_conflict_one n t : (1 ≤ n)%nat → (in_conflict t → n = 1%nat) →
  on_conflict n [t] (attempt_result t).
Proof. intros Hn Ht. exists [], t. do 4 (split; [done|]). cbn. intros Hc. by rewrite Ht. Qed.

Lemma on_conflict_again n t ts r :
  in_conflict t → on_conflict n ts r → on_conflict (S n) (t :: ts) r.
Proof.
  intros Hc (init & t' & -> & Hr & Hi & Hl & Hlast). exists (t :: init), t'.
  split; [done|]. split; [done|]. split; [by constructor|]. cbn. split; [lia|].
  intros ?%Hlast. lia.
Qed.

Lemma wp_RetryOnConflict_reported n s p pf :
  Inv s p pf → (1 ≤ n)%nat →
  wpx no_null_entry (RetryOnConflict n statusAttempt) (λ r s', reported n s pf r s') s.
Proof.
  revert s. induction n as [|n IH]; intros s HI Hn; [lia|]. cbn [RetryOnConflict].
  wp_step. eapply wp_mono; [by eapply wp_statusAttempt_sent|]. cbn beta.
  intros r s1 (t & Hw & Hr & Hsent & Htr).
  assert (∀ r', r' = attempt_result t → (in_conflict t → n = 0%nat) →
    reported (S n) s pf r' s1) as Hlast.
  { intros r' -> Hc. split; [done|]. exists [t].
    split; [apply on_conflict_one; [lia|]; intros ->%Hc; done|]. split; [by constructor|].
    by rewrite attempts_trace_cons. }
  destruct r as [e|]; [|wp_step; apply Hlast; [done|]; intros (e & He & _); congruence].
  destruct (IsConflict e && _) eqn:Hgo.
  - apply andb_prop in Hgo as [Hc Hn0%bool_decide_eq_true].
    eapply wp_mono; [apply IH; [by eapply Inv_watched|lia]|]. cbn beta.
    intros r s2 [Hw2 (ts & Hts & Hown & Htr2)]. rewrite (watched_mon _ _ Hw) in Hown, Htr2.
    split; [by etrans|]. exists (t :: ts).
    split; [apply on_conflict_again; [by exists e|done]|]. split; [by constructor|].
    by rewrite attempts_trace_cons, Htr2, Htr, (assoc_L (++)).
  - wp_step. apply Hlast; [done|]. intros (e' & He' & Hc). assert (e' = e) as -> by congruence.
    rewrite Hc in Hgo. cbn in Hgo. apply bool_decide_eq_false in Hgo. lia.
Qed.

(** ** Counters *)
Lemma stats_then {A B} (m : M MState A) (k : A → M MState B) x s p pf :
  Inv s p pf →
  wpx api_ok m (λ _ s', watched s s') s →
  (∀ a s', Inv s' p pf → stats s' = stats s → IfName (mon s') = IfName (mon s) →
     wpx api_ok (k a) (λ _ s'', stats s'' = x) s') →
  wpx api_ok (m ≫= k) (λ _ s', stats s' = x) s.
Proof.
  intros HI Hm Hk. wp_step. eapply wp_mono; [exact Hm|]. cbn beta. intros a s' Hw.
  apply Hk; [by eapply Inv_watched|apply Hw|by rewrite (watched_mon _ _ Hw)].
Qed.

Lemma log_stats ty msg f s p pf :
  Inv s p pf →
  wpx api_ok (_ ← logEvent ty msg; _ ← updateStats f; mret (@None error))
    (λ _ s', stats s' = f (stats s)) s.
Proof.
  intros HI. eapply stats_then; [done|apply wp_logEvent|]. intros _ s1 _ Hs _.
  unfold updateStats. do 3 wp_step. cbn. by rewrite Hs.
Qed.

Context `{!LinkNames}.

Lemma wp_dispatchEvent_stats key addr s p pf :
  Inv s p pf →
  wpx api_ok (dispatchEvent key addr) (λ _ s',
    stats s' = keyStats (IfName (mon s)) key (stats s)) s.
Proof.
  intros HI. unfold dispatchEvent, keyStats. do 2 wp_step.
  destruct (bool_decide_reflect (key = staConnectedEvent)) as [->|Hk1].
  { wp_use wp_handleAuthenticateEvent; [done|]. by intros r s' (_ & ifs & []). }
  destruct (bool_decide_reflect (key = eapSuccessEvent)) as [Hk2|Hk2]; [by eapply log_stats|].
  destruct (bool_decide_reflect (key = staDisconnectedEvent)) as [Hk3|Hk3].
  { eapply stats_then; [done|apply wp_logEvent|]. intros _ s1 HI1 Hs1 _.
    unfold updateStats. do 2 wp_step.
    wp_use wp_handleDeAuthenticateEvent; [by apply Inv_set_stats|].
    intros r s' (_ & ifs & [_ Hst _ _ _ _ _]). rewrite Hst. cbn. by rewrite Hs1. }
  case_bool_decide; [by eapply log_stats|by wp_step].
Qed.

Lemma wp_handleHostapdEvent_stats eventStr s p pf :
  Inv s p pf →
  wpx api_ok (handleHostapdEvent eventStr) (λ _ s',
    stats s' = eventStats (IfName (mon s)) eventStr (stats s)) s.
Proof.
  intros HI. unfold handleHostapdEvent, eventStats.
  assert (wpx api_ok
    (if isSolicitedEvent eventStr then
        if Contains eventStr statusReply then
          _ ← updateMon (set_ifEAPState (getIfState eventStr)); _ ← reportStatus; mret None
        else mret (@None error)
      else mret None) (λ _ s', stats s' = stats s) s) as Hshort.
  { do 2 (wp_step; [|by wp_step]). unfold updateMon. do 3 wp_step.
    eapply wp_mono; [eapply (wp_reportStatus _ p pf); by destruct HI|].
    intros [] s' Hw. wp_step. by rewrite (watched_stats _ _ Hw). }
  destruct (Split eventStr blank) as [|word [|addr rest]]; [done..|].
  wp_step. eapply wp_mono; [apply wp_run, (wp_dispatchEvent_stats _ _ _ p pf HI)|]. cbn beta.
  intros r s1 [Hrun Hst].
  pose proof (dispatchEvent_evolves (eventKey word) addr s (ex_intro _ p (ex_intro _ pf HI))) as He.
  unfold wpx in He. rewrite Hrun in He. destruct (He p pf HI) as (pf1 & HI1 & _).
  eapply wp_mono; [by eapply wp_reportStatus|]. cbn beta. intros [] s2 Hw.
  by rewrite (watched_stats _ _ Hw).
Qed.
End specs.
