(* ===== verification/HostapLife.v ===== *)
(** * The life of a monitor: timeouts, start and stop

    What one round of the timeout loop evicts, what [StartMonitor] establishes
    and on which paths it fails, and what [StopMonitor] restores. *)
From S2P Require Import Prelude GoStrings Api Sys TrafficControl TrafficControlSpec Hostap.
From S2P Require Import ClientSpec HostapSpec.

Section specs.
Context `{Sys} `{!LinkNames}.

(** ** A round of the timeout loop *)

(** The state after evicting [R]: everything but the clients is as before. *)
Definition evicted (R : gset string) (s : MState) (p : ref) (pf : PFInfo) (s' : MState) : Prop :=
  ∃ pf', Inv s' p pf' ∧ clientsOf s' pf' = evict R (clientsOf s pf) ∧
    IfName (mon s') = IfName (mon s) ∧ stats s' = stats s ∧
    framed p (IfName (mon s)) (wld s) (wld s') ∧
    (netlink_ok (IfName (mon s)) →
      all_programmed (trace (wld s)) pf → all_programmed (trace (wld s')) pf').

Lemma evicted_watched s s' p pf : Inv s p pf → watched s s' → evicted ∅ s p pf s'.
Proof.
  intros HI Hw. exists pf. split; [by eapply Inv_watched|]. unfold clientsOf.
  rewrite evict_nil, (watched_mon _ _ Hw). do 2 (split; [done|]). split; [apply Hw|].
  split; [by apply watched_framed|]. intros _. apply all_programmed_same, Hw.
Qed.

Lemma evicted_one R addr t now s p pf s1 :
  evicted R s p pf s1 →
  wp (timeoutRequest now (addr, t)) (λ b s2,
    if b : bool then (requestTimeout ≤ now - t)%Z ∧ evicted (R ∪ {[addr]}) s p pf s2
    else s2 = s1 ∧ (now - t < requestTimeout)%Z) s1.
Proof.
  intros (pf1 & HI1 & Hc1 & Hn1 & Hst1 & He1 & Hp1).
  eapply wp_mono; [by eapply wp_timeoutRequest|]. cbn beta. intros [|] s2; [|done].
  intros (Hle & HI2 & ifs & r & Hm). split; [done|]. exists (departed addr pf1).
  split; [done|]. split.
  { rewrite evict_snoc, <-Hc1. unfold clientsOf, departed. rewrite gated_addrs.
    by rewrite (moved_mon _ _ _ _ _ _ _ _ _ _ _ Hm). }
  split; [by rewrite (moved_mon _ _ _ _ _ _ _ _ _ _ _ Hm)|].
  split; [by rewrite (moved_stats _ _ _ _ _ _ _ _ _ _ _ Hm)|].
  split; [etrans; [exact He1|]; rewrite <-Hn1; by eapply moved_framed|].
  intros Hok Hall. apply (moved_vfs _ _ _ _ _ _ _ _ _ _ _ Hm); [right|by apply Hp1].
  by rewrite (inv_name _ _ _ HI1), Hn1.
Qed.

Lemma wp_expireRequests now s p pf :
  Inv s p pf →
  wp (expireRequests now) (λ _ s', ∃ R,
    evicts now R (clientsOf s pf) ∧ evicted R s p pf s') s.
Proof.
  intros HI. unfold expireRequests. do 3 mon_step. mon_step.
  wp_use (wp_rangeOrder (map_to_list (deauthRequests (mon s)))). intros reqs w' [Hperm Hq].
  assert (∀ a t, (a, t) ∈ reqs ↔ deauthRequests (mon s) !! a = Some t) as Hreqs
    by (intros a t; by rewrite Hperm, elem_of_map_to_list).
  apply (wp_forBreak _ (λ pre s1, evicted (list_to_set pre.*1) s p pf s1 ∧
    ∀ a, a ∈ pre.*1 → expired now (clientsOf s pf) a)).
  - intros pre [a t] post s1 Hsplit [He Hx].
    assert (deauthRequests (mon s) !! a = Some t) as Hat
      by (apply Hreqs; rewrite Hsplit; apply elem_of_middle).
    eapply wp_mono; [by apply evicted_one|]. cbn beta. intros [|] s2.
    + intros [Hle He2]. rewrite fmap_app, list_to_set_app_L. cbn.
      rewrite (right_id_L ∅ (∪)). split; [done|].
      intros b [Hb| ->%list_elem_of_singleton]%elem_of_app; [by apply Hx|by exists t].
    + intros [-> Hlt]. exists (list_to_set pre.*1). split; [|done].
      split; [intros b; rewrite elem_of_list_to_set; apply Hx|]. right. exists a. cbn.
      assert (¬ expired now (clientsOf s pf) a) as Hna
        by (intros (t' & Ht' & Hle); cbn in Ht'; rewrite Hat in Ht'; simplify_eq; lia).
      split; [|done]. apply elem_of_difference. split; [by eapply elem_of_dom_2|].
      rewrite elem_of_list_to_set. by intros ?%Hx.
  - intros s1 [He Hx]. eexists. split; [|exact He]. split.
    + intros b. rewrite elem_of_list_to_set. apply Hx.
    + left. cbn. apply set_eq. intros b. rewrite elem_of_list_to_set, elem_of_dom. split.
      * intros ([b' t] & -> & Hb)%list_elem_of_fmap. exists t. by apply Hreqs.
      * intros [t Ht%Hreqs]. by apply (list_elem_of_fmap_2 fst) in Ht.
  - split; [|by intros ? ?%elem_of_nil]. by apply evicted_watched; [|split].
Qed.

Lemma expireRequests_evolves now s :
  MonInv s → wp (expireRequests now) (λ _ s', evolves (Timeout now) s s') s.
Proof.
  intros (p & pf & HI). eapply wp_mono; [by apply wp_expireRequests|]. cbn beta.
  intros [] s' (R & [HR _] & pf' & HI' & Hc & Hn & _ & Hext & Hprog). by eapply evolves_evict.
Qed.

(** ** Start *)
Lemma wp_startGoroutines s : wp startGoroutines (λ _ s', watched s s') s.
Proof.
  apply (wp_forU _ (λ _ s', watched s s')); [|done..].
  intros pre g post s1 _ Hw. unfold emit. repeat mon_step. etrans; [done|].
  apply watched_event. by apply quiet_event.
Qed.

(** What a monitor whose goroutines have just been started looks like: no
    clients, nobody on notice, every VF the link lists closed. *)
Record started (s s' : MState) (p : ref) (pf : PFInfo) : Prop := {
  started_inv : Inv s' p pf;
  started_clients : clientsOf s' pf = {| clients := ∅; pending := ∅ |};
  started_vfs : ∃ tr l, same_vfs (trace (wld s)) tr ∧
    sysLinkByName tr (IfName (mon s)) = Ok l ∧ VFs pf = vfsOf p (Vfs l);
  started_closed : all_programmed (trace (wld s')) pf;
  started_name : IfName (mon s') = IfName (mon s);
  started_stats : stats s' = stats s;
  started_new : pfs (wld s) !! p = None;
  started_frame : framed p (IfName (mon s)) (wld s) (wld s');
}.

Lemma started_watched s s1 s2 p pf : started s s1 p pf → watched s1 s2 → started s s2 p pf.
Proof.
  intros [HI Hc Hv Ha Hn Hst Hnew Hfr] Hw. pose proof Hw as [Hm Hst2 Hq].
  split; rewrite ?Hm, ?Hst2; try done.
  - by eapply Inv_watched.
  - unfold clientsOf. by rewrite Hm.
  - eapply all_programmed_same; [apply Hq|done].
  - etrans; [exact Hfr|]. by apply watched_framed.
Qed.

Lemma wp_startUp s :
  wp startUp (λ r s', match r with
    | None => ∃ p pf, started s s' p pf
    | Some _ => PfInfo (mon s') = PfInfo (mon s) ∧ stats s' = stats s ∧
        commands (trace (wld s')) = commands (trace (wld s)) ∧
        ∃ p, pfs (wld s) !! p = None ∧ framed p (IfName (mon s)) (wld s) (wld s')
    end) s.
Proof.
  unfold startUp. do 3 mon_step. mon_step. apply wp_observe.
  assert (∀ e, quiet (wld s) (set_trace (EvTempFile e :: trace (wld s)) (wld s))) as Hq1
    by (intros e; by apply quiet_event).
  destruct (sysTempFile _) as [e|].
  { split; [done|]. split; [done|]. split; [apply (Hq1 (Some e))|].
    eapply quiet_nothing, (Hq1 (Some e)). }
  specialize (Hq1 None). cbn [set_wld wld mon stats]. cbn beta iota.
  set (w1 := set_trace _ _) in *. mon_step. mon_step. apply wp_observe. cbn [set_wld wld].
  assert (∀ r, quiet w1 (set_trace (EvDial (IfName (mon s)) r :: trace w1) w1)) as Hq2
    by (intros r; by apply quiet_event).
  destruct (sysDial _ _) as [e|].
  { assert (quiet (wld s) (set_trace (EvDial (IfName (mon s)) (Some e) :: trace w1) w1)) as Hq
      by (etrans; [done|apply Hq2]).
    split; [done|]. split; [done|]. split; [apply Hq|by apply quiet_nothing]. }
  specialize (Hq2 None). pose proof (transitivity Hq1 Hq2) as Hq02. unfold updateMon.
  do 2 mon_step. mon_step. mon_step. wp_use wp_GetSriovPFInfo. cbn [set_wld set_mon mon wld].
  intros [p|e] w3; cycle 1.
  { intros [Hq3 _]. assert (quiet (wld s) w3) as Hq by (etrans; [exact Hq02|exact Hq3]).
    split; [done|]. split; [done|]. split; [apply Hq|by apply quiet_nothing]. }
  intros (Hnew & Hf3 & _ & Hc3 & l & Hl & Hp3). rewrite (quiet_pfs _ _ Hq02) in Hnew.
  set (pf := {| PF_Name := _ |}) in *.
  assert (pf_wf p pf) as Hwf by apply vfsOf_wf.
  mon_step. mon_step. wp_use wp_ConfigureVlanStateForVFs;
    [cbn; rewrite Hp3; apply lookup_insert_eq|done|].
  intros r w4 (Hnl & Hsame4 & Hprog & _).
  assert (framed p (IfName (mon s)) (wld s) w4) as Hf4.
  { etrans; [by apply quiet_framed, Hq02|]. etrans; [exact Hf3|by apply netlink_framed]. }
  destruct r as [e|]; cbn [set_wld set_mon mon wld].
  { split; [done|]. split; [done|]. split; [|by exists p]. cbn.
    rewrite (nl_commands _ _ Hnl). cbn. rewrite Hc3. apply Hq02. }
  do 3 mon_step. unfold emit. do 3 mon_step.
  match goal with |- wpx _ startGoroutines _ ?s0 => assert (started s s0 p pf) as Hst end.
  { pose proof (nl_pfs _ _ Hnl) as Hp4. cbn in Hp4. split; try done; cbn.
    - split; try done; cbn. rewrite Hp4, Hp3. apply lookup_insert_eq.
    - eexists _, l. split; [apply Hq02|by split].
    - eapply all_programmed_same; [|by apply Hprog]. by intros ? ?.
    - etrans; [exact Hf4|]. by apply quiet_framed, quiet_event. }
  eapply wp_mono; [apply wp_startGoroutines|]. cbn beta. intros [] s' Hw. wp_step.
  exists p, pf. by eapply started_watched.
Qed.

Lemma wp_attachHostapd fuel s :
  hostApdConn (mon s) ≠ HNil → wp (attachHostapd fuel) (λ _ s', watched s s') s.
Proof.
  revert s. induction fuel as [|f IH]; intros s Hc; cbn [attachHostapd]; [by wp_step|].
  wp_step. eapply wp_mono; [by apply wp_Write|]. cbn beta. intros r s1 Hw.
  assert (hostApdConn (mon s1) ≠ HNil) by by rewrite (watched_mon _ _ Hw).
  wp_step; [|by wp_step]. wp_step; [|by wp_step].
  eapply wp_mono; [by apply IH|]. intros r' s2 Hw2. by etrans.
Qed.

(** ** Stop *)
Record stopped (s : MState) (p : ref) (pf : PFInfo) (s' : MState) : Prop := {
  stopped_stop : stop (mon s') = HClosed;
  stopped_conn : hostApdConn (mon s') = HClosed;
  stopped_pf : pfs (wld s') !! p = Some (set_Authenticated true pf);
  stopped_commands : commands (trace (wld s')) = commands (trace (wld s));
  stopped_restored : netlink_ok (IfName (mon s)) → all_programmed (trace (wld s)) pf →
    all_programmed (trace (wld s')) (set_Authenticated true pf);
  stopped_frame : framed p (IfName (mon s)) (wld s) (wld s');
}.

Lemma wp_StopMonitor s p pf :
  Inv s p pf → wp StopMonitor (λ _ s', stopped s p pf s') s.
Proof.
  intros [Hp Hpf Hn Hwf Hg Hd Hc Hs]. unfold StopMonitor. do 2 wp_step. rewrite Hp. wp_step.
  set (pf' := set_Authenticated true pf).
  enough (wp (pf ← world (readPF p);
      if negb (Authenticated pf) then
        _ ← world (updatePF p (set_Authenticated true));
        _ ← world (ConfigureVlanStateForVFs p); mret tt
      else mret tt) (λ _ s1, mon s1 = mon s ∧ pfs (wld s1) !! p = Some pf' ∧
        commands (trace (wld s1)) = commands (trace (wld s)) ∧
        (netlink_ok (IfName (mon s)) → all_programmed (trace (wld s)) pf →
          all_programmed (trace (wld s1)) pf') ∧
        framed p (IfName (mon s)) (wld s) (wld s1)) s) as Hrestore.
  { eapply wp_mono; [exact Hrestore|]. cbn beta. clear Hrestore.
    intros [] s1 (Hm & Hpf1 & Hc1 & Hprog & Hfr).
    unfold closeStop, closeConn, emit, updateMon. do 3 wp_step. rewrite Hm, Hs.
    repeat mon_step. cbn. rewrite Hm.
    destruct (hostApdConn (mon s)) eqn:Hcn; [done|..]; repeat mon_step; (split; try done);
    try (etrans; [exact Hfr|]; split; [done|by intros|by eexists [_; _; _]]);
    (intros Hok Hall; eapply all_programmed_same; [|by apply Hprog]; by intros ? ?). }
  do 2 mon_step. eapply wp_readPF; [done|]. destruct (Authenticated pf) eqn:Ha; cbn [negb].
  - wp_step. assert (pf' = pf) as -> by (unfold pf'; rewrite <-Ha; by destruct pf).
    do 4 (split; [done|]). done.
  - do 2 mon_step. eapply wp_updatePF; [done|]. do 2 mon_step.
    wp_use (wp_ConfigureVlanStateForVFs p pf'); [apply lookup_insert_eq|done|].
    intros r w' (Hnl & Hsame & Hprog & Hok). wp_step. cbn in Hsame, Hok. rewrite Hn in Hsame, Hok.
    split; [done|]. split; [cbn; rewrite (nl_pfs _ _ Hnl); apply lookup_insert_eq|].
    split; [apply Hnl|]. split; [intros Hnet _; by apply Hprog, Hok|].
    etrans; [|by apply netlink_framed]. split; [|done|done].
    intros q Hq. cbn. by rewrite lookup_insert_ne.
Qed.

Lemma StopMonitor_twice s : 
  PfInfo (mon s) = None → stop (mon s) = HClosed → 
  StopMonitor s = Panic "close of closed channel" s.
Proof.
  intros Hp Hs. unfold StopMonitor, closeStop, gets, mbind, M_bind. cbn. rewrite Hp. cbn.
  by rewrite Hs.
Qed.
End specs.
