(* ===== verification/HostapSteps.v ===== *)
(** * The monitor's goroutines, interleaved

    [StartMonitor] leaves four goroutines running and goes on attaching to
    hostapd itself.  Each is a program of segments: between two segments any
    other goroutine may run.  What holds [addrMutex] in the code is one segment;
    everything else is cut at every operation on shared state.  [HostapSteps]
    shows that the segments of a handler, run without interruption, are that
    handler, and that every interleaving refines [ClientSpec].

    The relation describes a started monitor up to the call of [StopMonitor];
    [Stopping] goes on from there. *)
From S2P Require Import Prelude GoStrings Api Sys TrafficControl TrafficControlSpec Hostap.
From S2P Require Import ClientSpec HostapSpec HostapLife.
From stdpp Require Import functions.

(** ** Programs *)

(** What is left of a goroutine's round: nothing, and the loop goes on or ends,
    for [Failed] with the error that makes [StartMonitor] call [StopMonitor]; or a
    segment, with what it means for the clients. *)
Inductive prog :=
| Next
| Return
| Failed
| Seg (a : action) (m : M MState prog).

(** A round run without interruption. *)
Fixpoint runs (p : prog) (s : MState) : option MState :=
  match p with
  | Next | Return | Failed => Some s
  | Seg _ m => match m s with
               | Done p' s' => runs p' s'
               | Panic _ _ => None
               end
  end.

Definition final {A} (m : M MState A) (s : MState) : option MState :=
  match m s with
  | Done _ s' => Some s'
  | Panic _ _ => None
  end.

Section code.
Context `{Sys}.

(** [m; p] *)
Definition seg {A} (a : action) (m : M MState A) (p : prog) : prog :=
  Seg a (_ ← m; mret p).

Definition reportProg (p : prog) : prog := seg Silent reportStatus p.

Definition dispatchProg (eventKeyStr addr ifName : string) (p : prog) : prog :=
  if bool_decide (eventKeyStr = staConnectedEvent) then
    seg (Connect addr) (handleAuthenticateEvent addr) p
  else if bool_decide (eventKeyStr = eapSuccessEvent) then
    seg Silent (logEvent EventTypeNormal ("authenticated supplicant " +:+ addr))
      (seg Silent (updateStats (stats_Authenticated ifName)) p)
  else if bool_decide (eventKeyStr = staDisconnectedEvent) then
    seg Silent (logEvent EventTypeNormal ("deauthenticated supplicant " +:+ addr))
      (seg Silent (updateStats (stats_DeAuthenticated ifName))
        (seg (Disconnect addr) (handleDeAuthenticateEvent addr) p))
  else if bool_decide (eventKeyStr = eapFailureEvent) then
    seg Silent (logEvent EventTypeWarning ("authentication failure for supplicant " +:+ addr))
      (seg Silent (updateStats (stats_AuthFailed ifName)) p)
  else p.

Definition eventProg (ifName eventStr : string) : prog :=
  match Split eventStr blank with
  | word :: addr :: _ => dispatchProg (eventKey word) addr ifName (reportProg Next)
  | _ =>
      if isSolicitedEvent eventStr then
        if Contains eventStr statusReply then
          seg Silent (updateMon (set_ifEAPState (getIfState eventStr))) (reportProg Next)
        else Next
      else Next
  end.

Definition replyProg (ifName : string) : prog :=
  Seg Silent (
    r ← world (observe sysRead EvRead);
    mret match r with
         | Err err => if IsTimeout err then Next else Return
         | Ok eventStr =>
             if bool_decide (eventStr = "") then Next else eventProg ifName eventStr
         end).

Definition vlanProg : prog := seg Silent handlePfEventForVfVlanChange Next.

Definition ifEventProg (link : Link) : prog :=
  Seg Silent (
    st ← gets (λ s, operState (mon s));
    mret (if negb (bool_decide (OperState link = st)) then
            seg (linkAction (OperState link)) (applyOpState link)
              (seg Silent (writeCommand statusCommand) vlanProg)
          else vlanProg)).

Definition keepAliveProg : prog :=
  Seg Silent (go_on ← keepAliveRound; mret (if go_on : bool then Next else Return)).

Definition requestsProg : prog :=
  Seg Silent (
    now ← getCurrentTimestamp;
    mret (seg (Timeout now) (expireRequests now) Next)).

(** [StartMonitor] after its [go] statements: one attempt to attach, then the
    first status. *)
Definition attachProg : prog :=
  Seg Silent (
    err ← Write attachCommand;
    mret match err with
         | Some e => if IsTimeout e then Next else Failed
         | None => seg Silent (writeCommand statusCommand) (reportProg Return)
         end).

(** ** The system *)
Inductive goroutine := Main | Reply | IfEvents | KeepAlive | Requests.

#[global] Instance goroutine_eq_dec : EqDecision goroutine.
Proof. solve_decision. Defined.

Record Config := {
  st : MState;
  threads : goroutine → prog;
}.

(** The next round of a goroutine; the link events come from outside. *)
Definition round (g : goroutine) (ifName : string) (link : Link) : prog :=
  match g with
  | Main => attachProg
  | Reply => replyProg ifName
  | IfEvents => ifEventProg link
  | KeepAlive => keepAliveProg
  | Requests => requestsProg
  end.

Inductive sys_step (c : Config) : action → Config → Prop :=
| step_seg g a m p' s' :
    threads c g = Seg a m → m (st c) = Done p' s' →
    sys_step c a {| st := s'; threads := <[g := p']> (threads c) |}
| step_next g link :
    threads c g = Next →
    sys_step c Silent
      {| st := st c; threads := <[g := round g (IfName (mon (st c))) link]> (threads c) |}.

(** An unrecovered panic ends the process. *)
Definition sys_crash (c : Config) : Prop :=
  ∃ g a m w s', threads c g = Seg a m ∧ m (st c) = Panic w s'.

(** The runs of a monitor started in [s0], with their actions from the last to
    the first. *)
Inductive sys_run (s0 : MState) : list action → Config → Prop :=
| sys_start s1 :
    startUp s0 = Done None s1 → sys_run s0 [] {| st := s1; threads := λ _, Next |}
| sys_more l c a c' :
    sys_run s0 l c → sys_step c a c' → sys_run s0 (a :: l) c'.

(** What justifies an action: a message of hostapd, a reading of the clock. *)
Definition says (tr : Trace) (a : action) : Prop :=
  match a with
  | Connect _ | Disconnect _ => ∃ eventStr, EvRead (Ok eventStr) ∈ tr ∧ eventAction eventStr = a
  | Timeout now => EvNow now ∈ tr
  | LinkDown | LinkUp | Silent => True
  end.

(** A program all of whose segments, from any state with the invariant, keep it
    and take a justified step of the clients' specification. *)
Inductive safe : Trace → prog → Prop :=
| safe_next tr : safe tr Next
| safe_return tr : safe tr Return
| safe_failed tr : safe tr Failed
| safe_seg tr a m :
    says tr a →
    (∀ s p' s', MonInv s → tr `suffix_of` trace (wld s) → m s = Done p' s' →
       evolves a s s' ∧ safe (trace (wld s')) p') →
    (∀ s w s', MonInv s → tr `suffix_of` trace (wld s) → m s = Panic w s' → ¬ api_ok) →
    safe tr (Seg a m).

(** ** A handler is its segments *)
Lemma final_bind {A B} (m : M MState A) (k : A → M MState B) s :
  final (m ≫= k) s = match m s with Done a s' => final (k a) s' | Panic _ _ => None end.
Proof. unfold final, mbind, M_bind. by destruct (m s). Qed.

Lemma runs_Seg a (m : M MState prog) s :
  runs (Seg a m) s = match m s with Done p' s' => runs p' s' | Panic _ _ => None end.
Proof. done. Qed.

Lemma runs_seg {A} a (m : M MState A) p s :
  runs (seg a m p) s = match m s with Done _ s' => runs p s' | Panic _ _ => None end.
Proof. unfold seg. rewrite runs_Seg. unfold mbind, M_bind. by destruct (m s). Qed.

Lemma final_deferred {A} (m : M MState A) d s :
  final (deferred m d) s = match m s with Done _ s' => final d s' | Panic _ _ => None end.
Proof.
  unfold final, deferred. destruct (m s) as [a s'|w s']; by destruct (d s').
Qed.

Lemma runs_dispatchProg key addr s p :
  runs (dispatchProg key addr (IfName (mon s)) p) s =
  match dispatchEvent key addr s with Done _ s' => runs p s' | Panic _ _ => None end.
Proof.
  unfold dispatchProg, dispatchEvent, mbind, M_bind, gets.
  repeat case_bool_decide; rewrite ?runs_seg; unfold mbind, M_bind.
  - by destruct (handleAuthenticateEvent addr s).
  - by destruct (logEvent _ _ s) as [[] s1|]; rewrite ?runs_seg.
  - destruct (logEvent _ _ s) as [[] s1|]; rewrite ?runs_seg; [|done].
    destruct (updateStats _ s1) as [[] s2|]; rewrite ?runs_seg; [|done].
    by destruct (handleDeAuthenticateEvent addr s2).
  - by destruct (logEvent _ _ s) as [[] s1|]; rewrite ?runs_seg.
  - done.
Qed.

Lemma runs_reportProg p s :
  runs (reportProg p) s = match reportStatus s with Done _ s' => runs p s' | Panic _ _ => None end.
Proof. apply runs_seg. Qed.

Lemma runs_eventProg eventStr s :
  runs (eventProg (IfName (mon s)) eventStr) s = final (handleHostapdEvent eventStr) s.
Proof.
  unfold eventProg, handleHostapdEvent.
  assert (runs (if isSolicitedEvent eventStr then
        if Contains eventStr statusReply then
          seg Silent (updateMon (set_ifEAPState (getIfState eventStr))) (reportProg Next)
        else Next
      else Next) s = final (if isSolicitedEvent eventStr then
        if Contains eventStr statusReply then
          _ ← updateMon (set_ifEAPState (getIfState eventStr)); _ ← reportStatus; mret None
        else mret (@None error)
      else mret None) s) as Hshort.
  { destruct (isSolicitedEvent eventStr), (Contains eventStr statusReply); try done.
    rewrite runs_seg, final_bind. cbn [updateMon modify]. by rewrite runs_reportProg, final_bind. }
  destruct (Split eventStr blank) as [|word [|addr rest]]; [done..|].
  rewrite final_deferred, runs_dispatchProg.
  destruct (dispatchEvent _ _ s) as [r s1|]; [|done]. by rewrite runs_reportProg.
Qed.

Lemma runs_replyProg s :
  runs (replyProg (IfName (mon s))) s = final hostapdReplyRound s.
Proof.
  unfold hostapdReplyRound, replyProg. rewrite runs_Seg, final_bind.
  unfold mbind at 1, M_bind at 1, world, zoom, observe. cbn [mret M_ret].
  set (s1 := set_wld _ s). destruct (sysRead _) as [eventStr|err].
  - case_bool_decide; [done|]. change (IfName (mon s)) with (IfName (mon s1)).
    rewrite runs_eventProg, final_bind. unfold final. by destruct (handleHostapdEvent _ _).
  - by destruct (IsTimeout err).
Qed.

Lemma runs_vlanProg s : runs vlanProg s = final handlePfEventForVfVlanChange s.
Proof. unfold vlanProg. rewrite runs_seg. unfold final. by destruct (handlePfEventForVfVlanChange s). Qed.

Lemma runs_ifEventProg link s : runs (ifEventProg link) s = final (handleIfEvent link) s.
Proof.
  unfold ifEventProg, handleIfEvent. rewrite runs_Seg, final_bind.
  unfold mbind at 1, M_bind at 1, gets. cbn [mret M_ret]. destruct (negb _).
  - rewrite runs_seg, final_bind. unfold handlePfEventForOpStateChange, mbind, M_bind.
    destruct (applyOpState link s) as [[] s1|]; [|done]. rewrite runs_seg.
    destruct (writeCommand statusCommand s1) as [r s2|]; [|done]. apply runs_vlanProg.
  - rewrite final_bind. apply runs_vlanProg.
Qed.

Lemma runs_keepAliveProg s : runs keepAliveProg s = final keepAliveRound s.
Proof.
  unfold keepAliveProg. rewrite runs_Seg. unfold final, mbind, M_bind.
  by destruct (keepAliveRound s) as [[|] s1|].
Qed.

Lemma runs_requestsProg s : runs requestsProg s = final requestsTimeoutRound s.
Proof.
  unfold requestsProg, requestsTimeoutRound. rewrite runs_Seg, final_bind.
  unfold mbind at 1, M_bind at 1. destruct (getCurrentTimestamp s) as [now s1|]; [|done].
  cbn [mret M_ret]. rewrite runs_seg. unfold final. by destruct (expireRequests now s1).
Qed.

(** ** Every program of a goroutine is safe *)
Context `{!LinkNames}.

Lemma safe_mono tr tr' p : safe tr p → tr `suffix_of` tr' → safe tr' p.
Proof.
  destruct 1 as [| | |tr a m Ha Hm Hp]; intros Hsuf; [constructor..|]. constructor.
  - destruct Hsuf as [l ->]. destruct a; cbn in *; try done; set_solver.
  - intros s p' s' HI Hs. apply Hm; [done|by etrans].
  - intros s w s' HI Hs. apply Hp; [done|by etrans].
Qed.

(** The rule to prove it: a specification of the segment. *)
Lemma safe_intro tr a m :
  says tr a →
  (∀ s, MonInv s → tr `suffix_of` trace (wld s) →
     wpx api_ok m (λ p' s', evolves a s s' ∧ safe (trace (wld s')) p') s) →
  safe tr (Seg a m).
Proof.
  intros Ha Hm. constructor; [done| |].
  - intros s p' s' HI Hs Hms. specialize (Hm s HI Hs). unfold wpx in Hm. by rewrite Hms in Hm.
  - intros s w s' HI Hs Hms. specialize (Hm s HI Hs). unfold wpx in Hm. by rewrite Hms in Hm.
Qed.

Lemma wpx_runs {A} P (m : M MState A) a tr s p :
  tr `suffix_of` trace (wld s) → safe tr p → MonInv s →
  wpx P m (λ _ s', evolves a s s') s →
  wpx P (_ ← m; mret p) (λ p' s', evolves a s s' ∧ safe (trace (wld s')) p') s.
Proof.
  intros Hs Hp (q & pf & HI) Hm. wp_step. eapply wp_mono; [exact Hm|]. cbn beta.
  intros _ s' He. wp_step. split; [done|]. destruct (He q pf HI) as (_ & _ & _ & _ & Hfr & _).
  pose proof (framed_ext _ _ _ _ Hfr) as Hext.
  eapply safe_mono; [done|by etrans].
Qed.

Lemma safe_seg_intro {A} tr a (m : M MState A) p :
  says tr a →
  (∀ s, MonInv s → wpx api_ok m (λ _ s', evolves a s s') s) →
  safe tr p → safe tr (seg a m p).
Proof.
  intros Ha Hm Hp. apply safe_intro; [done|]. intros s HI Hs. eapply wpx_runs; eauto.
Qed.

Lemma safe_log tr ty msg f p :
  safe tr p → safe tr (seg Silent (logEvent ty msg) (seg Silent (updateStats f) p)).
Proof.
  intros Hp. apply safe_seg_intro; [done|intros s _; apply logEvent_evolves|].
  apply safe_seg_intro; [done| |done]. intros s _. apply wp_any_P, updateStats_evolves.
Qed.

Lemma safe_reportProg tr p : safe tr p → safe tr (reportProg p).
Proof. by apply safe_seg_intro; [|apply reportStatus_evolves]. Qed.

Lemma safe_write tr c p : safe tr p → safe tr (seg Silent (writeCommand c) p).
Proof. apply safe_seg_intro; [done|]. intros s HI. by apply wp_any_P, Write_evolves. Qed.

Lemma safe_vlanProg tr : safe tr vlanProg.
Proof.
  apply safe_seg_intro; [done| |constructor]. intros s HI.
  by apply wp_any_P, handlePfEventForVfVlanChange_evolves.
Qed.

Lemma safe_dispatchProg tr key addr ifName p :
  says tr (keyAction key addr) → safe tr p → safe tr (dispatchProg key addr ifName p).
Proof.
  intros Hsays Hp. unfold keyAction in Hsays. unfold dispatchProg.
  destruct (bool_decide_reflect (key = staConnectedEvent)) as [Hk1|Hk1].
  { apply safe_seg_intro; [done| |done]. intros s HI.
    by apply wp_any_P, handleAuthenticateEvent_evolves. }
  destruct (bool_decide_reflect (key = eapSuccessEvent)) as [Hk2|Hk2]; [by apply safe_log|].
  destruct (bool_decide_reflect (key = staDisconnectedEvent)) as [Hk3|Hk3].
  { apply safe_log, safe_seg_intro; [done| |done]. intros s HI.
    by apply wp_any_P, handleDeAuthenticateEvent_evolves. }
  case_bool_decide; [by apply safe_log|done].
Qed.

Lemma safe_eventProg tr ifName eventStr :
  EvRead (Ok eventStr) ∈ tr → safe tr (eventProg ifName eventStr).
Proof.
  intros Hin. unfold eventProg.
  assert (says tr (eventAction eventStr)) as Hsays.
  { destruct (eventAction eventStr) eqn:Ha; try done; try by exists eventStr.
    unfold eventAction in Ha. destruct (Split _ _) as [|w [|b r]]; try done.
    unfold keyAction in Ha. repeat case_bool_decide; done. }
  assert (safe tr (if isSolicitedEvent eventStr then
        if Contains eventStr statusReply then
          seg Silent (updateMon (set_ifEAPState (getIfState eventStr))) (reportProg Next)
        else Next
      else Next)) as Hshort.
  { destruct (isSolicitedEvent eventStr), (Contains eventStr statusReply); [|constructor..].
    apply safe_seg_intro; [done| |apply safe_reportProg; constructor].
    intros s _. unfold updateMon. wp_step. by apply updateMon_evolves. }
  unfold eventAction in Hsays. destruct (Split eventStr blank) as [|word [|addr rest]]; [done..|].
  apply safe_dispatchProg; [done|]. apply safe_reportProg. constructor.
Qed.

(** A segment that asks the environment and goes on according to the answer. *)
Lemma safe_ask {A} tr (m : M MState A) (f : A → prog) :
  (∀ s, MonInv s → wp m (λ x s', watched s s' ∧ safe (trace (wld s')) (f x)) s) →
  safe tr (Seg Silent (x ← m; mret (f x))).
Proof.
  intros Hm. apply safe_intro; [done|]. intros s HI Hs. wp_step.
  eapply wp_any_P, wp_mono; [by apply Hm|]. cbn beta. intros x s' [Hw Hp]. wp_step.
  split; [by apply evolves_watched|done].
Qed.

Lemma MonInv_conn s : MonInv s → hostApdConn (mon s) ≠ HNil.
Proof. by intros (p & pf & []). Qed.

Lemma safe_round tr g ifName link : safe tr (round g ifName link).
Proof.
  destruct g; cbn [round].
  - apply safe_ask. intros s HI. eapply wp_mono; [by apply wp_Write, MonInv_conn|].
    intros r s' Hw. split; [done|]. destruct r as [e|].
    + destruct (IsTimeout e); constructor.
    + apply safe_write, safe_reportProg. constructor.
  - apply safe_ask. intros s HI. apply wp_world, wp_observe.
    split; [apply watched_event; by apply quiet_event|].
    destruct (sysRead _) as [eventStr|err]; [|destruct (IsTimeout err); constructor].
    case_bool_decide; [constructor|]. apply safe_eventProg. by left.
  - apply safe_ask. intros s HI. wp_step. split; [done|].
    destruct (negb _); [|apply safe_vlanProg].
    apply safe_seg_intro; [|by apply applyOpState_evolves|by apply safe_write, safe_vlanProg].
    unfold linkAction. by repeat case_bool_decide.
  - apply safe_ask. intros s HI. unfold keepAliveRound. wp_step.
    eapply wp_mono; [by apply wp_Write, MonInv_conn|]. intros r s' Hw.
    wp_step; wp_step; (split; [done|]); [destruct (IsTimeout _)|]; constructor.
  - apply safe_ask. intros s HI. unfold getCurrentTimestamp, Now. apply wp_world, wp_observe.
    split; [apply watched_event; by apply quiet_event|].
    apply safe_seg_intro; [by left| |constructor].
    intros s' HI'. by apply wp_any_P, expireRequests_evolves.
Qed.

(** ** Runs *)

(** The state of a run: the monitor's invariant, the clients where the actions
    lead their specification, the VFs programmed, every goroutine safe and every
    action justified. *)
Record run_inv (s0 : MState) (l : list action) (c : Config) (p : ref) (pf : PFInfo) : Prop := {
  run_Inv : Inv (st c) p pf;
  run_clients : client_run l (clientsOf (st c) pf);
  run_name : IfName (mon (st c)) = IfName (mon s0);
  run_vfs : netlink_ok (IfName (mon s0)) → all_programmed (trace (wld (st c))) pf;
  run_safe : ∀ g, safe (trace (wld (st c))) (threads c g);
  run_says : ∀ a, a ∈ l → says (trace (wld (st c))) a;
}.

Lemma says_mono tr tr' a : says tr a → tr `suffix_of` tr' → says tr' a.
Proof. intros Ha [l ->]. destruct a; cbn in *; try done; set_solver. Qed.

(** Of these, what a step keeps, whatever else the process does. *)
Record alive (c : Config) (p : ref) (pf : PFInfo) : Prop := {
  alive_Inv : Inv (st c) p pf;
  alive_vfs : netlink_ok (IfName (mon (st c))) → all_programmed (trace (wld (st c))) pf;
  alive_safe : ∀ g, safe (trace (wld (st c))) (threads c g);
}.

(** What a step changes: only the monitor's own PF and VFs, as the clients'
    specification says. *)
Record advanced (c : Config) (a : action) (c' : Config) (p : ref) (pf pf' : PFInfo) : Prop := {
  advanced_alive : alive c' p pf';
  advanced_clients : client_step (clientsOf (st c) pf) a (clientsOf (st c') pf');
  advanced_name : IfName (mon (st c')) = IfName (mon (st c));
  advanced_frame : framed p (IfName (mon (st c))) (wld (st c)) (wld (st c'));
  advanced_says : says (trace (wld (st c'))) a;
}.

Lemma alive_step c a c' p pf :
  alive c p pf → sys_step c a c' → ∃ pf', advanced c a c' p pf pf'.
Proof.
  intros [HI Hv Hsafe] Hstep. destruct Hstep as [g a m p' s' Hg Hm|g link Hg].
  - pose proof (Hsafe g) as Hsg. rewrite Hg in Hsg. inversion Hsg as [| | |? ? ? Ha Hseg _]; subst.
    destruct (Hseg (st c) p' s') as [He Hp']; [by exists p, pf|done|done|].
    destruct (He p pf HI) as (pf' & HI' & Hstep & Hn' & Hfr & Hv').
    pose proof (framed_ext _ _ _ _ Hfr) as Hext.
    exists pf'. split; cbn [st threads]; try done.
    + split; cbn [st threads]; [done|rewrite Hn'; auto|]. intros g'.
      destruct (decide (g' = g)) as [->|Hne]; [by rewrite fn_lookup_insert|].
      rewrite fn_lookup_insert_ne by done. by eapply safe_mono.
    + by eapply says_mono.
  - exists pf. split; cbn [st threads]; try done; [|constructor].
    split; cbn [st threads]; [done|done|]. intros g'.
    destruct (decide (g' = g)) as [->|Hne]; [rewrite fn_lookup_insert; apply safe_round|].
    by rewrite fn_lookup_insert_ne.
Qed.

(** Nothing panics while the API server answers. *)
Lemma alive_no_crash c p pf : alive c p pf → api_ok → ¬ sys_crash c.
Proof.
  intros [HI _ Hsafe] Hapi (g & a & m & w & s' & Hg & Hm).
  pose proof (Hsafe g) as Hsg. rewrite Hg in Hsg. inversion Hsg as [| | |? ? ? _ _ Hpanic]; subst.
  by eapply (Hpanic (st c) w s'); [by exists p, pf| | |].
Qed.

(** A monitor whose goroutines have just been started. *)
Lemma started_alive s s1 p pf : started s s1 p pf → alive {| st := s1; threads := λ _, Next |} p pf.
Proof. intros [HI _ _ Ha _ _ _ _]. split; cbn; [done|done|constructor]. Qed.

Lemma run_alive s0 l c p pf : run_inv s0 l c p pf → alive c p pf.
Proof. intros [HI _ Hn Hv Hsafe _]. split; rewrite ?Hn; done. Qed.

Lemma sys_run_inv s0 l c : sys_run s0 l c → ∃ p pf, run_inv s0 l c p pf.
Proof.
  induction 1 as [s1 Hs1|l c a c' Hrun (p & pf & IH) Hstep].
  - pose proof (wp_startUp s0) as Hst. unfold wpx in Hst. rewrite Hs1 in Hst.
    destruct Hst as (p & pf & Hst). destruct (started_alive _ _ _ _ Hst) as [HI Hv Hsafe].
    exists p, pf. split; cbn [st threads]; try done.
    + rewrite (started_clients _ _ _ _ Hst). constructor.
    + apply Hst.
    + intros _. by apply Hst.
    + set_solver.
  - destruct IH as [HI Hc Hn Hv Hsafe Hsays]. rewrite <-Hn in Hv.
    destruct (alive_step c a c' p pf) as (pf' & [[HI' Hv' Hsafe'] Hstep' Hn' Hfr' Hsays']);
      [by split|done|].
    exists p, pf'. rewrite Hn' in Hv'. split; try done.
    + by econstructor.
    + congruence.
    + by rewrite <-Hn.
    + intros a' [-> |Ha']%elem_of_cons; [done|]. eapply says_mono; [by apply Hsays|].
      by eapply framed_ext.
Qed.
End code.
