(* ===== verification/Confined.v ===== *)
(** * What a monitor's code can touch, in whatever state its clients are

    The invariant [Inv] of a running monitor ties the gate to the clients, and
    [StopMonitor] breaks that while the goroutines still run.  What remains true
    is weaker: the monitor has its PF, and neither its handlers nor the goroutines'
    programs change anything but that PF and the VFs of its link, or panic while
    the API server answers. *)
From S2P Require Import Prelude GoStrings Api Sys TrafficControl TrafficControlSpec Hostap.
From S2P Require Import ClientSpec HostapSpec HostapLife HostapSteps.

Section confined.
Context `{Sys} `{!LinkNames} (p : ref) (n : string).

(** The PF at [p] is there, as [GetSriovPFInfo] made it but for the VLANs. *)
Definition has_PF (w : World) : Prop :=
  ∃ pf, pfs w !! p = Some pf ∧ PF_Name pf = n ∧ pf_wf p pf.

Record attached (s : MState) : Prop := {
  at_pfinfo : PfInfo (mon s) = Some p;
  at_name : IfName (mon s) = n;
  at_conn : hostApdConn (mon s) ≠ HNil;
  at_PF : has_PF (wld s);
}.

(** Only the PF and its VFs, and not the channel that tells to stop. *)
Record touches (s s' : MState) : Prop := {
  touch_frame : framed p n (wld s) (wld s');
  touch_stop : stop (mon s') = stop (mon s);
}.

#[global] Instance touches_preorder : PreOrder touches.
Proof.
  split; [by intros s; split|]. intros s1 s2 s3 [H1 H1'] [H2 H2']. split; [by etrans|congruence].
Qed.

Definition confined {A} (m : M MState A) : Prop := keeps api_ok attached touches m.

(** ** Operations *)

(** On the machine. *)
Lemma confined_world {A} (m : M World A) :
  (∀ w pf, pfs w !! p = Some pf → PF_Name pf = n → pf_wf p pf →
    wp m (λ _ w', framed p n w w' ∧ has_PF w') w) →
  confined (world m).
Proof.
  intros Hm s [Hp Hn Hc (pf & Hpf & Hname & Hwf)]. apply wp_world.
  apply wp_any_P. eapply wp_mono; [by eapply Hm|]. intros a w' [Hfr Hw']. by split.
Qed.

Lemma quiet_PF w w' : quiet w w' → has_PF w → framed p n w w' ∧ has_PF w'.
Proof.
  intros Hq (pf & Hpf & Hpf'). split; [by apply quiet_framed|]. exists pf.
  by rewrite (quiet_pfs _ _ Hq).
Qed.

Lemma confined_quiet {A} (m : M World A) :
  (∀ w, wp m (λ _ w', quiet w w') w) → confined (world m).
Proof.
  intros Hm. apply confined_world. intros w pf Hpf Hn Hwf. eapply wp_mono; [apply Hm|].
  intros a w' Hq. apply quiet_PF; [done|]. by exists pf.
Qed.

Lemma confined_observe {A} (answer : Trace → A) ev :
  (∀ a, commandOf (ev a) = None) →
  (∀ a l i v r, ev a ≠ EvSetVfVlan l i v r) → (∀ a l i v r, ev a ≠ EvSetVfState l i v r) →
  confined (world (observe answer ev)).
Proof.
  intros Hc Hv Hs. apply confined_quiet. intros w. eapply wp_mono; [by apply wp_quiet_observe|].
  by intros a w' [_ Hq].
Qed.

Lemma confined_emit ev :
  commandOf ev = None →
  (∀ l i v r, ev ≠ EvSetVfVlan l i v r) → (∀ l i v r, ev ≠ EvSetVfState l i v r) →
  confined (emit ev).
Proof. intros Hc Hv Hs. apply confined_quiet. intros w. apply wp_modify. by apply quiet_event. Qed.

Lemma confined_rangeOrder {A} (l : list A) : confined (world (rangeOrder l)).
Proof.
  apply confined_quiet. intros w. eapply wp_mono; [apply wp_rangeOrder|]. by intros l' w' [_ Hq].
Qed.

Lemma confined_readPF : confined (world (readPF p)).
Proof.
  apply confined_world. intros w pf Hpf Hn Hwf. eapply wp_readPF; [done|]. split; [done|]. by exists pf.
Qed.

Lemma updated_framed w f pf :
  pfs w !! p = Some pf → framed p n w (set_pfs (<[p := f pf]> (pfs w)) w).
Proof. intros Hpf. split; [|done..]. intros q Hq. cbn. by rewrite lookup_insert_ne. Qed.

Lemma confined_updatePF f :
  (∀ pf, PF_Name (f pf) = PF_Name pf ∧ VFs (f pf) = VFs pf) → confined (world (updatePF p f)).
Proof.
  intros Hf. apply confined_world. intros w pf Hpf Hn Hwf. eapply wp_updatePF; [done|].
  split; [by apply updated_framed|]. exists (f pf). cbn. rewrite lookup_insert_eq.
  destruct (Hf pf) as [-> HV]. split; [done|]. split; [done|]. intros id vf. rewrite HV. apply Hwf.
Qed.

Lemma confined_gate k b action mac : confined (world (gate k b action p mac)).
Proof.
  apply confined_world. intros w pf Hpf Hn Hwf. eapply wp_mono; [by eapply wp_gate|]. cbn beta zeta.
  intros r w' (ifs & Hpf' & _ & Hsame & _ & _ & Hext). split.
  - split; [|by rewrite <-Hn|done]. intros q Hq. by rewrite Hpf', lookup_insert_ne.
  - exists (gated k b pf). rewrite Hpf', lookup_insert_eq. split; [done|].
    split; [unfold gated; by case_bool_decide|by apply gated_wf].
Qed.

Lemma confined_vlanChange : confined (world (HandlePfEventForVlanChange p)).
Proof.
  apply confined_world. intros w pf Hpf Hn Hwf.
  eapply wp_mono; [by apply wp_HandlePfEventForVlanChange|]. cbn beta. intros r w' (m & Hl & _).
  split; [rewrite <-Hn; by eapply learned_framed|]. exists (set_VFs m pf).
  split; [by eapply learned_pf|]. split; [done|apply Hl].
Qed.

Lemma confined_ConfigureVlanState vf : Parent vf = p → confined (world (ConfigureVlanState vf)).
Proof.
  intros Hvf. apply confined_world. intros w pf Hpf Hn Hwf.
  eapply wp_mono; [apply (wp_ConfigureVlanState vf pf); by rewrite Hvf|]. cbn beta.
  intros r w' (Hnl & Hsame & _). rewrite Hn in Hsame. split.
  - apply netlink_framed; [done|]. intros l i Hl. apply Hsame. by left.
  - exists pf. by rewrite (nl_pfs _ _ Hnl).
Qed.

(** On the monitor. *)
Lemma confined_updateMon f :
  (∀ m, PfInfo (f m) = PfInfo m ∧ IfName (f m) = IfName m ∧ stop (f m) = stop m ∧
    (hostApdConn m ≠ HNil → hostApdConn (f m) ≠ HNil)) →
  confined (updateMon f).
Proof.
  intros Hf. apply keeps_modify. intros s [Hp Hn Hc Hpf]. destruct (Hf (mon s)) as (H1 & H2 & H3 & H4).
  split; [split; cbn; rewrite ?H1, ?H2; auto|]. by split.
Qed.

Lemma confined_updateStats f : confined (updateStats f).
Proof. apply keeps_modify. intros s [Hp Hn Hc Hpf]. by split. Qed.

Lemma confined_monPF {B} (f : ref → M MState B) : confined (f p) → confined (monPF ≫= f).
Proof.
  intros Hf. apply (keeps_bind_with (λ q, q = p)); [|by intros q ->]. intros s Hs. unfold monPF.
  wp_step. wp_step. apply (wp_deref _ _ p); [apply Hs|]. by split.
Qed.

Lemma confined_Write c : confined (Write c).
Proof.
  intros s Hs. apply wp_any_P. eapply wp_mono; [apply wp_Write, Hs|]. intros r s' [Hm _ Hq].
  destruct Hs as [Hp Hn Hc Hpf]. destruct (quiet_PF _ _ Hq Hpf) as [Hfr Hpf'].
  split; [split|]; rewrite ?Hm; try done. split; [done|]. by rewrite Hm.
Qed.

Lemma confined_RetryOnConflict k fn : confined fn → confined (RetryOnConflict k fn).
Proof.
  intros Hfn. induction k as [|k IH]; [apply keeps_ret|]. apply keeps_bind; [done|].
  intros [e|]; [|apply keeps_ret]. destruct (_ && _); [done|apply keeps_ret].
Qed.

(** ** Handlers *)

Ltac confine := unfold confined; repeat
  match goal with
  | |- keeps _ _ _ (getAuthObject ≫= _) => fail 1
  | |- keeps _ _ _ (monPF ≫= _) => apply confined_monPF; unfold confined
  | |- keeps _ _ _ (world (rangeOrder _)) => apply confined_rangeOrder
  | |- keeps _ _ _ (world (readPF _)) => apply confined_readPF
  | |- keeps _ _ _ (world (observe _ _)) => by apply confined_observe
  | |- keeps _ _ _ (world Now) => by apply confined_observe
  | |- keeps _ _ _ (emit _) => by apply confined_emit
  | |- keeps _ _ _ (Write _) => apply confined_Write
  | |- keeps _ _ _ (updateMon _) => apply confined_updateMon; by intros
  | |- keeps _ _ _ (updateStats _) => apply confined_updateStats
  | |- keeps _ _ _ (RetryOnConflict _ _) => apply confined_RetryOnConflict; unfold confined
  | |- keeps _ _ _ (world (updatePF _ _)) => by apply confined_updatePF
  | _ => keep_step
  end.

(** The object, unless the API server fails. *)
Lemma confined_getAuthObject {B} (f : result Authenticator → M MState B) :
  (∀ r, (api_ok → ∃ a, r = Ok a ∧ None ∉ Status_Interfaces (Status a)) → confined (f r)) →
  confined (getAuthObject ≫= f).
Proof.
  intros Hf. apply (keeps_bind_with
    (λ r, api_ok → ∃ a, r = Ok a ∧ None ∉ Status_Interfaces (Status a))); [|done].
  intros s Hs. eapply wp_mono; [apply wp_run, wp_getAuthObject|]. cbn beta. intros r s' [Hrun [-> Hw]].
  split.
  - intros [Hget Hnone]. destruct (Hget (trace (wld s)) (AuthNsName (mon s))) as [a Ha].
    exists a. rewrite Ha. split; [done|]. by eapply Hnone.
  - destruct Hs as [Hp Hn Hc Hpf], Hw as [Hm _ Hq]. destruct (quiet_PF _ _ Hq Hpf) as [Hfr Hpf'].
    split; [split|]; rewrite ?Hm; try done. split; [done|]. by rewrite Hm.
Qed.

Lemma confined_logEvent ty msg : confined (logEvent ty msg).
Proof.
  unfold logEvent, Eventf. confine. apply confined_getAuthObject. intros r Hr. confine.
  apply keeps_deref. intros Hapi. destruct (Hr Hapi) as (obj & -> & _). by eexists.
Qed.

Lemma confined_reportStatus : confined reportStatus.
Proof.
  unfold reportStatus, updateInterfaceStatus. confine. unfold statusAttempt, checkVal.
  apply confined_getAuthObject. intros [obj|e] Hr; [|apply keeps_ret]. confine.
  apply keeps_deref. intros Hapi. destruct (Hr Hapi) as (obj' & [= <-] & Hnone).
  by apply findInterface_total.
Qed.

Lemma confined_authenticate addr : confined (handleAuthenticateEvent addr).
Proof.
  unfold handleAuthenticateEvent. confine. rewrite AllowTrafficFromMac_gate. apply confined_gate.
Qed.

Lemma confined_deAuthenticate addr : confined (handleDeAuthenticateEvent addr).
Proof.
  unfold handleDeAuthenticateEvent. confine. rewrite DenyTrafficFromMac_gate. apply confined_gate.
Qed.

Lemma confined_vlan : confined handlePfEventForVfVlanChange.
Proof. unfold handlePfEventForVfVlanChange. confine. apply confined_vlanChange. Qed.

Lemma confined_applyOpState link : confined (applyOpState link).
Proof.
  unfold applyOpState, deauthenticate, getCurrentTimestamp. confine; apply confined_logEvent.
Qed.

Lemma confined_expireRequests now : confined (expireRequests now).
Proof.
  unfold expireRequests, timeoutRequest. confine. rewrite DenyTrafficFromMac_gate.
  apply confined_gate.
Qed.

(** ** Programs *)

(** A program of such segments that ends as [L] says. *)
Inductive confined_prog (L : prog → Prop) : prog → Prop :=
| confined_leaf q : L q → confined_prog L q
| confined_more a m :
    (∀ s q s', attached s → m s = Done q s' →
       attached s' ∧ touches s s' ∧ confined_prog L q) →
    (∀ s w s', attached s → m s = Panic w s' → ¬ api_ok) →
    confined_prog L (Seg a m).

(** A segment that goes on with such a program. *)
Definition confining (L : prog → Prop) (m : M MState prog) : Prop :=
  ∀ s, attached s → wpx api_ok m (λ q s', attached s' ∧ touches s s' ∧ confined_prog L q) s.

Lemma confined_Seg L a m : confining L m → confined_prog L (Seg a m).
Proof.
  intros Hm. constructor 2; intros s q s' Hs Hms; specialize (Hm s Hs); unfold wpx in Hm;
    by rewrite Hms in Hm.
Qed.

Lemma confining_ret L q : confined_prog L q → confining L (mret q).
Proof. intros Hq s Hs. by apply wp_ret. Qed.

Lemma confining_bind {A} L (m : M MState A) f :
  confined m → (∀ x, confining L (f x)) → confining L (m ≫= f).
Proof.
  intros Hm Hf s Hs. apply wp_bind. eapply wp_mono; [by apply Hm|]. intros x s1 [Hs1 H1].
  eapply wp_mono; [by apply Hf|]. intros q s2 (Hs2 & H2 & Hq). split; [done|]. split; [by etrans|done].
Qed.

Lemma confining_monPF L f : confining L (f p) → confining L (monPF ≫= f).
Proof.
  intros Hf s Hs. unfold monPF. wp_step. wp_step. wp_step. apply (wp_deref _ _ p); [apply Hs|].
  by apply Hf.
Qed.

Lemma confined_ask {A} L a (m : M MState A) (f : A → prog) :
  confined m → (∀ x, confined_prog L (f x)) → confined_prog L (Seg a (x ← m; mret (f x))).
Proof. intros Hm Hf. apply confined_Seg, confining_bind; [done|]. intros x. by apply confining_ret. Qed.

Lemma confined_seg {A} L a (m : M MState A) q :
  confined m → confined_prog L q → confined_prog L (seg a m q).
Proof. intros Hm Hq. by apply confined_ask. Qed.

Lemma confined_reportProg L q : confined_prog L q → confined_prog L (reportProg q).
Proof. apply confined_seg, confined_reportStatus. Qed.

Lemma confined_weaken (L L' : prog → Prop) q :
  (∀ q, L q → L' q) → confined_prog L q → confined_prog L' q.
Proof.
  intros HL. revert q. fix IH 2. intros q [q' Hq|a m Hseg Hpanic].
  - by apply confined_leaf, HL.
  - apply confined_more; [|done]. intros s q' s' Hs Hm.
    destruct (Hseg s q' s' Hs Hm) as (Hs' & Ht & Hq). split; [done|]. split; [done|].
    by apply IH.
Qed.

(** The loops go on or return; [StartMonitor] may fail too.  [handleIfEvents] does
    not return by itself. *)
Definition loops (q : prog) : Prop := q = Next ∨ q = Return.

Definition goes (g : goroutine) (q : prog) : Prop := q = Next ∨ (g ≠ IfEvents ∧ q = Return).

Lemma goes_loops g q : goes g q → loops q.
Proof. intros [?|[_ ?]]; [by left|by right]. Qed.

Lemma confined_goes g q : confined_prog (goes g) q → confined_prog loops q.
Proof. apply confined_weaken, goes_loops. Qed.

Lemma confined_next L : L Next → confined_prog L Next.
Proof. apply confined_leaf. Qed.

Lemma confined_eventProg L ifName eventStr :
  L Next → confined_prog L (eventProg ifName eventStr).
Proof.
  intros HL.
  assert (∀ ty msg f q, confined_prog L q →
    confined_prog L (seg Silent (logEvent ty msg) (seg Silent (updateStats f) q))) as Hlog.
  { intros. apply confined_seg; [apply confined_logEvent|].
    by apply confined_seg; [apply confined_updateStats|]. }
  pose proof (confined_next _ HL) as Hnext.
  pose proof (confined_reportProg _ _ Hnext) as Hrep.
  unfold eventProg. destruct (Split eventStr blank) as [|word [|addr rest]].
  3: { unfold dispatchProg. repeat case_bool_decide; auto.
       - apply confined_seg; [apply confined_authenticate|done].
       - apply Hlog, confined_seg; [apply confined_deAuthenticate|done]. }
  all: destruct (isSolicitedEvent eventStr), (Contains eventStr statusReply); try exact Hnext.
  all: apply confined_seg; [by apply confined_updateMon|done].
Qed.

Lemma confined_round g ifName link : g ≠ Main → confined_prog (goes g) (round g ifName link).
Proof.
  assert (∀ g, confined_prog (goes g) Next) as Hn by (intros g'; apply confined_next; by left).
  assert (∀ g, g ≠ IfEvents → confined_prog (goes g) Return) as Hr
    by (intros g' Hg; apply confined_leaf; by right).
  destruct g; cbn [round]; [done|intros _..].
  - apply confined_ask; [confine|]. intros [eventStr|e]; [|destruct (IsTimeout e); auto].
    case_bool_decide; [auto|]. apply confined_eventProg. by left.
  - assert (confined_prog (goes IfEvents) vlanProg) as Hv
      by (apply confined_seg; [apply confined_vlan|auto]).
    apply confined_ask; [apply keeps_gets|]. intros st. destruct (negb _); [|done].
    apply confined_seg; [apply confined_applyOpState|]. by apply confined_seg; [apply confined_Write|].
  - apply confined_ask; [unfold keepAliveRound; confine|]. intros [|]; auto.
  - apply confined_ask; [unfold getCurrentTimestamp; confine|]. intros now.
    apply confined_seg; [apply confined_expireRequests|auto].
Qed.

(** A monitor with its invariant is such a monitor. *)
Lemma Inv_attached s pf : Inv s p pf → IfName (mon s) = n → attached s.
Proof.
  intros [Hp Hpf Hname Hwf _ _ Hc _] Hn. split; [done|done|done|]. exists pf.
  by rewrite Hname.
Qed.
End confined.
