(* ===== verification/Demo.v ===== *)
(** * A concrete environment

    For the witnesses: a PF [ens1] with two VFs, on which every request
    succeeds unless the scenario says otherwise, hostapd sends a list of
    messages, and the clock advances a second with every event.  [exec] runs the
    interleaving machine under a given schedule. *)
From S2P Require Import Prelude GoStrings Api Sys TrafficControl TrafficControlSpec Hostap.
From S2P Require Import ClientSpec HostapSpec HostapLife HostapSteps.
From stdpp Require Import functions.

(** ** Scenarios *)
Record Scenario := {
  messages : list string;
  getAnswer : result Authenticator;
  updateAnswer : option error;
  writeAnswer : option error;
  runAnswer : option error;
  reversed : bool;
}.

Definition demoAuth : Authenticator :=
  {| Name := "authenticator-sample"; Namespace := "default"; UID := "1";
     ResourceVersion := "1";
     Spec := {| Enabled := true; Interfaces := ["ens1"; "ens2"];
                Authentication := {| Local := None; Radius_ := None |};
                Configuration := None; Image := ""; NodeSelector := None;
                TrafficControl_ := None |};
     Status := {| Status_Interfaces :=
       [Some {| Interface_Name := "ens2"; State := IfStateEnabled;
                AuthenticatedClients := [] |}] |} |}.

Definition calm (msgs : list string) : Scenario :=
  {| messages := msgs; getAnswer := Ok demoAuth; updateAnswer := None; writeAnswer := None;
     runAnswer := None; reversed := false |}.

Definition demoVfs : list VfAttrs :=
  [{| VF_ID := 0; VF_Vlan := 10 |}; {| VF_ID := 1; VF_Vlan := 20 |}].

Definition isRead (e : event) : bool :=
  match e with
  | EvRead _ => true
  | _ => false
  end.

Definition demoOrder (sc : Scenario) (A : Type) (_ : Trace) (l : list A) : list A :=
  if reversed sc then rev l else l.

Lemma demoOrder_perm sc A tr (l : list A) : demoOrder sc A tr l ≡ₚ l.
Proof.
  unfold demoOrder. destruct (reversed sc); [|done]. symmetry. apply Permutation_rev.
Qed.

Definition demo (sc : Scenario) : Sys := {|
  sysLookPath := λ _ _, None;
  sysRun := λ _ _, runAnswer sc;
  sysStat := λ _ _, Some true;
  sysGlob := λ _ _, Ok ["/sys/class/net/ens1/device/virtfn0"];
  sysReadDir := λ _ _, Ok ["ens1v0"];
  sysLinkByName := λ _ n, Ok {| Link_Name := n; OperState := OperUp; Vfs := demoVfs |};
  sysSetVfVlan := λ _ _ _ _, None;
  sysSetVfState := λ _ _ _ _, None;
  sysNow := λ tr, (1000000 * Z.of_nat (length tr))%Z;
  sysTempFile := λ _, None;
  sysDial := λ _ _, None;
  sysWrite := λ _ _, writeAnswer sc;
  sysRead := λ tr,
    match messages sc !! length (List.filter isRead tr) with
    | Some m => Ok m
    | None => Err (Error RTimeout "i/o timeout")
    end;
  sysCloseConn := λ _, None;
  sysGetAuth := λ _ _, getAnswer sc;
  sysUpdateStatus := λ _ _, updateAnswer sc;
  sysOrder := demoOrder sc;
  sysOrder_perm := demoOrder_perm sc;
|}.

#[global] Instance demo_LinkNames sc : @LinkNames (demo sc).
Proof. intros tr n l H. unfold sysLinkByName in H. cbn in H. by injection H as <-. Defined.

Lemma demo_netlink_ok sc n : @netlink_ok (demo sc) n.
Proof. split; [intros tr; by eexists|done]. Qed.

Lemma demo_api_ok sc : getAnswer sc = Ok demoAuth → @api_ok (demo sc).
Proof.
  intros Ha. split; [|intros tr k a]; cbn; rewrite Ha; [by eexists|]. intros [= <-]. cbn. set_solver.
Qed.

Lemma demo_tc_ok msgs : @tc_ok (demo (calm msgs)).
Proof. done. Qed.

(** ** States *)
Definition demoPF (auth : bool) (addrs : list string) : PFInfo :=
  {| PF_Name := "ens1"; Authenticated := auth; AuthenticatedAddrs := list_to_set addrs;
     VFs := vfsOf 0 demoVfs |}.

Definition demoWorld (pf : PFInfo) : World := {| trace := []; pfs := {[0%nat := pf]} |}.

Definition noMetrics : Metrics := {| authSuccess := ∅; authFailed := ∅ |}.

(** A monitor before [StartMonitor], and a running one with the given clients,
    those with a time on notice since then. *)
Definition fresh_monitor : MState :=
  {| mon := NewInterfaceMonitor "ens1" true ("default", "authenticator-sample");
     wld := {| trace := []; pfs := ∅ |}; stats := noMetrics |}.

Definition running (addrs : list string) (reqs : list (string * Z)) : MState :=
  {| mon := set_deauthRequests (list_to_map reqs) (set_stop HOpen (set_hostApdConn HOpen
              (set_PfInfo (Some 0%nat) (mon fresh_monitor))));
     wld := demoWorld (demoPF (bool_decide (addrs ≠ [])) addrs); stats := noMetrics |}.

Lemma running_Inv addrs reqs :
  Forall (λ r, r.1 ∈ addrs) reqs →
  Inv (running addrs reqs) 0%nat (demoPF (bool_decide (addrs ≠ [])) addrs).
Proof.
  intros Hreqs. split; try done; cbn.
  - apply vfsOf_wf.
  - apply bool_decide_ext. destruct addrs; set_solver.
  - intros a. rewrite elem_of_dom. intros [t Ht%elem_of_list_to_map_2].
    apply elem_of_list_to_set. rewrite Forall_forall in Hreqs. apply list_elem_of_In in Ht.
    apply (Hreqs _ Ht).
Qed.

(** ** Schedules *)
Definition demoLink (st : LinkOperState) : Link :=
  {| Link_Name := "ens1"; OperState := st; Vfs := demoVfs |}.

Section exec.
Context `{Sys}.

Definition fire (c : Config) (who : goroutine * Link) : option (action * Config) :=
  let '(g, link) := who in
  match threads c g with
  | Next => Some (Silent, {| st := st c;
              threads := <[g := round g (IfName (mon (st c))) link]> (threads c) |})
  | Return | Failed => None
  | Seg a m => match m (st c) with
               | Done p' s' => Some (a, {| st := s'; threads := <[g := p']> (threads c) |})
               | Panic _ _ => None
               end
  end.

Fixpoint exec (sched : list (goroutine * Link)) (l : list action) (c : Config)
  : option (list action * Config) :=
  match sched with
  | [] => Some (l, c)
  | who :: sched' => match fire c who with
                     | Some (a, c') => exec sched' (a :: l) c'
                     | None => None
                     end
  end.

Definition execFrom (s0 : MState) (sched : list (goroutine * Link)) : list action * Config :=
  match startUp s0 with
  | Done None s1 => default ([], {| st := s1; threads := λ _, Next |})
                      (exec sched [] {| st := s1; threads := λ _, Next |})
  | Done (Some _) s1 | Panic _ s1 => ([], {| st := s1; threads := λ _, Next |})
  end.

Lemma fire_step c who a c' : fire c who = Some (a, c') → sys_step c a c'.
Proof.
  destruct who as [g link]. unfold fire. destruct (threads c g) as [| | |b m] eqn:Hg; [|done|done|].
  - intros [= <- <-]. by constructor.
  - destruct (m (st c)) as [p' s'|] eqn:Hm; [|done]. intros [= <- <-]. by econstructor.
Qed.

Lemma exec_run s0 sched l c r : sys_run s0 l c → exec sched l c = Some r → sys_run s0 r.1 r.2.
Proof.
  revert l c. induction sched as [|who sched IH]; intros l c Hrun; cbn.
  - by intros [= <-].
  - destruct (fire c who) as [[a c']|] eqn:Hf; [|done]. apply IH.
    econstructor; [done|by eapply fire_step].
Qed.

Lemma execFrom_run s0 sched :
  (∃ s1, startUp s0 = Done None s1) → sys_run s0 (execFrom s0 sched).1 (execFrom s0 sched).2.
Proof.
  intros [s1 Hs1]. unfold execFrom. rewrite Hs1.
  destruct (exec sched [] _) as [r|] eqn:He; cbn.
  - by eapply exec_run; [constructor|].
  - by constructor.
Qed.
End exec.
