(* ===== verification/TrafficControlTheorems.v ===== *)
(** * Theorems about traffic control

    The promises of internal/trafficcontrol (sriov.go, tc.go), each with a
    witness in the environment of [Demo]. *)
From S2P Require Import Prelude GoStrings Api Sys TrafficControl TrafficControlSpec Hostap.
From S2P Require Import ClientSpec HostapSpec HostapSteps Demo.

(** ** Helper lemmas *)

(** A VF map built from link attributes: the last entry of an index counts. *)
Lemma vfsOf_lookup p l id :
  vfsOf p l !! id =
  (λ a, {| Parent := p; VF_Index := id; Vlan := VF_Vlan a |}) <$>
    last (filter (λ a, VF_ID a = id) l).
Proof.
  unfold vfsOf. induction l as [|a l IH] using rev_ind; [done|].
  rewrite foldl_snoc, filter_app, filter_cons, filter_nil.
  destruct (decide (VF_ID a = id)) as [<-|Hne].
  - by rewrite lookup_insert_eq, last_snoc.
  - by rewrite lookup_insert_ne, app_nil_r.
Qed.

(** The VF interfaces of the directories [dirs], where the file system says
    [stat] and [readdir]. *)
Definition vfInterfaces (stat : string → option bool) (readdir : string → list string)
    (dirs : list string) : list string :=
  omap (λ d, let net := FilepathJoin [d; "net"] in
             if bool_decide (stat net = Some true) then head (readdir net) else None) dirs.

(** A file system that does not change while it is looked at, and whose VF
    interfaces exist. *)
Record static_sysfs `{Sys} (stat : string → option bool) (glob : string → list string)
    (readdir : string → list string) : Prop := {
  static_stat : ∀ tr p, sysStat tr p = stat p;
  static_glob : ∀ tr p, sysGlob tr p = Ok (glob p);
  static_readdir : ∀ tr p, sysReadDir tr p = Ok (readdir p);
  static_link : ∀ tr n, ∃ l, sysLinkByName tr n = Ok l;
}.

(** ** The set-up script of an interface

    What is to be done in order: look for a tool, run a command whose failure ends
    the script, run one whose failure is only logged, or decide by whether a file
    exists. *)
Inductive script :=
| Finish
| Tool (file : string) (k : script)
| Needed (command : string) (k : script)
| Tolerated (command : string) (k : script)
| IfExists (path : string) (yes no : script).

(** [k] was carried out between the traces [tr] and [tr'], with the result [r]:
    nothing else happened, and the first failure of a tool or of a needed command
    is the result and ends it. *)
Fixpoint performed (k : script) (tr : Trace) (r : option error) (tr' : Trace) : Prop :=
  match k with
  | Finish => r = None ∧ tr' = tr
  | Tool f k => ∃ x, let tr1 := EvLookPath f x :: tr in
      match x with
      | Some e => r = Some e ∧ tr' = tr1
      | None => performed k tr1 r tr'
      end
  | Needed c k => ∃ x, let tr1 := EvRun c x :: tr in
      match x with
      | Some e => r = Some e ∧ tr' = tr1
      | None => performed k tr1 r tr'
      end
  | Tolerated c k => ∃ x, performed k (EvRun c x :: tr) r tr'
  | IfExists p yes no => ∃ x, performed (match x with Some _ => yes | None => no end)
      (EvStat p x :: tr) r tr'
  end.

(** Commands for a list of ports, none of them needed; without ports the tool is
    not looked for. *)
Definition for_ports (ports : list Z) (command : string → string) (k : script) : script :=
  match ports with
  | [] => k
  | _ => Tool "tc" (foldr (λ p k, Tolerated (command (Itoa p)) k) k ports)
  end.

(** Everything is dropped but, on an SR-IOV PF, EAPOL and the ports that are not
    to be protected. *)
Definition eapScript (n : string) (tcp udp : list Z) : script :=
  Tool "tc" (
  Needed ("tc qdisc del dev " +:+ n +:+ " ingress >/dev/null 2>&1 || true") (
  Needed ("tc qdisc del dev " +:+ n +:+ " clsact >/dev/null 2>&1 || true") (
  Needed ("tc qdisc add dev " +:+ n +:+ " clsact || return $?") (
  Needed ("tc filter add dev " +:+ n +:+
          " ingress pref 10001 protocol all matchall action drop index 101 || return $?") (
  IfExists (FilepathJoin ["/sys/class/net/"; n; "device"; "sriov_numvfs"])
    (Needed ("tc filter add dev " +:+ n +:+
       " ingress pref 10000 protocol 0x888e matchall action ok index 100 || return $?") (
     for_ports tcp (λ p, "tc filter add dev " +:+ n +:+
       " ingress pref 9999 protocol ip u32 match tcp dst " +:+ p +:+
       " 0xffff action ok index 99") (
     for_ports udp (λ p, "tc filter add dev " +:+ n +:+
       " ingress pref 9999 protocol ip u32 match udp dst " +:+ p +:+
       " 0xffff action ok index 99") (
     for_ports (tcp ++ udp) (λ p, "tc filter add dev " +:+ n +:+
       " ingress pref 9999 protocol ipv6 u32 match ip6 dport " +:+ p +:+
       " 0xffff action ok index 100")
     Finish))))
    Finish))))).

Section theorems.
Context `{Sys} `{!LinkNames}.

Lemma wp_vfNamesFrom_static stat glob readdir dirs names w :
  static_sysfs stat glob readdir →
  wp (vfNamesFrom names dirs)
     (λ r _, r = Ok (names ++ vfInterfaces stat readdir dirs)) w.
Proof.
  intros [Hstat Hglob Hreaddir Hlink]. revert names w.
  induction dirs as [|d dirs IH]; intros names w; cbn [vfNamesFrom].
  { wp_step. by rewrite app_nil_r. }
  unfold vfInterfaces. cbn [omap list_omap]. unfold dirExists. do 2 wp_step. wp_use wp_Stat.
  intros r w1 [-> H1]. wp_step. rewrite Hstat.
  destruct (bool_decide_reflect (stat (FilepathJoin [d; "net"]) = Some true)) as [Hd|Hd];
    cbn [negb]; [|apply IH].
  wp_step. wp_use wp_ReadDir. intros r w2 [-> H2]. rewrite Hreaddir.
  destruct (readdir _) as [|n ns]; cbn [head]; [apply IH|].
  wp_step. wp_use wp_LinkByName. intros r w3 [-> H3].
  destruct (Hlink (trace w2) n) as [l Hl]. rewrite Hl. apply link_name in Hl as ->.
  eapply wp_mono; [apply IH|]. cbn beta. intros r w4 ->. by rewrite <-app_assoc.
Qed.

(** *** The script step by step *)
Definition does (k : script) (w : World) (r : option error) (w' : World) : Prop :=
  performed k (trace w) r (trace w') ∧ pfs w' = pfs w ∧ (tc_ok → r = None).

Lemma wp_tool m k w :
  (∀ w1, wp m (does k w1) w1) → wp (check (LookPath "tc") m) (does (Tool "tc" k) w) w.
Proof.
  intros Hm. wp_step. apply wp_observe. destruct (sysLookPath _ _) as [e|] eqn:Hf.
  - split; [by exists (Some e)|]. split; [done|]. intros [Hok _]. by rewrite Hok in Hf.
  - eapply wp_mono; [apply Hm|]. intros r w' [Hk Hp]. split; [by exists None|done].
Qed.

Lemma wp_needed c m k w :
  (∀ w1, wp m (does k w1) w1) → wp (check (Run c) m) (does (Needed c k) w) w.
Proof.
  intros Hm. wp_step. apply wp_observe. destruct (sysRun _ _) as [e|] eqn:Hf.
  - split; [by exists (Some e)|]. split; [done|]. intros [_ Hok]. by rewrite Hok in Hf.
  - eapply wp_mono; [apply Hm|]. intros r w' [Hk Hp]. split; [by exists None|done].
Qed.

Lemma wp_check_assoc (a b c : M World (option error)) Q w :
  wp (check a (check b c)) Q w → wp (check (check a b) c) Q w.
Proof.
  unfold wpx, check, mbind, M_bind. destruct (a w) as [[e|] w1|]; [done| |done].
  by destruct (b w1) as [[e|] w2|].
Qed.

Lemma wp_check_None (m : M World (option error)) Q w : wp m Q w → wp (check (mret None) m) Q w.
Proof. done. Qed.

Lemma wp_check_end (m : M World (option error)) Q w : wp (check m (mret None)) Q w → wp m Q w.
Proof. unfold wpx, check, mbind, M_bind. by destruct (m w) as [[e|] w1|]. Qed.

Lemma wp_finish w : wp (mret None) (does Finish w) w.
Proof. done. Qed.

Lemma wp_tolerated (ports : list Z) command m k w :
  (∀ w1, wp m (does k w1) w1) →
  wp (check (_ ← forU (λ p, _ ← Run (command (Itoa p)); mret tt) ports; mret None) m)
     (does (foldr (λ p k, Tolerated (command (Itoa p)) k) k ports) w) w.
Proof.
  intros Hm. revert w. induction ports as [|p ports IH]; intros w; [exact (Hm w)|].
  specialize (IH (set_trace (EvRun (command (Itoa p)) (sysRun (trace w) (command (Itoa p)))
    :: trace w) w)).
  eapply wp_mono; [exact IH|]. intros r w' [Hk Hp]. split; [eexists; exact Hk|done].
Qed.

Lemma wp_for_ports (ports : list Z) command m k w :
  (∀ w1, wp m (does k w1) w1) →
  wp (check (if bool_decide (0 < length ports)%nat
             then check! LookPath "tc" ;;
                  _ ← forU (λ p, _ ← Run (command (Itoa p)); mret tt) ports; mret None
             else mret None) m)
     (does (for_ports ports command k) w) w.
Proof.
  intros Hm. unfold for_ports. destruct ports as [|p ports]; [by apply wp_check_None|].
  rewrite bool_decide_true by (cbn; lia). apply wp_check_assoc, wp_tool. intros w1.
  by apply (wp_tolerated (p :: ports)).
Qed.

Lemma wp_isPF n (m : bool → M World (option error)) yes no w :
  (∀ w1, wp (m true) (does yes w1) w1) → (∀ w1, wp (m false) (does no w1) w1) →
  wp (b ← IsSriovPF n; m b) (does (IfExists
    (FilepathJoin ["/sys/class/net/"; n; "device"; "sriov_numvfs"]) yes no) w) w.
Proof.
  intros Hyes Hno. wp_step. unfold IsSriovPF. wp_step. apply wp_observe. wp_step.
  set (o := sysStat _ _). destruct o as [d|] eqn:Ho.
  - eapply wp_mono; [apply Hyes|]. intros r w' [Hk Hp]. split; [by exists (Some d)|done].
  - eapply wp_mono; [apply Hno|]. intros r w' [Hk Hp]. split; [by exists None|done].
Qed.

Lemma wp_eapScript n tcp udp w :
  wp (InitInterfaceForEAPTraffic n tcp udp) (does (eapScript n tcp udp) w) w.
Proof.
  unfold InitInterfaceForEAPTraffic, ResetInterface. apply wp_check_assoc, wp_tool. intros w1.
  apply wp_check_assoc, wp_needed. intros w2. do 3 (apply wp_needed; intros ?).
  apply (wp_isPF n (λ b, if negb b then mret None else _)); intros w6; cbn [negb];
    [|apply wp_finish].
  apply wp_needed. intros w7.
  apply (wp_for_ports tcp (λ p, "tc filter add dev " +:+ n +:+
    " ingress pref 9999 protocol ip u32 match tcp dst " +:+ p +:+
    " 0xffff action ok index 99")). intros w8.
  apply (wp_for_ports udp (λ p, "tc filter add dev " +:+ n +:+
    " ingress pref 9999 protocol ip u32 match udp dst " +:+ p +:+
    " 0xffff action ok index 99")). intros w9.
  apply wp_check_end. apply (wp_for_ports (tcp ++ udp) (λ p, "tc filter add dev " +:+ n +:+
    " ingress pref 9999 protocol ipv6 u32 match ip6 dport " +:+ p +:+
    " 0xffff action ok index 100")). apply wp_finish.
Qed.

(** C26. The set-up of an interface carries out its script and nothing else:
    remove what is there, drop everything, and on an SR-IOV PF alone let EAPOL
    through and, for the ports that are not to be protected, IPv4 traffic of their
    protocol and IPv6 traffic.  The error of the first failing tool lookup or
    needed command is returned and ends it; the filters of the ports are not
    needed, a failing one is passed over.  No PF is touched, and no error is
    returned when tc works ([tc_ok]). *)
Theorem InitInterfaceForEAPTraffic_script n tcp udp w :
  wp (InitInterfaceForEAPTraffic n tcp udp) (λ r w',
    performed (eapScript n tcp udp) (trace w) r (trace w') ∧ pfs w' = pfs w ∧
    (tc_ok → r = None)) w.
Proof. apply wp_eapScript. Qed.

(** C24. Programming the VFs of a PF: nothing but its own VFs is touched, and if
    no error is returned every one of them has the VLAN and the link state that
    the PF's gate asks for; no error is returned if netlink works. *)
Theorem ConfigureVlanStateForVFs_programs p pf w :
  pfs w !! p = Some pf → pf_wf p pf →
  wp (ConfigureVlanStateForVFs p) (λ r w',
    pfs w' = pfs w ∧ commands (trace w') = commands (trace w) ∧
    (∀ l i, l ≠ PF_Name pf → vfVlan (trace w') l i = vfVlan (trace w) l i ∧
                             vfState (trace w') l i = vfState (trace w) l i) ∧
    (r = None → ∀ id vf, VFs pf !! id = Some vf →
      vfVlan (trace w') (PF_Name pf) id =
        Some (if Authenticated pf then Vlan vf else ReservedVlan) ∧
      vfState (trace w') (PF_Name pf) id =
        Some (if Authenticated pf then VF_LINK_STATE_AUTO else VF_LINK_STATE_DISABLE)) ∧
    (netlink_ok (PF_Name pf) → r = None)) w.
Proof.
  intros Hp Hwf. eapply wp_mono; [by apply wp_ConfigureVlanStateForVFs|].
  intros r w' ([Hpfs Hc _] & Hframe & Hprog & Hok). do 3 (split; [done|]). split; [|done].
  intros Hr id vf Hvf. destruct (Hwf id vf Hvf) as [_ <-].
  destruct (Hprog Hr _ vf Hvf) as [Hv Hs]. rewrite Hv, Hs. unfold expected.
  by destruct (Authenticated pf).
Qed.

(** C25. Learning VLANs from the link: after a link event each VF of the PF is
    configured with the last VLAN the link reports for it that is not the
    reserved one, and the VFs are programmed accordingly. *)
Theorem HandlePfEventForVlanChange_learns p pf w :
  pfs w !! p = Some pf → pf_wf p pf →
  wp (HandlePfEventForVlanChange p) (λ r w',
    (netlink_ok (PF_Name pf) → r = None) ∧
    (r = None → ∃ l pf', sysLinkByName (trace w) (PF_Name pf) = Ok l ∧
      pfs w' = <[p := pf']> (pfs w) ∧ Authenticated pf' = Authenticated pf ∧
      AuthenticatedAddrs pf' = AuthenticatedAddrs pf ∧
      (∀ id, VFs pf' !! id = (λ vf, set_Vlan
         (default (Vlan vf) (last (omap (λ a,
            if bool_decide (VF_ID a = id ∧ VF_Vlan a ≠ ReservedVlan) then Some (VF_Vlan a)
            else None) (Vfs l)))) vf) <$> VFs pf !! id) ∧
      (all_programmed (trace w) pf → all_programmed (trace w') pf'))) w.
Proof.
  intros Hp Hwf. eapply wp_mono; [by apply wp_HandlePfEventForVlanChange|]. cbn beta.
  intros r w' (m & (Hpfs & _) & Hr & Hok). split; [done|]. intros He.
  destruct (Hr He) as [(l & Hl & ->) Hprog]. exists l. eexists. split; [done|]. split; [done|].
  do 2 (split; [done|]). split; [|done]. cbn [VFs set_VFs]. clear -Hl. intros id.
  induction (Vfs l) as [|a vfs IH] using rev_ind.
  { cbn. destruct (VFs pf !! id) as [vf|]; [|done]. cbn. by destruct vf. }
  rewrite foldl_snoc, omap_app. unfold learnVlan at 1. cbn [omap list_omap].
  destruct (bool_decide_reflect (VF_Vlan a = ReservedVlan)) as [Hres|Hres].
  { rewrite bool_decide_false by tauto. by rewrite app_nil_r. }
  rewrite lookup_alter. case_decide as Hid.
  - rewrite bool_decide_true, last_snoc, <-Hid by done. subst id. rewrite IH.
    by destruct (VFs pf !! VF_ID a).
  - rewrite bool_decide_false by tauto. by rewrite app_nil_r.
Qed.

(** A PF taken over: a new object, with the gate closed, no clients, and the
    VFs that the link lists, each with the VLAN of its last entry; or the error
    of the link lookup. *)
Lemma GetSriovPFInfo_correct ifName w :
  wp (GetSriovPFInfo ifName) (λ r w', match r with
    | Err e => sysLinkByName (trace w) ifName = Err e ∧ pfs w' = pfs w
    | Ok p => ∃ l pf, sysLinkByName (trace w) ifName = Ok l ∧ pfs w !! p = None ∧
        pfs w' = <[p := pf]> (pfs w) ∧ PF_Name pf = ifName ∧ Authenticated pf = false ∧
        AuthenticatedAddrs pf = ∅ ∧
        ∀ id, VFs pf !! id =
          (λ a, {| Parent := p; VF_Index := id; Vlan := VF_Vlan a |}) <$>
            last (filter (λ a, VF_ID a = id) (Vfs l))
    end) w.
Proof.
  eapply wp_mono; [apply wp_GetSriovPFInfo|]. cbn beta. intros [p|e] w'.
  - intros (Hfresh & _ & _ & _ & l & Hl & Hpfs). exists l. eexists.
    do 3 (split; [done|]). do 3 (split; [done|]). intros id. apply vfsOf_lookup.
  - intros [[Hp _ _ _] He]. done.
Qed.

(** The interfaces a station is filtered on: an SR-IOV PF itself, then the
    first network interface of each VF directory that has one, in the order of
    the directory listing; any other interface alone. *)
Lemma GetAssociatedInterfaces_correct stat glob readdir n w :
  static_sysfs stat glob readdir →
  wp (GetAssociatedInterfaces n) (λ r _, r = Ok (n ::
    if bool_decide (is_Some (stat (FilepathJoin [sysClassNet; n; "device"; "sriov_numvfs"])))
    then vfInterfaces stat readdir (glob (FilepathJoin [sysClassNet; n; "device"; "virtfn*"]))
    else [])) w.
Proof.
  intros Hs. pose proof Hs as [Hstat Hglob Hreaddir Hlink].
  unfold GetAssociatedInterfaces. wp_step. wp_use wp_IsSriovPF. intros b w1 [-> _].
  rewrite Hstat. destruct (bool_decide_reflect (is_Some (stat (FilepathJoin
    [sysClassNet; n; "device"; "sriov_numvfs"])))) as [Hpf|Hpf]; [|by wp_step].
  wp_step. unfold GetSriovVFs. wp_step. wp_use wp_IsSriovPF. intros b w2 [-> _].
  rewrite Hstat, bool_decide_true by done. cbn [negb].
  wp_step. wp_use wp_Glob. intros r w3 [-> _]. rewrite Hglob.
  eapply wp_mono; [by eapply wp_vfNamesFrom_static|]. cbn beta. intros r w4 ->. by wp_step.
Qed.
End theorems.

(** ** Witnesses *)
Abbreviation demoSys := (demo (calm [])).

(** tc is there, but every command that adds a filter for a port fails. *)
Definition portless : Sys := let _ := demoSys in {|
  sysLookPath := sysLookPath;
  sysRun := λ _ c, if bool_decide (Contains c "pref 9999") then Some (Error ROther "exit status 2")
                   else None;
  sysStat := sysStat; sysGlob := sysGlob; sysReadDir := sysReadDir;
  sysLinkByName := sysLinkByName; sysSetVfVlan := sysSetVfVlan; sysSetVfState := sysSetVfState;
  sysNow := sysNow; sysTempFile := sysTempFile; sysDial := sysDial; sysWrite := sysWrite;
  sysRead := sysRead; sysCloseConn := sysCloseConn; sysGetAuth := sysGetAuth;
  sysUpdateStatus := sysUpdateStatus; sysOrder := sysOrder; sysOrder_perm := sysOrder_perm;
|}.

Lemma InitInterfaceForEAPTraffic_script_witness :
  let w := demoWorld (demoPF false []) in
  (∃ w', @InitInterfaceForEAPTraffic portless "ens1" [22%Z] [319%Z; 320%Z] w = Done None w' ∧
     length (commands (trace w')) = 11%nat) ∧
  wp (@InitInterfaceForEAPTraffic portless "ens1" [22%Z] [319%Z; 320%Z]) (λ r w',
    performed (eapScript "ens1" [22%Z] [319%Z; 320%Z]) (trace w) r (trace w') ∧
    pfs w' = pfs w ∧ (@tc_ok portless → r = None)) w.
Proof.
  split; [|exact (@InitInterfaceForEAPTraffic_script portless "ens1" _ _ _)].
  eexists. split; vm_compute; reflexivity.
Defined.

Lemma ConfigureVlanStateForVFs_programs_witness :
  let pf := demoPF false [] in
  let w := demoWorld pf in
  wp (@ConfigureVlanStateForVFs demoSys 0%nat) (λ r w',
    pfs w' = pfs w ∧ commands (trace w') = commands (trace w) ∧
    (∀ l i, l ≠ PF_Name pf → vfVlan (trace w') l i = vfVlan (trace w) l i ∧
                             vfState (trace w') l i = vfState (trace w) l i) ∧
    (r = None → ∀ id vf, VFs pf !! id = Some vf →
      vfVlan (trace w') (PF_Name pf) id =
        Some (if Authenticated pf then Vlan vf else ReservedVlan) ∧
      vfState (trace w') (PF_Name pf) id =
        Some (if Authenticated pf then VF_LINK_STATE_AUTO else VF_LINK_STATE_DISABLE)) ∧
    (@netlink_ok demoSys (PF_Name pf) → r = None)) w.
Proof.
  apply (@ConfigureVlanStateForVFs_programs demoSys _ 0%nat (demoPF false [])).
  - reflexivity.
  - apply vfsOf_wf.
Defined.

Lemma HandlePfEventForVlanChange_learns_witness :
  let pf := demoPF true ["aa:bb"] in
  let w := demoWorld pf in
  wp (@HandlePfEventForVlanChange demoSys 0%nat) (λ r w',
    (@netlink_ok demoSys (PF_Name pf) → r = None) ∧
    (r = None → ∃ l pf', @sysLinkByName demoSys (trace w) (PF_Name pf) = Ok l ∧
      pfs w' = <[0%nat := pf']> (pfs w) ∧ Authenticated pf' = Authenticated pf ∧
      AuthenticatedAddrs pf' = AuthenticatedAddrs pf ∧
      (∀ id, VFs pf' !! id = (λ vf, set_Vlan
         (default (Vlan vf) (last (omap (λ a,
            if bool_decide (VF_ID a = id ∧ VF_Vlan a ≠ ReservedVlan) then Some (VF_Vlan a)
            else None) (Vfs l)))) vf) <$> VFs pf !! id) ∧
      (all_programmed (trace w) pf → all_programmed (trace w') pf'))) w.
Proof.
  apply (@HandlePfEventForVlanChange_learns demoSys _ 0%nat (demoPF true ["aa:bb"])).
  - reflexivity.
  - apply vfsOf_wf.
Defined.

Lemma GetAssociatedInterfaces_correct_witness :
  wp (@GetAssociatedInterfaces demoSys "ens1") (λ r _, r = Ok ["ens1"; "ens1v0"])
    (demoWorld (demoPF false [])).
Proof.
  apply (@GetAssociatedInterfaces_correct demoSys _ (λ _, Some true)
    (λ _, ["/sys/class/net/ens1/device/virtfn0"]) (λ _, ["ens1v0"]) "ens1").
  split; [reflexivity..|]. intros tr n. eexists. reflexivity.
Defined.
