(* ===== verification/HostapTheorems.v ===== *)
(** * Theorems about the interface monitor

    The promises of pkg/hostap, each with a witness in the environment of
    [Demo]. *)
From S2P Require Import Prelude GoStrings Api Sys TrafficControl TrafficControlSpec Hostap.
From S2P Require Import ClientSpec HostapSpec HostapReport HostapLife HostapSteps Demo.
From stdpp Require Import functions.

(** ** Helper lemmas *)
Lemma last_report_connect l addr : last_report l addr = Some true → Connect addr ∈ l.
Proof.
  induction l as [|a l IH]; [done|]. destruct a as [b|b| | | |]; cbn.
  - case_bool_decide as Hb; [subst; by left|]. intros Hl. right. by apply IH.
  - case_bool_decide; [done|]. intros Hl. right. by apply IH.
  - intros Hl. right. by apply IH.
  - intros Hl. right. by apply IH.
  - intros Hl. right. by apply IH.
  - intros Hl. right. by apply IH.
Qed.

(** A run to use in the witnesses: a station connects, the clock is read, and
    the link goes down. *)
Definition connectMsg : string := "<3>AP-STA-CONNECTED aa:bb".

Definition connectSchedule : list (goroutine * Link) :=
  let r g := (g, demoLink OperDown) in
  [r Main; r Reply; r KeepAlive; r Reply; r Main; r Requests; r Reply; r Main; r Requests;
   r Reply; r Requests; r IfEvents; r IfEvents; r IfEvents].

Abbreviation connectRun sched :=
  (@execFrom (demo (calm [connectMsg])) fresh_monitor sched).

Lemma connectRun_ok sched :
  @sys_run (demo (calm [connectMsg])) fresh_monitor (connectRun sched).1 (connectRun sched).2.
Proof. apply execFrom_run. eexists. vm_compute. reflexivity. Qed.

(** The PF of a monitor's state. *)
Definition monitorPF (s : MState) : option PFInfo :=
  p ← PfInfo (mon s); pfs (wld s) !! p.

Lemma Inv_monitorPF s p pf : Inv s p pf → monitorPF s = Some pf.
Proof. intros [Hp Hpf _ _ _ _ _ _]. unfold monitorPF. by rewrite Hp. Qed.

(** ** The interleaved monitor *)
Section runs.
Context `{Sys} `{!LinkNames}.

(** C1. Refinement: however the goroutines of a started monitor interleave and
    whatever fails around it, its clients and the requests pending on them are
    at every moment those of the abstract machine after the same actions, and
    the gate of the VFs is open exactly when there is a client. *)
Theorem monitor_refines s0 l c :
  sys_run s0 l c →
  ∃ pf, monitorPF (st c) = Some pf ∧ client_run l (clientsOf (st c) pf) ∧
    Authenticated pf = bool_decide (AuthenticatedAddrs pf ≠ ∅).
Proof.
  intros (p & pf & [HI Hc _ _ _ _])%sys_run_inv. exists pf.
  split; [by eapply Inv_monitorPF|]. split; [done|apply HI].
Qed.

(** C2. Isolation: whenever the netlink requests about the PF work, in every
    state of every run each VF of the PF is on the reserved VLAN with its link
    disabled if no station is authenticated, and on its own VLAN with its link
    in the automatic state if one is. *)
Theorem monitor_isolates s0 l c :
  sys_run s0 l c → netlink_ok (IfName (mon s0)) →
  ∃ pf, monitorPF (st c) = Some pf ∧
    ∀ id vf, VFs pf !! id = Some vf →
      let tr := trace (wld (st c)) in
      let closed := bool_decide (AuthenticatedAddrs pf = ∅) in
      vfVlan tr (IfName (mon s0)) id = Some (if closed then ReservedVlan else Vlan vf) ∧
      vfState tr (IfName (mon s0)) id =
        Some (if closed then VF_LINK_STATE_DISABLE else VF_LINK_STATE_AUTO).
Proof.
  intros (p & pf & [HI _ Hn Hv _ _])%sys_run_inv Hok. exists pf.
  split; [by eapply Inv_monitorPF|]. intros id vf Hvf. cbn zeta.
  destruct (inv_wf _ _ _ HI id vf Hvf) as [_ Hidx].
  destruct (Hv Hok id vf Hvf) as [Hvlan Hstate].
  rewrite (inv_name _ _ _ HI), Hn, Hidx, (inv_gate _ _ _ HI) in Hvlan, Hstate.
  rewrite Hvlan, Hstate. unfold expected.
  destruct (bool_decide_reflect (AuthenticatedAddrs pf = ∅)) as [He|He].
  - by rewrite bool_decide_false by by intros ?.
  - by rewrite bool_decide_true.
Qed.

(** C3. No station is let through on the monitor's own initiative: an
    authenticated address was named by an AP-STA-CONNECTED message that hostapd
    sent. *)
Theorem monitor_admits_reported s0 l c pf addr :
  sys_run s0 l c → monitorPF (st c) = Some pf → addr ∈ AuthenticatedAddrs pf →
  ∃ eventStr, EvRead (Ok eventStr) ∈ trace (wld (st c)) ∧ eventAction eventStr = Connect addr.
Proof.
  intros (p & pf' & [HI Hc _ _ _ Hsays])%sys_run_inv Hpf Hin.
  rewrite (Inv_monitorPF _ _ _ HI) in Hpf. injection Hpf as <-.
  apply (Hsays (Connect addr)), last_report_connect. by eapply client_run_last_report.
Qed.

(** C5. While no link failure has been noticed, the authenticated stations are
    exactly those whose last report from hostapd was a connection. *)
Theorem monitor_tracks_reports s0 l c pf addr :
  sys_run s0 l c → never_down l → monitorPF (st c) = Some pf →
  addr ∈ AuthenticatedAddrs pf ↔ last_report l addr = Some true.
Proof.
  intros (p & pf' & [HI Hc _ _ _ Hsays])%sys_run_inv Hl Hpf.
  rewrite (Inv_monitorPF _ _ _ HI) in Hpf. injection Hpf as <-.
  apply (client_run_never_down _ _ _ Hc Hl).
Qed.

(** C4. The process does not crash: as long as the API server returns the
    Authenticator with no null entries in its status, no goroutine panics in
    any interleaving. *)
Theorem monitor_no_crash s0 l c : sys_run s0 l c → api_ok → ¬ sys_crash c.
Proof.
  intros (p & pf & HI)%sys_run_inv Hapi. by eapply alive_no_crash; [eapply run_alive|].
Qed.

(** The segments of the interleaving machine are the code's handlers: a
    round of a goroutine that nothing interrupts ends in the state its handler
    ends in, or panics when the handler panics. *)
Lemma rounds_are_handlers link s :
  runs (round Reply (IfName (mon s)) link) s = final hostapdReplyRound s ∧
  runs (round IfEvents (IfName (mon s)) link) s = final (handleIfEvent link) s ∧
  runs (round KeepAlive (IfName (mon s)) link) s = final keepAliveRound s ∧
  runs (round Requests (IfName (mon s)) link) s = final requestsTimeoutRound s.
Proof.
  split; [apply runs_replyProg|]. split; [apply runs_ifEventProg|].
  split; [apply runs_keepAliveProg|apply runs_requestsProg].
Qed.
End runs.

(** ** Witnesses for the runs *)
Lemma monitor_refines_witness :
  filter (λ a, a ≠ Silent) (connectRun connectSchedule).1 =
    [LinkDown; Timeout 34000000; Connect "aa:bb"] ∧
  ∃ pf, monitorPF (st (connectRun connectSchedule).2) = Some pf ∧
    client_run (connectRun connectSchedule).1
      (clientsOf (st (connectRun connectSchedule).2) pf) ∧
    Authenticated pf = bool_decide (AuthenticatedAddrs pf ≠ ∅).
Proof.
  split; [vm_compute; reflexivity|].
  exact (@monitor_refines (demo (calm [connectMsg])) _ fresh_monitor _ _ (connectRun_ok _)).
Defined.

Lemma monitor_isolates_witness :
  let c := (connectRun connectSchedule).2 in
  ∃ pf, monitorPF (st c) = Some pf ∧
    ∀ id vf, VFs pf !! id = Some vf →
      let tr := trace (wld (st c)) in
      let closed := bool_decide (AuthenticatedAddrs pf = ∅) in
      vfVlan tr "ens1" id = Some (if closed then ReservedVlan else Vlan vf) ∧
      vfState tr "ens1" id = Some (if closed then VF_LINK_STATE_DISABLE else VF_LINK_STATE_AUTO).
Proof.
  exact (@monitor_isolates (demo (calm [connectMsg])) _ fresh_monitor _ _ (connectRun_ok _)
    (demo_netlink_ok _ _)).
Defined.

(** The PF after the run of the witnesses. *)
Definition connectedPF : PFInfo := demoPF true ["aa:bb"].

Lemma connectedPF_ok sched :
  sched = connectSchedule → monitorPF (st (connectRun sched).2) = Some connectedPF.
Proof. intros ->. vm_compute. reflexivity. Qed.

Lemma monitor_admits_reported_witness :
  ∃ eventStr, EvRead (Ok eventStr) ∈ trace (wld (st (connectRun connectSchedule).2)) ∧
    eventAction eventStr = Connect "aa:bb".
Proof.
  apply (@monitor_admits_reported (demo (calm [connectMsg])) _ fresh_monitor
    (connectRun connectSchedule).1 _ connectedPF).
  - apply connectRun_ok.
  - by apply connectedPF_ok.
  - by apply elem_of_list_to_set, elem_of_cons; left.
Defined.

Lemma monitor_tracks_reports_witness :
  let run := connectRun (take 11 connectSchedule) in
  "aa:bb" ∈ AuthenticatedAddrs connectedPF ↔ last_report run.1 "aa:bb" = Some true.
Proof.
  apply (@monitor_tracks_reports (demo (calm [connectMsg])) _ fresh_monitor _
    (connectRun (take 11 connectSchedule)).2).
  - apply connectRun_ok.
  - unfold never_down. apply (bool_decide_unpack _). vm_compute. exact I.
  - vm_compute. reflexivity.
Defined.

Lemma monitor_no_crash_witness : ¬ @sys_crash (connectRun connectSchedule).2.
Proof.
  apply (@monitor_no_crash (demo (calm [connectMsg])) _ fresh_monitor
    (connectRun connectSchedule).1).
  - apply connectRun_ok.
  - by apply demo_api_ok.
Defined.

(** ** The handlers *)
Section handlers.
Context `{Sys} `{!LinkNames}.

(** What a handler that moves one station does: the clients change to [c], the
    VFs keep their configuration, the station gets the verdict [verdict] by a
    command for each of [ifs]; when no error is returned those are the
    interface and its VFs, and the VFs are programmed for the new clients. *)
Definition station_moved (s : MState) (pf : PFInfo) (addr verdict : string) (c : Clients)
    (r : option error) (s' : MState) : Prop :=
  ∃ pf' ifs, monitorPF s' = Some pf' ∧ clientsOf s' pf' = c ∧ VFs pf' = VFs pf ∧ MonInv s' ∧
    commands (trace (wld s')) =
      commands (trace (wld s)) ++ map (λ i, macFilter i addr verdict) ifs ∧
    (r = None →
      associated (trace (wld s)) (trace (wld s')) (IfName (mon s)) ifs ∧
      (all_programmed (trace (wld s)) pf → all_programmed (trace (wld s')) pf')).

Lemma moved_station n b verdict X addr s p pf ifs r s' :
  Inv s p pf → Inv s' p (gated n b (set_AuthenticatedAddrs X pf)) →
  moved n b verdict X addr s p pf ifs r s' →
  station_moved s pf addr verdict
    {| clients := X; pending := delete addr (deauthRequests (mon s)) |} r s'.
Proof.
  intros HI HI' [Hm _ _ _ Hc Hi Hv]. eexists _, ifs. split; [by eapply Inv_monitorPF|].
  unfold clientsOf. rewrite gated_addrs, gated_VFs, Hm.
  do 2 (split; [done|]). split; [by eexists _, _|]. split; [done|].
  rewrite <-(inv_name _ _ _ HI). intros Hr. split; [by apply Hi|]. apply Hv. by left.
Qed.


(** A disconnection: the station leaves the clients and the pending
    requests and is dropped by a tc filter on the interface and each of its VFs;
    every VF is programmed for the new set of clients. *)
Lemma handleDeAuthenticateEvent_correct addr s p pf :
  Inv s p pf →
  wp (handleDeAuthenticateEvent addr)
     (station_moved s pf addr "drop"
        {| clients := AuthenticatedAddrs pf ∖ {[addr]};
           pending := delete addr (deauthRequests (mon s)) |}) s.
Proof.
  intros HI. eapply wp_mono; [by apply wp_handleDeAuthenticateEvent|]. cbn beta.
  intros r s' [HI' (ifs & Hm)]. by eapply moved_station.
Qed.

(** A change of the operational state: when the link goes down every client
    is put on notice, when it comes up nobody is; the clients stay as they are
    and any other state changes nothing about them. *)
Lemma operState_correct link s p pf :
  Inv s p pf →
  wpx api_ok (handlePfEventForOpStateChange link) (λ _ s', ∃ pf',
    Inv s' p pf' ∧ AuthenticatedAddrs pf' = AuthenticatedAddrs pf ∧
    (OperState link = OperDown → dom (deauthRequests (mon s')) = AuthenticatedAddrs pf) ∧
    (OperState link = OperUp → deauthRequests (mon s') = ∅) ∧
    (OperState link ≠ OperDown → OperState link ≠ OperUp →
       deauthRequests (mon s') = deauthRequests (mon s))) s.
Proof.
  intros HI. unfold handlePfEventForOpStateChange. wp_step.
  eapply wp_mono; [by apply applyOpState_evolves; exists p, pf|]. cbn beta.
  intros [] s1 He. wp_step. pose proof (evolves_MonInv _ _ _ He) as HI1.
  eapply wp_any_P, wp_mono; [apply Write_evolves, HI1; by exists p, pf|]. cbn beta.
  intros r s2 He2. wp_step. pose proof (evolves_silent_r _ _ _ _ He He2) as He'.
  destruct (He' p pf HI) as (pf' & HI' & Hstep & _). exists pf'. split; [done|].
  unfold linkAction in Hstep.
  destruct (bool_decide_reflect (OperState link = OperDown)) as [Hd|Hd];
    [|destruct (bool_decide_reflect (OperState link = OperUp)) as [Hu|Hu]];
    inversion Hstep; naive_solver congruence.
Qed.

(** C20. A round of the timeout loop evicts only stations that have been on
    notice for the whole timeout, and evicts all that are on notice if all of
    them have been for that long; a station on notice is left only when the
    round met one that has not. *)
Theorem expireRequests_correct now s p pf :
  Inv s p pf →
  wp (expireRequests now) (λ _ s', ∃ R pf', Inv s' p pf' ∧
    clientsOf s' pf' = evict R (clientsOf s pf) ∧
    (∀ addr, addr ∈ R → expired now (clientsOf s pf) addr) ∧
    (R = dom (deauthRequests (mon s)) ∨
     ∃ addr, addr ∈ dom (deauthRequests (mon s)) ∖ R ∧ ¬ expired now (clientsOf s pf) addr) ∧
    (netlink_ok (IfName (mon s)) →
      all_programmed (trace (wld s)) pf → all_programmed (trace (wld s')) pf')) s.
Proof.
  intros HI. eapply wp_mono; [by apply wp_expireRequests|]. cbn beta.
  intros _ s' (R & [HR Hstop] & pf' & HI' & Hc & _ & _ & _ & Hv). by exists R, pf'.
Qed.
End handlers.

(** ** Witnesses for the handlers *)
Abbreviation quietDemo := (demo (calm [])).


Lemma handleDeAuthenticateEvent_correct_witness :
  wp (@handleDeAuthenticateEvent quietDemo "aa:bb")
     (@station_moved quietDemo (running ["aa:bb"] [("aa:bb", 5%Z)]) (demoPF true ["aa:bb"])
        "aa:bb" "drop"
        {| clients := AuthenticatedAddrs (demoPF true ["aa:bb"]) ∖ {["aa:bb"]};
           pending := delete "aa:bb"
             (deauthRequests (mon (running ["aa:bb"] [("aa:bb", 5%Z)]))) |})
     (running ["aa:bb"] [("aa:bb", 5%Z)]).
Proof.
  apply (@handleDeAuthenticateEvent_correct quietDemo _ "aa:bb"
    (running ["aa:bb"] [("aa:bb", 5%Z)]) 0%nat (demoPF true ["aa:bb"])).
  apply (running_Inv ["aa:bb"] [("aa:bb", 5%Z)]). repeat constructor.
Defined.

Lemma operState_correct_witness :
  let s := running ["aa:bb"] [] in
  wpx (@api_ok quietDemo)
    (@handlePfEventForOpStateChange quietDemo (demoLink OperDown)) (λ _ s', ∃ pf',
    Inv s' 0%nat pf' ∧ AuthenticatedAddrs pf' = AuthenticatedAddrs (demoPF true ["aa:bb"]) ∧
    (OperDown = OperDown →
      dom (deauthRequests (mon s')) = AuthenticatedAddrs (demoPF true ["aa:bb"])) ∧
    (OperDown = OperUp → deauthRequests (mon s') = ∅) ∧
    (OperDown ≠ OperDown → OperDown ≠ OperUp →
       deauthRequests (mon s') = deauthRequests (mon s))) s.
Proof.
  apply (@operState_correct quietDemo _ (demoLink OperDown)). by apply (running_Inv ["aa:bb"] []).
Defined.

Lemma expireRequests_correct_witness :
  let s := running ["aa:bb"] [("aa:bb", 5%Z)] in
  let pf := demoPF true ["aa:bb"] in
  let now := 2000005%Z in
  wp (@expireRequests quietDemo now) (λ _ s', ∃ R pf', Inv s' 0%nat pf' ∧
    clientsOf s' pf' = evict R (clientsOf s pf) ∧
    (∀ addr, addr ∈ R → expired now (clientsOf s pf) addr) ∧
    (R = dom (deauthRequests (mon s)) ∨
     ∃ addr, addr ∈ dom (deauthRequests (mon s)) ∖ R ∧ ¬ expired now (clientsOf s pf) addr) ∧
    (@netlink_ok quietDemo (IfName (mon s)) →
      all_programmed (trace (wld s)) pf → all_programmed (trace (wld s')) pf')) s.
Proof.
  apply (@expireRequests_correct quietDemo _). apply (running_Inv ["aa:bb"] [("aa:bb", 5%Z)]).
  repeat constructor.
Defined.

(** The comment in the timeout loop says that the requests after one that
    has not timed out have not either.  They may have: the loop ranges over a
    map, in no particular order, and an expired request can be left for a later
    round. *)
Lemma timeout_round_may_skip :
  ∃ (E : Sys) s s' now addr t, MonInv s ∧
    deauthRequests (mon s) !! addr = Some t ∧ (requestTimeout ≤ now - t)%Z ∧
    @expireRequests E now s = Done tt s' ∧ deauthRequests (mon s') !! addr = Some t.
Proof.
  pose (s := running ["aa:aa"; "aa:bb"] [("aa:aa", 2000000%Z); ("aa:bb", 5%Z)]).
  exists quietDemo, s, (set_wld (set_trace [EvRange] (wld s)) s), 2000005%Z.
  assert (MonInv s) as HI.
  { exists 0%nat, (demoPF true ["aa:aa"; "aa:bb"]).
    apply (running_Inv ["aa:aa"; "aa:bb"] [("aa:aa", 2000000%Z); ("aa:bb", 5%Z)]).
    repeat constructor. }
  exists "aa:bb", 5%Z. split; [done|]. split; [vm_compute; reflexivity|].
  split; [done|]. split; vm_compute; reflexivity.
Qed.
