(* ===== verification/LifecycleTheorems.v ===== *)
(** * Theorems about a monitor's life and its reports

    Starting and stopping, the two ways in which the monitor can be brought
    down, and what it reports: the status entry, the counters, and the state of
    the interface read from hostapd's reply. *)
From S2P Require Import Prelude GoStrings Api Sys TrafficControl TrafficControlSpec Hostap.
From S2P Require Import ClientSpec HostapSpec HostapReport HostapLife HostapSteps Demo.

(** ** Helper lemmas *)
Section helpers.
Context `{Sys}.

(** A write that times out, and one that does not. *)
Definition times_out (tr : Trace) (c : string) : Prop :=
  ∃ e, sysWrite tr c = Some e ∧ IsTimeout e = true.

Lemma Write_eq c s :
  hostApdConn (mon s) ≠ HNil →
  Write c s = Done (sysWrite (trace (wld s)) c)
    (set_wld (set_trace (EvWrite c (sysWrite (trace (wld s)) c) :: trace (wld s)) (wld s)) s).
Proof.
  intros Hc. unfold Write, gets, mbind, M_bind. by rewrite bool_decide_false.
Qed.

Lemma attachHostapd_done fuel s :
  hostApdConn (mon s) ≠ HNil → ¬ times_out (trace (wld s)) attachCommand →
  ∃ s', attachHostapd (S fuel) s =
    Done (Some (sysWrite (trace (wld s)) attachCommand)) s' ∧ watched s s'.
Proof.
  intros Hc Hto. cbn [attachHostapd]. unfold mbind, M_bind. rewrite Write_eq by done.
  destruct (sysWrite _ _) as [e|] eqn:Hw.
  - destruct (IsTimeout e) eqn:He; [destruct Hto; by exists e|].
    eexists. split; [done|]. apply watched_event. by apply quiet_event.
  - eexists. split; [done|]. apply watched_event. by apply quiet_event.
Qed.
End helpers.

(** ** Start and stop *)
Section life.
Context `{Sys} `{!LinkNames}.

(** Every VF of [pf] is on its own VLAN with its link in the automatic state. *)
Definition given_back (tr : Trace) (link : string) (pf : PFInfo) : Prop :=
  ∀ id vf, VFs pf !! id = Some vf →
    vfVlan tr link id = Some (Vlan vf) ∧ vfState tr link id = Some VF_LINK_STATE_AUTO.

Lemma stopped_given_back s p pf s' :
  Inv s p pf → stopped s p pf s' → netlink_ok (IfName (mon s)) →
  all_programmed (trace (wld s)) pf → given_back (trace (wld s')) (IfName (mon s)) pf.
Proof.
  intros HI Hst Hok Hall id vf Hvf.
  destruct (inv_wf _ _ _ HI id vf Hvf) as [_ <-]. rewrite <-(inv_name _ _ _ HI).
  by apply (stopped_restored _ _ _ _ Hst Hok Hall (VF_Index vf) vf).
Qed.

(** What [StartMonitor], run by itself, leaves. *)
Definition start_result (s : MState) (r : option (option error)) (s' : MState) : Prop :=
  match r with
  | Some (Some _) =>
      (PfInfo (mon s') = PfInfo (mon s) ∧ commands (trace (wld s')) = commands (trace (wld s))) ∨
      ∃ s1 p pf, started s s1 p pf ∧ stopped s1 p pf s' ∧
        (netlink_ok (IfName (mon s)) → given_back (trace (wld s')) (IfName (mon s)) pf)
  | _ => ∃ p pf, started s s' p pf
  end.

Lemma wp_StartMonitor fuel s :
  wpx no_null_entry (StartMonitor fuel) (start_result s) s.
Proof.
  unfold StartMonitor. wp_step. eapply wp_any_P, wp_mono; [apply wp_startUp|]. cbn beta.
  intros [e|] s1; [intros (Hp & _ & Hc & _); wp_step; by left|]. intros (p & pf & Hst).
  wp_step. eapply wp_any_P, wp_mono; [apply wp_attachHostapd, Hst|]. cbn beta.
  intros r s2 Hw. pose proof (started_watched _ _ _ _ _ Hst Hw) as Hst2.
  destruct r as [[e|]|]; [| |wp_step; by exists p, pf].
  - wp_step. eapply wp_any_P, wp_mono; [eapply wp_StopMonitor; apply Hst2|]. cbn beta.
    intros [] s3 Hs3. wp_step. right. exists s2, p, pf. do 2 (split; [done|]).
    rewrite <-(started_name _ _ _ _ Hst2). intros Hok.
    eapply stopped_given_back; [apply Hst2|done..|apply Hst2].
  - wp_step. eapply wp_any_P, wp_mono; [apply wp_Write, Hst2|]. cbn beta.
    intros r s3 Hw3. pose proof (started_watched _ _ _ _ _ Hst2 Hw3) as Hst3.
    wp_step. eapply wp_mono; [eapply wp_reportStatus_watched, Hst3|]. cbn beta.
    intros [] s4 Hw4. wp_step. exists p, pf. by eapply started_watched.
Qed.

(** C21. Starting a monitor, run by itself.  A start that reports success, or that is
    still trying to attach, leaves a monitor without clients and with nobody on
    notice, and every VF that the link listed on the reserved VLAN with its link
    disabled.  One that fails after the goroutines were started has told them to
    stop, and, if the netlink requests for the interface succeed ([netlink_ok]),
    every VF is back on the VLAN the link listed with its link in the automatic
    state; if they fail, [StopMonitor] only logs it and the VFs stay closed.  One
    that fails before has attached no PF to the monitor and not used tc.  A panic
    needs a status with a null entry from the API server ([no_null_entry]). *)
Theorem StartMonitor_correct fuel s :
  wpx no_null_entry (StartMonitor fuel) (λ r s', match r with
    | None | Some None => ∃ p pf, started s s' p pf
    | Some (Some _) =>
        (PfInfo (mon s') = PfInfo (mon s) ∧
         commands (trace (wld s')) = commands (trace (wld s))) ∨
        ∃ s1 p pf, started s s1 p pf ∧ stopped s1 p pf s' ∧
          (netlink_ok (IfName (mon s)) → given_back (trace (wld s')) (IfName (mon s)) pf)
    end) s.
Proof. eapply wp_mono; [apply wp_StartMonitor|]. by intros [[e|]|] s'. Qed.

(** C22. Starting returns: whether the API server is up or not, unless a status
    from it has a null entry ([no_null_entry]; [StartMonitor] panics there), and
    unless a write of the attach command times out, a single attempt to attach
    decides and [StartMonitor] ends with a result. *)
Theorem StartMonitor_returns fuel s :
  no_null_entry → (∀ tr, ¬ times_out tr attachCommand) →
  ∃ r s', StartMonitor (S fuel) s = Done (Some r) s'.
Proof.
  intros Hapi Hto. pose proof (wp_StartMonitor (S fuel) s) as Hwp.
  unfold wpx in Hwp. destruct (StartMonitor (S fuel) s) as [[r|] s'|w s'] eqn:Hrun;
    [by exists r, s'| |by destruct Hwp]. exfalso. clear Hwp. revert Hrun.
  pose proof (wp_startUp s) as Hst. unfold wpx in Hst.
  unfold StartMonitor, mbind, M_bind. destruct (startUp s) as [[e|] s1|]; [done| |done].
  destruct Hst as (p & pf & Hst).
  destruct (attachHostapd_done fuel s1 (inv_conn _ _ _ (started_inv _ _ _ _ Hst)) (Hto _))
    as (s2 & -> & _).
  destruct (sysWrite _ _) as [e|]; [by destruct (StopMonitor s2)|].
  destruct (writeCommand statusCommand s2) as [r3 s3|]; [|done]. by destruct (reportStatus s3).
Qed.

(** Stopping a monitor gives the VFs back: its goroutines are told to stop,
    its connection is closed, and, where the VFs were programmed as the gate said
    and netlink works, every VF is on its own VLAN with its link in the automatic
    state. *)
Lemma StopMonitor_restores s p pf :
  Inv s p pf →
  wp StopMonitor (λ _ s', stop (mon s') = HClosed ∧ hostApdConn (mon s') = HClosed ∧
    commands (trace (wld s')) = commands (trace (wld s)) ∧
    (netlink_ok (IfName (mon s)) → all_programmed (trace (wld s)) pf →
     given_back (trace (wld s')) (IfName (mon s)) pf)) s.
Proof.
  intros HI. eapply wp_mono; [by eapply wp_StopMonitor|]. cbn beta.
  intros [] s' Hst. do 3 (split; [apply Hst|]). by eapply stopped_given_back.
Qed.

(** ** What brings the monitor down *)

(** A failure of the API server while an event is recorded is fatal: the
    error is logged but the missing object is recorded all the same, which
    dereferences it.  Any authentication reported by hostapd then ends the
    process. *)
Lemma event_without_object_panics eventStr word addr rest s :
  Split eventStr blank = word :: addr :: rest → eventKey word = eapSuccessEvent →
  Client (mon s) = true → (∀ tr, ∃ e, sysGetAuth tr (AuthNsName (mon s)) = Err e) →
  ∃ w s', handleHostapdEvent eventStr s = Panic w s'.
Proof.
  intros Hsplit Hkey Hclient Hget. unfold handleHostapdEvent. rewrite Hsplit.
  assert (∃ w s', dispatchEvent (eventKey word) addr s = Panic w s') as (w & s1 & Hd).
  { unfold dispatchEvent. rewrite Hkey. unfold mbind, M_bind, gets. cbn [bool_decide].
    rewrite bool_decide_false, bool_decide_true by done. unfold logEvent, mbind, M_bind, gets.
    rewrite Hclient. cbn [negb]. unfold getAuthObject, gets, mbind, M_bind, world, zoom, observe.
    destruct (Hget (trace (wld s))) as [e He]. rewrite He. by eexists _, _. }
  unfold deferred. rewrite Hd. destruct (reportStatus s1); by eexists _, _.
Qed.
End life.

(** ** Reports *)
Section reports.
Context `{Sys} `{!LinkNames}.

(** C23. A status update: it takes between one and five attempts; each but the
    last ended in a conflict, and the last one, whose result is the update's, did
    not, or was the fifth.  Each attempt reads the Authenticator and, if it is
    returned, sends back the object just read, in which the first entry of the
    monitor's interface (or a new last one) is the interface's state with exactly
    the authenticated stations and nothing else is changed.  The attempts are all
    that happens.  A panic needs a status with a null entry ([no_null_entry]). *)
Theorem updateInterfaceStatus_correct s p pf :
  Inv s p pf → Client (mon s) = true →
  wpx no_null_entry updateInterfaceStatus (λ r s',
    watched s s' ∧ ∃ ts, on_conflict 5 ts r ∧
      Forall (λ t, match t with
        | Unread _ => True
        | Sent a a' _ => ∃ addrs l', addrs ≡ₚ elements (AuthenticatedAddrs pf) ∧
            entry_set (Status_Interfaces (Status a)) (ownEntry (mon s) addrs) l' ∧
            a' = set_Status_Interfaces l' a
        end) ts ∧
      trace (wld s') = attempts_trace (AuthNsName (mon s)) ts ++ trace (wld s)) s.
Proof.
  intros HI Hc. unfold updateInterfaceStatus. do 2 wp_step. rewrite Hc. cbn [negb].
  eapply wp_mono; [by apply (wp_RetryOnConflict_reported DefaultRetry_Steps _ _ _ HI); unfold
    DefaultRetry_Steps; lia|]. cbn beta. intros r s' [Hw Hts]. by split.
Qed.

(** An event's effect on the counters: one more authenticated station on
    EAP success, one less on disconnection, one more failure on EAP failure, in
    the series of the monitor's interface, and nothing on any other event. *)
Lemma handleHostapdEvent_counts eventStr s p pf :
  Inv s p pf →
  wpx api_ok (handleHostapdEvent eventStr) (λ _ s',
    stats s' = eventStats (IfName (mon s)) eventStr (stats s)) s.
Proof. apply wp_handleHostapdEvent_stats. Qed.
End reports.

(** ** The state of the interface *)

(** hostapd's reply to STATUS: a line [key=value] for each pair. *)
Definition replyLine (kv : string * string) : string := kv.1 +:+ String equals kv.2.
Definition statusReplyOf (kvs : list (string * string)) : string :=
  Join (map replyLine kvs ++ [""]) nl.

Definition word_ok (w : string) : bool := lacks newline w && lacks equals w.

Lemma addStatus_line m kv :
  word_ok kv.1 && word_ok kv.2 = true → addStatus m (replyLine kv) = <[kv.1 := kv.2]> m.
Proof.
  intros [[_ Hk]%andb_prop [_ Hv]%andb_prop]%andb_prop. unfold addStatus, replyLine.
  by rewrite Split_app, Split_lacks.
Qed.

Lemma replyLine_lacks_newline kv :
  word_ok kv.1 && word_ok kv.2 = true → lacks newline (replyLine kv) = true.
Proof.
  intros [[Hk _]%andb_prop [Hv _]%andb_prop]%andb_prop. unfold replyLine.
  rewrite lacks_app, Hk. done.
Qed.

Lemma foldl_addStatus kvs m :
  Forall (λ kv, word_ok kv.1 && word_ok kv.2 = true) kvs →
  foldl addStatus m (map replyLine kvs) = foldl (λ m kv, <[kv.1 := kv.2]> m) m kvs.
Proof.
  intros Hkvs. revert m. induction Hkvs as [|kv kvs Hkv _ IH]; intros m; [done|]. cbn.
  by rewrite addStatus_line.
Qed.

(** The interface's state is the one the last [state=] line of hostapd's
    reply names; a reply without one, or with a state the API does not know,
    gives Unknown. *)
Lemma getIfState_reply kvs :
  Forall (λ kv, word_ok kv.1 && word_ok kv.2 = true) kvs →
  getIfState (statusReplyOf kvs) =
  ifStateOf (default "" (foldl (λ m kv, <[kv.1 := kv.2]> m) (∅ : gmap string string) kvs !! "state")).
Proof.
  intros Hkvs. unfold getIfState, statusReplyOf, nl. rewrite Split_Join.
  - rewrite foldl_app, foldl_addStatus by done. cbn. by rewrite lookup_insert_ne.
  - by destruct kvs.
  - apply Forall_app. split; [|by constructor]. apply Forall_map.
    eapply Forall_impl; [done|]. intros kv. apply replyLine_lacks_newline.
Qed.

(** ** Witnesses *)
Lemma getIfState_reply_witness :
  getIfState (statusReplyOf [("state", "ENABLED"); ("phy", "")]) = IfStateEnabled.
Proof.
  rewrite (getIfState_reply [("state", "ENABLED"); ("phy", "")]);
    [vm_compute; reflexivity|repeat constructor].
Defined.

(** hostapd refuses to be attached to. *)
Definition refusing : Scenario :=
  {| messages := []; getAnswer := Ok demoAuth; updateAnswer := None;
     writeAnswer := Some (Error ROther "connection refused"); runAnswer := None;
     reversed := false |}.

Lemma StartMonitor_correct_witness :
  (∃ e s', @StartMonitor (demo refusing) 1 fresh_monitor = Done (Some (Some e)) s' ∧
     vfVlan (trace (wld s')) "ens1" 0 = Some 10%Z ∧
     vfState (trace (wld s')) "ens1" 0 = Some VF_LINK_STATE_AUTO) ∧
  wpx (@no_null_entry (demo refusing)) (@StartMonitor (demo refusing) 1) (λ r s', match r with
    | None | Some None => ∃ p pf, @started (demo refusing) fresh_monitor s' p pf
    | Some (Some _) =>
        (PfInfo (mon s') = PfInfo (mon fresh_monitor) ∧
         commands (trace (wld s')) = commands (trace (wld fresh_monitor))) ∨
        ∃ s1 p pf, @started (demo refusing) fresh_monitor s1 p pf ∧
          @stopped (demo refusing) s1 p pf s' ∧
          (@netlink_ok (demo refusing) (IfName (mon fresh_monitor)) →
            given_back (trace (wld s')) (IfName (mon fresh_monitor)) pf)
    end) fresh_monitor.
Proof.
  split.
  - eexists _, _. split; [vm_compute; reflexivity|split; vm_compute; reflexivity].
  - exact (@StartMonitor_correct (demo refusing) _ 1 fresh_monitor).
Defined.

Lemma StartMonitor_returns_witness :
  ∃ r s', @StartMonitor (demo (calm [])) 1 fresh_monitor = Done (Some r) s'.
Proof.
  apply (@StartMonitor_returns (demo (calm [])) _).
  - by apply demo_api_ok.
  - intros tr (e & [=] & _).
Defined.

Lemma StopMonitor_restores_witness :
  let s := running ["aa:bb"] [] in
  let pf := demoPF true ["aa:bb"] in
  wp (@StopMonitor (demo (calm []))) (λ _ s', stop (mon s') = HClosed ∧
    hostApdConn (mon s') = HClosed ∧
    commands (trace (wld s')) = commands (trace (wld s)) ∧
    (@netlink_ok (demo (calm [])) (IfName (mon s)) → all_programmed (trace (wld s)) pf →
     given_back (trace (wld s')) (IfName (mon s)) pf)) s.
Proof.
  apply (@StopMonitor_restores (demo (calm [])) _ _ 0%nat). by apply (running_Inv ["aa:bb"] []).
Defined.

(** The API server is gone when hostapd reports an authentication. *)
Definition apiDown : Scenario :=
  {| messages := []; getAnswer := Err (Error ROther "connection refused"); updateAnswer := None;
     writeAnswer := None; runAnswer := None; reversed := false |}.

Lemma event_without_object_panics_witness :
  ∃ w s', @handleHostapdEvent (demo apiDown) "<3>CTRL-EVENT-EAP-SUCCESS aa:bb"
            (running ["aa:bb"] []) = Panic w s'.
Proof.
  apply (@event_without_object_panics (demo apiDown) _ "<3>CTRL-EVENT-EAP-SUCCESS" "aa:bb" []).
  - reflexivity.
  - reflexivity.
  - reflexivity.
  - intros tr. by eexists.
Defined.

(** The API server answers every update with a conflict. *)
Definition conflicts : Scenario :=
  {| messages := []; getAnswer := Ok demoAuth; updateAnswer := Some (Error RConflict "changed");
     writeAnswer := None; runAnswer := None; reversed := false |}.

Lemma updateInterfaceStatus_correct_witness :
  let s := running ["aa:bb"] [] in let pf := demoPF true ["aa:bb"] in
  (∃ r s', @updateInterfaceStatus (demo conflicts) s = Done r s' ∧
     length (List.filter (λ e, match e with EvUpdateStatus _ _ => true | _ => false end)
       (trace (wld s'))) = 5%nat) ∧
  wpx (@no_null_entry (demo conflicts)) (@updateInterfaceStatus (demo conflicts)) (λ r s',
    watched s s' ∧ ∃ ts, on_conflict 5 ts r ∧
      Forall (λ t, match t with
        | Unread _ => True
        | Sent a a' _ => ∃ addrs l', addrs ≡ₚ elements (AuthenticatedAddrs pf) ∧
            entry_set (Status_Interfaces (Status a)) (ownEntry (mon s) addrs) l' ∧
            a' = set_Status_Interfaces l' a
        end) ts ∧
      trace (wld s') = attempts_trace (AuthNsName (mon s)) ts ++ trace (wld s)) s.
Proof.
  split.
  - eexists _, _. split; vm_compute; reflexivity.
  - apply (@updateInterfaceStatus_correct (demo conflicts) _ 0%nat).
    + by apply (running_Inv ["aa:bb"] []).
    + reflexivity.
Defined.

Lemma handleHostapdEvent_counts_witness :
  let s := running ["aa:bb"] [] in
  let ev := "<3>CTRL-EVENT-EAP-FAILURE aa:bb" in
  eventStats "ens1" ev noMetrics = stats_AuthFailed "ens1" noMetrics ∧
  wpx (@api_ok (demo (calm []))) (@handleHostapdEvent (demo (calm [])) ev) (λ _ s',
    stats s' = eventStats (IfName (mon s)) ev (stats s)) s.
Proof.
  split; [reflexivity|].
  apply (@handleHostapdEvent_counts (demo (calm [])) _ _ _ 0%nat (demoPF true ["aa:bb"])).
  by apply (running_Inv ["aa:bb"] []).
Defined.
