(* ===== verification/MonitorMain.v ===== *)
(** * The monitor's main program: monitor/main.go, the interfaces

    What [main] does to the interfaces before it starts a monitor on each of
    them and after it has stopped the monitors. *)
From S2P Require Import Prelude GoStrings Api Sys TrafficControl TrafficControlSpec.
From S2P Require Import Hostap ClientSpec HostapSpec HostapSteps Demo.

Section code.
Context `{Sys}.

Definition initInterfaces (interfaces : list string)
    (unprotectedTcpPorts unprotectedUdpPorts : list Z) : M World (option error) :=
  forE (λ iface,
    val! pfvfs := GetAssociatedInterfaces iface ;;
    forE (λ linkName,
      InitInterfaceForEAPTraffic linkName unprotectedTcpPorts unprotectedUdpPorts) pfvfs)
    interfaces.

Definition resetInterfaces (interfaces : list string) : M World (option error) :=
  forE (λ iface,
    val! pfvfs := GetAssociatedInterfaces iface ;;
    forE (λ linkName, ResetInterface linkName) pfvfs)
    interfaces.

(** ** Theorems *)

(** [script] was run for every link of every interface, in order, the links
    being what [GetAssociatedInterfaces] answered on the way. *)
Definition scripts_ran (script : string → list string) (ifaces : list string)
    (w w' : World) : Prop :=
  ∃ links, Forall2 (associated (trace w) (trace w')) ifaces links ∧
    commands (trace w') = commands (trace w) ++ (concat links ≫= script).

(** A loop of scripts over the links of one interface. *)
Lemma wp_script_links (m : string → M World (option error)) script links w :
  (∀ n w, wp (m n) (follows (script n) w) w) →
  wp (forE m links) (follows (links ≫= script) w) w.
Proof.
  intros Hm. revert w. induction links as [|n links IH]; intros w; cbn [forE].
  - apply wp_None_follows.
  - apply wp_check_follows; [apply Hm|]. intros w1. apply IH.
Qed.

Lemma associated_app tr1 tr2 tr3 tr4 n links :
  tr1 `suffix_of` tr2 → tr3 `suffix_of` tr4 →
  associated tr2 tr3 n links → associated tr1 tr4 n links.
Proof.
  intros H12 H34 (w1 & w2 & Hw1 & Hw2 & Hrun). exists w1, w2.
  split; [by etrans|]. split; [by etrans|done].
Qed.

Lemma wp_scripts (m : string → M World (option error)) script ifaces w :
  (∀ n w, wp (m n) (follows (script n) w) w) →
  wp (forE (λ iface, val! pfvfs := GetAssociatedInterfaces iface ;; forE m pfvfs) ifaces)
     (λ r w', (r = None → scripts_ran script ifaces w w') ∧ pfs w' = pfs w ∧
        same_vfs (trace w) (trace w') ∧ trace w `suffix_of` trace w') w.
Proof.
  intros Hm. apply (wp_forE _ (λ pre s, scripts_ran script pre w s ∧ pfs s = pfs w ∧
    same_vfs (trace w) (trace s) ∧ trace w `suffix_of` trace s)).
  - intros pre n post s _ ((links & Hlinks & Hcmd) & Hpfs & Hvfs & Hext). wp_step.
    eapply wp_mono; [apply wp_run, wp_GetAssociatedInterfaces|]. cbn beta.
    intros r s1 (Hrun & Hq & _). pose proof (transitivity Hvfs (quiet_vfs _ _ Hq)) as Hvfs1.
    destruct r as [l|e];
      [|split; [done|]; split; [by rewrite (quiet_pfs _ _ Hq)|]; split; [done|]; by etrans; [|apply Hq]].
    eapply wp_mono; [by apply wp_script_links|]. cbn beta.
    intros r s2 (cs & _ & [Hp2 Hv2 Hc2 Hext2] & Hall & _).
    pose proof (transitivity Hvfs1 Hv2) as Hvfs2.
    assert (pfs s2 = pfs w) as Hp by (rewrite Hp2, (quiet_pfs _ _ Hq); done).
    assert (trace s `suffix_of` trace s2) as Hext' by (etrans; [apply Hq|done]).
    destruct r as [e|];
      [by do 3 (split; [done|]); etrans|]. rewrite (Hall eq_refl) in Hc2.
    split; [|split; [done|split; [done|by etrans]]]. exists (links ++ [l]). split.
    + apply Forall2_app; [|constructor; [|done]].
      * eapply Forall2_impl; [done|]. intros n' l' Ha.
        eapply associated_app; [|exact Hext'|exact Ha]. done.
      * exists s, s1. split; [done|]. split; [done|done].
    + rewrite Hc2, (quiet_commands _ _ Hq), Hcmd, concat_app, bind_app. cbn.
      by rewrite app_nil_r, app_assoc.
  - by intros s (Hran & Hpfs & Hvfs & Hext).
  - split; [|done]. exists []. split; [done|]. cbn. by rewrite app_nil_r.
Qed.

(** Setting up: when it reports success, the set-up script was run on every
    interface and on each of its VFs, in order, and nothing else. *)
Lemma initInterfaces_correct isPF ifaces tcp udp w :
  (∀ tr n, bool_decide (is_Some (sysStat tr
     (FilepathJoin [sysClassNet; n; "device"; "sriov_numvfs"]))) = isPF n) →
  wp (initInterfaces ifaces tcp udp) (λ r w',
    (r = None → scripts_ran (λ n, initScript (isPF n) n tcp udp) ifaces w w') ∧
    pfs w' = pfs w ∧ same_vfs (trace w) (trace w') ∧ trace w `suffix_of` trace w') w.
Proof.
  intros Hpf. apply (wp_scripts _ (λ n, initScript (isPF n) n tcp udp)).
  intros n w1. by apply wp_InitInterfaceForEAPTraffic.
Qed.

(** Tearing down: when it reports success, the reset script was run on every
    interface and on each of its VFs, in order, and nothing else. *)
Lemma resetInterfaces_correct ifaces w :
  wp (resetInterfaces ifaces) (λ r w',
    (r = None → scripts_ran resetScript ifaces w w') ∧ pfs w' = pfs w ∧
    same_vfs (trace w) (trace w') ∧ trace w `suffix_of` trace w') w.
Proof. apply wp_scripts. apply wp_ResetInterface. Qed.
End code.

(** ** Witnesses *)
Lemma initInterfaces_correct_witness :
  let E := demo (calm []) in
  let w := demoWorld (demoPF false []) in
  wp (@initInterfaces E ["ens1"] [] [319%Z]) (λ r w',
    (r = None → @scripts_ran E (λ n, initScript true n [] [319%Z]) ["ens1"] w w') ∧
    pfs w' = pfs w ∧ same_vfs (trace w) (trace w') ∧ trace w `suffix_of` trace w') w.
Proof.
  apply (@initInterfaces_correct (demo (calm [])) (λ _, true)). intros tr n. reflexivity.
Defined.
