(* ===== verification/Process.v ===== *)
(** * The monitor process: monitor/main.go

    [main] prepares the interfaces, starts a monitor on each of them, waits for a
    signal and takes everything down again; [Life] has its steps.  Here are the
    state and what is true of several monitors at once.  They share the machine, the
    counters and the store of PFs; each goes through its own [MState], put together
    from its own part and the shared ones.

    Every interface has its own environment, since it has its own socket, its own
    link and its own place in the order of events.  A segment of one monitor is one
    step of the process too: what two monitors do at the same time concerns
    different PFs and different links, and the environments, which answer by the
    whole trace, can give each of them any answers. *)
From S2P Require Import Prelude GoStrings Api Sys TrafficControl TrafficControlSpec Hostap.
From S2P Require Import ClientSpec HostapSpec HostapLife HostapSteps HostapTheorems Demo.
From S2P Require Import MonitorMain.
From stdpp Require Import functions.

Record Running := { r_mon : InterfaceMonitor; r_threads : goroutine → prog }.

(** [monitors] are in the order of their starts; [todo] are the interfaces that
    the loop has still to come to. *)
Record Process := {
  p_world : World;
  p_stats : Metrics;
  monitors : list Running;
  todo : list string;
}.

(** One monitor as [HostapSteps] sees it, and the process after it has moved. *)
Definition config (P : Process) (r : Running) : Config :=
  {| st := {| mon := r_mon r; wld := p_world P; stats := p_stats P |}; threads := r_threads r |}.

Definition put (P : Process) (i : nat) (c : Config) : Process :=
  {| p_world := wld (st c); p_stats := stats (st c);
     monitors := <[i := {| r_mon := mon (st c); r_threads := threads c |}]> (monitors P);
     todo := todo P |}.

Section process.
Context (E : string → Sys) (nsName : string * string).

(** What [main] starts for the interface [n]. *)
Definition newMonitor (P : Process) (n : string) : MState :=
  {| mon := NewInterfaceMonitor n true nsName; wld := p_world P; stats := p_stats P |}.

(** ** The invariant of the process *)
Context {HE : ∀ n, @LinkNames (E n)}.

Definition nameOf (r : Running) : string := IfName (r_mon r).

(** Something that holds of every monitor, which have PFs and names of their own. *)
Record each (holds : nat → Process → Running → Prop) (ifaces : list string) (P : Process) : Prop := {
  pi_holds : ∀ i r, monitors P !! i = Some r → holds i P r;
  pi_refs : ∀ i j r r', monitors P !! i = Some r → monitors P !! j = Some r' →
    PfInfo (r_mon r) = PfInfo (r_mon r') → i = j;
  pi_names : (nameOf <$> monitors P) ++ todo P `sublist_of` ifaces;
}.

(** It concerns the monitor's own PF and link only. *)
Record own (holds : nat → Process → Running → Prop) : Prop := {
  own_PF : ∀ i P r, holds i P r →
    ∃ p, PfInfo (r_mon r) = Some p ∧ is_Some (pfs (p_world P) !! p);
  own_elsewhere : ∀ i P P' r q name,
    holds i P r → framed q name (p_world P) (p_world P') → PfInfo (r_mon r) ≠ Some q →
    nameOf r ≠ name → holds i P' r;
}.

Lemma put_lookup P i c j r :
  monitors (put P i c) !! j = Some r → i < length (monitors P) →
  (j = i ∧ r = {| r_mon := mon (st c); r_threads := threads c |}) ∨
  (j ≠ i ∧ monitors P !! j = Some r).
Proof.
  intros Hj Hi. cbn in Hj. apply list_lookup_insert_Some in Hj. naive_solver.
Qed.

Section each.
Context (holds : nat → Process → Running → Prop) (Hown : own holds) (ifaces : list string).
Context (Hnd : NoDup ifaces).

Lemma names_NoDup P : each holds ifaces P → NoDup ((nameOf <$> monitors P) ++ todo P).
Proof. intros HI. eapply sublist_NoDup; [exact Hnd|apply HI]. Qed.

Lemma names_apart P i j r r' :
  each holds ifaces P → monitors P !! i = Some r → monitors P !! j = Some r' →
  nameOf r = nameOf r' → i = j.
Proof.
  intros HI Hi Hj Hn. apply names_NoDup, list.NoDup_app in HI as [HI _].
  eapply (NoDup_lookup _ i j (nameOf r) HI); rewrite list_lookup_fmap; [by rewrite Hi|].
  by rewrite Hj, Hn.
Qed.

(** One monitor moves, and may hold something else afterwards. *)
Lemma each_moved holds' P i r p c' :
  each holds ifaces P → monitors P !! i = Some r → PfInfo (r_mon r) = Some p →
  framed p (nameOf r) (p_world P) (wld (st c')) →
  PfInfo (mon (st c')) = Some p → IfName (mon (st c')) = nameOf r →
  (∀ j r', j ≠ i → holds j (put P i c') r' → holds' j (put P i c') r') →
  holds' i (put P i c') {| r_mon := mon (st c'); r_threads := threads c' |} →
  each holds' ifaces (put P i c').
Proof.
  intros HI Hr Hp Hfr Hp' Hn Hothers Hi.
  assert (∀ j r', monitors (put P i c') !! j = Some r' →
    ∃ r'', monitors P !! j = Some r'' ∧ PfInfo (r_mon r') = PfInfo (r_mon r'')) as Hsame.
  { intros j r' [[-> ->]|[_ Hj]]%put_lookup; [|by exists r'|by eapply lookup_lt_Some].
    exists r. cbn. by rewrite Hp. }
  split.
  - intros j r' [[-> ->]|[Hne Hj]]%put_lookup; [done| |by eapply lookup_lt_Some].
    apply Hothers; [done|]. eapply (own_elsewhere _ Hown j P); [by apply (pi_holds _ _ _ HI)|done|..].
    + intros Hq. apply Hne. eapply (pi_refs _ _ _ HI); [done..|]. by rewrite Hp.
    + intros Hq. apply Hne. by eapply names_apart.
  - intros j k r1 r2 Hj Hk Heq. destruct (Hsame _ _ Hj) as (r1' & Hj' & H1).
    destruct (Hsame _ _ Hk) as (r2' & Hk' & H2). eapply (pi_refs _ _ _ HI); [done..|]. congruence.
  - cbn [put monitors todo]. rewrite list_fmap_insert, list_insert_id; [apply HI|].
    rewrite list_lookup_fmap, Hr. cbn. unfold nameOf. cbn. by rewrite Hn.
Qed.

(** No monitor has a PF that is not there yet. *)
Lemma each_new P p :
  each holds ifaces P → pfs (p_world P) !! p = None →
  ∀ i r, monitors P !! i = Some r → PfInfo (r_mon r) ≠ Some p.
Proof.
  intros HI Hno i r Hr Hp. destruct (own_PF _ Hown i P r) as (q & Hq & [pf Hpf]).
  - by apply (pi_holds _ _ _ HI).
  - congruence.
Qed.

(** No monitor has the name of an interface that is still to come. *)
Lemma each_to_come P n rest :
  each holds ifaces P → todo P = n :: rest → ∀ i r, monitors P !! i = Some r → nameOf r ≠ n.
Proof.
  intros HI Hn i r Hr <-. pose proof (names_NoDup _ HI) as (_ & Hdisj & _)%list.NoDup_app.
  eapply Hdisj; [|rewrite Hn; by left]. apply list_elem_of_fmap_2. by eapply list_elem_of_lookup_2.
Qed.

Lemma each_skipped P n rest w x :
  each holds ifaces P → todo P = n :: rest →
  (∃ p, pfs (p_world P) !! p = None ∧ framed p n (p_world P) w) →
  each holds ifaces {| p_world := w; p_stats := x; monitors := monitors P; todo := rest |}.
Proof.
  intros HI Hn (p & Hp & Hfr). split; cbn [monitors todo].
  - intros i r Hr. eapply (own_elsewhere _ Hown i P); [by apply (pi_holds _ _ _ HI)|done|..].
    + by eapply each_new.
    + by eapply each_to_come.
  - apply (pi_refs _ _ _ HI).
  - etrans; [|apply (pi_names _ _ _ HI)]. rewrite Hn. by apply sublist_app, sublist_cons.
Qed.

(** The process with the monitor that [startUp] has started. *)
Definition begun (P : Process) (rest : list string) (s1 : MState) : Process :=
  {| p_world := wld s1; p_stats := stats s1;
     monitors := monitors P ++ [{| r_mon := mon s1; r_threads := λ _, Next |}];
     todo := rest |}.

Lemma each_started P n rest s1 :
  each holds ifaces P → todo P = n :: rest →
  @startUp (E n) (newMonitor P n) = Done None s1 →
  (∀ p pf, @started (E n) (newMonitor P n) s1 p pf →
     holds (length (monitors P)) (begun P rest s1) {| r_mon := mon s1; r_threads := λ _, Next |}) →
  each holds ifaces (begun P rest s1).
Proof.
  intros HI Hn Hs1 Hholds. pose proof (@wp_startUp (E n) _ (newMonitor P n)) as Hst.
  unfold wpx in Hst. rewrite Hs1 in Hst. destruct Hst as (p & pf & Hst). specialize (Hholds p pf Hst).
  pose proof (each_new P p HI (started_new _ _ _ _ Hst)) as Hnew.
  pose proof (inv_pfinfo _ _ _ (started_inv _ _ _ _ Hst)) as Hp1.
  split; cbn [begun monitors todo].
  - intros i r [Hr|[Hi Hr]]%lookup_app_Some.
    + eapply (own_elsewhere _ Hown i P); [by apply (pi_holds _ _ _ HI)|apply Hst|by eapply Hnew|].
      by eapply each_to_come.
    + apply list_lookup_singleton_Some in Hr as [Hi' <-].
      by replace i with (length (monitors P)) by lia.
  - intros i j r r' Hi Hj Heq.
    apply lookup_app_Some in Hi as [Hi|[Hli Hi]], Hj as [Hj|[Hlj Hj]].
    + by eapply (pi_refs _ _ _ HI).
    + apply list_lookup_singleton_Some in Hj as [_ <-]. cbn in Heq. by destruct (Hnew _ _ Hi); congruence.
    + apply list_lookup_singleton_Some in Hi as [_ <-]. cbn in Heq. by destruct (Hnew _ _ Hj); congruence.
    + apply list_lookup_singleton_Some in Hi as [Hi _], Hj as [Hj _]. lia.
  - rewrite fmap_app, <-app_assoc. cbn. unfold nameOf at 2. cbn. rewrite (started_name _ _ _ _ Hst).
    cbn. rewrite <-Hn. apply HI.
Qed.
End each.

(** A monitor does not notice what happens to another PF and another link. *)
Lemma alive_elsewhere S {HS : @LinkNames S} c c' p pf q name :
  @alive S c p pf → mon (st c') = mon (st c) → threads c' = threads c →
  framed q name (wld (st c)) (wld (st c')) → p ≠ q → IfName (mon (st c)) ≠ name →
  @alive S c' p pf.
Proof.
  intros [[Hp Hpf Hn Hwf Hg Hd Hc Hs] Hv Hsafe] Hm Ht [Hfp Hfv Hext] Hq Hname.
  split; rewrite ?Hm, ?Ht.
  - split; rewrite ?Hm, ?Hfp; done.
  - intros Hok id vf Hvf. eapply programmed_same; [|by apply (Hv Hok id)].
    rewrite Hn. by apply Hfv.
  - intros g. by eapply (@safe_mono S).
Qed.

Lemma alive_ref S c p pf : @alive S c p pf → PfInfo (mon (st c)) = Some p.
Proof. intros [[] _ _]. done. Qed.

Lemma startUp_skipped P n e s1 :
  @startUp (E n) (newMonitor P n) = Done (Some e) s1 →
  ∃ p, pfs (p_world P) !! p = None ∧ framed p n (p_world P) (wld s1).
Proof.
  intros Hs1. pose proof (@wp_startUp (E n) _ (newMonitor P n)) as Hst. unfold wpx in Hst.
  rewrite Hs1 in Hst. apply Hst.
Qed.

(** Every VF of the PF is as it was found. *)
Definition restored (tr : Trace) (name : string) (pf : PFInfo) : Prop :=
  ∀ id vf, VFs pf !! id = Some vf →
    vfVlan tr name id = Some (Vlan vf) ∧ vfState tr name id = Some VF_LINK_STATE_AUTO.

Lemma restored_same tr tr' name pf :
  (∀ i, same_vf tr tr' name i) → restored tr name pf → restored tr' name pf.
Proof. intros Hs Hr id vf Hvf. destruct (Hs id), (Hr id vf Hvf). split; congruence. Qed.

(** Each VF is closed while there is no client and as it was found otherwise. *)
Definition isolated (tr : Trace) (name : string) (pf : PFInfo) : Prop :=
  let closed := bool_decide (AuthenticatedAddrs pf = ∅) in
  ∀ id vf, VFs pf !! id = Some vf →
    vfVlan tr name id = Some (if closed then ReservedVlan else Vlan vf) ∧
    vfState tr name id = Some (if closed then VF_LINK_STATE_DISABLE else VF_LINK_STATE_AUTO).

Lemma alive_isolated S c p pf :
  @alive S c p pf → @netlink_ok S (IfName (mon (st c))) →
  isolated (trace (wld (st c))) (IfName (mon (st c))) pf.
Proof.
  intros [HI Hv _] Hok id vf Hvf. destruct (inv_wf _ _ _ HI id vf Hvf) as [_ Hidx].
  destruct (Hv Hok id vf Hvf) as [Hvlan Hstate].
  rewrite (inv_name _ _ _ HI), Hidx, (inv_gate _ _ _ HI) in Hvlan, Hstate.
  rewrite Hvlan, Hstate. unfold expected.
  destruct (bool_decide_reflect (AuthenticatedAddrs pf = ∅)) as [He|He];
    [by rewrite bool_decide_false by by intros ?|by rewrite bool_decide_true].
Qed.

(** No start panics. *)
Lemma startUp_no_crash P n w s : @startUp (E n) (newMonitor P n) ≠ Panic w s.
Proof.
  intros Hs. pose proof (@wp_startUp (E n) _ (newMonitor P n)) as Hst. unfold wpx in Hst.
  by rewrite Hs in Hst.
Qed.

End process.

(** ** The start of a process, for the witnesses *)

(** Two interfaces; a station connects on the second one. *)
Definition demoEnv (n : string) : Sys :=
  demo (calm (if bool_decide (n = "ens2") then [connectMsg] else [])).

Definition setUp : World :=
  match @initInterfaces (demo (calm [])) ["ens1"; "ens2"] [] [] {| trace := []; pfs := ∅ |} with
  | Done _ w | Panic _ w => w
  end.

Definition demoBegin : Process :=
  {| p_world := setUp; p_stats := noMetrics; monitors := []; todo := ["ens1"; "ens2"] |}.

Lemma demoNames : NoDup ["ens1"; "ens2"].
Proof. apply (bool_decide_unpack _). vm_compute. exact I. Qed.
