(* ===== verification/Startup.v ===== *)
(** * From the pod to the monitors: monitor/main.go up to its loop

    [main] reads its settings from the environment of the container, its
    Authenticator from the labels of the pod, and sets the interfaces up.  The
    theorem puts the generator of the DaemonSet, the kubelet's labels file and the
    monitor's own reading of both together. *)
From S2P Require Import Logging Prelude GoStrings Api ConfigGen MonitorArgs Labels.
From S2P Require Import Sys TrafficControl TrafficControlSpec Hostap ClientSpec HostapSpec.
From S2P Require Import HostapSteps Demo MonitorMain Process.

(** The flags of the program, each with its default from the environment. *)
Record Flags := {
  f_interfaces : option string;
  f_tcpPorts : option string;
  f_udpPorts : option string;
  f_logLevel : string;
}.

(** The flags in a pod of the DaemonSet, whose command has no arguments. *)
Definition podFlags (ds : DaemonSet) : Flags :=
  {| f_interfaces := containerEnv ds "hostapd-monitor" "IFACES";
     f_tcpPorts := containerEnv ds "hostapd-monitor" "UNPROTECTED_TCP_PORTS";
     f_udpPorts := containerEnv ds "hostapd-monitor" "UNPROTECTED_UDP_PORTS";
     f_logLevel := LevelInfo |}.

(** A failed step: [os.Exit(1)]. *)
Definition orExit {A B} (r : result A) (k : A → M World (result B)) : M World (result B) :=
  match r with
  | Ok a => k a
  | Err e => mret (Err e)
  end.

(** What comes before the loop over the interfaces; [labels], [getClient] and
    [eventRecorder] are what opening the labels file and constructing the clients
    of the API server give, [pipe] what opening a pipe for the log does. *)
Definition startup `{Sys} (flags : Flags) (pipe : result unit) (labels : result string)
    (getClient eventRecorder : result unit) (x : Metrics) : M World (result (NsName * Process)) :=
  orExit (snd (Init pipe (f_logLevel flags) klogInit)) (λ _,
  orExit (readSettings (f_interfaces flags) (f_tcpPorts flags) (f_udpPorts flags)) (λ st,
  match readAuth labels with
  | Panic why _ => panic why
  | Done authObjKey _ =>
      orExit authObjKey (λ n,
      orExit getClient (λ _,
      orExit eventRecorder (λ _,
        err ← initInterfaces (ifaces st) (allowedTcpPorts st) (allowedUdpPorts st);
        match err with
        | Some e => mret (Err e)
        | None =>
            w ← gets id;
            mret (Ok (n, {| p_world := w; p_stats := x; monitors := []; todo := ifaces st |}))
        end)))
  end)).

(** From the Authenticator to its monitors: in a pod of the generated
    DaemonSet, whose labels file has the pod's labels among others, the program
    gets past its settings, sets up exactly the interfaces of the specification
    with its ports, and goes on, if that works, to start a monitor on each of them,
    in order, for that very Authenticator. *)
Lemma startup_serves_authenticator `{Sys} g labels x w :
  let sp := Spec (a11r g) in
  Interfaces sp ≠ [] → Forall (λ i, ifname_ok i = true) (Interfaces sp) →
  (length (specPorts Tcp sp) ≤ 1)%nat → (length (specPorts Udp sp) ≤ 1)%nat →
  Forall (λ p, int_ok p = true) (specPorts Tcp sp ++ specPorts Udp sp) →
  Forall (λ kv, label_ok kv = true) labels → NoDup labels.*1 →
  map_Forall (λ k v, (k, v) ∈ labels) (podLabels g) →
  Namespace (a11r g) ≠ "" → Name (a11r g) ≠ "" →
  startup (podFlags (fst (Daemonset g))) (Ok tt) (Ok (labelsFile labels)) (Ok tt) (Ok tt) x w =
  match initInterfaces (Interfaces sp) (specPorts Tcp sp) (specPorts Udp sp) w with
  | Done None w' =>
      Done (Ok ({| authNs := Namespace (a11r g); authName := Name (a11r g) |},
                {| p_world := w'; p_stats := x; monitors := []; todo := Interfaces sp |})) w'
  | Done (Some e) w' => Done (Err e) w'
  | Panic why w' => Panic why w'
  end.
Proof.
  intros sp Hne Hifs Htcp Hudp Hports Hok Hnd Hpod Hns Hname. unfold startup.
  change (f_interfaces _) with (containerEnv (fst (Daemonset g)) "hostapd-monitor" "IFACES").
  change (snd (Init _ _ _)) with (Ok (With (NewFilter (With NewJSONLogger "ts") AllowInfo) "caller")). cbn [orExit].
  change (readSettings _ _ _) with (podSettings (fst (Daemonset g))).
  rewrite podSettings_roundtrip by done. cbn [orExit].
  assert (∃ n, readAuth (Ok (labelsFile labels)) =
    Done (Ok {| authNs := Namespace (a11r g); authName := Name (a11r g) |}) n) as [n ->].
  { apply readAuth_labels; try done; apply Hpod; unfold podLabels.
    - by rewrite lookup_insert_ne, lookup_insert_eq.
    - by rewrite lookup_insert_eq. }
  cbn [orExit ifaces allowedTcpPorts allowedUdpPorts]. fold sp.
  unfold mbind, M_bind. by destruct (initInterfaces _ _ _ w) as [[e|] w1|].
Qed.

(** ** Witness *)
Lemma startup_serves_authenticator_witness :
  let labels := [("app", AppId); (AuthName, "authenticator-sample"); (AuthNamespace, "default");
                 ("pod-template-generation", "1")] in
  let w := {| trace := []; pfs := ∅ |} in
  @startup (demo (calm [])) (podFlags (fst (Daemonset (sampleGen [] [319%Z]))))
    (Ok tt) (Ok (labelsFile labels)) (Ok tt) (Ok tt) noMetrics w =
  match @initInterfaces (demo (calm [])) ["ens3f0"; "ens3f1"] [] [319%Z] w with
  | Done None w' =>
      Done (Ok ({| authNs := "default"; authName := "authenticator-sample" |},
                {| p_world := w'; p_stats := noMetrics; monitors := [];
                   todo := ["ens3f0"; "ens3f1"] |})) w'
  | Done (Some e) w' => Done (Err e) w'
  | Panic why w' => Panic why w'
  end.
Proof.
  apply (@startup_serves_authenticator (demo (calm [])) (sampleGen [] [319%Z])); cbn.
  - done.
  - repeat constructor.
  - lia.
  - lia.
  - repeat constructor.
  - repeat constructor.
  - apply (bool_decide_unpack _). vm_compute. exact I.
  - apply (bool_decide_unpack _). vm_compute. exact I.
  - done.
  - done.
Defined.
