(* ===== verification/Stopping.v ===== *)
(** * Stopping a monitor while its goroutines run

    [HostapSteps] describes a monitor up to the call of [StopMonitor].  Here the
    call is a program of segments too, interleaved with the goroutines.  None of it
    holds [addrMutex], so every reading or writing of what the goroutines share,
    and every request, is a segment of its own.  The loops see [m.stop] when they
    come back to their [select]; an update that the link handler passes on is part
    of [Life].  The call is over when all four goroutines have returned. *)
From S2P Require Import Prelude GoStrings Api Sys TrafficControl TrafficControlSpec Hostap.
From S2P Require Import ClientSpec HostapSpec HostapLife HostapSteps Confined HostapTheorems.
From stdpp Require Import functions.
From Stdlib Require Import Relation_Operators Lexicographic_Product Inverse_Image Wf_nat.

(** What the threads of a monitor have left to do. *)
Abbreviation ranks := (prog * (prog * (prog * (prog * prog))))%type.

Section code.
Context `{Sys}.

(** ** [StopMonitor] in segments *)

(** From its end: [m.stopWg.Wait()], [m.hostApdConn.Close()],
    [m.IfEventHandler.Unsubscribe(m.IfName)], [close(m.stop)]. *)
Definition closedConnProg : prog := seg Silent (emit EvWait) Return.

Definition unsubscribedProg : prog := seg Silent closeConn closedConnProg.

Definition closedProg : prog :=
  seg Silent (ifName ← gets (λ s, IfName (mon s)); emit (EvUnsubscribe ifName)) unsubscribedProg.

Definition closingProg : prog := seg Silent closeStop closedProg.

(** [*vfInfo], by the pointer that the [range] has given: the entries of the map
    stay where they are, and only their VLAN is ever assigned to. *)
Definition derefVF (id : Z) (vf : VFInfo) : M World VFInfo :=
  pf ← readPF (Parent vf);
  mret (default vf (VFs pf !! id)).

(** [vfInfo.ConfigureVlanState()], and [next] unless it fails: its two requests,
    and before them its readings. *)
Definition setStateProg (pfLink : Link) (vf : VFInfo) (state : Z) (next : prog) : prog :=
  Seg Silent (
    err ← world (LinkSetVfState pfLink (VF_Index vf) state);
    mret match err with Some _ => closingProg | None => next end).

Definition setVlanProg (pfLink : Link) (vf : VFInfo) (vlan state : Z) (next : prog) : prog :=
  Seg Silent (
    err ← world (LinkSetVfVlan pfLink (VF_Index vf) vlan);
    mret match err with Some _ => closingProg | None => setStateProg pfLink vf state next end).

Definition readVlanProg (pfLink : Link) (id : Z) (vf : VFInfo) (next : prog) : prog :=
  Seg Silent (
    vf' ← world (derefVF id vf);
    mret (setVlanProg pfLink vf (Vlan vf') VF_LINK_STATE_AUTO next)).

Definition readStateProg (pfLink : Link) (id : Z) (vf : VFInfo) (next : prog) : prog :=
  Seg Silent (
    parent ← world (readPF (Parent vf));
    mret (if negb (Authenticated parent)
          then setVlanProg pfLink vf ReservedVlan VF_LINK_STATE_DISABLE next
          else readVlanProg pfLink id vf next)).

Definition configureProg (id : Z) (vf : VFInfo) (next : prog) : prog :=
  Seg Silent (
    r ← world (parent ← readPF (Parent vf); LinkByName (PF_Name parent));
    mret match r with
         | Err _ => closingProg
         | Ok pfLink => readStateProg pfLink id vf next
         end).

(** The VFs that [ConfigureVlanStateForVFs] has still to come to. *)
Fixpoint restoreProg (vfs : list (Z * VFInfo)) : prog :=
  match vfs with
  | [] => closingProg
  | (id, vf) :: vfs' => configureProg id vf (restoreProg vfs')
  end.

Definition restoringProg (p : ref) : prog :=
  Seg Silent (
    vfs ← world (pf ← readPF p; rangeOrder (map_to_list (VFs pf)));
    mret (restoreProg vfs)).

Definition stopProg : prog :=
  Seg Silent (
    o ← gets (λ s, PfInfo (mon s));
    match o with
    | None => mret closingProg
    | Some p =>
        pf ← world (readPF p);
        mret (if negb (Authenticated pf) then
                seg Silent (world (updatePF p (set_Authenticated true))) (restoringProg p)
              else closingProg)
    end).

(** ** The segments are [StopMonitor] *)
Lemma runs_closingProg s :
  runs closingProg s = final (
    _ ← closeStop;
    ifName ← gets (λ s, IfName (mon s));
    _ ← emit (EvUnsubscribe ifName);
    _ ← closeConn;
    emit EvWait) s.
Proof.
  unfold closingProg, closedProg, unsubscribedProg, closedConnProg, seg, final. cbn [runs].
  unfold mbind, M_bind. destruct (closeStop s) as [[] s1|]; [|done]. cbn.
  by destruct (closeConn _) as [r s2|].
Qed.

Lemma readPF_there p pf w : pfs w !! p = Some pf → readPF p w = Done pf w.
Proof. intros Hp. unfold readPF, gets, mbind, M_bind. by rewrite Hp. Qed.

Lemma world_run {A} (m : M World A) s :
  world m s = match m (wld s) with
              | Done a w => Done a (set_wld w s)
              | Panic e w => Panic e (set_wld w s)
              end.
Proof. done. Qed.

(** Run without interruption, [restoreProg] finds the VLANs that the [range] did. *)
Lemma runs_configureProg p pf id vf next s :
  pfs (wld s) !! p = Some pf → VFs pf !! id = Some vf → Parent vf = p →
  runs (configureProg id vf next) s =
  match world (ConfigureVlanState vf) s with
  | Done None s' => runs next s'
  | Done (Some _) s' => runs closingProg s'
  | Panic _ _ => None
  end.
Proof.
  intros Hp Hvf Hpar. unfold configureProg, ConfigureVlanState, checkVal, check. rewrite runs_Seg.
  unfold mbind, M_bind. rewrite !world_run, !Hpar, !(readPF_there p pf) by done.
  unfold LinkByName, observe. destruct (sysLinkByName _ _) as [pfLink|e]; [|done].
  cbn [mret M_ret]. unfold readStateProg. rewrite runs_Seg. unfold mbind, M_bind.
  rewrite world_run, !Hpar, !(readPF_there p pf) by done. cbn [mret M_ret].
  destruct (negb (Authenticated pf)); [|unfold readVlanProg; rewrite runs_Seg; unfold mbind, M_bind;
    rewrite world_run; unfold derefVF, mbind, M_bind; rewrite !Hpar, !(readPF_there p pf) by done;
    cbn [mret M_ret default]; rewrite Hvf];
    unfold setVlanProg; rewrite runs_Seg; unfold mbind, M_bind; rewrite world_run;
    unfold LinkSetVfVlan, observe; cbn [wld set_wld default];
    (destruct (sysSetVfVlan _ _ _ _) as [e|]; [done|]); cbn [mret M_ret];
    unfold setStateProg; rewrite runs_Seg; unfold mbind, M_bind; rewrite world_run;
    unfold LinkSetVfState, observe; cbn [wld set_wld default];
    by destruct (sysSetVfState _ _ _ _).
Qed.

Lemma runs_restoreProg `{!LinkNames} p pf vfs s :
  pf_wf p pf → (∀ id vf, (id, vf) ∈ vfs → VFs pf !! id = Some vf) → pfs (wld s) !! p = Some pf →
  runs (restoreProg vfs) s =
  match world (forE (λ '(_, vfInfo), ConfigureVlanState vfInfo) vfs) s with
  | Done _ s' => runs closingProg s'
  | Panic _ _ => None
  end.
Proof.
  intros Hwf. revert s. induction vfs as [|[id vf] vfs IH]; intros s Hin Hp; cbn [restoreProg forE].
  - unfold world, zoom. cbn [mret M_ret]. by rewrite set_wld_id.
  - assert (VFs pf !! id = Some vf) as Hvf by (apply Hin; by left).
    destruct (Hwf id vf Hvf) as [Hpar _].
    rewrite (runs_configureProg p pf), !world_run by done. unfold check, mbind, M_bind.
    pose proof (wp_ConfigureVlanState vf pf (wld s)) as Hw. rewrite Hpar in Hw. specialize (Hw Hp).
    unfold wpx in Hw. destruct (ConfigureVlanState vf (wld s)) as [[e|] w|]; [done| |done].
    destruct Hw as [Hnl _]. cbn [mret M_ret]. rewrite IH; [by rewrite world_run| |].
    + intros id' vf' Hin'. apply Hin. by right.
    + cbn. by rewrite (nl_pfs _ _ Hnl).
Qed.

Lemma runs_stopProg `{!LinkNames} p pf s :
  PfInfo (mon s) = Some p → pfs (wld s) !! p = Some pf → pf_wf p pf →
  runs stopProg s = final StopMonitor s.
Proof.
  intros Hpf Hp Hwf. set (tail := _ ← closeStop; ifName ← gets (λ s, IfName (mon s));
    _ ← emit (EvUnsubscribe ifName); _ ← closeConn; emit EvWait).
  assert (world (readPF p) s = Done pf s) as Hread
    by (rewrite world_run, (readPF_there p pf), set_wld_id; done).
  unfold stopProg, StopMonitor. rewrite runs_Seg. unfold mbind at 1, M_bind at 1. cbn [gets].
  rewrite !final_bind, Hpf. cbn [gets]. change (λ _, closeStop ≫= _) with (λ _ : unit, tail).
  unfold final, mbind, M_bind. rewrite Hpf, !Hread. cbn [mret M_ret].
  destruct (negb (Authenticated pf)); [|by etrans; [apply runs_closingProg|]].
  rewrite runs_seg, !world_run. unfold updatePF, mbind, M_bind.
  rewrite !(readPF_there p pf) by done. cbn [modify]. rewrite !world_run. cbn [wld set_wld].
  set (w1 := set_pfs _ _). set (pf1 := set_Authenticated true pf).
  assert (pfs w1 !! p = Some pf1) as Hp1 by apply lookup_insert_eq.
  unfold restoringProg. rewrite runs_Seg. unfold mbind, M_bind. rewrite world_run. cbn [wld set_wld].
  unfold ConfigureVlanStateForVFs, mbind, M_bind.
  rewrite !(readPF_there p pf1) by done. unfold rangeOrder. cbn [mret M_ret].
  rewrite (runs_restoreProg p pf1).
  - rewrite world_run. cbn [wld set_wld]. destruct (forE _ _ _) as [r w4|]; [|done].
    by etrans; [apply runs_closingProg|].
  - done.
  - intros id vf Hin. rewrite sysOrder_perm in Hin. by apply elem_of_map_to_list in Hin.
  - exact Hp1.
Qed.

(** ** The system *)
Definition set_thread (g : goroutine) (p : prog) (c : Config) : Config :=
  {| st := st c; threads := <[g := p]> (threads c) |}.

(** A goroutine goes on: a segment, the next round of a loop unless [m.stop] is
    closed, and the return of one that finds it closed.  [handleIfEvents] waits for
    an update. *)
Inductive go_step (c : Config) (g : goroutine) : Config → Prop :=
| go_segment a m p' s' :
    threads c g = Seg a m → m (st c) = Done p' s' →
    go_step c g {| st := s'; threads := <[g := p']> (threads c) |}
| go_round link :
    g ≠ IfEvents → threads c g = Next → stop (mon (st c)) ≠ HClosed →
    go_step c g (set_thread g (round g (IfName (mon (st c))) link) c)
| go_return :
    g ≠ Main → threads c g = Next → stop (mon (st c)) = HClosed →
    go_step c g (set_thread g Return c).

(** [m.stopWg.Wait()] and with it [StopMonitor] has returned. *)
Definition over (c : Config) : Prop := ∀ g, threads c g = Return.

Lemma set_thread_eq g q c : threads (set_thread g q c) g = q.
Proof. apply fn_lookup_insert. Qed.

Lemma set_thread_ne g g' q c : g ≠ g' → threads (set_thread g q c) g' = threads c g'.
Proof. intros Hne. unfold set_thread. cbn. by rewrite fn_lookup_insert_ne. Qed.

(** ** What the threads keep *)
Section confined.
Context `{!LinkNames} (p : ref) (n : string).

(** [StopMonitor] once it has closed [m.stop], and up to that point. *)
Definition ending (q : prog) : Prop :=
  q = closedProg ∨ q = unsubscribedProg ∨ q = closedConnProg ∨ q = Return.

Definition at_closing (q : prog) : Prop := q = closingProg.

Lemma confined_closeConn : confined p n closeConn.
Proof.
  intros s [Hp Hn Hc Hpf]. unfold closeConn. wp_step. wp_step.
  destruct (hostApdConn (mon s)) eqn:Hconn; [done|..]; unfold updateMon;
    wp_step; wp_step; apply wp_world, wp_observe; cbn;
    (split; [split|split]); try done; by apply quiet_PF; [apply quiet_event|].
Qed.

(** What [ConfigureVlanState] asks for concerns the monitor's own link. *)
Lemma confined_request {A} (answer : Trace → A) ev :
  (∀ a, commandOf (ev a) = None) →
  (∀ a l i v r, ev a = EvSetVfVlan l i v r → l = n) →
  (∀ a l i v r, ev a = EvSetVfState l i v r → l = n) →
  confined p n (world (observe answer ev)).
Proof.
  intros Hc Hv Hs. apply confined_world. intros w pf Hpf Hn Hwf. apply wp_observe.
  split; [split; cbn|by exists pf].
  - done.
  - intros l i Hl. specialize (Hv (answer (trace w))). specialize (Hs (answer (trace w))).
    unfold same_vf. cbn. destruct (ev (answer (trace w))); try done; (destruct r; [done|]);
      rewrite bool_decide_false by naive_solver; done.
  - by apply suffix_cons_r.
Qed.

Lemma confined_setVlanProg L pfLink vf vlan state next :
  Link_Name pfLink = n → confined_prog p n L closingProg → confined_prog p n L next →
  confined_prog p n L (setVlanProg pfLink vf vlan state next).
Proof.
  intros Hl Hc Hnext.
  apply confined_ask; [apply confined_request; [done|by intros ????? [= <-]|done]|].
  intros [e|]; [done|].
  apply confined_ask; [apply confined_request; [done|done|by intros ????? [= <-]]|].
  by intros [e|].
Qed.

Lemma confined_derefVF id vf : Parent vf = p → confined p n (world (derefVF id vf)).
Proof.
  intros Hvf. apply confined_world. intros w pf Hpf Hn Hwf. unfold derefVF. wp_step.
  rewrite Hvf. eapply wp_readPF; [done|]. wp_step. split; [done|by exists pf].
Qed.

Lemma confined_configureProg L id vf next :
  Parent vf = p → confined_prog p n L closingProg → confined_prog p n L next →
  confined_prog p n L (configureProg id vf next).
Proof.
  intros Hvf Hc Hnext. apply confined_Seg. intros s Hs.
  pose proof (at_PF _ _ _ Hs) as (pf & Hpf & Hname & Hwf). wp_step.
  apply wp_world. wp_step. rewrite Hvf. eapply wp_readPF; [done|]. apply wp_observe. wp_step.
  destruct (quiet_PF p n (wld s)
    (set_trace (EvLinkByName (PF_Name pf) (sysLinkByName (trace (wld s)) (PF_Name pf)) :: trace (wld s)) (wld s)))
    as [Hfr Hpf']; [by apply quiet_event|by exists pf|].
  split; [by destruct Hs; split|]. split; [by split|].
  destruct (sysLinkByName _ _) as [pfLink|e] eqn:Hl; [|done].
  apply link_name in Hl. rewrite Hname in Hl.
  apply confined_ask; [rewrite Hvf; apply confined_readPF|]. intros parent.
  destruct (negb _); [by apply confined_setVlanProg|].
  apply confined_ask; [by apply confined_derefVF|]. intros vf'. by apply confined_setVlanProg.
Qed.

Lemma confined_restoreProg vfs :
  (∀ id vf, (id, vf) ∈ vfs → Parent vf = p) → confined_prog p n at_closing (restoreProg vfs).
Proof.
  induction vfs as [|[id vf] vfs IH]; intros Hvfs; cbn [restoreProg]; [by apply confined_leaf|].
  apply confined_configureProg; [eapply Hvfs; by left|by apply confined_leaf|].
  apply IH. intros id' vf' Hin. eapply Hvfs. by right.
Qed.

Lemma confined_restoringProg : confined_prog p n at_closing (restoringProg p).
Proof.
  apply confined_Seg. intros s Hs. pose proof (at_PF _ _ _ Hs) as (pf & Hpf & Hname & Hwf).
  wp_step. apply wp_world. wp_step. eapply wp_readPF; [done|].
  eapply wp_any_P, wp_mono; [apply wp_rangeOrder|]. cbn beta. intros vfs w' [Hperm Hq].
  destruct (quiet_PF p n _ _ Hq (at_PF _ _ _ Hs)) as [Hfr Hpf'].
  wp_step. split; [by destruct Hs; split|]. split; [by split|].
  apply confined_restoreProg. intros id vf Hin. rewrite Hperm, elem_of_map_to_list in Hin.
  by apply (Hwf id vf).
Qed.

Lemma confined_stopProg : confined_prog p n at_closing stopProg.
Proof.
  apply confined_Seg. intros s Hs. wp_step. wp_step. rewrite (at_pfinfo _ _ _ Hs). revert s Hs.
  change (confining p n at_closing (pf ← world (readPF p);
    mret (if negb (Authenticated pf) then
            seg Silent (world (updatePF p (set_Authenticated true))) (restoringProg p)
          else closingProg))).
  apply confining_bind; [apply confined_readPF|]. intros pf. apply confining_ret.
  destruct (negb _); [|by apply confined_leaf].
  apply confined_seg; [by apply confined_updatePF|apply confined_restoringProg].
Qed.

(** A segment before [q0]. *)
Lemma seg_step {A} (m : M MState A) q0 s q s' :
  confined p n m → attached p n s → ((_ ← m; mret q0) : M MState prog) s = Done q s' →
  attached p n s' ∧ touches p n s s' ∧ q = q0.
Proof.
  intros Hm Hs Hd. specialize (Hm s Hs). unfold wpx in Hm. unfold mbind, M_bind in Hd.
  destruct (m s) as [a s1|]; [|done]. injection Hd as <- <-. by destruct Hm.
Qed.

Lemma ending_step q a m s q' s' :
  ending q → q = Seg a m → attached p n s → m s = Done q' s' →
  attached p n s' ∧ touches p n s s' ∧ ending q'.
Proof.
  assert (confined p n (ifName ← gets (λ s, IfName (mon s)); emit (EvUnsubscribe ifName))) as Hun.
  { apply keeps_bind; [apply keeps_gets|]. intros ifName. by apply confined_emit. }
  intros [-> |[-> |[-> | ->]]] Hq Hs Hm; [injection Hq as _ <-..|done];
    (eapply seg_step in Hm as (Hs' & Ht & ->); [|first [exact Hun|apply confined_closeConn|by apply confined_emit]|exact Hs]);
    (split; [done|]; split; [done|]); unfold ending; auto.
Qed.

Lemma ending_panic q a m s w s' :
  ending q → q = Seg a m → attached p n s → m s ≠ Panic w s'.
Proof.
  intros [-> |[-> |[-> | ->]]] Hq Hs; [injection Hq as _ <-..|done]; [done| |done].
  unfold closeConn, mbind, M_bind, gets. pose proof (at_conn _ _ _ Hs) as Hc.
  by destruct (hostApdConn (mon s)).
Qed.

(** The goroutines of a monitor that runs. *)
Definition goes_ok (c : Config) : Prop :=
  ∀ g, g ≠ Main → confined_prog p n (goes g) (threads c g).

(** The state of a stop: where [StopMonitor] is, and whether [m.stop] is closed. *)
Record stop_inv (c : Config) : Prop := {
  si_attached : attached p n (st c);
  si_main :
    (stop (mon (st c)) = HOpen ∧ confined_prog p n at_closing (threads c Main)) ∨
    (stop (mon (st c)) = HClosed ∧ ending (threads c Main));
  si_loops : ∀ g, g ≠ Main → confined_prog p n loops (threads c g);
}.

Lemma segment_confined L g a m c q s' :
  attached p n (st c) → confined_prog p n L (threads c g) → ¬ L (threads c g) →
  threads c g = Seg a m → m (st c) = Done q s' →
  attached p n s' ∧ touches p n (st c) s' ∧ confined_prog p n L q.
Proof.
  intros Hs Hc HL Hg Hm. rewrite Hg in Hc, HL. inversion Hc as [|? ? Hseg _]; subst; [done|].
  by apply (Hseg (st c)).
Qed.

Lemma loops_no_leaf q a m : q = Seg a m → ¬ loops q.
Proof. intros ->. by intros [|]. Qed.

Lemma goes_no_leaf g q a m : q = Seg a m → ¬ goes g q.
Proof. intros Hq Hg%goes_loops. by eapply loops_no_leaf. Qed.

Lemma threads_set (P : goroutine → prog → Prop) (f : goroutine → prog) g q :
  (∀ g', g' ≠ Main → P g' (f g')) → (g ≠ Main → P g q) →
  ∀ g', g' ≠ Main → P g' (<[g := q]> f g').
Proof.
  intros Hf Hq g' Hg'. destruct (decide (g' = g)) as [->|Hne].
  - rewrite fn_lookup_insert. by apply Hq.
  - rewrite fn_lookup_insert_ne by done. by apply Hf.
Qed.

(** ** A monitor that runs *)
Lemma go_sys c g c' : stop (mon (st c)) = HOpen → go_step c g c' → ∃ a, sys_step c a c'.
Proof.
  intros Hs [a m q s' Hg Hm|link _ Hg _|_ _ Hc]; [|exists Silent; by apply step_next|congruence].
  exists a. by eapply step_seg.
Qed.

Lemma goes_step c g c' :
  attached p n (st c) → stop (mon (st c)) = HOpen → goes_ok c → go_step c g c' → goes_ok c'.
Proof.
  intros Hs Ho Hc [a m q s' Hg Hm|link _ Hg _|_ _ Hcl]; [..|congruence];
    (refine (threads_set (λ g, confined_prog p n (goes g)) _ _ _ _ _); [exact Hc|]; intros Hne).
  - eapply segment_confined; [done|by apply Hc|by eapply goes_no_leaf|done|done].
  - by apply confined_round.
Qed.

Lemma goes_pass c link : goes_ok c → goes_ok (set_thread IfEvents (ifEventProg link) c).
Proof.
  intros Hc. refine (threads_set (λ g, confined_prog p n (goes g)) _ _ _ _ _); [exact Hc|].
  intros Hne. by apply (confined_round p n IfEvents n link).
Qed.

(** [handleIfEvents] of a running monitor is there to receive. *)
Lemma goes_not_returned c : goes_ok c → threads c IfEvents ≠ Return.
Proof.
  intros Hc Hg. assert (IfEvents ≠ Main) as Hne by done. specialize (Hc IfEvents Hne).
  rewrite Hg in Hc. inversion Hc as [? [?|[? _]]|]; done.
Qed.

(** The call of [StopMonitor]. *)
Lemma stop_called c pf :
  alive c p pf → IfName (mon (st c)) = n → goes_ok c → stop_inv (set_thread Main stopProg c).
Proof.
  intros [HI _ _] Hn Hloops. split; cbn [st set_thread].
  - by eapply Inv_attached.
  - left. split; [apply HI|]. rewrite set_thread_eq. apply confined_stopProg.
  - refine (threads_set (λ _, confined_prog p n loops) _ _ _ _ _); [|done].
    intros g Hg. by apply (confined_goes p n g), Hloops.
Qed.

(** ** A stop under way *)

(** What a step does to the rest of the process, and to [m.stop]. *)
Record stop_moved (c c' : Config) : Prop := {
  sm_inv : stop_inv c';
  sm_frame : framed p n (wld (st c)) (wld (st c'));
  sm_closed : stop (mon (st c)) = HClosed → stop (mon (st c')) = HClosed;
}.

(** A segment of [StopMonitor]. *)
Lemma main_segment c a m q s' :
  stop_inv c → threads c Main = Seg a m → m (st c) = Done q s' →
  attached p n s' ∧ framed p n (wld (st c)) (wld s') ∧
  ((stop (mon s') = HOpen ∧ stop (mon (st c)) = HOpen ∧ confined_prog p n at_closing q) ∨
   (stop (mon s') = HClosed ∧ ending q)).
Proof.
  intros [Hs [[Hstop Hc]|[Hstop He]] _] Hg Hm.
  - rewrite Hg in Hc. inversion Hc as [? Hleaf|? ? Hseg _]; subst.
    + injection Hleaf as -> ->. destruct Hs as [Hp Hn Hconn Hpf].
      unfold closeStop, updateMon, mbind, M_bind, gets in Hm. rewrite Hstop in Hm.
      injection Hm as <- <-. split; [by split|]. split; [done|]. right. split; [done|]. by left.
    + destruct (Hseg _ _ _ Hs Hm) as (Hs' & [Hfr Hsame] & Hq). split; [done|]. split; [done|].
      left. by rewrite Hsame.
  - destruct (ending_step _ _ _ _ _ _ He Hg Hs Hm) as (Hs' & [Hfr Hsame] & Hq).
    split; [done|]. split; [done|]. right. by rewrite Hsame.
Qed.

(** A thread changes alone. *)
Lemma set_thread_moved c g q :
  g ≠ Main → stop_inv c → confined_prog p n loops q → stop_moved c (set_thread g q c).
Proof.
  intros Hne [Hs Hmain Hloops] Hq. split; [|done..]. split; cbn [st set_thread]; [done| |].
  - by rewrite set_thread_ne.
  - by refine (threads_set (λ _, confined_prog p n loops) _ _ _ _ _).
Qed.

Lemma go_moved c g c' : stop_inv c → go_step c g c' → stop_moved c c'.
Proof.
  intros HI [a m q s' Hg Hm|link Hne Hg _|Hne Hg _].
  - destruct (decide (g = Main)) as [->|Hne].
    + destruct (main_segment _ _ _ _ _ HI Hg Hm) as (Hs' & Hfr & Hmain).
      split; [|done|cbn; intros Hc; destruct Hmain as [(_ & Ho & _)|[? _]]; congruence].
      split; cbn [st threads]; [done| |by refine (threads_set (λ _, confined_prog p n loops) _ _ _ _ _); [apply HI|]].
      rewrite fn_lookup_insert. destruct Hmain as [(? & _ & ?)|[? ?]]; auto.
    + destruct HI as [Hs Hmain Hloops].
      destruct (segment_confined loops g a m c q s') as (Hs' & [Hfr Hsame] & Hq);
        [done|by apply Hloops|by eapply loops_no_leaf|done|done|].
      split; [|done|cbn; congruence]. split; cbn [st threads]; [done| |].
      * rewrite fn_lookup_insert_ne by done. by rewrite Hsame.
      * by refine (threads_set (λ _, confined_prog p n loops) _ _ _ _ _).
  - destruct (decide (g = Main)) as [->|Hm].
    + exfalso. destruct HI as [_ [[_ Hc]|[_ [Hc|[Hc|[Hc|Hc]]]]] _]; rewrite Hg in Hc; try done.
      by inversion Hc.
    + apply set_thread_moved; [done..|]. by eapply confined_goes, confined_round.
  - apply set_thread_moved; [done..|]. apply confined_leaf. by right.
Qed.

Lemma pass_moved c link :
  stop_inv c → stop_moved c (set_thread IfEvents (ifEventProg link) c).
Proof.
  intros HI. apply set_thread_moved; [done..|].
  by apply (confined_goes p n IfEvents), (confined_round p n IfEvents n link).
Qed.

(** Nothing panics while the API server answers. *)
Lemma stop_inv_safe c : stop_inv c → api_ok → ¬ sys_crash c.
Proof.
  intros [Hs Hmain Hloops] Hapi (g & a & m & w & s' & Hg & Hm).
  destruct (decide (g = Main)) as [->|Hne].
  - destruct Hmain as [[Hopen Hc]|[_ He]]; [|by eapply ending_panic].
    rewrite Hg in Hc. inversion Hc as [? Hleaf|? ? _ Hpanic]; subst; [|by eapply Hpanic].
    injection Hleaf as -> ->. unfold closeStop, mbind, M_bind, gets in Hm. by rewrite Hopen in Hm.
  - specialize (Hloops g Hne). rewrite Hg in Hloops.
    inversion Hloops as [? Hl|? ? _ Hpanic]; subst; [by destruct Hl|]. by eapply Hpanic.
Qed.

(** A state in which nothing can happen is the end. *)
Lemma stuck_over c : stop_inv c → (∀ g c', ¬ go_step c g c') → over c ∨ sys_crash c.
Proof.
  intros HI Hstuck.
  assert (∀ g a m, threads c g = Seg a m → sys_crash c) as Hseg.
  { intros g a m Hg. destruct (m (st c)) as [q s'|w s'] eqn:Hm; [|by exists g, a, m, w, s'].
    exfalso. by eapply Hstuck, go_segment. }
  destruct HI as [Hs [[Hopen Hmain]|[Hclosed Hmain]] Hloops].
  { right. inversion Hmain as [q Hq Heq|a m _ _ Heq]; [|by eapply Hseg].
    rewrite Hq in Heq. by eapply Hseg. }
  assert (∀ g, threads c g = Return ∨ sys_crash c) as Hg.
  { intros g. destruct (decide (g = Main)) as [->|Hne].
    - destruct Hmain as [Hq|[Hq|[Hq|Hq]]]; [right; by eapply Hseg..|by left].
    - pose proof (Hloops g Hne) as Hc.
      inversion Hc as [q [Hq|Hq] Heq|a m _ _ Heq]; [|by left; congruence|right; by eapply Hseg].
      exfalso. eapply Hstuck, (go_return c g); congruence. }
  destruct (Hg Main) as [H1|]; [|by right]. destruct (Hg Reply) as [H2|]; [|by right].
  destruct (Hg IfEvents) as [H3|]; [|by right]. destruct (Hg KeepAlive) as [H4|]; [|by right].
  destruct (Hg Requests) as [H5|]; [|by right]. left. by intros [].
Qed.
End confined.

(** ** Termination *)

(** What a thread does next once [m.stop] is closed: a segment, or the return. *)
Definition thread_next (p' p : prog) : Prop :=
  match p with
  | Seg _ m => ∃ s s', m s = Done p' s'
  | Next => p' = Return
  | Return | Failed => False
  end.

Lemma thread_next_wf : well_founded thread_next.
Proof.
  assert (Acc thread_next Return) as Hret by by constructor.
  intros p. revert p. fix IH 1. intros [| | |a m]; constructor; intros p' Hp'; cbn in Hp';
    [rewrite Hp'; exact Hret|destruct Hp'|destruct Hp'|].
  destruct Hp' as (s & s' & Hm). destruct (m s) as [p'' s''|]; [|discriminate Hm].
  injection Hm as <- _. exact (IH p'').
Qed.

(** Any of the threads goes on. *)
Definition fewer : ranks → ranks → Prop :=
  symprod _ _ thread_next (symprod _ _ thread_next (symprod _ _ thread_next
    (symprod _ _ thread_next thread_next))).

Lemma fewer_wf : well_founded fewer.
Proof. repeat apply wf_symprod; apply thread_next_wf. Qed.

Definition ranksOf (t : goroutine → prog) : ranks :=
  (t Main, (t Reply, (t IfEvents, (t KeepAlive, t Requests)))).

Lemma fewer_thread (t : goroutine → prog) g q :
  thread_next q (t g) → fewer (ranksOf (<[g := q]> t)) (ranksOf t).
Proof.
  intros Hq. unfold ranksOf.
  destruct g; repeat (rewrite fn_lookup_insert || rewrite fn_lookup_insert_ne by done);
    repeat first [apply left_sym; exact Hq | exact Hq | apply right_sym].
Qed.

Lemma go_fewer c g c' :
  stop (mon (st c)) = HClosed → go_step c g c' → fewer (ranksOf (threads c')) (ranksOf (threads c)).
Proof.
  intros Hs [a m q s' Hg Hm|link _ Hg Hopen|_ Hg _]; [|done|];
    apply fewer_thread; rewrite Hg; [|done]. by exists (st c), s'.
Qed.

(** ** What a stop leads to while the goroutines keep out *)
Section leads.
Context `{!LinkNames} (p : ref) (n : string).

(** The same PF, and the same VFs of its link. *)
Definition same_own (w w' : World) : Prop :=
  pfs w' !! p = pfs w !! p ∧ ∀ i, same_vf (trace w) (trace w') n i.

#[global] Instance same_own_preorder : PreOrder same_own.
Proof.
  split; [by intros w|]. intros w1 w2 w3 [H1 H1'] [H2 H2']. split; [congruence|].
  intros i. destruct (H1' i), (H2' i). split; congruence.
Qed.

Lemma quiet_own w w' : quiet w w' → same_own w w'.
Proof. intros Hq. split; [by rewrite (quiet_pfs _ _ Hq)|]. intros i. apply (quiet_vfs _ _ Hq). Qed.

(** A program that ends where [R] holds, if only others' PFs and VFs change between
    its segments. *)
Inductive leads (R : World → Prop) (w : World) : prog → Prop :=
| leads_Return : R w → leads R w Return
| leads_more a m :
    (∀ s q s', attached p n s → same_own w (wld s) → m s = Done q s' → leads R (wld s') q) →
    leads R w (Seg a m).

Lemma leads_Seg R w a m :
  (∀ s, attached p n s → same_own w (wld s) → wp m (λ q s', leads R (wld s') q) s) →
  leads R w (Seg a m).
Proof.
  intros Hm. apply leads_more. intros s q s' Hs Hw Hd. specialize (Hm s Hs Hw).
  unfold wpx in Hm. by rewrite Hd in Hm.
Qed.

(** [R] is about the monitor's own PF and VFs. *)
Definition local (R : World → Prop) : Prop := ∀ w w', same_own w w' → R w → R w'.

Lemma leads_own R w w' q : local R → same_own w w' → leads R w q → leads R w' q.
Proof.
  intros HR Hw [HRw|a m Hm].
  - constructor. by eapply HR.
  - constructor. intros s q' s' Hs Hw' Hd. eapply Hm; [done|by etrans|done].
Qed.

(** A segment that leaves the PF and the VFs as they are. *)
Lemma leads_seg {A} R w a (m : M MState A) q :
  (∀ s, attached p n s → wp m (λ _ s', same_own (wld s) (wld s')) s) →
  local R → leads R w q → leads R w (seg a m q).
Proof.
  intros Hm HR Hq. apply leads_Seg. intros s Hs Hw. wp_step. eapply wp_mono; [by apply Hm|].
  cbn beta. intros _ s' Hs'. wp_step. eapply leads_own; [done| |exact Hq]. by etrans.
Qed.

Lemma leads_ending R w q : local R → R w → ending q → leads R w q.
Proof.
  intros HR Hw.
  assert (leads R w closedConnProg) as H1.
  { apply leads_seg; [|done|by constructor]. intros s _. unfold emit. repeat wp_step.
    apply wp_world, wp_modify. by apply quiet_own, quiet_event. }
  assert (leads R w unsubscribedProg) as H2.
  { apply leads_seg; [|done|done]. intros s Hs. unfold closeConn. wp_step. wp_step.
    destruct (hostApdConn (mon s)) eqn:Hc; [by destruct (at_conn _ _ _ Hs)|..]; unfold updateMon;
      wp_step; wp_step; apply wp_world, wp_observe; by apply quiet_own, quiet_event. }
  assert (leads R w closedProg) as H3.
  { apply leads_seg; [|done|done]. intros s _. unfold emit. wp_step. wp_step.
    apply wp_world, wp_modify. by apply quiet_own, quiet_event. }
  intros [-> |[-> |[-> | ->]]]; [done..|by constructor].
Qed.

Lemma leads_closing R w : local R → R w → leads R w closingProg.
Proof.
  intros HR Hw. apply leads_more. intros s q s' _ Hs Hd. unfold seg, mbind, M_bind in Hd.
  unfold closeStop, updateMon, mbind, M_bind, gets in Hd.
  destruct (stop (mon s)); try done. injection Hd as <- <-.
  apply leads_ending; [done| |by left]. by apply (HR w).
Qed.

(** *** [ConfigureVlanState] while netlink works *)
Section configure.
Context (R : World → Prop) (pf : PFInfo) (id : Z) (vf : VFInfo) (next : prog).
Context (Hnet : netlink_ok n) (Hname : PF_Name pf = n) (Hauth : Authenticated pf = true).
Context (Hvf : VFs pf !! id = Some vf) (Hparent : Parent vf = p) (Hindex : VF_Index vf = id).

(** The PF is as it was, and so are the other VFs. *)
Definition others (w0 w : World) : Prop :=
  pfs w !! p = Some pf ∧ ∀ i, i ≠ id → same_vf (trace w0) (trace w) n i.

Lemma others_own w0 w w' : others w0 w → same_own w w' → others w0 w'.
Proof.
  intros [Hp Hi] [Hp' Hi']. split; [congruence|]. intros i Hne.
  destruct (Hi i Hne), (Hi' i). split; congruence.
Qed.

Context (w0 : World).
Context (Hnext : ∀ w, others w0 w → programmed (trace w) n true vf → leads R w next).

Lemma leads_setState w pfLink :
  Link_Name pfLink = n → others w0 w → vfVlan (trace w) n id = Some (Vlan vf) →
  leads R w (setStateProg pfLink vf VF_LINK_STATE_AUTO next).
Proof.
  intros Hl Hw Hv. apply leads_Seg. intros s _ Hs. wp_step. apply wp_world, wp_observe. wp_step.
  destruct Hnet as (_ & _ & ->). pose proof (others_own _ _ _ Hw Hs) as [Hp Hi].
  destruct Hs as [_ Hs]. apply Hnext.
  - split; [done|]. intros i Hne. cbn. rewrite Hl, Hindex.
    destruct (Hi i Hne) as [H1 H2]. split; cbn; [done|]. by rewrite bool_decide_false by naive_solver.
  - unfold programmed. cbn. rewrite Hl, Hindex, bool_decide_true by done.
    destruct (Hs id) as [-> _]. done.
Qed.

Lemma leads_setVlan w pfLink :
  Link_Name pfLink = n → others w0 w →
  leads R w (setVlanProg pfLink vf (Vlan vf) VF_LINK_STATE_AUTO next).
Proof.
  intros Hl Hw. apply leads_Seg. intros s _ Hs. wp_step. apply wp_world, wp_observe. wp_step.
  destruct Hnet as (_ & -> & _). pose proof (others_own _ _ _ Hw Hs) as [Hp Hi].
  apply leads_setState; [done| |].
  - split; [done|]. intros i Hne. cbn. rewrite Hl, Hindex.
    destruct (Hi i Hne) as [H1 H2]. split; cbn; [|done]. by rewrite bool_decide_false by naive_solver.
  - cbn. by rewrite Hl, Hindex, bool_decide_true.
Qed.

Lemma leads_configure w : others w0 w → leads R w (configureProg id vf next).
Proof.
  intros Hw. apply leads_Seg. intros s1 _ Hs1. pose proof (others_own _ _ _ Hw Hs1) as Hw1.
  wp_step. apply wp_world. wp_step. rewrite Hparent. eapply wp_readPF; [apply Hw1|].
  apply wp_observe. wp_step. rewrite Hname. destruct Hnet as [Hlink _].
  destruct (Hlink (trace (wld s1))) as [pfLink Hl]. rewrite Hl. apply link_name in Hl.
  assert (others w0 (set_trace (EvLinkByName n (Ok pfLink) :: trace (wld s1)) (wld s1))) as Hw2
    by (eapply others_own; [exact Hw1|]; by apply quiet_own, quiet_event).
  apply leads_Seg. intros s2 _ Hs2. pose proof (others_own _ _ _ Hw2 Hs2) as Hw3.
  wp_step. apply wp_world. rewrite Hparent. eapply wp_readPF; [apply Hw3|]. wp_step.
  rewrite Hauth. cbn [negb]. rewrite set_wld_id. apply leads_Seg. intros s3 _ Hs3.
  pose proof (others_own _ _ _ Hw3 Hs3) as Hw4. wp_step. apply wp_world. unfold derefVF. wp_step.
  rewrite Hparent. eapply wp_readPF; [apply Hw4|]. wp_step. wp_step. rewrite Hvf, set_wld_id.
  by apply leads_setVlan.
Qed.
End configure.

(** *** [StopMonitor] *)

(** Every VF is as it was found, and the PF says so. *)
Definition all_open (pf : PFInfo) (w : World) : Prop :=
  pfs w !! p = Some (set_Authenticated true pf) ∧
  ∀ id vf, VFs pf !! id = Some vf → programmed (trace w) n true vf.

Lemma all_open_local pf : pf_wf p pf → local (all_open pf).
Proof.
  intros Hwf w w' [Hp Hw] [Hpf Ho]. split; [by rewrite Hp|]. intros id vf Hvf.
  destruct (Hwf id vf Hvf) as [_ Hidx].
  eapply programmed_same; [|by apply (Ho id vf)]. rewrite Hidx. apply Hw.
Qed.

Lemma set_Authenticated_same pf : Authenticated pf = true → set_Authenticated true pf = pf.
Proof. intros Ha. unfold set_Authenticated. rewrite <-Ha. by destruct pf. Qed.

Lemma leads_restore pf vfs :
  netlink_ok n → PF_Name pf = n → pf_wf p pf → Authenticated pf = true → ∀ w,
  pfs w !! p = Some pf → (∀ id vf, (id, vf) ∈ vfs → VFs pf !! id = Some vf) →
  (∀ id vf, VFs pf !! id = Some vf → (id, vf) ∈ vfs ∨ programmed (trace w) n true vf) →
  leads (all_open pf) w (restoreProg vfs).
Proof.
  intros Hnet Hname Hwf Hauth. induction vfs as [|[id vf] vfs IH]; intros w Hp Hin Hall;
    cbn [restoreProg].
  - apply leads_closing; [by apply all_open_local|]. split; [by rewrite set_Authenticated_same|].
    intros id vf Hvf. by destruct (Hall id vf Hvf) as [?%elem_of_nil|].
  - assert (VFs pf !! id = Some vf) as Hvf by (apply Hin; by left).
    destruct (Hwf id vf Hvf) as [Hparent Hidx].
    eapply (leads_configure _ pf id vf _ Hnet Hname Hauth Hvf Hparent Hidx w); [|by split].
    intros w' [Hp' Hothers] Hprog. apply IH; [done| |].
    + intros id' vf' Hin'. apply Hin. by right.
    + intros id' vf' Hvf'. destruct (decide (id' = id)) as [->|Hne].
      { right. rewrite Hvf in Hvf'. by injection Hvf' as <-. }
      destruct (Hall id' vf' Hvf') as [[[= <- <-]|Hin']%elem_of_cons|Hpr]; [done|by left|].
      right. eapply programmed_same; [|exact Hpr]. destruct (Hwf id' vf' Hvf') as [_ ->].
      by apply Hothers.
Qed.

Lemma leads_stop w pf :
  netlink_ok n → pfs w !! p = Some pf → PF_Name pf = n → pf_wf p pf →
  all_programmed (trace w) pf → leads (all_open pf) w stopProg.
Proof.
  intros Hnet Hp Hname Hwf Hall. apply leads_Seg. intros s Hs Hw. wp_step. wp_step.
  rewrite (at_pfinfo _ _ _ Hs). wp_step. apply wp_world.
  eapply wp_readPF; [destruct Hw as [-> _]; exact Hp|]. wp_step. rewrite set_wld_id.
  destruct (Authenticated pf) eqn:Ha; cbn [negb].
  { apply leads_closing; [by apply all_open_local|]. eapply (all_open_local pf Hwf w); [done|].
    split; [by rewrite set_Authenticated_same|]. intros id vf Hvf. rewrite <-Hname, <-Ha.
    by apply (Hall id). }
  set (pf' := set_Authenticated true pf).
  change (leads (all_open pf') (wld s) (seg Silent (world (updatePF p (set_Authenticated true)))
    (restoringProg p))).
  apply leads_Seg. intros s1 _ Hw1. wp_step. apply wp_world.
  eapply wp_updatePF; [destruct Hw as [Hw _], Hw1 as [-> _]; by rewrite Hw|]. wp_step.
  apply leads_Seg. intros s2 _ [Hp2 _]. cbn in Hp2. rewrite lookup_insert_eq in Hp2.
  wp_step. apply wp_world. wp_step. eapply wp_readPF; [exact Hp2|].
  eapply wp_mono; [apply wp_rangeOrder|]. cbn beta. intros vfs w' [Hperm Hq]. wp_step.
  assert (∀ id vf, (id, vf) ∈ vfs ↔ VFs pf' !! id = Some vf) as Hvfs
    by (intros id vf; by rewrite Hperm, elem_of_map_to_list).
  apply leads_restore; [done..| | |].
  - cbn. by rewrite (quiet_pfs _ _ Hq).
  - intros id vf. by rewrite Hvfs.
  - intros id vf Hvf. left. by apply Hvfs.
Qed.

(** *** Where [R] is bound to hold by the end it holds as soon as the VFs are done *)
#[local] Instance same_own_sym : Symmetric same_own.
Proof. intros w w' [Hp Hv]. split; [done|]. intros i. destruct (Hv i). by split. Qed.

Lemma leads_back {A} R s a (m : M MState A) q :
  local R → attached p n s → leads R (wld s) (seg a m q) →
  wp m (λ _ s', same_own (wld s) (wld s') ∧ (leads R (wld s') q → R (wld s'))) s → R (wld s).
Proof.
  intros HR Hs Hl Hm. inversion Hl as [|? ? Hseg]; subst. unfold wpx in Hm.
  specialize (Hseg s q). unfold mbind, M_bind in Hseg. destruct (m s) as [x s'|]; [|done].
  destruct Hm as [Hown Hq]. specialize (Hseg s' Hs).
  eapply HR; [symmetry; exact Hown|]. apply Hq, Hseg; done.
Qed.

Lemma leads_ending_back R s q :
  local R → attached p n s → ending q → leads R (wld s) q → R (wld s).
Proof.
  intros HR Hs.
  assert (∀ m w x, attached p n {| mon := m; wld := w; stats := x |} →
    leads R w closedConnProg → R w) as H1.
  { intros m w x Hs1 Hl. eapply (leads_back _ {| mon := m; wld := w; stats := x |}); [done..|].
    unfold emit. apply wp_world, wp_modify.
    split; [by apply quiet_own, quiet_event|]. intros Hr. by inversion Hr. }
  assert (∀ m w x, attached p n {| mon := m; wld := w; stats := x |} →
    leads R w unsubscribedProg → R w) as H2.
  { intros m w x Hs1 Hl. eapply (leads_back _ {| mon := m; wld := w; stats := x |}); [done..|].
    destruct Hs1 as [Hp Hn Hc Hpf]. cbn in Hp, Hn, Hc, Hpf. unfold closeConn. wp_step. wp_step. cbn.
    destruct (hostApdConn m) eqn:Hconn; [done|..]; unfold updateMon;
      wp_step; wp_step; apply wp_world, wp_observe; cbn;
      (split; [by apply quiet_own, quiet_event|]); apply (H1 (set_hostApdConn HClosed m) _ x); by split. }
  assert (∀ m w x, attached p n {| mon := m; wld := w; stats := x |} →
    leads R w closedProg → R w) as H3.
  { intros m w x Hs1 Hl. eapply (leads_back _ {| mon := m; wld := w; stats := x |}); [done..|].
    unfold emit. wp_step. wp_step. apply wp_world, wp_modify.
    split; [by apply quiet_own, quiet_event|]. apply (H2 m _ x).
    by destruct Hs1 as [Hp Hn Hc Hpf]. }
  destruct s as [m w x].
  intros [-> |[-> |[-> | ->]]] Hl; [by apply (H3 m w x)|by apply (H2 m w x)|by apply (H1 m w x)|by inversion Hl].
Qed.

Lemma leads_closing_back R s :
  local R → attached p n s → stop (mon s) = HOpen → leads R (wld s) closingProg → R (wld s).
Proof.
  intros HR Hs Ho Hl. eapply leads_back; [done|exact Hs|exact Hl|].
  unfold closeStop, updateMon. wp_step. wp_step. rewrite Ho. wp_step. split; [done|].
  apply (leads_ending_back R); [done| |by left]. by destruct Hs; split.
Qed.
End leads.
End code.
