(* ===== verification/Life.v ===== *)
(** * The whole life of the process: monitor/main.go

    [main] starts the link handler and then a monitor on each interface; one that
    cannot attach is stopped while the others run.  The signal that ends the
    process may come at any moment after that: the monitors are stopped one after
    another, as [Stopping] describes it, while the goroutines of all of them and
    the handler go on; then the handler is stopped, and the interfaces are reset.

    The link handler is here as far as the monitors notice it: where its goroutine
    is, with the [position]s of [LinkEvents], and its map of subscriptions.  The
    channel of a monitor is its place in [monitors]; it is closed when its
    [handleIfEvents] has returned.  The updates are the kernel's. *)
From S2P Require Import Prelude GoStrings Api Sys LinkEvents.
From S2P Require Import TrafficControl TrafficControlSpec Hostap ClientSpec HostapSpec HostapLife.
From S2P Require Import HostapSteps Confined HostapTheorems Demo MonitorMain Process Stopping.
From stdpp Require Import functions.
From Stdlib Require Import Relation_Operators Lexicographic_Product Inverse_Image Wf_nat.

(** ** The process *)

(** Where [main] is: with the monitors, until it has called the last [StopMonitor];
    in [StopHandler]; or at its end, with what [resetInterfaces] returned. *)
Inductive Phase :=
| Monitoring
| StoppingHandler
| Finished (err : option error).

(** [stopping]: the monitors whose [StopMonitor] has been called. *)
Record Life := {
  proc : Process;
  stopping : gset nat;
  links : LinkEventHandler;
  hand : position;
  phase : Phase;
}.

Definition set_proc (P : Process) (L : Life) : Life :=
  {| proc := P; stopping := stopping L; links := links L; hand := hand L; phase := phase L |}.
Definition set_stopping (s : gset nat) (L : Life) : Life :=
  {| proc := proc L; stopping := s; links := links L; hand := hand L; phase := phase L |}.
Definition set_links (l : LinkEventHandler) (L : Life) : Life :=
  {| proc := proc L; stopping := stopping L; links := l; hand := hand L; phase := phase L |}.
Definition set_hand (h : position) (L : Life) : Life :=
  {| proc := proc L; stopping := stopping L; links := links L; hand := h; phase := phase L |}.
Definition set_phase (x : Phase) (L : Life) : Life :=
  {| proc := proc L; stopping := stopping L; links := links L; hand := hand L; phase := x |}.

(** The process on another machine. *)
Definition onWorld (w : World) (P : Process) : Process :=
  {| p_world := w; p_stats := p_stats P; monitors := monitors P; todo := todo P |}.

(** Who takes a step. *)
Inductive actor :=
| MainGo
| MonitorGo (i : nat) (g : goroutine)
| HandlerGo
| Kernel.

(** What was unsubscribed between two traces. *)
Definition unsubscribed (before after : Trace) : list string :=
  omap (λ ev, match ev with EvUnsubscribe n => Some n | _ => None end)
    (take (length after - length before) after).

(** The process as it is when [main] has prepared the interfaces and has called
    [ifEventHandler.Start()]. *)
Definition beginning (P : Process) : Life :=
  {| proc := P; stopping := ∅; links := {| ifaceChannels := ∅ |}; hand := Subscribing;
     phase := Monitoring |}.

Section life.
Context (E : string → Sys) (E0 : Sys) (ifaces : list string) (nsName : string * string).

(** [StartMonitor], or the [StopMonitor] that follows, has returned. *)
Definition settled (L : Life) (i : nat) (r : Running) : Prop :=
  if bool_decide (i ∈ stopping L) then over (config (proc L) r) else r_threads r Main = Return.

Definition all_settled (L : Life) : Prop :=
  ∀ i r, monitors (proc L) !! i = Some r → settled L i r.

(** Every [StopMonitor] has been called and has returned. *)
Definition all_stopped (L : Life) : Prop :=
  ∀ i r, monitors (proc L) !! i = Some r → i ∈ stopping L ∧ over (config (proc L) r).

(** The monitor [i] has come to [c]. *)
Definition moved_to (i : nat) (c : Config) (L : Life) : Life := set_proc (put (proc L) i c) L.

(** [Main] of the monitor calls [StopMonitor]. *)
Definition callStop (i : nat) (r : Running) (L : Life) : Life :=
  set_stopping ({[i]} ∪ stopping L)
    (moved_to i (set_thread Main (@stopProg (E (nameOf r))) (config (proc L) r)) L).

Inductive life_step (L : Life) : actor → Life → Prop :=
(* the loop: StartMonitor up to its go statements; it subscribes *)
| life_start n rest s1 :
    todo (proc L) = n :: rest → all_settled L → mutex_free (hand L) →
    @startUp (E n) (newMonitor nsName (proc L) n) = Done None s1 →
    life_step L MainGo
      (set_links (snd (Subscribe (Some (length (monitors (proc L)))) [n] (links L)))
        (set_proc (begun (proc L) rest s1) L))
(* the loop: StartMonitor fails before it has subscribed *)
| life_skip n rest e s1 :
    todo (proc L) = n :: rest → all_settled L →
    @startUp (E n) (newMonitor nsName (proc L) n) = Done (Some e) s1 →
    life_step L MainGo
      (set_proc {| p_world := wld s1; p_stats := stats s1; monitors := monitors (proc L);
                   todo := rest |} L)
(* a goroutine of a monitor, StopMonitor included; Unsubscribe needs the mutex *)
| life_go i r g c' :
    monitors (proc L) !! i = Some r → @go_step (E (nameOf r)) (config (proc L) r) g c' →
    (g = Main → mutex_free (hand L) ∨ unsubscribed (trace (p_world (proc L))) (trace (wld (st c'))) = []) →
    life_step L (MonitorGo i g)
      (set_links (Unsubscribe (unsubscribed (trace (p_world (proc L))) (trace (wld (st c')))) (links L))
        (moved_to i c' L))
(* StartMonitor: attachHostapd has failed *)
| life_fails i r :
    monitors (proc L) !! i = Some r → i ∉ stopping L → r_threads r Main = Failed →
    life_step L (MonitorGo i Main) (callStop i r L)
(* the signal; for _, monitor := range monitors *)
| life_signal i r :
    todo (proc L) = [] → all_settled L →
    monitors (proc L) !! i = Some r → i ∉ stopping L → (∀ j, j < i → j ∈ stopping L) →
    life_step L MainGo (callStop i r L)
(* ifEventHandler.StopHandler(): close(l.stop) *)
| life_stop_handler :
    phase L = Monitoring → todo (proc L) = [] → all_stopped L →
    life_step L MainGo
      (set_phase StoppingHandler
        (set_proc (onWorld (set_trace (EvStopHandler :: trace (p_world (proc L))) (p_world (proc L)))
          (proc L)) L))
(* l.stopWg.Wait() has returned: resetInterfaces *)
| life_reset e w :
    phase L = StoppingHandler → hand L = Exited →
    @resetInterfaces E0 ifaces (p_world (proc L)) = Done e w →
    life_step L MainGo (set_phase (Finished e) (set_proc (onWorld w (proc L)) L))
(* handleEvents: LinkSubscribe *)
| life_subscribed :
    hand L = Subscribing → life_step L HandlerGo (set_hand Selecting L)
| life_refused :
    hand L = Subscribing → life_step L HandlerGo (set_hand Exited L)
(* handleEvents: an update from the kernel, or linkUpdateCh is closed *)
| life_take link :
    hand L = Selecting → life_step L Kernel (set_hand (Locking link) L)
| life_feed_ends :
    hand L = Selecting → life_step L Kernel (set_hand Exited L)
(* handleEvents: the mutex, and the channel of the interface *)
| life_lock link :
    hand L = Locking link →
    life_step L HandlerGo
      (set_hand (match ifaceChannels (links L) !! Link_Name link with
                 | Some i => Sending i link
                 | None => Selecting
                 end) L)
(* the send meets handleIfEvents in its select *)
| life_pass i link r :
    hand L = Sending i link → monitors (proc L) !! i = Some r → r_threads r IfEvents = Next →
    life_step L HandlerGo
      (set_hand Selecting
        (moved_to i (set_thread IfEvents (@ifEventProg (E (nameOf r)) link) (config (proc L) r)) L))
(* handleEvents: <-l.stop *)
| life_exit :
    phase L = StoppingHandler → hand L = Selecting → life_step L HandlerGo (set_hand Exited L).

(** The handler's send on the channel of a monitor that has closed it. *)
Definition sends_closed (L : Life) (i : nat) : Prop :=
  ∃ link r, hand L = Sending i link ∧ monitors (proc L) !! i = Some r ∧
    r_threads r IfEvents = Return.

(** An unrecovered panic ends the process. *)
Definition life_crash (L : Life) : Prop :=
  (∃ i, sends_closed L i) ∨
  (∃ n rest w s, todo (proc L) = n :: rest ∧
     @startUp (E n) (newMonitor nsName (proc L) n) = Panic w s) ∨
  (∃ i r, monitors (proc L) !! i = Some r ∧ sys_crash (config (proc L) r)) ∨
  (∃ e w, phase L = StoppingHandler ∧ hand L = Exited ∧
     @resetInterfaces E0 ifaces (p_world (proc L)) = Panic e w).

(** A run, whoever takes its steps. *)
Definition life_steps : relation Life := rtc (λ L L', ∃ who, life_step L who L').

(** What [main] begins with. *)
Inductive begins (before : Trace) (tcp udp : list Z) : Life → Prop :=
| begins_with w0 x :
    @initInterfaces E0 ifaces tcp udp {| trace := before; pfs := ∅ |} = Done None w0 →
    begins before tcp udp
      (beginning {| p_world := w0; p_stats := x; monitors := []; todo := ifaces |}).

(** The states of the process from a trace of the machine on. *)
Definition life_run (before : Trace) (tcp udp : list Z) (L : Life) : Prop :=
  ∃ L0, begins before tcp udp L0 ∧ life_steps L0 L.

(** [main] has returned, and with it everything else. *)
Definition ended (L : Life) : Prop :=
  (∃ e, phase L = Finished e) ∧ todo (proc L) = [] ∧ all_stopped L ∧ hand L = Exited.

(** ** The invariant *)
Context {HE : ∀ n, @LinkNames (E n)}.

(** What is true of a monitor that runs, and of one that is being stopped. *)
Definition holds (stopping : gset nat) (i : nat) (P : Process) (r : Running) : Prop :=
  if bool_decide (i ∈ stopping) then ∃ p, @stop_inv (E (nameOf r)) p (nameOf r) (config P r)
  else ∃ p pf, @alive (E (nameOf r)) (config P r) p pf ∧
         @goes_ok (E (nameOf r)) p (nameOf r) (config P r).

Record life_inv (L : Life) : Prop := {
  life_each : each (holds (stopping L)) ifaces (proc L);
  life_dom : ∀ i, i ∈ stopping L → i < length (monitors (proc L));
  (* the channels are those of monitors *)
  life_links : ∀ n i, ifaceChannels (links L) !! n = Some i → i < length (monitors (proc L));
  life_hand : ∀ i link, hand L = Sending i link → i < length (monitors (proc L));
  life_phase : phase L ≠ Monitoring → todo (proc L) = [] ∧ all_stopped L;
  life_done : ∀ e, phase L = Finished e → hand L = Exited;
}.

Lemma holds_stopping L i r :
  life_inv L → monitors (proc L) !! i = Some r → i ∈ stopping L →
  ∃ p, @stop_inv (E (nameOf r)) p (nameOf r) (config (proc L) r).
Proof.
  intros HI Hr Hi. pose proof (pi_holds _ _ _ (life_each _ HI) i r Hr) as Hh. unfold holds in Hh.
  by rewrite bool_decide_true in Hh.
Qed.

Lemma holds_running L i r :
  life_inv L → monitors (proc L) !! i = Some r → i ∉ stopping L →
  ∃ p pf, @alive (E (nameOf r)) (config (proc L) r) p pf ∧
    @goes_ok (E (nameOf r)) p (nameOf r) (config (proc L) r).
Proof.
  intros HI Hr Hi. pose proof (pi_holds _ _ _ (life_each _ HI) i r Hr) as Hh. unfold holds in Hh.
  by rewrite bool_decide_false in Hh.
Qed.

Lemma attached_elsewhere P P' r p q name :
  attached p (nameOf r) (st (config P r)) → framed q name (p_world P) (p_world P') → p ≠ q →
  attached p (nameOf r) (st (config P' r)).
Proof.
  intros [Hp Hn Hc (pf & Hpf & Hpf')] Hfr Hq. split; [done..|]. exists pf. split; [|done].
  cbn. rewrite (framed_pfs _ _ _ _ Hfr); [exact Hpf|done].
Qed.

Lemma holds_own stopping : own (holds stopping).
Proof.
  split.
  - intros i P r. unfold holds. case_bool_decide.
    + intros (p & [[Hp _ _ (pf & Hpf & _)] _ _]). exists p. split; [done|by exists pf].
    + intros (p & pf & [[Hp Hpf _ _ _ _ _ _] _ _] & _). exists p. split; [done|by exists pf].
  - intros i P P' r q name. unfold holds. case_bool_decide.
    + intros (p & [Hs Hmain Hloops]) Hfr Hq _. exists p. split; [|done..].
      eapply (attached_elsewhere P); [done..|]. pose proof (at_pfinfo _ _ _ Hs) as Hp. cbn in Hp. congruence.
    + intros (p & pf & Ha & Hloops) Hfr Hq Hname. exists p, pf. split; [|done].
      pose proof (alive_ref _ _ _ _ Ha) as Hp. cbn in Hp.
      eapply (alive_elsewhere _ (config P r)); [done..|congruence|done].
Qed.

(** A monitor moves; the handler may too. *)
Lemma monitor_moved L i r p c' o l h :
  NoDup ifaces → life_inv L → monitors (proc L) !! i = Some r →
  PfInfo (r_mon r) = Some p → framed p (nameOf r) (p_world (proc L)) (wld (st c')) →
  PfInfo (mon (st c')) = Some p → IfName (mon (st c')) = nameOf r →
  (∀ j, j ≠ i → j ∈ o ↔ j ∈ stopping L) →
  holds o i (put (proc L) i c') {| r_mon := mon (st c'); r_threads := threads c' |} →
  (∀ n j, ifaceChannels l !! n = Some j → j < length (monitors (proc L))) →
  (∀ j link, h = Sending j link → j < length (monitors (proc L))) →
  h = hand L ∨ hand L ≠ Exited → ¬ over (config (proc L) r) ∨ i ∉ stopping L →
  life_inv {| proc := put (proc L) i c'; stopping := o; links := l; hand := h; phase := phase L |}.
Proof.
  intros Hnd [HI Hdom _ _ Hph Hdone] Hr Hp Hfr Hp' Hn Ho Hi Hl Hh Hex Hnot.
  assert (length (monitors (put (proc L) i c')) = length (monitors (proc L))) as Hlen
    by apply length_insert.
  split; cbn [proc stopping links hand phase]; rewrite ?Hlen; try done.
  - eapply (each_moved _ (holds_own _) _ Hnd); try done.
    intros j r' Hj. unfold holds. by rewrite (bool_decide_ext _ _ (Ho j Hj)).
  - intros j Hj. destruct (decide (j = i)) as [->|Hne]; [by eapply lookup_lt_Some|].
    by apply Hdom, Ho.
  - intros Hne. destruct (Hph Hne) as [_ Hall]. destruct (Hall i r Hr), Hnot; done.
  - intros e He. specialize (Hdone e He). destruct Hex; congruence.
Qed.

Lemma go_not_over `{Sys} c g c' : go_step c g c' → ¬ over c.
Proof. intros Hstep Hover. specialize (Hover g). destruct Hstep; congruence. Qed.

Lemma unsubscribe_channels ifNames l n i :
  ifaceChannels (Unsubscribe ifNames l) !! n = Some i → ifaceChannels l !! n = Some i.
Proof. rewrite Unsubscribe_lookup. by case_bool_decide. Qed.

(** The monitor is being stopped. *)
Lemma stopping_moved L i r p c c' o l h :
  NoDup ifaces → life_inv L → monitors (proc L) !! i = Some r →
  st c = st (config (proc L) r) →
  @stop_inv (E (nameOf r)) p (nameOf r) c → @stop_moved (E (nameOf r)) p (nameOf r) c c' →
  i ∈ o → (∀ j, j ≠ i → j ∈ o ↔ j ∈ stopping L) →
  (∀ n j, ifaceChannels l !! n = Some j → j < length (monitors (proc L))) →
  (∀ j link, h = Sending j link → j < length (monitors (proc L))) →
  h = hand L ∨ hand L ≠ Exited → ¬ over (config (proc L) r) ∨ i ∉ stopping L →
  life_inv {| proc := put (proc L) i c'; stopping := o; links := l; hand := h; phase := phase L |}.
Proof.
  intros Hnd HI Hr Hc [Hs _ _] [HI' Hfr _] Hi Ho Hl Hh Hex Hnot. rewrite Hc in Hs, Hfr.
  pose proof (si_attached _ _ _ HI') as Hs'. pose proof (at_name _ _ _ Hs') as Hn'.
  eapply monitor_moved; [done|done|done|apply Hs|exact Hfr|apply Hs'|done|done| |done..].
  unfold holds. rewrite bool_decide_true by done. exists p. unfold nameOf at 1 2. cbn. rewrite Hn'.
  by destruct c' as [[] ?].
Qed.

Lemma callStop_inv L i r :
  NoDup ifaces → life_inv L → monitors (proc L) !! i = Some r → i ∉ stopping L →
  life_inv (callStop i r L).
Proof.
  intros Hnd HI Hr Ho. destruct (holds_running _ _ _ HI Hr Ho) as (p & pf & Ha & Hgo).
  set (c := set_thread Main (@stopProg (E (nameOf r))) (config (proc L) r)).
  assert (@stop_inv (E (nameOf r)) p (nameOf r) c) as Hc by by eapply stop_called.
  apply (stopping_moved L i r p c c); try done; [set_solver..|apply HI|apply HI|by left|by right].
Qed.

Lemma go_inv L i r g c' :
  NoDup ifaces → life_inv L → monitors (proc L) !! i = Some r →
  @go_step (E (nameOf r)) (config (proc L) r) g c' → ∀ ns,
  life_inv (set_links (Unsubscribe ns (links L)) (moved_to i c' L)).
Proof.
  intros Hnd HI Hr Hstep ns.
  assert (∀ n j, ifaceChannels (Unsubscribe ns (links L)) !! n = Some j →
    j < length (monitors (proc L))) as Hl by (intros n j Hj%unsubscribe_channels; by eapply life_links).
  pose proof (go_not_over _ _ _ Hstep) as Hnot.
  destruct (decide (i ∈ stopping L)) as [Hi|Hi].
  - destruct (holds_stopping _ _ _ HI Hr Hi) as (p & Hinv).
    apply (stopping_moved L i r p (config (proc L) r)); try done; [by eapply go_moved|apply HI|by left|by left].
  - destruct (holds_running _ _ _ HI Hr Hi) as (p & pf & Ha & Hgo).
    pose proof (inv_stop _ _ _ (alive_Inv _ _ _ Ha)) as Ho.
    destruct (go_sys _ _ _ Ho Hstep) as (a & Hsys).
    destruct (alive_step _ _ _ _ _ Ha Hsys) as (pf' & [Ha' _ Hn Hfr _]).
    assert (@attached p (nameOf r) (st (config (proc L) r))) as Hat
      by by eapply Inv_attached; [apply Ha|].
    pose proof (goes_step p _ _ _ _ Hat Ho Hgo Hstep) as Hgo'.
    eapply (monitor_moved L i r p); [done|done|done|apply Ha|done|apply Ha'|done|done| |done|apply HI|by left|by left].
    unfold holds. rewrite bool_decide_false by done. exists p, pf'. unfold nameOf at 1 2 3.
    cbn in Hn |- *. rewrite Hn. by destruct c' as [[] ?].
Qed.

Lemma alive_pass `{!Sys} `{!LinkNames} c p pf link :
  alive c p pf → alive (set_thread IfEvents (ifEventProg link) c) p pf.
Proof.
  intros [HI Hv Hsafe]. split; cbn [st threads set_thread]; [done..|]. intros g.
  destruct (decide (g = IfEvents)) as [->|Hne]; [|by rewrite fn_lookup_insert_ne].
  rewrite fn_lookup_insert. apply (safe_round _ IfEvents (IfName (mon (st c))) link).
Qed.

Lemma pass_inv L i r link :
  NoDup ifaces → life_inv L → hand L = Sending i link → monitors (proc L) !! i = Some r →
  r_threads r IfEvents = Next →
  life_inv (set_hand Selecting
    (moved_to i (set_thread IfEvents (@ifEventProg (E (nameOf r)) link) (config (proc L) r)) L)).
Proof.
  intros Hnd HI Hh Hr Hnext. assert (hand L ≠ Exited) as Hex by by rewrite Hh.
  assert (¬ over (config (proc L) r)) as Hnot by (intros Ho; specialize (Ho IfEvents); cbn in Ho; congruence).
  destruct (decide (i ∈ stopping L)) as [Hi|Hi].
  - destruct (holds_stopping _ _ _ HI Hr Hi) as (p & Hinv).
    apply (stopping_moved L i r p (config (proc L) r)); try done; [by apply pass_moved|apply HI|by right|by left].
  - destruct (holds_running _ _ _ HI Hr Hi) as (p & pf & Ha & Hgo).
    eapply (monitor_moved L i r p); [done|done|done|apply Ha|done|apply Ha|done|done| |apply HI|done|by right|by left].
    unfold holds. rewrite bool_decide_false by done. exists p, pf.
    split; [exact (alive_pass _ _ _ link Ha)|exact (goes_pass _ _ _ link Hgo)].
Qed.

(** Only [main] is at work. *)
Lemma world_inv L w x :
  life_inv L → pfs w = pfs (p_world (proc L)) → same_vfs (trace (p_world (proc L))) (trace w) →
  trace (p_world (proc L)) `suffix_of` trace w → todo (proc L) = [] → all_stopped L →
  x = StoppingHandler ∨ hand L = Exited →
  life_inv (set_phase x (set_proc (onWorld w (proc L)) L)).
Proof.
  intros [HI Hdom Hl Hh _ _] Hp Hv Hext Htodo Hall Hx.
  split; cbn; [|done..|intros e ->; by destruct Hx]. destruct HI as [Hi Hrefs Hn].
  split; [|done..]. intros i r Hr. specialize (Hi i r Hr).
  destruct (own_PF _ (holds_own _) _ _ _ Hi) as (p & Hrp & _).
  eapply (own_elsewhere _ (holds_own _) i (proc L) _ r (S p) ("-" +:+ nameOf r)); [done|..].
  - split; cbn; [by rewrite Hp|intros l j _; apply Hv|done].
  - rewrite Hrp. intros [= Heq]. lia.
  - clear. intros Heq. apply (f_equal String.length) in Heq.
    change (String.length (nameOf r) = S (String.length (nameOf r))) in Heq. lia.
Qed.

Lemma start_inv L n rest s1 :
  NoDup ifaces → life_inv L → todo (proc L) = n :: rest →
  @startUp (E n) (newMonitor nsName (proc L) n) = Done None s1 →
  life_inv (set_links (snd (Subscribe (Some (length (monitors (proc L)))) [n] (links L)))
    (set_proc (begun (proc L) rest s1) L)).
Proof.
  intros Hnd [HI Hdom Hl Hh Hph Hdone] Hn Hs1.
  assert (length (monitors (begun (proc L) rest s1)) = S (length (monitors (proc L)))) as Hlen
    by (cbn; rewrite length_app; cbn; lia).
  split; cbn [proc stopping links hand phase set_links set_proc]; rewrite ?Hlen.
  - eapply (each_started E nsName _ (holds_own _)); [done..|]. intros p pf Hst. unfold holds.
    rewrite bool_decide_false by (intros ?%Hdom; lia).
    exists p, pf. unfold nameOf. cbn. rewrite (started_name _ _ _ _ Hst). cbn.
    split; [apply started_alive in Hst; by destruct s1|]. intros g _. apply confined_next. by left.
  - intros i ?%Hdom. lia.
  - intros m i [[_ ->]|[_ ?%Hl]]%Subscribe_lookup; lia.
  - intros i link ?%Hh. lia.
  - intros Hne. destruct (Hph Hne). congruence.
  - done.
Qed.

Lemma skip_inv L n rest e s1 :
  NoDup ifaces → life_inv L → todo (proc L) = n :: rest →
  @startUp (E n) (newMonitor nsName (proc L) n) = Done (Some e) s1 →
  life_inv (set_proc {| p_world := wld s1; p_stats := stats s1; monitors := monitors (proc L);
                        todo := rest |} L).
Proof.
  intros Hnd [HI Hdom Hl Hh Hph Hdone] Hn Hs1. split; cbn; [|done..| |done].
  - eapply (each_skipped _ (holds_own _)); [done..|by eapply startUp_skipped].
  - intros Hne. destruct (Hph Hne). congruence.
Qed.

(** The handler alone. *)
Lemma hand_inv L h :
  life_inv L → (∀ i link, h = Sending i link → i < length (monitors (proc L))) →
  hand L ≠ Exited ∨ h = Exited → life_inv (set_hand h L).
Proof.
  intros [HI Hdom Hl Hh Hph Hdone] Hh' Hex. split; try done. intros e He.
  destruct Hex; [by destruct (Hdone e He)|done].
Qed.

Lemma life_step_inv L who L' : NoDup ifaces → life_inv L → life_step L who L' → life_inv L'.
Proof.
  intros Hnd HI Hstep.
  destruct Hstep as [n rest s1 Hn _ _ Hs1|n rest e s1 Hn _ Hs1|i r g c' Hr Hgo _|i r Hr Ho _
    |i r _ _ Hr Ho _|_ Htodo Hall|e w Hp Hx Hreset|Hh|Hh|link Hh|Hh|link Hh|i link r Hh Hr Hnext|_ Hh].
  - by eapply start_inv.
  - by eapply skip_inv.
  - by eapply go_inv.
  - by apply callStop_inv.
  - by apply callStop_inv.
  - apply world_inv; [done|done|by intros ? ?|by apply suffix_cons_r|done|done|by left].
  - assert (phase L ≠ Monitoring) as Hne by by rewrite Hp.
    destruct (life_phase _ HI Hne) as [Htodo Hall].
    pose proof (@resetInterfaces_correct E0 ifaces (p_world (proc L))) as Hwp. unfold wpx in Hwp.
    rewrite Hreset in Hwp. destruct Hwp as (_ & Hpfs & Hv & Hext). apply world_inv; auto.
  - apply hand_inv; [done..|left; congruence].
  - apply hand_inv; [done..|by right].
  - apply hand_inv; [done..|left; congruence].
  - apply hand_inv; [done..|by right].
  - apply hand_inv; [done| |left; congruence]. intros i link'. destruct (_ !! _) as [j|] eqn:Hj; [|done].
    intros [= <- _]. by eapply life_links.
  - by apply pass_inv.
  - apply hand_inv; [done..|by right].
Qed.

Lemma life_steps_inv L L' : NoDup ifaces → life_inv L → life_steps L L' → life_inv L'.
Proof. intros Hnd HI Hrun. induction Hrun as [|L1 L2 L3 [who Hstep] _ IH]; eauto using life_step_inv. Qed.

Lemma life_run_inv before tcp udp L : NoDup ifaces → life_run before tcp udp L → life_inv L.
Proof.
  intros Hnd (L0 & [w0 x _] & Hrun). eapply life_steps_inv; [done| |done].
  split; cbn; [by split|set_solver|by intros n i|done..].
Qed.

(** ** What the process can always do *)

(** While the API server answers, only the handler panics, and only over a monitor
    that is being stopped. *)
Lemma life_inv_crash L :
  life_inv L → (∀ n, @api_ok (E n)) → life_crash L → ∃ i, i ∈ stopping L ∧ sends_closed L i.
Proof.
  intros HI Hapi [(i & Hs)|[(n & rest & w & s & _ & Hs)|[(i & r & Hr & Hcrash)|(e & w & _ & _ & Hreset)]]].
  - exists i. split; [|done]. destruct Hs as (link & r & _ & Hr & Hret).
    destruct (decide (i ∈ stopping L)) as [|Hi]; [done|]. exfalso.
    destruct (holds_running _ _ _ HI Hr Hi) as (p & pf & _ & Hgo).
    by eapply (goes_not_returned _ _ _ Hgo).
  - exfalso. by eapply startUp_no_crash.
  - exfalso. destruct (decide (i ∈ stopping L)) as [Hi|Hi].
    + destruct (holds_stopping _ _ _ HI Hr Hi) as (p & Hinv). by eapply (stop_inv_safe _ _ _ Hinv).
    + destruct (holds_running _ _ _ HI Hr Hi) as (p & pf & Ha & _). by eapply (alive_no_crash _ _ _ Ha).
  - exfalso. pose proof (@resetInterfaces_correct E0 ifaces (p_world (proc L))) as Hwp. unfold wpx in Hwp.
    by rewrite Hreset in Hwp.
Qed.

Lemma events_loops L i r :
  life_inv L → monitors (proc L) !! i = Some r →
  ∃ p, @confined_prog (E (nameOf r)) p (nameOf r) loops (r_threads r IfEvents).
Proof.
  intros HI Hr. destruct (decide (i ∈ stopping L)) as [Hi|Hi].
  - destruct (holds_stopping _ _ _ HI Hr Hi) as (p & Hinv). exists p. by apply (si_loops _ _ _ Hinv).
  - destruct (holds_running _ _ _ HI Hr Hi) as (p & pf & _ & Hgo). exists p.
    by eapply confined_goes, (Hgo IfEvents).
Qed.

Section stuck.
Context (L : Life) (HI : life_inv L) (Hstuck : ∀ who L', life_step L who L' → who = Kernel).

Lemma stuck_segment i r g a m :
  monitors (proc L) !! i = Some r → r_threads r g = Seg a m → (g = Main → mutex_free (hand L)) →
  life_crash L.
Proof.
  intros Hr Hg Hfree. destruct (m (st (config (proc L) r))) as [q s'|w s'] eqn:Hm.
  - assert (MonitorGo i g = Kernel) as Hk; [|done]. eapply Hstuck, life_go; [done| |].
    + by eapply (@go_segment (E (nameOf r))).
    + intros ->. left. by apply Hfree.
  - right. right. left. exists i, r. split; [done|]. by exists g, a, m, w, s'.
Qed.

(** No monitor keeps the handler waiting for ever. *)
Lemma stuck_hand : mutex_free (hand L) ∨ life_crash L.
Proof.
  destruct (hand L) as [| |link|i link|] eqn:Hh; [by left..| |by left].
  destruct (lookup_lt_is_Some_2 _ _ (life_hand _ HI _ _ Hh)) as [r Hr]. right.
  destruct (events_loops _ _ _ HI Hr) as (p & Hc). destruct (r_threads r IfEvents) as [| | |a m] eqn:Hg.
  - assert (HandlerGo = Kernel) as Hk; [|done]. by eapply Hstuck, life_pass.
  - left. by exists i, link, r.
  - inversion Hc as [? [?|?]|]; done.
  - by eapply stuck_segment.
Qed.

Lemma stuck_settled i r :
  mutex_free (hand L) → monitors (proc L) !! i = Some r → settled L i r ∨ life_crash L.
Proof.
  intros Hfree Hr.
  assert (∀ g c', ¬ @go_step (E (nameOf r)) (config (proc L) r) g c') as Hgo.
  { intros g c' Hstep. assert (MonitorGo i g = Kernel) as Hk; [|done].
    eapply Hstuck, life_go; [done|exact Hstep|by left]. }
  unfold settled. case_bool_decide as Hi.
  - destruct (holds_stopping _ _ _ HI Hr Hi) as (p & Hinv).
    destruct (stuck_over _ _ _ Hinv Hgo) as [Hover|Hcrash]; [by left|].
    right. right. right. left. by exists i, r.
  - destruct (holds_running _ _ _ HI Hr Hi) as (p & pf & Ha & _).
    pose proof (inv_stop _ _ _ (alive_Inv _ _ _ Ha)) as Ho.
    destruct (r_threads r Main) as [| | |a m] eqn:Hmain; [|by left|..].
    + exfalso. eapply Hgo. apply (go_round _ Main (demoLink OperUp)); [done|done|congruence].
    + assert (MonitorGo i Main = Kernel) as Hk; [|done]. by eapply Hstuck, life_fails.
    + right. by eapply stuck_segment.
Qed.

Lemma stuck_all_stopped : todo (proc L) = [] → all_settled L → all_stopped L.
Proof.
  intros Htodo Hset.
  assert (∀ i, i < length (monitors (proc L)) → i ∈ stopping L) as Hall.
  { induction i as [i IH] using lt_wf_ind. intros Hi.
    destruct (decide (i ∈ stopping L)) as [|Ho]; [done|].
    destruct (lookup_lt_is_Some_2 _ _ Hi) as [r Hr]. assert (MainGo = Kernel) as Hk; [|done].
    eapply Hstuck, (life_signal L i r); [done..|]. intros j Hj. apply IH; [done|lia]. }
  intros i r Hr. assert (i ∈ stopping L) as Hi by (eapply Hall, lookup_lt_Some; done).
  split; [done|]. specialize (Hset i r Hr). unfold settled in Hset. by rewrite bool_decide_true in Hset.
Qed.

Lemma stuck_ended : ended L ∨ life_crash L.
Proof.
  assert (HandlerGo ≠ Kernel ∧ MainGo ≠ Kernel) as [Hh Hm] by done.
  destruct stuck_hand as [Hfree|]; [|by right].
  destruct (lookup_or (monitors (proc L)) (settled L) (life_crash L)) as [Hset|];
    [intros i r; by apply stuck_settled| |by right].
  destruct (todo (proc L)) as [|n rest] eqn:Hn; cycle 1.
  { destruct (@startUp (E n) (newMonitor nsName (proc L) n)) as [[e|] s1|w s1] eqn:Hs.
    - exfalso. by eapply Hm, Hstuck, life_skip.
    - exfalso. by eapply Hm, Hstuck, life_start.
    - right. right. left. by exists n, rest, w, s1. }
  pose proof (stuck_all_stopped Hn Hset) as Hall.
  destruct (phase L) as [| |e] eqn:Hph; [|..|left; split; [by exists e|]].
  - exfalso. by eapply Hm, Hstuck, life_stop_handler.
  - destruct (hand L) as [| |link|i link|] eqn:Hh'.
    + exfalso. by eapply Hh, Hstuck, life_subscribed.
    + exfalso. by eapply Hh, Hstuck, life_exit.
    + exfalso. by eapply Hh, Hstuck, life_lock.
    + done.
    + destruct (@resetInterfaces E0 ifaces (p_world (proc L))) as [e w|e w] eqn:Hr.
      * exfalso. by eapply Hm, Hstuck, life_reset.
      * right. right. right. right. by exists e, w.
  - split; [done|]. split; [done|]. by eapply life_done.
Qed.
End stuck.

(** ** The end comes *)
Definition all_closed (L : Life) : Prop :=
  ∀ i r, monitors (proc L) !! i = Some r → stop (r_mon r) = HClosed.

(** What is left to do: for [main], for the handler, and for every monitor. *)
Definition phaseRank (x : Phase) : nat :=
  match x with Monitoring => 2 | StoppingHandler => 1 | Finished _ => 0 end.

Definition handRank (h : position) : nat :=
  match h with Locking _ => 3 | Sending _ _ => 2 | Subscribing => 2 | Selecting => 1 | Exited => 0 end.

Definition left_of (L : Life) : nat * (nat * list ranks) :=
  (phaseRank (phase L), (handRank (hand L), (λ r, ranksOf (r_threads r)) <$> monitors (proc L))).

Definition less : nat * (nat * list ranks) → nat * (nat * list ranks) → Prop :=
  slexprod _ _ lt (slexprod _ _ lt (replaced fewer)).

Lemma less_wf : well_founded less.
Proof. repeat apply wf_slexprod; [apply lt_wf..|]. apply replaced_wf, fewer_wf. Qed.

(** A step of the program's own. *)
Definition own_step (L L' : Life) : Prop := ∃ who, who ≠ Kernel ∧ life_step L who L'.

Lemma threads_replaced P i r c' :
  monitors P !! i = Some r → fewer (ranksOf (threads c')) (ranksOf (r_threads r)) →
  replaced fewer ((λ r, ranksOf (r_threads r)) <$> monitors (put P i c'))
    ((λ r, ranksOf (r_threads r)) <$> monitors P).
Proof.
  intros Hr Hf. exists i, (ranksOf (r_threads r)), (ranksOf (threads c')).
  split; [by rewrite list_lookup_fmap, Hr|]. split; [done|]. cbn. by rewrite list_fmap_insert.
Qed.

Lemma put_closed L i r c' :
  monitors (proc L) !! i = Some r → all_closed L → stop (mon (st c')) = HClosed →
  ∀ j r', monitors (put (proc L) i c') !! j = Some r' → stop (r_mon r') = HClosed.
Proof.
  intros Hr Hall Hc j r' [[-> ->]|[_ Hj]]%put_lookup; [done|by eapply Hall|by eapply lookup_lt_Some].
Qed.

Lemma closing_step L L' :
  life_inv L → todo (proc L) = [] → all_closed L → own_step L L' →
  less (left_of L') (left_of L) ∧ todo (proc L') = [] ∧ all_closed L'.
Proof.
  intros HI Htodo Hclosed (who & Hwho & Hstep).
  assert (∀ i r, monitors (proc L) !! i = Some r → i ∈ stopping L) as Hall.
  { intros i r Hr. destruct (decide (i ∈ stopping L)) as [|Ho]; [done|].
    destruct (holds_running _ _ _ HI Hr Ho) as (p & pf & [HIr _ _] & _).
    pose proof (inv_stop _ _ _ HIr) as Hs. cbn in Hs. specialize (Hclosed i r Hr). congruence. }
  unfold left_of, less. destruct Hstep as [n rest s1 Hn _ _ Hs1|n rest e s1 Hn _ Hs1|i r g c' Hr Hgo _
    |i r Hr Ho _|i r _ _ Hr Ho _|Hph _ _|e w Hph _ Hreset|Hh|Hh|link _|_|link Hh|i link r Hh Hr Hnext|_ Hh];
    [congruence|congruence| |by destruct Ho; eapply Hall..| | | | |done|done| | |].
  - pose proof (Hclosed i r Hr) as Hc. destruct (holds_stopping _ _ _ HI Hr (Hall i r Hr)) as (p & Hinv).
    split; [|split; [done|]].
    + apply right_slex, right_slex. eapply threads_replaced; [done|]. exact (go_fewer (config (proc L) r) _ _ Hc Hgo).
    + refine (put_closed L i r c' Hr Hclosed _). by eapply (sm_closed _ _ _ _ (go_moved _ _ _ _ _ Hinv Hgo)).
  - split; [|done]. apply left_slex. cbn. rewrite Hph. cbn. lia.
  - split; [|done]. apply left_slex. cbn. rewrite Hph. cbn. lia.
  - split; [|done]. apply right_slex, left_slex. cbn. rewrite Hh. cbn. lia.
  - split; [|done]. apply right_slex, left_slex. cbn. rewrite Hh. cbn. lia.
  - split; [|done]. apply right_slex, left_slex. cbn. rewrite Hh. destruct (_ !! _); cbn; lia.
  - split; [|split; [done|]].
    + apply right_slex, left_slex. cbn. rewrite Hh. cbn. lia.
    + refine (put_closed L i r _ Hr Hclosed _). by apply (Hclosed i r).
  - split; [|done]. apply right_slex, left_slex. cbn. rewrite Hh. cbn. lia.
Qed.

Lemma closing_acc L :
  NoDup ifaces → life_inv L → todo (proc L) = [] → all_closed L → Acc (flip own_step) L.
Proof.
  intros Hnd.
  induction L as [L IH] using (well_founded_induction (wf_inverse_image _ _ _ left_of less_wf)).
  intros HI Htodo Hclosed. constructor. intros L' Hstep.
  destruct (closing_step _ _ HI Htodo Hclosed Hstep) as (Hf & Htodo' & Hclosed').
  destruct Hstep as (who & _ & Hstep). apply IH; [done| |done|done]. by eapply life_step_inv.
Qed.

(** ** Theorems *)
Lemma life_isolated L i r :
  life_inv L → monitors (proc L) !! i = Some r →
  i ∉ stopping L → @netlink_ok (E (nameOf r)) (nameOf r) →
  ∃ pf, monitorPF (st (config (proc L) r)) = Some pf ∧
    isolated (trace (p_world (proc L))) (nameOf r) pf.
Proof.
  intros HI Hr Ho Hok. destruct (holds_running _ _ _ HI Hr Ho) as (p & pf & Ha & _). exists pf.
  split; [exact (Inv_monitorPF _ _ _ (alive_Inv _ _ _ Ha))|]. by apply (alive_isolated _ _ _ _ Ha).
Qed.

(** C7. The whole life of the process: in every state of every run over distinct
    interfaces, whichever monitors are being stopped or have been, because they
    could not attach or because the signal has come, each monitor has its own PF,
    and the VFs of each that is not being stopped are closed exactly while it has
    no client, provided netlink works for that interface. *)
Theorem life_isolates before tcp udp L i r :
  life_run before tcp udp L → NoDup ifaces → monitors (proc L) !! i = Some r →
  (nameOf <$> monitors (proc L)) ++ todo (proc L) `sublist_of` ifaces ∧
  (∀ j r', monitors (proc L) !! j = Some r' → PfInfo (r_mon r) = PfInfo (r_mon r') → i = j) ∧
  (i ∉ stopping L → @netlink_ok (E (nameOf r)) (nameOf r) →
   ∃ pf, monitorPF (st (config (proc L) r)) = Some pf ∧
     isolated (trace (p_world (proc L))) (nameOf r) pf).
Proof.
  intros Hrun Hnd Hr. pose proof (life_run_inv _ _ _ _ Hnd Hrun) as HI. pose proof HI as [He _].
  split; [apply He|]. split; [intros j r' Hj; by eapply (pi_refs _ _ _ He)|].
  by eapply life_isolated.
Qed.

(** C8. How the process ends.  In every state of every run over distinct
    interfaces: while the API server answers every monitor, the only panic there
    can be is the link handler's, which sends an update to a monitor that is being
    stopped and has closed its channel; where nothing can happen but updates of the
    kernel, every interface has been come to, every monitor and all its goroutines
    have been stopped, the handler is gone and [main] is at its end, unless
    something has panicked; and once all monitors have been told to stop, the
    program takes only finitely many steps of its own. *)
Theorem life_ends before tcp udp L :
  life_run before tcp udp L → NoDup ifaces →
  ((∀ n, @api_ok (E n)) → life_crash L → ∃ i, i ∈ stopping L ∧ sends_closed L i) ∧
  ((∀ who L', life_step L who L' → who = Kernel) → ended L ∨ life_crash L) ∧
  (todo (proc L) = [] → all_closed L → Acc (flip own_step) L).
Proof.
  intros Hrun Hnd. pose proof (life_run_inv _ _ _ _ Hnd Hrun) as HI.
  split; [by apply life_inv_crash|]. split; [by apply stuck_ended|by apply closing_acc].
Qed.
End life.

(** ** Runs by a schedule, for the witnesses *)
Definition isReturn (q : prog) : bool := match q with Return => true | _ => false end.
Definition isFailed (q : prog) : bool := match q with Failed => true | _ => false end.
Definition isNext (q : prog) : bool := match q with Next => true | _ => false end.

Definition isOver (r : Running) : bool :=
  forallb (λ g, isReturn (r_threads r g)) [Main; Reply; IfEvents; KeepAlive; Requests].

Lemma isReturn_eq q : isReturn q = true → q = Return.
Proof. by destruct q. Qed.

Lemma isOver_ok P r : isOver r = true → over (config P r).
Proof.
  unfold isOver. rewrite forallb_forall. intros Hall g. apply isReturn_eq, Hall. destruct g; cbn; tauto.
Qed.

Lemma forallb_imap {A} (f : nat * A → bool) (l : list A) i x :
  forallb f (imap pair l) = true → l !! i = Some x → f (i, x) = true.
Proof.
  rewrite forallb_forall. intros Hall Hx. apply Hall, list_elem_of_In, list_elem_of_lookup.
  exists i. by rewrite list_lookup_imap, Hx.
Qed.

Definition isSettled (L : Life) : bool :=
  forallb (λ '(i, r), if bool_decide (i ∈ stopping L) then isOver r else isReturn (r_threads r Main))
    (imap pair (monitors (proc L))).

Lemma isSettled_ok L : isSettled L = true → all_settled L.
Proof.
  intros Hall i r Hr. pose proof (forallb_imap _ _ _ _ Hall Hr) as H. cbn in H. unfold settled.
  case_bool_decide; [by apply isOver_ok|by apply isReturn_eq].
Qed.

Definition isStopped (L : Life) : bool :=
  forallb (λ '(i, r), bool_decide (i ∈ stopping L) && isOver r) (imap pair (monitors (proc L))).

Lemma isStopped_ok L : isStopped L = true → all_stopped L.
Proof.
  intros Hall i r Hr. pose proof (forallb_imap _ _ _ _ Hall Hr) as H. cbn in H.
  apply andb_true_iff in H as [Hi Ho]. apply bool_decide_eq_true in Hi. split; [done|by apply isOver_ok].
Qed.

(** The first monitor that has not been told to stop. *)
Fixpoint nextToStop (L : Life) (i n : nat) : option nat :=
  match n with
  | 0 => None
  | S n' => if bool_decide (i ∈ stopping L) then nextToStop L (S i) n' else Some i
  end.

Lemma nextToStop_ok L n : ∀ i k,
  nextToStop L i n = Some k → (∀ j, j < i → j ∈ stopping L) →
  k ∉ stopping L ∧ ∀ j, j < k → j ∈ stopping L.
Proof.
  induction n as [|n IH]; intros i k; cbn; [done|]. case_bool_decide as Hi; [|by intros [= <-]].
  intros Hk Hj. eapply IH; [exact Hk|]. intros j Hlt.
  destruct (decide (j = i)) as [->|Hne]; [done|apply Hj; lia].
Qed.

Definition isFree (h : position) : bool := match h with Sending _ _ => false | _ => true end.

Lemma isFree_ok h : isFree h = true → mutex_free h.
Proof. by destruct h. Qed.

Definition goFire `{Sys} (c : Config) (g : goroutine) : option Config :=
  match threads c g with
  | Seg a m => match m (st c) with
               | Done p' s' => Some {| st := s'; threads := <[g := p']> (threads c) |}
               | Panic _ _ => None
               end
  | Next =>
      if bool_decide (stop (mon (st c)) = HClosed) then
        if bool_decide (g = Main) then None else Some (set_thread g Return c)
      else if bool_decide (g = IfEvents) then None
      else Some (set_thread g (round g (IfName (mon (st c))) (demoLink OperUp)) c)
  | Return | Failed => None
  end.

Lemma goFire_step `{Sys} c g c' : goFire c g = Some c' → go_step c g c'.
Proof.
  unfold goFire. destruct (threads c g) as [| | |a m] eqn:Hg; [|done|done|].
  - repeat case_bool_decide; intros [= <-]; [by apply go_return|by apply go_round].
  - destruct (m (st c)) as [p' s'|] eqn:Hm; [|done]. intros [= <-]. by eapply go_segment.
Qed.

Section exec.
Context (E : string → Sys) (E0 : Sys) (ifaces : list string) (nsName : string * string).

(** The first thing that [main] can do. *)
Definition mainFire (L : Life) : option Life :=
  match todo (proc L) with
  | n :: rest =>
      if isSettled L then
        match @startUp (E n) (newMonitor nsName (proc L) n) with
        | Done None s1 =>
            if isFree (hand L) then Some
              (set_links (snd (Subscribe (Some (length (monitors (proc L)))) [n] (links L)))
                (set_proc (begun (proc L) rest s1) L))
            else None
        | Done (Some _) s1 => Some
            (set_proc {| p_world := wld s1; p_stats := stats s1; monitors := monitors (proc L);
                         todo := rest |} L)
        | Panic _ _ => None
        end
      else None
  | [] =>
      match nextToStop L 0 (length (monitors (proc L))), phase L, hand L with
      | Some i, _, _ =>
          r ← monitors (proc L) !! i; if isSettled L then Some (callStop E i r L) else None
      | None, Monitoring, _ =>
          if isStopped L then Some (set_phase StoppingHandler (set_proc (onWorld
            (set_trace (EvStopHandler :: trace (p_world (proc L))) (p_world (proc L))) (proc L)) L))
          else None
      | None, StoppingHandler, Exited =>
          match @resetInterfaces E0 ifaces (p_world (proc L)) with
          | Done e w => Some (set_phase (Finished e) (set_proc (onWorld w (proc L)) L))
          | Panic _ _ => None
          end
      | None, _, _ => None
      end
  end.

Definition monitorFire (L : Life) (i : nat) (g : goroutine) : option Life :=
  r ← monitors (proc L) !! i;
  if bool_decide (g = Main) && bool_decide (i ∉ stopping L) && isFailed (r_threads r Main)
  then Some (callStop E i r L)
  else
    c' ← @goFire (E (nameOf r)) (config (proc L) r) g;
    let ns := unsubscribed (trace (p_world (proc L))) (trace (wld (st c'))) in
    if isFree (hand L) || bool_decide (ns = [])
    then Some (set_links (Unsubscribe ns (links L)) (moved_to i c' L)) else None.

Definition handlerFire (L : Life) : option Life :=
  match hand L with
  | Subscribing => Some (set_hand Selecting L)
  | Locking link =>
      Some (set_hand (match ifaceChannels (links L) !! Link_Name link with
                      | Some i => Sending i link
                      | None => Selecting
                      end) L)
  | Sending i link =>
      r ← monitors (proc L) !! i;
      if isNext (r_threads r IfEvents) then Some (set_hand Selecting
        (moved_to i (set_thread IfEvents (@ifEventProg (E (nameOf r)) link) (config (proc L) r)) L))
      else None
  | Selecting => match phase L with StoppingHandler => Some (set_hand Exited L) | _ => None end
  | Exited => None
  end.

Definition lifeFire (L : Life) (who : actor) : option Life :=
  match who with
  | MainGo => mainFire L
  | MonitorGo i g => monitorFire L i g
  | HandlerGo => handlerFire L
  | Kernel => match hand L with
              | Selecting => Some (set_hand (Locking (demoLink OperDown)) L)
              | _ => None
              end
  end.

Abbreviation step := (life_step E E0 ifaces nsName).

Lemma mainFire_step L L' : mainFire L = Some L' → step L MainGo L'.
Proof.
  unfold mainFire. destruct (todo (proc L)) as [|n rest] eqn:Hn.
  - destruct (nextToStop _ _ _) as [i|] eqn:Hi.
    + destruct (monitors (proc L) !! i) as [r|] eqn:Hr; [|done]. cbn.
      destruct (isSettled L) eqn:Hs; [|done]. apply isSettled_ok in Hs. intros [= <-].
      apply nextToStop_ok in Hi as [Ho Hj]; [|intros j Hj; lia]. by apply life_signal.
    + destruct (phase L) eqn:Hp; [|destruct (hand L) eqn:Hh; try done|done].
      * destruct (isStopped L) eqn:Hs; [|done]. apply isStopped_ok in Hs. intros [= <-].
        by apply life_stop_handler.
      * destruct (@resetInterfaces _ _ _) as [e w|] eqn:Hr; [|done]. intros [= <-]. by apply life_reset.
  - destruct (isSettled L) eqn:Hs; [|done]. apply isSettled_ok in Hs.
    destruct (startUp _) as [[e|] s1|] eqn:Hs1; [| |done].
    + intros [= <-]. by eapply life_skip.
    + destruct (isFree (hand L)) eqn:Hf; [|done]. apply isFree_ok in Hf. intros [= <-].
      by eapply life_start.
Qed.

Lemma monitorFire_step L i g L' : monitorFire L i g = Some L' → step L (MonitorGo i g) L'.
Proof.
  unfold monitorFire. destruct (monitors (proc L) !! i) as [r|] eqn:Hr; [|done]. cbn.
  destruct (_ && _) eqn:Hfail.
  - intros [= <-]. apply andb_true_iff in Hfail as [[->%bool_decide_eq_true Hi]%andb_true_iff Hf].
    apply bool_decide_eq_true in Hi. apply life_fails; [done..|]. by destruct (r_threads r Main).
  - destruct (goFire _ g) as [c'|] eqn:Hf; [|done]. cbn. destruct (_ || _) eqn:Hfree; [|done].
    intros [= <-]. refine (life_go _ _ _ _ L i r g c' Hr _ _); [by apply goFire_step|]. intros _.
    apply orb_true_iff in Hfree as [?%isFree_ok|?%bool_decide_eq_true]; auto.
Qed.

Lemma handlerFire_step L L' : handlerFire L = Some L' → step L HandlerGo L'.
Proof.
  unfold handlerFire. destruct (hand L) as [| |link|i link|] eqn:Hh; [| | | |done].
  - intros [= <-]. by apply life_subscribed.
  - destruct (phase L) eqn:Hp; try done. intros [= <-]. by apply life_exit.
  - intros [= <-]. by apply life_lock.
  - destruct (monitors (proc L) !! i) as [r|] eqn:Hr; [|done]. cbn.
    destruct (isNext _) eqn:Hn; [|done]. intros [= <-]. refine (life_pass _ _ _ _ L i link r Hh Hr _).
    by destruct (r_threads r IfEvents).
Qed.

Lemma lifeFire_step L who L' : lifeFire L who = Some L' → step L who L'.
Proof.
  destruct who; cbn; [apply mainFire_step|apply monitorFire_step|apply handlerFire_step|].
  destruct (hand L) eqn:Hh; try done. intros [= <-]. by apply life_take.
Qed.

(** Moves that are not possible are left out. *)
Fixpoint lifeExec (sched : list actor) (L : Life) : Life :=
  match sched with
  | [] => L
  | who :: sched' => lifeExec sched' (default L (lifeFire L who))
  end.

Lemma lifeExec_steps sched L : life_steps E E0 ifaces nsName L (lifeExec sched L).
Proof.
  revert L. induction sched as [|who sched IH]; intros L; [by apply rtc_refl|]. cbn.
  destruct (lifeFire L who) as [L'|] eqn:Hf; [|apply IH].
  eapply rtc_l; [|apply IH]. exists who. by apply lifeFire_step.
Qed.

Lemma lifeExec_run before tcp udp sched L :
  begins E0 ifaces before tcp udp L →
  life_run E E0 ifaces nsName before tcp udp (lifeExec sched L).
Proof. intros Hb. exists L. split; [done|]. apply lifeExec_steps. Qed.
End exec.

(** ** Witnesses *)
Abbreviation demoKey := ("default", "authenticator-sample").

(** A schedule that starts [n] monitors, [before i] being what happens before the
    [Main] of the monitor [i] goes on. *)
Definition startSchedule (n : nat) (before : nat → list actor) : list actor :=
  mjoin (map (λ i, [MainGo] ++ before i ++ repeat (MonitorGo i Main) 4) (seq 0 n)).

(** [StopMonitor] of the monitor [i], and the return of its goroutines. *)
Definition stopSchedule (i : nat) : list actor :=
  [MainGo] ++ repeat (MonitorGo i Main) 20 ++
  mjoin (map (λ g, repeat (MonitorGo i g) 2) [Reply; IfEvents; KeepAlive; Requests]).

Definition lifeOf (sched : list actor) : Life :=
  lifeExec demoEnv (demo (calm [])) ["ens1"; "ens2"] demoKey sched (beginning demoBegin).

Abbreviation demoLife_run L := (life_run demoEnv (demo (calm [])) ["ens1"; "ens2"] demoKey [] [] [] L).

Lemma demoLife_ok sched : demoLife_run (lifeOf sched).
Proof. apply lifeExec_run. apply begins_with. vm_compute. reflexivity. Qed.

Definition lifeMonitor (L : Life) (i : nat) : Running :=
  default {| r_mon := NewInterfaceMonitor "" true ("", ""); r_threads := λ _, Next |}
    (monitors (proc L) !! i).

Lemma lifeMonitor_ok L i :
  (i <? length (monitors (proc L))) = true → monitors (proc L) !! i = Some (lifeMonitor L i).
Proof.
  intros Hi%Nat.ltb_lt. unfold lifeMonitor. by destruct (lookup_lt_is_Some_2 _ _ Hi) as [r ->].
Qed.

(** Both monitors run, the second one with a client; the signal comes and the first
    one is being stopped, while the second one goes on. *)
Definition bothStarted : list actor :=
  [HandlerGo] ++ startSchedule 2 (λ i,
    if bool_decide (i = 1) then repeat (MonitorGo 1 Reply) 4 else []).

Definition stoppingFirst : Life :=
  lifeOf (bothStarted ++ [MainGo] ++ repeat (MonitorGo 0 Main) 14 ++ [MonitorGo 1 Requests; Kernel]).

Lemma life_isolates_witness :
  let L := stoppingFirst in let r := lifeMonitor L 1 in
  (0 ∈ stopping L ∧ stop (r_mon (lifeMonitor L 0)) = HClosed ∧ 1 ∉ stopping L) ∧
  (nameOf <$> monitors (proc L)) ++ todo (proc L) `sublist_of` ["ens1"; "ens2"] ∧
  (∀ j r', monitors (proc L) !! j = Some r' → PfInfo (r_mon r) = PfInfo (r_mon r') → 1 = j) ∧
  (1 ∉ stopping L → @netlink_ok (demoEnv (nameOf r)) (nameOf r) →
   ∃ pf, monitorPF (st (config (proc L) r)) = Some pf ∧
     isolated (trace (p_world (proc L))) (nameOf r) pf).
Proof.
  split.
  { split; [|split; [vm_compute; reflexivity|]]; apply (bool_decide_unpack _); vm_compute; exact I. }
  apply (@life_isolates demoEnv (demo (calm [])) ["ens1"; "ens2"] demoKey (λ n, demo_LinkNames _)
    [] [] []).
  - apply demoLife_ok.
  - apply demoNames.
  - apply lifeMonitor_ok. vm_compute. reflexivity.
Defined.

(** All of the process, to its end. *)
Definition wholeLife : Life :=
  lifeOf (bothStarted ++ stopSchedule 0 ++ stopSchedule 1 ++ [MainGo; HandlerGo; MainGo]).

Definition isFinished (x : Phase) : bool := match x with Finished None => true | _ => false end.

Lemma closed_forallb L :
  forallb (λ r, bool_decide (stop (r_mon r) = HClosed)) (monitors (proc L)) = true → all_closed L.
Proof.
  rewrite forallb_forall. intros Hall i r Hr. eapply bool_decide_eq_true, Hall.
  apply list_elem_of_In, list_elem_of_lookup. by exists i.
Qed.

Lemma life_ends_witness :
  let L := wholeLife in
  let step := life_step demoEnv (demo (calm [])) ["ens1"; "ens2"] demoKey in
  let crash := life_crash demoEnv (demo (calm [])) ["ens1"; "ens2"] demoKey in
  (length (monitors (proc L)) = 2 ∧ todo (proc L) = [] ∧ all_closed L ∧ all_stopped L ∧
   isFinished (phase L) = true) ∧
  ((∀ n, @api_ok (demoEnv n)) → crash L → ∃ i, i ∈ stopping L ∧ sends_closed L i) ∧
  ((∀ who L', step L who L' → who = Kernel) → ended L ∨ crash L) ∧
  (todo (proc L) = [] → all_closed L →
   Acc (flip (own_step demoEnv (demo (calm [])) ["ens1"; "ens2"] demoKey)) L).
Proof.
  split.
  { split; [vm_compute; reflexivity|]. split; [vm_compute; reflexivity|].
    split; [apply closed_forallb; vm_compute; reflexivity|].
    split; [apply isStopped_ok; vm_compute; reflexivity|vm_compute; reflexivity]. }
  apply (@life_ends demoEnv (demo (calm [])) ["ens1"; "ens2"] demoKey (λ n, demo_LinkNames _) [] [] []).
  - apply demoLife_ok.
  - apply demoNames.
Defined.

(** An update for the first interface is on its way when its monitor closes the
    channel: the process ends in the middle of its shutdown. *)
Definition lateUpdate : Life :=
  lifeOf (bothStarted ++ [MainGo] ++ repeat (MonitorGo 0 Main) 14 ++
    [Kernel; HandlerGo; MonitorGo 0 IfEvents]).

Definition isSendingClosed (L : Life) (i : nat) : bool :=
  match hand L, monitors (proc L) !! i with
  | Sending j _, Some r => bool_decide (j = i) && isReturn (r_threads r IfEvents)
  | _, _ => false
  end.

Lemma isSendingClosed_ok L i : isSendingClosed L i = true → sends_closed L i.
Proof.
  unfold isSendingClosed, sends_closed. destruct (hand L) as [| | |j link|]; try done.
  destruct (monitors (proc L) !! i) as [r|] eqn:Hr; [|done].
  intros [->%bool_decide_eq_true Hret%isReturn_eq]%andb_true_iff. by exists link, r.
Qed.

(** The handler's panic does happen. *)
Lemma life_can_crash : demoLife_run lateUpdate ∧ sends_closed lateUpdate 0.
Proof.
  split; [apply demoLife_ok|]. apply isSendingClosed_ok. vm_compute. reflexivity.
Qed.
