(* ===== verification/Shutdown.v ===== *)
(** * What the stop of a monitor leaves on the machine

    [StopMonitor] gives the VFs back before it tells the goroutines to stop, so what
    is left depends on what they do in between.  While they leave the PF and its VFs
    alone, whatever the rest of the process does, the VFs are as they were found; a
    disconnection that comes in between closes them for good. *)
From S2P Require Import Prelude GoStrings Api Sys LinkEvents.
From S2P Require Import TrafficControl TrafficControlSpec Hostap ClientSpec HostapSpec HostapLife.
From S2P Require Import HostapSteps Confined HostapTheorems Demo MonitorMain Process Stopping Life.
From stdpp Require Import functions.

(** [StopMonitor] is done with the VFs. *)
Definition past_restoring `{Sys} (q : prog) : Prop := q = closingProg ∨ ending q.

Section shutdown.
Context (E : string → Sys) (E0 : Sys) (ifaces : list string) (nsName : string * string).
Context {HE : ∀ n, @LinkNames (E n)} (Hnd : NoDup ifaces).

Abbreviation step := (life_step E E0 ifaces nsName).
Abbreviation life_inv := (life_inv E ifaces).

(** ** One monitor, and a step of the process *)

(** A step of one of its own threads. *)
Definition own_go (i : nat) (r : Running) (L : Life) (who : actor) (L' : Life) (r' : Running) : Prop :=
  ∃ g c', who = MonitorGo i g ∧ @go_step (E (nameOf r)) (config (proc L) r) g c' ∧
    p_world (proc L') = wld (st c') ∧ r_threads r' = threads c'.

(** Anything else, which leaves its PF, its VFs and its [Main] alone. *)
Definition elsewhere (i : nat) (r : Running) (L L' : Life) (r' : Running) : Prop :=
  (i ∈ stopping L → r_threads r' Main = r_threads r Main) ∧
  ∀ p, PfInfo (r_mon r) = Some p → same_own p (nameOf r) (p_world (proc L)) (p_world (proc L')).

Record follows_up (i : nat) (r : Running) (L : Life) (who : actor) (L' : Life) (r' : Running) : Prop := {
  fu_monitor : monitors (proc L') !! i = Some r';
  fu_PF : PfInfo (r_mon r') = PfInfo (r_mon r);
  fu_name : nameOf r' = nameOf r;
  fu_stopping : i ∈ stopping L → i ∈ stopping L';
  fu_what : own_go i r L who L' r' ∨ elsewhere i r L L' r';
}.

Lemma framed_own p n q name w w' :
  framed q name w w' → p ≠ q → n ≠ name → same_own p n w w'.
Proof. intros [Hp Hv _] Hq Hn. split; [by apply Hp|]. intros i. by apply Hv. Qed.

(** A monitor has its PF and its name, whether it is being stopped or not. *)
Lemma monitor_attached L j r :
  life_inv L → monitors (proc L) !! j = Some r →
  ∃ p, PfInfo (r_mon r) = Some p ∧ @attached p (nameOf r) (st (config (proc L) r)).
Proof.
  intros HI Hr. destruct (decide (j ∈ stopping L)) as [Hj|Hj].
  - destruct (holds_stopping _ _ _ _ _ HI Hr Hj) as (p & [Hs _ _]). exists p. split; [apply Hs|done].
  - destruct (holds_running _ _ _ _ _ HI Hr Hj) as (p & pf & [HIr _ _] & _). exists p.
    split; [apply HIr|]. by eapply Inv_attached.
Qed.

(** A goroutine's step is about its monitor's own PF and link. *)
Lemma go_framed L j r g c' :
  life_inv L → monitors (proc L) !! j = Some r →
  @go_step (E (nameOf r)) (config (proc L) r) g c' →
  ∃ p, PfInfo (r_mon r) = Some p ∧ framed p (nameOf r) (p_world (proc L)) (wld (st c')) ∧
    PfInfo (mon (st c')) = Some p ∧ IfName (mon (st c')) = nameOf r.
Proof.
  intros HI Hr Hgo. destruct (decide (j ∈ stopping L)) as [Hj|Hj].
  - destruct (holds_stopping _ _ _ _ _ HI Hr Hj) as (p & Hinv). exists p.
    pose proof (go_moved _ _ _ _ _ Hinv Hgo) as [HI' Hfr _].
    split; [apply (si_attached _ _ _ Hinv)|]. split; [done|]. split; apply (si_attached _ _ _ HI').
  - destruct (holds_running _ _ _ _ _ HI Hr Hj) as (p & pf & Ha & _). exists p.
    destruct (go_sys _ _ _ (inv_stop _ _ _ (alive_Inv _ _ _ Ha)) Hgo) as (a & Hsys).
    destruct (alive_step _ _ _ _ _ Ha Hsys) as (pf' & [[HI' _ _] _ Hn Hfr _]).
    split; [apply Ha|]. split; [exact Hfr|]. split; [apply HI'|exact Hn].
Qed.

(** Another monitor moves. *)
Lemma elsewhere_moved L i r who j r0 p c' o l h :
  life_inv L → monitors (proc L) !! i = Some r → monitors (proc L) !! j = Some r0 → j ≠ i →
  PfInfo (r_mon r0) = Some p → framed p (nameOf r0) (p_world (proc L)) (wld (st c')) →
  (i ∈ stopping L → i ∈ o) →
  follows_up i r L who {| proc := put (proc L) j c'; stopping := o; links := l; hand := h;
                          phase := phase L |} r.
Proof.
  intros HI Hr Hr0 Hne Hp Hfr Ho. pose proof (life_each _ _ _ HI) as He.
  split; cbn; [by rewrite list_lookup_insert_ne|done..|]. right. split; [done|].
  intros q Hq. eapply framed_own; [exact Hfr|..].
  - intros ->. apply Hne. eapply (pi_refs _ _ _ He); [done..|congruence].
  - intros Heq. apply Hne. by eapply (names_apart _ _ Hnd _ _ _ _ _ He Hr0 Hr).
Qed.

(** The monitors stay as they are. *)
Lemma elsewhere_alone L i r who L' :
  monitors (proc L) !! i = Some r → monitors (proc L') !! i = Some r →
  (i ∈ stopping L → i ∈ stopping L') →
  (∀ p, PfInfo (r_mon r) = Some p → same_own p (nameOf r) (p_world (proc L)) (p_world (proc L'))) →
  follows_up i r L who L' r.
Proof. intros Hr Hr' Ho Hw. split; try done. by right. Qed.

Lemma elsewhere_start L i r n rest who L' q :
  life_inv L → monitors (proc L) !! i = Some r → todo (proc L) = n :: rest →
  pfs (p_world (proc L)) !! q = None → framed q n (p_world (proc L)) (p_world (proc L')) →
  monitors (proc L') !! i = Some r → stopping L' = stopping L → follows_up i r L who L' r.
Proof.
  intros HI Hr Hn Hq Hfr Hr' Ho. pose proof (life_each _ _ _ HI) as He.
  apply elsewhere_alone; [done..|by rewrite Ho|]. intros p Hp. eapply framed_own; [exact Hfr|..].
  - intros ->. by eapply (each_new _ (holds_own E _) _ _ _ He Hq i r).
  - intros Heq. by eapply (each_to_come _ _ Hnd _ _ _ He Hn i r).
Qed.

Lemma step_follows_up L who L' i r :
  life_inv L → monitors (proc L) !! i = Some r → step L who L' → ∃ r', follows_up i r L who L' r'.
Proof.
  intros HI Hr Hstep.
  assert (∀ p, same_own p (nameOf r) (p_world (proc L)) (p_world (proc L))) as Hsame by done.
  destruct Hstep as [n rest s1 Hn _ _ Hs1|n rest e s1 Hn _ Hs1|j r0 g c' Hr0 Hgo _|j r0 Hr0 Ho _
    |j r0 _ _ Hr0 Ho _|_ _ _|e w _ _ Hreset|_|_|link _|_|link _|j link r0 _ Hr0 Hnext|_ _].
  - pose proof (@wp_startUp (E n) _ (newMonitor nsName (proc L) n)) as Hst. unfold wpx in Hst.
    rewrite Hs1 in Hst. destruct Hst as (p & pf & Hst). exists r.
    eapply elsewhere_start; [done|done|done|apply Hst|apply Hst| |done]. cbn. by apply lookup_app_l_Some.
  - destruct (startUp_skipped _ _ _ _ _ _ Hs1) as (p & Hp & Hfr). exists r.
    by eapply elsewhere_start.
  - destruct (go_framed _ _ _ _ _ HI Hr0 Hgo) as (p & Hp & Hfr & Hp' & Hn').
    destruct (decide (j = i)) as [->|Hne]; [|exists r; by eapply (elsewhere_moved L i r _ j r0)].
    rewrite Hr in Hr0. injection Hr0 as <-. exists {| r_mon := mon (st c'); r_threads := threads c' |}.
    split; cbn; [by eapply list_lookup_insert_eq, lookup_lt_Some|congruence|done|done|].
    left. by exists g, c'.
  - destruct (monitor_attached _ _ _ HI Hr0) as (p & Hp & _).
    destruct (decide (j = i)) as [->|Hne].
    + rewrite Hr in Hr0. injection Hr0 as <-. eexists.
      split; cbn; [by eapply list_lookup_insert_eq, lookup_lt_Some|done|done|set_solver|]. by right.
    + exists r. eapply (elsewhere_moved L i r _ j r0); [done..|set_solver].
  - destruct (monitor_attached _ _ _ HI Hr0) as (p & Hp & _).
    destruct (decide (j = i)) as [->|Hne].
    + rewrite Hr in Hr0. injection Hr0 as <-. eexists.
      split; cbn; [by eapply list_lookup_insert_eq, lookup_lt_Some|done|done|set_solver|]. by right.
    + exists r. eapply (elsewhere_moved L i r _ j r0); [done..|set_solver].
  - exists r. by apply elsewhere_alone.
  - exists r. apply elsewhere_alone; [done..|]. intros p _.
    pose proof (@resetInterfaces_correct E0 ifaces (p_world (proc L))) as Hwp. unfold wpx in Hwp.
    rewrite Hreset in Hwp. destruct Hwp as (_ & Hpfs & Hv & _). cbn.
    split; [by rewrite Hpfs|]. intros k. apply Hv.
  - exists r. by apply elsewhere_alone.
  - exists r. by apply elsewhere_alone.
  - exists r. by apply elsewhere_alone.
  - exists r. by apply elsewhere_alone.
  - exists r. by apply elsewhere_alone.
  - destruct (monitor_attached _ _ _ HI Hr0) as (p & Hp & _).
    destruct (decide (j = i)) as [->|Hne].
    + rewrite Hr in Hr0. injection Hr0 as <-. eexists.
      split; cbn; [by eapply list_lookup_insert_eq, lookup_lt_Some|done|done|done|]. right.
      split; [|done]. intros _. cbn. by rewrite fn_lookup_insert_ne.
    + exists r. by eapply (elsewhere_moved L i r _ j r0).
  - exists r. by apply elsewhere_alone.
Qed.

(** ** A stop during which the goroutines leave the VFs alone *)

(** The step leaves the PF of the monitor [i] and the VFs of its link as they are. *)
Definition keeps_own (i : nat) (L L' : Life) : Prop :=
  ∀ r p, monitors (proc L) !! i = Some r → PfInfo (r_mon r) = Some p →
    same_own p (nameOf r) (p_world (proc L)) (p_world (proc L')).

(** Any step, but those of the goroutines of the monitor [i] are such.  Its [Main],
    which runs [StopMonitor], the other monitors, [main] and the handler do as they
    like. *)
Definition calm_step (i : nat) (L L' : Life) : Prop :=
  ∃ who, step L who L' ∧ ((∃ g, who = MonitorGo i g ∧ g ≠ Main) → keeps_own i L L').

(** The monitor [i] is being stopped, and that leads where [R] holds of the machine. *)
Record stops (i : nat) (p : ref) (n : string) (R : World → Prop) (L : Life) (r : Running) : Prop := {
  stops_monitor : monitors (proc L) !! i = Some r;
  stops_PF : PfInfo (r_mon r) = Some p;
  stops_name : nameOf r = n;
  stops_stopping : i ∈ stopping L;
  stops_leads : leads p n R (p_world (proc L)) (r_threads r Main);
}.

Lemma calm_stops i p n R L L' r :
  local p n R → life_inv L → stops i p n R L r → calm_step i L L' → ∃ r', stops i p n R L' r'.
Proof.
  intros HR HI [Hr Hp Hn Hi Hleads] (who & Hstep & Hcalm).
  destruct (step_follows_up _ _ _ _ _ HI Hr Hstep) as (r' & [Hr' Hp' Hn' Hi' Hwhat]). exists r'.
  split; [done|congruence|congruence|by apply Hi'|]. destruct Hwhat as [(g & c' & Hwho & Hgo & Hw & Ht)|[Ht Hw]].
  - rewrite Hw, Ht. destruct (decide (g = Main)) as [->|Hne].
    + destruct (holds_stopping _ _ _ _ _ HI Hr Hi) as (p' & [Hs _ _]).
      assert (p' = p) as -> by (pose proof (at_pfinfo _ _ _ Hs) as Hp''; cbn in Hp''; congruence).
      destruct Hgo as [a m q s' Hg Hm|link _ Hg _|Hne _ _]; [| |done]; cbn in Hg;
        [|rewrite Hg in Hleads; by inversion Hleads].
      cbn. rewrite fn_lookup_insert. rewrite Hg in Hleads. inversion Hleads as [|? ? Hseg]; subst.
      eapply (Hseg (st (config (proc L) r))); [exact Hs|done|exact Hm].
    + assert (threads c' Main = r_threads r Main) as ->
        by (destruct Hgo; cbn; by rewrite fn_lookup_insert_ne).
      eapply leads_own; [exact HR| |exact Hleads]. rewrite <-Hw, <-Hn.
      apply Hcalm; [by exists g|done|done].
  - rewrite Ht by done. eapply leads_own; [exact HR| |exact Hleads]. rewrite <-Hn. by apply Hw.
Qed.

Lemma calm_run_stops i p n R L L' r :
  local p n R → life_inv L → stops i p n R L r → rtc (calm_step i) L L' →
  ∃ r', life_inv L' ∧ stops i p n R L' r'.
Proof.
  intros HR HI Hst Hrun. revert r HI Hst. induction Hrun as [L|L L1 L' Hstep _ IH]; intros r HI Hst.
  - by exists r.
  - destruct (calm_stops _ _ _ _ _ _ _ HR HI Hst Hstep) as (r1 & Hst1). eapply IH; [|done].
    destruct Hstep as (who & Hstep & _). by eapply life_step_inv.
Qed.

(** At the end of the stop [R] holds. *)
Lemma calm_over i p n R L L' r r' :
  local p n R → life_inv L → stops i p n R L r → rtc (calm_step i) L L' →
  monitors (proc L') !! i = Some r' → over (config (proc L') r') → R (p_world (proc L')).
Proof.
  intros HR HI Hst Hrun Hr' Hover.
  destruct (calm_run_stops _ _ _ _ _ _ _ HR HI Hst Hrun) as (r1 & _ & [Hr _ _ _ Hleads]).
  rewrite Hr in Hr'. injection Hr' as <-. pose proof (Hover Main) as Hmain. cbn in Hmain.
  rewrite Hmain in Hleads. by inversion Hleads.
Qed.

(** [StopMonitor] is called. *)
Lemma called_stops L who L1 i r :
  life_inv L → monitors (proc L) !! i = Some r → i ∉ stopping L → step L who L1 → i ∈ stopping L1 →
  @netlink_ok (E (nameOf r)) (nameOf r) →
  ∃ p pf r1, monitorPF (st (config (proc L) r)) = Some pf ∧ pf_wf p pf ∧
    stops i p (nameOf r) (all_open p (nameOf r) pf) L1 r1.
Proof.
  intros HI Hr Hi Hstep Hi1 Hok.
  assert (∃ r1, monitors (proc L1) !! i = Some r1 ∧ r_mon r1 = r_mon r ∧
    r_threads r1 Main = @stopProg (E (nameOf r)) ∧ p_world (proc L1) = p_world (proc L))
    as (r1 & Hr1 & Hm & Ht & Hw).
  { assert (∀ j r0, monitors (proc L) !! j = Some r0 → L1 = callStop E j r0 L → ∃ r1,
      monitors (proc L1) !! i = Some r1 ∧ r_mon r1 = r_mon r ∧
      r_threads r1 Main = @stopProg (E (nameOf r)) ∧ p_world (proc L1) = p_world (proc L)) as Hcall.
    { intros j r0 Hr0 ->. cbn in Hi1.
      apply elem_of_union in Hi1 as [->%elem_of_singleton|?]; [|done]. rewrite Hr in Hr0. injection Hr0 as <-.
      eexists. split; [by eapply list_lookup_insert_eq, lookup_lt_Some|]. cbn.
      by rewrite fn_lookup_insert. }
    destruct Hstep; try by cbn in Hi1.
    - by eapply Hcall.
    - by eapply Hcall. }
  destruct (holds_running _ _ _ _ _ HI Hr Hi) as (p & pf & Ha & _). pose proof (alive_Inv _ _ _ Ha) as HIr.
  exists p, pf, r1. split; [exact (Inv_monitorPF _ _ _ HIr)|]. split; [apply HIr|].
  assert (PfInfo (r_mon r) = Some p) as Hp by apply HIr.
  split; [done|by rewrite Hm|unfold nameOf; by rewrite Hm|done|]. rewrite Ht, Hw.
  apply leads_stop; [done|apply HIr|apply HIr|apply HIr|]. by apply (alive_vfs _ _ _ Ha).
Qed.

Lemma calm_restored L who L1 L' i r :
  life_inv L → monitors (proc L) !! i = Some r → i ∉ stopping L → step L who L1 → i ∈ stopping L1 →
  @netlink_ok (E (nameOf r)) (nameOf r) → rtc (calm_step i) L1 L' →
  (∀ r', monitors (proc L') !! i = Some r' → over (config (proc L') r')) →
  ∃ pf, monitorPF (st (config (proc L) r)) = Some pf ∧
    restored (trace (p_world (proc L'))) (nameOf r) pf.
Proof.
  intros HI Hr Hi Hstep Hi1 Hok Hcalm Hover.
  destruct (called_stops _ _ _ _ _ HI Hr Hi Hstep Hi1 Hok) as (p & pf & r1 & Hpf & Hwf & Hst).
  pose proof (all_open_local p (nameOf r) pf Hwf) as Hlocal.
  pose proof (life_step_inv _ _ _ _ _ _ _ Hnd HI Hstep) as HI1.
  destruct (calm_run_stops _ _ _ _ _ _ _ Hlocal HI1 Hst Hcalm) as (r' & _ & Hst').
  exists pf. split; [done|].
  assert (all_open p (nameOf r) pf (p_world (proc L'))) as [_ Hall].
  { pose proof (stops_monitor _ _ _ _ _ _ Hst') as Hr'. eapply calm_over; [done..|by apply Hover]. }
  intros id vf Hvf. destruct (Hwf id vf Hvf) as [_ Hidx]. destruct (Hall id vf Hvf) as [Hv Hs].
  by rewrite Hidx in Hv, Hs.
Qed.

(** C9. A stop gives the VFs back.  In every run over distinct interfaces, when
    [StopMonitor] is called for a monitor, because it could not attach or because
    the signal has come, and netlink works for its interface: once the call has
    returned, and from then on, every VF has the VLAN that the monitor had for it
    and its link follows that of the PF, provided the monitor's goroutines have left
    its PF and its VFs alone in the meantime, whatever the other monitors, the
    handler and [main] have done. *)
Theorem stop_restores before tcp udp L who L1 L' i r r' :
  life_run E E0 ifaces nsName before tcp udp L → monitors (proc L) !! i = Some r →
  i ∉ stopping L → step L who L1 → i ∈ stopping L1 →
  @netlink_ok (E (nameOf r)) (nameOf r) → rtc (calm_step i) L1 L' →
  monitors (proc L') !! i = Some r' → over (config (proc L') r') →
  ∃ pf, monitorPF (st (config (proc L) r)) = Some pf ∧
    restored (trace (p_world (proc L'))) (nameOf r) pf.
Proof.
  intros Hrun Hr Hi Hstep Hi1 Hok Hcalm Hr' Hover.
  pose proof (life_run_inv _ _ _ _ _ _ _ _ Hnd Hrun) as HI.
  eapply calm_restored; [done..|]. intros r2 Hr2. rewrite Hr' in Hr2. by injection Hr2 as <-.
Qed.

(** ** A disconnection during a stop *)

(** Every VF is on the reserved VLAN, with its link disabled. *)
Definition all_shut (n : string) (pf : PFInfo) (w : World) : Prop :=
  ∀ id vf, VFs pf !! id = Some vf → programmed (trace w) n false vf.

Lemma all_shut_local p n pf : pf_wf p pf → local p n (all_shut n pf).
Proof.
  intros Hwf w w' [_ Hw] Ho id vf Hvf. destruct (Hwf id vf Hvf) as [_ Hidx].
  eapply programmed_same; [|by apply (Ho id vf)]. rewrite Hidx. apply Hw.
Qed.

(** The last client leaves. *)
Lemma wp_last_leaves `{Sys} `{!LinkNames} p n s pf addr :
  attached p n s → pfs (wld s) !! p = Some pf → AuthenticatedAddrs pf ⊆ {[addr]} → netlink_ok n →
  wp (handleDeAuthenticateEvent addr) (λ _ s', all_shut n pf (wld s')) s.
Proof.
  intros [Hp _ _ (pf0 & Hpf0 & Hname & Hwf)] Hpf Hsub Hok. rewrite Hpf in Hpf0. injection Hpf0 as <-.
  unfold handleDeAuthenticateEvent, monPF. do 2 wp_step. wp_step. eapply wp_deref; [done|].
  wp_step. apply wp_world. eapply wp_updatePF; [done|]. wp_step. unfold updateMon. wp_step.
  apply wp_world. set (none := AuthenticatedAddrs pf ∖ {[addr]}).
  set (pf1 := set_AuthenticatedAddrs none pf). set (w1 := set_pfs _ _).
  assert (pfs w1 !! p = Some pf1) as Hp1 by apply lookup_insert_eq.
  change (wp (DenyTrafficFromMac p addr) (λ _ w, all_shut n pf w) w1).
  unfold DenyTrafficFromMac. wp_step. eapply wp_readPF; [exact Hp1|].
  assert (none = ∅) as Hnone by set_solver. cbn [AuthenticatedAddrs set_AuthenticatedAddrs pf1].
  rewrite Hnone, bool_decide_true by done. set (pf2 := set_Authenticated false pf1).
  wp_step. wp_step. eapply wp_updatePF; [exact Hp1|]. set (w2 := set_pfs _ _).
  assert (pfs w2 !! p = Some pf2) as Hp2 by apply lookup_insert_eq.
  wp_use wp_ConfigureVlanStateForVFs; [exact Hp2|done|]. intros r w3 (Hnl & _ & Hall & Hnone').
  cbn [PF_Name pf2 set_Authenticated pf1 set_AuthenticatedAddrs] in Hnone'. rewrite Hname in Hnone'.
  rewrite (Hnone' Hok). specialize (Hall (Hnone' Hok)).
  wp_use wp_filterMac; [by rewrite (nl_pfs _ _ Hnl)|]. intros r' w4 (ifs & Hran & _).
  intros id vf Hvf. eapply programmed_same; [apply (ran_vfs _ _ _ Hran)|].
  rewrite <-Hname. by apply (Hall id vf).
Qed.

(** The VFs have been given back as soon as [StopMonitor] is done with them. *)
Lemma past_restored L i p pf r :
  life_inv L → pf_wf p pf → stops i p (nameOf r) (all_open p (nameOf r) pf) L r →
  @past_restoring (E (nameOf r)) (r_threads r Main) → all_open p (nameOf r) pf (p_world (proc L)).
Proof.
  intros HI Hwf [Hr Hp _ Hi Hl] Hpast.
  destruct (holds_stopping _ _ _ _ _ HI Hr Hi) as (p' & [Hs Hmain _]).
  assert (p' = p) as -> by (pose proof (at_pfinfo _ _ _ Hs) as Hp'; cbn in Hp'; congruence).
  pose proof (all_open_local p (nameOf r) pf Hwf) as Hlocal.
  assert (@ending (E (nameOf r)) (r_threads r Main) ∨
    r_threads r Main = @closingProg (E (nameOf r)) ∧ stop (r_mon r) = HOpen) as [He|[Hq Ho]].
  { destruct Hmain as [[Ho _]|[_ He]]; [|by left]. destruct Hpast as [Hq|He]; [by right|by left]. }
  - by eapply (@leads_ending_back (E (nameOf r)) p (nameOf r) (all_open p (nameOf r) pf)
      (st (config (proc L) r))).
  - rewrite Hq in Hl.
    by eapply (@leads_closing_back (E (nameOf r)) p (nameOf r) (all_open p (nameOf r) pf)
      (st (config (proc L) r))).
Qed.

(** The disconnection, when [StopMonitor] is done with the VFs. *)
Lemma late_disconnection L L1 i p r pf g addr q :
  life_inv L → monitors (proc L) !! i = Some r → i ∈ stopping L →
  @past_restoring (E (nameOf r)) (r_threads r Main) → @netlink_ok (E (nameOf r)) (nameOf r) →
  PfInfo (r_mon r) = Some p → pfs (p_world (proc L)) !! p = Some pf →
  AuthenticatedAddrs pf ⊆ {[addr]} → g ≠ Main →
  r_threads r g = seg (Disconnect addr) (@handleDeAuthenticateEvent (E (nameOf r)) addr) q →
  step L (MonitorGo i g) L1 → ∃ r1, stops i p (nameOf r) (all_shut (nameOf r) pf) L1 r1.
Proof.
  intros HI Hr Hi Hpast Hok Hp Hpf Hsub Hg Hthread Hstep.
  destruct (holds_stopping _ _ _ _ _ HI Hr Hi) as (p' & [Hs _ _]).
  assert (p' = p) as -> by (pose proof (at_pfinfo _ _ _ Hs) as Hp'; cbn in Hp'; congruence).
  assert (pf_wf p pf) as Hwf.
  { destruct (at_PF _ _ _ Hs) as (pf0 & Hpf0 & _ & Hwf). cbn in Hpf0.
    rewrite Hpf in Hpf0. by injection Hpf0 as <-. }
  destruct (step_follows_up _ _ _ _ _ HI Hr Hstep) as (r1 & [Hr1 Hp1 Hn1 Hi1 Hwhat]). exists r1.
  assert (r_threads r1 Main = r_threads r Main) as Hmain.
  { destruct Hwhat as [(g' & c' & [= <-] & Hgo & _ & ->)|[Ht _]]; [|by apply Ht].
    destruct Hgo; cbn; by rewrite fn_lookup_insert_ne. }
  assert (all_shut (nameOf r) pf (p_world (proc L1))) as Hshut.
  { inversion Hstep as [| |i' r0 g' c' Hr0 Hgo _ Hwho|i' r0 _ _ _ Hwho| | | | | | | | | |]; subst; [|done].
    rewrite Hr in Hr0. injection Hr0 as <-.
    destruct Hgo as [a m q' s' Hm Hd|link _ Hm _|_ Hm _]; cbn in Hm; rewrite Hthread in Hm; try done.
    injection Hm as <- <-.
    pose proof (wp_last_leaves p (nameOf r) _ pf addr Hs Hpf Hsub Hok) as Hwp. unfold wpx in Hwp.
    unfold mbind, M_bind in Hd. destruct (handleDeAuthenticateEvent _ _) as [x s1|]; [|done].
    injection Hd as _ <-. exact Hwp. }
  split; [done|congruence|done|by apply Hi1|]. rewrite Hmain.
  destruct Hpast as [->|He]; [by apply leads_closing; [apply (all_shut_local p)|]|].
  by apply (@leads_ending (E (nameOf r))); [apply (all_shut_local p)| |].
Qed.

(** C13. Stopping does not always give the VFs back for good, although it is meant
    to: it restores them before it tells the goroutines to stop.  In every run over
    distinct interfaces, with netlink working for the interface: [StopMonitor] is
    called for a monitor and the goroutines leave its VFs alone until the call is
    done with them, so that every VF is as it was found.  If one of the goroutines
    then handles the disconnection of the monitor's only client, or of anyone when
    it has none, every VF is back on the reserved VLAN with its link disabled, and
    still is when the call has returned, and from then on, unless the goroutines
    touch them once more. *)
Theorem StopMonitor_may_leave_closed before tcp udp L0 who L0' L L1 L' i r0 r r' g addr q :
  life_run E E0 ifaces nsName before tcp udp L0 → monitors (proc L0) !! i = Some r0 →
  i ∉ stopping L0 → step L0 who L0' → i ∈ stopping L0' →
  @netlink_ok (E (nameOf r0)) (nameOf r0) →
  rtc (calm_step i) L0' L → monitors (proc L) !! i = Some r →
  @past_restoring (E (nameOf r0)) (r_threads r Main) → g ≠ Main →
  r_threads r g = seg (Disconnect addr) (@handleDeAuthenticateEvent (E (nameOf r0)) addr) q →
  step L (MonitorGo i g) L1 → rtc (calm_step i) L1 L' →
  monitors (proc L') !! i = Some r' → over (config (proc L') r') →
  ∃ pf, monitorPF (st (config (proc L0) r0)) = Some pf ∧
    restored (trace (p_world (proc L))) (nameOf r0) pf ∧
    (AuthenticatedAddrs pf ⊆ {[addr]} → ∀ id vf, VFs pf !! id = Some vf →
      vfVlan (trace (p_world (proc L'))) (nameOf r0) id = Some ReservedVlan ∧
      vfState (trace (p_world (proc L'))) (nameOf r0) id = Some VF_LINK_STATE_DISABLE).
Proof.
  intros Hrun Hr0 Hi Hcall Hi' Hok Hcalm Hr Hpast Hg Hthread Hstep Hcalm' Hr' Hover.
  pose proof (life_run_inv _ _ _ _ _ _ _ _ Hnd Hrun) as HI.
  destruct (called_stops _ _ _ _ _ HI Hr0 Hi Hcall Hi' Hok) as (p & pf & r1 & Hpf & Hwf & Hst).
  pose proof (all_open_local p (nameOf r0) pf Hwf) as Hlocal.
  destruct (calm_run_stops _ _ _ _ _ _ _ Hlocal (life_step_inv _ _ _ _ _ _ _ Hnd HI Hcall) Hst Hcalm)
    as (r2 & HIL & Hst2). pose proof Hst2 as [Hr2 Hp2 Hn2 Hi2 _]. rewrite Hr in Hr2. injection Hr2 as <-.
  rewrite <-Hn2 in Hpast, Hthread, Hok, Hst2 |- *.
  destruct (past_restored L i p pf r HIL Hwf Hst2 Hpast) as [HpfL Hopen].
  exists pf. split; [done|]. split.
  { intros id vf Hvf. destruct (Hwf id vf Hvf) as [_ Hidx]. destruct (Hopen id vf Hvf) as [Hv Hs].
    by rewrite Hidx in Hv, Hs. }
  intros Hsub id vf Hvf.
  destruct (late_disconnection L L1 i p r _ g addr q HIL Hr Hi2 Hpast Hok Hp2 HpfL Hsub Hg Hthread Hstep)
    as (r3 & Hst3).
  assert (all_shut (nameOf r) (set_Authenticated true pf) (p_world (proc L'))) as Hall.
  { eapply calm_over; [by apply (all_shut_local p)|by eapply life_step_inv|done..]. }
  destruct (Hwf id vf Hvf) as [_ Hidx]. destruct (Hall id vf Hvf) as [Hv Hs]. by rewrite Hidx in Hv, Hs.
Qed.
End shutdown.

(** ** Witnesses *)
#[local] Instance VFInfo_eq_dec : EqDecision VFInfo.
Proof. solve_decision. Defined.
#[local] Instance PFInfo_eq_dec : EqDecision PFInfo.
Proof. solve_decision. Defined.

(** The events of a segment that program no VF. *)
Definition leavesVf (ev : event) : bool :=
  match ev with EvSetVfVlan _ _ _ _ | EvSetVfState _ _ _ _ => false | _ => true end.

Lemma leavesVf_same l tr n k : forallb leavesVf l = true → same_vf tr (l ++ tr) n k.
Proof.
  induction l as [|ev l IH]; cbn; [done|]. intros [Hev Hl]%andb_true_iff. destruct (IH Hl) as [Hv Hs].
  by split; cbn; destruct ev.
Qed.

Section exec.
Context (E : string → Sys) (E0 : Sys) (ifaces : list string) (nsName : string * string) (i : nat).
Context {HE : ∀ n, @LinkNames (E n)} (Hnd : NoDup ifaces).

(** No goroutine of the monitor [i] has changed a PF or programmed a VF. *)
Definition quietly (L : Life) (who : actor) (L' : Life) : bool :=
  let tr := trace (p_world (proc L)) in
  let tr' := trace (p_world (proc L')) in
  match who with
  | MonitorGo j g =>
      negb (bool_decide (j = i ∧ g ≠ Main)) ||
      bool_decide (pfs (p_world (proc L')) = pfs (p_world (proc L))) &&
      forallb leavesVf (take (length tr' - length tr) tr')
  | _ => true
  end.

Fixpoint calmExec (sched : list actor) (L : Life) : Life :=
  match sched with
  | [] => L
  | who :: sched' =>
      let L' := default L (lifeFire E E0 ifaces nsName L who) in
      calmExec sched' (if quietly L who L' then L' else L)
  end.

Lemma quietly_calm L who L' :
  life_inv E ifaces L → quietly L who L' = true → life_step E E0 ifaces nsName L who L' →
  calm_step E E0 ifaces nsName i L L'.
Proof.
  intros HI Hq Hstep. exists who. split; [done|]. intros (g & -> & Hg) r p Hr Hp.
  unfold quietly in Hq. rewrite bool_decide_true in Hq by done. cbn [negb orb] in Hq.
  apply andb_true_iff in Hq as [Hpfs%bool_decide_eq_true Hevs]. split; [by rewrite Hpfs|]. intros k.
  assert (trace (p_world (proc L)) `suffix_of` trace (p_world (proc L'))) as [l Hl].
  { inversion Hstep as [| |i' r0 g' c' Hr0 Hgo _ Hwho|i' r0 _ _ _ Hwho| | | | | | | | | |]; subst; [|done].
    destruct (go_framed _ _ _ _ _ _ _ HI Hr0 Hgo) as (q & _ & Hfr & _). apply Hfr. }
  rewrite Hl in Hevs |- *. rewrite length_app, Nat.add_sub, take_app_length in Hevs.
  by apply leavesVf_same.
Qed.

Lemma calmExec_steps sched L :
  life_inv E ifaces L → rtc (calm_step E E0 ifaces nsName i) L (calmExec sched L).
Proof.
  revert L. induction sched as [|who sched IH]; intros L HI; [by apply rtc_refl|]. cbn.
  destruct (lifeFire E E0 ifaces nsName L who) as [L'|] eqn:Hf; cbn.
  - destruct (quietly L who L') eqn:Hq; [|by apply IH]. apply lifeFire_step in Hf.
    eapply rtc_l; [by eapply quietly_calm|]. apply IH. by eapply life_step_inv.
  - destruct (quietly L who L); by apply IH.
Qed.
End exec.

(** The first monitor is stopped, while the second one goes on with its client and
    an update comes in for the first one. *)
Definition beforeStop : Life := lifeOf bothStarted.

Abbreviation demoFire := (lifeFire demoEnv (demo (calm [])) ["ens1"; "ens2"] demoKey).
Abbreviation demoStep := (life_step demoEnv (demo (calm [])) ["ens1"; "ens2"] demoKey).

Definition stopCalled : Life := default beforeStop (demoFire beforeStop MainGo).

Definition stopOver : Life :=
  calmExec demoEnv (demo (calm [])) ["ens1"; "ens2"] demoKey 0
    (repeat (MonitorGo 0 Main) 8 ++ repeat (MonitorGo 1 KeepAlive) 2 ++ [Kernel] ++
     repeat (MonitorGo 0 Main) 10 ++ map (MonitorGo 0) [Reply; IfEvents; KeepAlive; Requests]) stopCalled.

Lemma stopCalled_step : demoStep beforeStop MainGo stopCalled.
Proof.
  apply lifeFire_step. unfold stopCalled.
  assert (is_Some (demoFire beforeStop MainGo)) as [L ->]; [|done].
  apply (bool_decide_unpack _). vm_compute. exact I.
Qed.

Lemma stopCalled_inv : life_inv demoEnv ["ens1"; "ens2"] stopCalled.
Proof.
  eapply (@life_step_inv demoEnv); [intros n; apply demo_LinkNames|apply demoNames| |apply stopCalled_step].
  eapply (@life_run_inv demoEnv); [intros n; apply demo_LinkNames|apply demoNames|apply demoLife_ok].
Qed.

Lemma stop_restores_witness :
  ∃ pf, monitorPF (st (config (proc beforeStop) (lifeMonitor beforeStop 0))) = Some pf ∧
    restored (trace (p_world (proc stopOver))) (nameOf (lifeMonitor beforeStop 0)) pf.
Proof.
  apply (@stop_restores demoEnv (demo (calm [])) ["ens1"; "ens2"] demoKey (λ n, demo_LinkNames _) demoNames
    [] [] [] beforeStop MainGo stopCalled stopOver 0 _ (lifeMonitor stopOver 0)).
  - apply demoLife_ok.
  - apply lifeMonitor_ok. vm_compute. reflexivity.
  - apply (bool_decide_unpack _). vm_compute. exact I.
  - apply stopCalled_step.
  - apply (bool_decide_unpack _). vm_compute. exact I.
  - apply demo_netlink_ok.
  - apply calmExec_steps; [intros n; apply demo_LinkNames|apply demoNames|apply stopCalled_inv].
  - apply lifeMonitor_ok. vm_compute. reflexivity.
  - apply isOver_ok. vm_compute. reflexivity.
Defined.

(** A station is connected; its disconnection is being handled when the signal
    comes. *)
Definition lateEnv (_ : string) : Sys :=
  demo (calm [connectMsg; "<3>AP-STA-DISCONNECTED aa:bb"]).

Abbreviation lateFire := (lifeFire lateEnv (demo (calm [])) ["ens1"] demoKey).
Abbreviation lateStep := (life_step lateEnv (demo (calm [])) ["ens1"] demoKey).

Definition lateSetUp : Life :=
  beginning {| p_world := match @initInterfaces (demo (calm [])) ["ens1"] [] [] {| trace := []; pfs := ∅ |} with
                          | Done _ w | Panic _ w => w
                          end;
               p_stats := noMetrics; monitors := []; todo := ["ens1"] |}.

Definition lateStart : Life :=
  lifeExec lateEnv (demo (calm [])) ["ens1"] demoKey
    (startSchedule 1 (λ _, []) ++ repeat (MonitorGo 0 Reply) 8) lateSetUp.

Definition lateCalled : Life := default lateStart (lateFire lateStart MainGo).

Definition latePast : Life :=
  calmExec lateEnv (demo (calm [])) ["ens1"] demoKey 0 [MonitorGo 0 Main] lateCalled.

Definition lateGone : Life := default latePast (lateFire latePast (MonitorGo 0 Reply)).

Definition lateOver : Life :=
  calmExec lateEnv (demo (calm [])) ["ens1"] demoKey 0
    (repeat (MonitorGo 0 Main) 4 ++ map (MonitorGo 0) [Reply; Reply; IfEvents; KeepAlive; Requests])
    lateGone.

Lemma late_thread :
  r_threads (lifeMonitor latePast 0) Reply =
  @seg _ (Disconnect "aa:bb") (@handleDeAuthenticateEvent (lateEnv "ens1") "aa:bb")
    (@reportProg (lateEnv "ens1") Next).
Proof. reflexivity. Qed.

Lemma lateStart_run : life_run lateEnv (demo (calm [])) ["ens1"] demoKey [] [] [] lateStart.
Proof. apply lifeExec_run. apply begins_with. vm_compute. reflexivity. Qed.

Lemma fired L who :
  bool_decide (is_Some (lateFire L who)) = true → lateStep L who (default L (lateFire L who)).
Proof. intros [L' HL']%bool_decide_eq_true. rewrite HL'. by apply lifeFire_step. Qed.

Lemma lateCalled_step : lateStep lateStart MainGo lateCalled.
Proof. apply fired. vm_compute. reflexivity. Qed.

Lemma lateGone_step : lateStep latePast (MonitorGo 0 Reply) lateGone.
Proof. apply fired. vm_compute. reflexivity. Qed.

Lemma late_NoDup : NoDup ["ens1"].
Proof. apply NoDup_singleton. Qed.

Lemma late_LinkNames n : @LinkNames (lateEnv n).
Proof. apply demo_LinkNames. Qed.

Lemma lateCalled_inv : life_inv lateEnv ["ens1"] lateCalled.
Proof.
  eapply (@life_step_inv lateEnv); [apply late_LinkNames|apply late_NoDup| |apply lateCalled_step].
  eapply (@life_run_inv lateEnv); [apply late_LinkNames|apply late_NoDup|apply lateStart_run].
Qed.

Lemma latePast_calm : rtc (calm_step lateEnv (demo (calm [])) ["ens1"] demoKey 0) lateCalled latePast.
Proof. apply calmExec_steps; [apply late_LinkNames|apply late_NoDup|apply lateCalled_inv]. Qed.

Lemma lateOver_calm : rtc (calm_step lateEnv (demo (calm [])) ["ens1"] demoKey 0) lateGone lateOver.
Proof.
  apply calmExec_steps; [apply late_LinkNames|apply late_NoDup|].
  eapply (@life_step_inv lateEnv); [apply late_LinkNames|apply late_NoDup| |apply lateGone_step].
  apply (@life_steps_inv lateEnv (demo (calm [])) ["ens1"] demoKey late_LinkNames lateCalled);
    [apply late_NoDup|apply lateCalled_inv|].
  eapply rtc_subrel; [|apply latePast_calm]. intros L L' (who & Hstep & _). by exists who.
Qed.

Lemma late_past : @past_restoring (lateEnv "ens1") (r_threads (lifeMonitor latePast 0) Main).
Proof. left. reflexivity. Qed.

Lemma StopMonitor_may_leave_closed_witness :
  ∃ pf, monitorPF (st (config (proc lateStart) (lifeMonitor lateStart 0))) = Some pf ∧
    restored (trace (p_world (proc latePast))) (nameOf (lifeMonitor lateStart 0)) pf ∧
    (AuthenticatedAddrs pf ⊆ {["aa:bb"]} → ∀ id vf, VFs pf !! id = Some vf →
      vfVlan (trace (p_world (proc lateOver))) (nameOf (lifeMonitor lateStart 0)) id = Some ReservedVlan ∧
      vfState (trace (p_world (proc lateOver))) (nameOf (lifeMonitor lateStart 0)) id =
        Some VF_LINK_STATE_DISABLE).
Proof.
  apply (@StopMonitor_may_leave_closed lateEnv (demo (calm [])) ["ens1"] demoKey late_LinkNames late_NoDup
    [] [] [] lateStart MainGo lateCalled latePast lateGone lateOver 0 _ (lifeMonitor latePast 0)
    (lifeMonitor lateOver 0) Reply "aa:bb" (@reportProg (lateEnv "ens1") Next)).
  - apply lateStart_run.
  - apply lifeMonitor_ok. vm_compute. reflexivity.
  - apply (bool_decide_unpack _). vm_compute. exact I.
  - apply lateCalled_step.
  - apply (bool_decide_unpack _). vm_compute. exact I.
  - apply demo_netlink_ok.
  - apply latePast_calm.
  - apply lifeMonitor_ok. vm_compute. reflexivity.
  - apply late_past.
  - done.
  - apply late_thread.
  - apply lateGone_step.
  - apply lateOver_calm.
  - apply lifeMonitor_ok. vm_compute. reflexivity.
  - apply isOver_ok. vm_compute. reflexivity.
Defined.

(** The clients of this run are as the theorem asks for. *)
Lemma late_client :
  AuthenticatedAddrs <$> monitorPF (st (config (proc lateStart) (lifeMonitor lateStart 0))) =
  Some {["aa:bb"]}.
Proof. apply (bool_decide_unpack _). vm_compute. exact I. Qed.
