(* ===== verification/Restart.v ===== *)
(** * The next process: what a monitor finds when it starts again

    The kubelet starts the monitor again when it has ended, and the new process
    takes the VLAN that it finds on a VF for the VF's own (GetSriovPFInfo in
    internal/trafficcontrol/sriov.go).  The memory of the first process is gone; what
    is left is the trace of the machine.  The theorems relate two runs of
    [Life], the second beginning where the first ended. *)
From S2P Require Import Prelude GoStrings Api Sys LinkEvents TrafficControl TrafficControlSpec.
From S2P Require Import TrafficControlTheorems Hostap ClientSpec HostapSpec HostapLife.
From S2P Require Import HostapSteps HostapTheorems LifecycleTheorems Demo MonitorMain Process.
From S2P Require Import Stopping Life Shutdown.

(** Nobody else configures the VFs of the link: it reports for each the VLAN that
    it was last given, if it was given one. *)
Definition link_reports `{Sys} (name : string) : Prop :=
  ∀ tr l a v, sysLinkByName tr name = Ok l → a ∈ Vfs l →
    vfVlan tr name (VF_ID a) = Some v → VF_Vlan a = v.

(** A VF that the link lists is taken over with the VLAN that it was last given. *)
Lemma vfsOf_reported `{Sys} name tr l p id vf v :
  link_reports name → sysLinkByName tr name = Ok l → vfsOf p (Vfs l) !! id = Some vf →
  vfVlan tr name id = Some v → Vlan vf = v.
Proof.
  intros Hrep Hl Hvf Hv. rewrite vfsOf_lookup in Hvf.
  apply fmap_Some in Hvf as (a & Ha & ->). apply last_Some in Ha as [l' Ha].
  assert (a ∈ filter (λ b, VF_ID b = id) (Vfs l)) as [<- Hin]%list_elem_of_filter
    by (rewrite Ha; set_solver).
  by eapply Hrep.
Qed.

(** ** Before a monitor starts nothing programs its VFs *)
Section untouched.
Context `{Sys}.

Definition leaves_vfs {A} (m : M World A) : Prop :=
  keeps False (λ _, True) (λ w w', same_vfs (trace w) (trace w')) m.

#[local] Instance same_vfs_world : PreOrder (λ w w', same_vfs (trace w) (trace w')).
Proof. split; [by intros w|]. intros w1 w2 w3 H12 H23. by etrans. Qed.

Lemma leaves_observe {A} (answer : Trace → A) ev :
  (∀ a l i v r, ev a ≠ EvSetVfVlan l i v r) → (∀ a l i v r, ev a ≠ EvSetVfState l i v r) →
  leaves_vfs (observe answer ev).
Proof.
  intros Hv Hs w _. apply wp_observe. split; [done|]. intros l i. cbn.
  specialize (Hv (answer (trace w))). specialize (Hs (answer (trace w))).
  destruct (ev _); try done; naive_solver.
Qed.

Ltac leaves := unfold leaves_vfs; repeat
  match goal with
  | |- keeps _ _ _ (Run _) => by apply leaves_observe
  | |- keeps _ _ _ (LookPath _) => by apply leaves_observe
  | |- keeps _ _ _ (Stat _) => by apply leaves_observe
  | |- keeps _ _ _ (Glob _) => by apply leaves_observe
  | |- keeps _ _ _ (ReadDir _) => by apply leaves_observe
  | |- keeps _ _ _ (LinkByName _) => by apply leaves_observe
  | _ => keep_step
  end.

Lemma leaves_GetAssociatedInterfaces n : leaves_vfs (GetAssociatedInterfaces n).
Proof.
  unfold GetAssociatedInterfaces, GetSriovVFs, IsSriovPF. leaves.
  match goal with |- context [vfNamesFrom [] ?dirs] => generalize dirs; generalize (@nil string) end.
  intros names dirs. revert names. induction dirs as [|d dirs IH]; intros names;
    cbn [vfNamesFrom]; unfold dirExists; leaves; apply IH.
Qed.

Lemma leaves_initInterfaces ifaces tcp udp : leaves_vfs (initInterfaces ifaces tcp udp).
Proof.
  unfold initInterfaces, InitInterfaceForEAPTraffic, ResetInterface, UnprotectPorts,
    UnprotectIPv6Ports, IsSriovPF. leaves. apply leaves_GetAssociatedInterfaces.
Qed.
End untouched.

Section restart.
Context (E E' : string → Sys) (E0 E0' : Sys) (ifaces ifaces' : list string).
Context (nsName nsName' : string * string).
Context {HE : ∀ n, @LinkNames (E n)} {HE' : ∀ n, @LinkNames (E' n)}.
Context (Hnd : NoDup ifaces) (Hnd' : NoDup ifaces').

(** The VFs of an interface that the loop has still to come to are left alone. *)
Lemma step_untouched L who L' n i :
  life_inv E' ifaces' L → life_step E' E0' ifaces' nsName' L who L' → n ∈ todo (proc L') →
  n ∈ todo (proc L) ∧ same_vf (trace (p_world (proc L))) (trace (p_world (proc L'))) n i.
Proof.
  intros HI Hstep Hn. pose proof (life_each _ _ _ HI) as He.
  pose proof (names_NoDup _ _ Hnd' _ He) as (_ & Hdisj & Htodo)%list.NoDup_app.
  destruct Hstep as [m rest s1 Hm _ _ Hs1|m rest e s1 Hm _ Hs1|j r g c' Hr Hgo _|j r _ _ _
    |j r _ _ _ _ _|_ Ht _|e w Hph _ _|_|_|link _|_|link _|j link r _ _ _|_ _];
    cbn [proc todo p_world put set_proc set_links moved_to begun set_phase onWorld] in *; try done.
  - rewrite Hm in Htodo |- *. apply list.NoDup_cons in Htodo as [Hnew _].
    pose proof (@wp_startUp (E' m) _ (newMonitor nsName' (proc L) m)) as Hst. unfold wpx in Hst.
    rewrite Hs1 in Hst. destruct Hst as (p & pf & Hst). split; [by right|].
    apply (framed_vfs _ _ _ _ (started_frame _ _ _ _ Hst)). by intros ->.
  - rewrite Hm in Htodo |- *. apply list.NoDup_cons in Htodo as [Hnew _].
    destruct (startUp_skipped _ _ _ _ _ _ Hs1) as (p & _ & Hfr). split; [by right|].
    apply (framed_vfs _ _ _ _ Hfr). by intros ->.
  - destruct (go_framed _ _ _ _ _ _ _ HI Hr Hgo) as (p & _ & Hfr & _). split; [done|].
    apply (framed_vfs _ _ _ _ Hfr). intros ->.
    eapply Hdisj; [|done]. apply list_elem_of_fmap_2. by eapply list_elem_of_lookup_2.
  - destruct (life_phase _ _ _ HI) as [Ht _]; [by rewrite Hph|]. rewrite Ht in Hn.
    by apply elem_of_nil in Hn.
Qed.

Lemma steps_untouched L L' n i :
  life_inv E' ifaces' L → life_steps E' E0' ifaces' nsName' L L' → n ∈ todo (proc L') →
  n ∈ todo (proc L) ∧ same_vf (trace (p_world (proc L))) (trace (p_world (proc L'))) n i.
Proof.
  intros HI Hrun. revert HI. induction Hrun as [L|L L1 L' [who Hstep] _ IH]; intros HI Hn; [done|].
  destruct IH as [Hn1 [Hv1 Hs1]]; [by eapply (life_step_inv E')|done|].
  destruct (step_untouched _ _ _ n i HI Hstep Hn1) as [Hn0 [Hv Hs]].
  split; [done|]. split; congruence.
Qed.

Lemma life_untouched before tcp udp L n i :
  life_run E' E0' ifaces' nsName' before tcp udp L → n ∈ todo (proc L) →
  same_vf before (trace (p_world (proc L))) n i.
Proof.
  intros (L0 & Hb & Hrun) Hn.
  assert (life_inv E' ifaces' L0) as HI.
  { eapply (life_run_inv E' E0' ifaces' nsName' before tcp udp); [done|].
    exists L0. split; [done|by apply rtc_refl]. }
  destruct (steps_untouched _ _ n i HI Hrun Hn) as [_ [Hv Hs]]. destruct Hb as [w0 x Hinit].
  pose proof (@leaves_initInterfaces E0' ifaces' tcp udp {| trace := before; pfs := ∅ |} I) as Hl.
  unfold wpx in Hl. rewrite Hinit in Hl. destruct (proj2 Hl n i) as [Hv0 Hs0].
  cbn in Hv, Hs, Hv0, Hs0. split; congruence.
Qed.

(** What a monitor that starts takes for the VLAN of a VF: the one that the VF was
    last given before the process. *)
Lemma start_reads before tcp udp L n rest s1 :
  life_run E' E0' ifaces' nsName' before tcp udp L → todo (proc L) = n :: rest →
  @link_reports (E' n) n → @startUp (E' n) (newMonitor nsName' (proc L) n) = Done None s1 →
  ∃ p pf, @started (E' n) (newMonitor nsName' (proc L) n) s1 p pf ∧
    ∀ id vf v, VFs pf !! id = Some vf → vfVlan before n id = Some v → Vlan vf = v.
Proof.
  intros Hrun Hn Hrep Hs1. pose proof (@wp_startUp (E' n) _ (newMonitor nsName' (proc L) n)) as Hst.
  unfold wpx in Hst. rewrite Hs1 in Hst. destruct Hst as (p & pf & Hst). exists p, pf.
  split; [done|]. intros id vf v Hvf Hv.
  destruct (started_vfs _ _ _ _ Hst) as (tr & l & Hsame & Hl & Hvfs). cbn in Hsame, Hl.
  rewrite Hvfs in Hvf. eapply (@vfsOf_reported (E' n)); [exact Hrep|exact Hl|exact Hvf|].
  destruct (Hsame n id) as [-> _].
  destruct (life_untouched _ _ _ _ n id Hrun) as [-> _]; [|done]. rewrite Hn. by left.
Qed.

(** C10. What an orderly end leaves to the next process.  When a monitor is stopped
    while netlink works for its interface and its goroutines leave its PF and its VFs
    alone from the call of [StopMonitor] to the end of the process, a monitor that the
    next process starts on that interface takes every VF over with the VLAN that its
    predecessor had for it, provided the interfaces of each process are distinct,
    the link then reports for each VF the VLAN it was last given, and nobody else
    configures the VFs in between. *)
Theorem restart_after_shutdown before tcp udp L who L1 Lend i r pf e before' tcp' udp' L' rest s1 :
  life_run E E0 ifaces nsName before tcp udp L → monitors (proc L) !! i = Some r →
  i ∉ stopping L → life_step E E0 ifaces nsName L who L1 → i ∈ stopping L1 →
  @netlink_ok (E (nameOf r)) (nameOf r) → monitorPF (st (config (proc L) r)) = Some pf →
  rtc (calm_step E E0 ifaces nsName i) L1 Lend → phase Lend = Finished e →
  before' = trace (p_world (proc Lend)) →
  life_run E' E0' ifaces' nsName' before' tcp' udp' L' → todo (proc L') = nameOf r :: rest →
  @link_reports (E' (nameOf r)) (nameOf r) →
  @startUp (E' (nameOf r)) (newMonitor nsName' (proc L') (nameOf r)) = Done None s1 →
  ∃ pf', monitorPF s1 = Some pf' ∧
    ∀ id vf vf', VFs pf !! id = Some vf → VFs pf' !! id = Some vf' → Vlan vf' = Vlan vf.
Proof.
  intros Hrun Hr Hi Hstep Hi1 Hok Hpf Hcalm Hend -> Hrun' Htodo Hrep Hs1.
  destruct (start_reads _ _ _ _ _ _ _ Hrun' Htodo Hrep Hs1) as (p' & pf' & Hst & Hread).
  exists pf'. split; [exact (Inv_monitorPF _ _ _ (started_inv _ _ _ _ Hst))|].
  intros id vf vf' Hvf Hvf'. eapply Hread; [done|].
  pose proof (life_run_inv _ _ _ _ _ _ _ _ Hnd Hrun) as HI.
  assert (life_inv E ifaces Lend) as HIend.
  { refine (life_steps_inv E E0 ifaces nsName _ _ Hnd (life_step_inv E _ _ _ _ _ _ Hnd HI Hstep) _).
    eapply rtc_subrel; [|exact Hcalm]. intros M M' (a & Ha & _). by exists a. }
  destruct (life_phase _ _ _ HIend) as [_ Hall]; [by rewrite Hend|].
  destruct (calm_restored E E0 ifaces nsName Hnd L who L1 Lend i r HI Hr Hi Hstep Hi1 Hok Hcalm)
    as (pf0 & Hpf0 & Hres); [intros r' Hr'; by apply (Hall i r' Hr')|].
  rewrite Hpf in Hpf0. injection Hpf0 as <-. apply (Hres id vf Hvf).
Qed.

(** C11. A process that ended in any other way, by a crash or a kill, while a monitor
    had no client, has cost the VFs of that monitor their VLANs: the next process
    takes the reserved VLAN for their own, and that is what it gives them back,
    with the link enabled, when it is stopped in order. *)
Theorem restart_loses_vlans before tcp udp L i r pf tcp' udp' L' rest s1 :
  life_run E E0 ifaces nsName before tcp udp L → monitors (proc L) !! i = Some r →
  i ∉ stopping L →
  @netlink_ok (E (nameOf r)) (nameOf r) → monitorPF (st (config (proc L) r)) = Some pf →
  AuthenticatedAddrs pf = ∅ →
  life_run E' E0' ifaces' nsName' (trace (p_world (proc L))) tcp' udp' L' →
  todo (proc L') = nameOf r :: rest → @link_reports (E' (nameOf r)) (nameOf r) →
  @netlink_ok (E' (nameOf r)) (nameOf r) →
  @startUp (E' (nameOf r)) (newMonitor nsName' (proc L') (nameOf r)) = Done None s1 →
  ∃ pf', monitorPF s1 = Some pf' ∧
    (∀ id vf', id ∈ dom (VFs pf) → VFs pf' !! id = Some vf' → Vlan vf' = ReservedVlan) ∧
    wp (@StopMonitor (E' (nameOf r))) (λ _ s2,
      ∀ id, id ∈ dom (VFs pf) → id ∈ dom (VFs pf') →
        vfVlan (trace (wld s2)) (nameOf r) id = Some ReservedVlan ∧
        vfState (trace (wld s2)) (nameOf r) id = Some VF_LINK_STATE_AUTO) s1.
Proof.
  intros Hrun Hr Hi Hok Hpf Hnone Hrun' Htodo Hrep Hok' Hs1.
  destruct (start_reads _ _ _ _ _ _ _ Hrun' Htodo Hrep Hs1) as (p' & pf' & Hst & Hread).
  pose proof (life_run_inv _ _ _ _ _ _ _ _ Hnd Hrun) as HI0.
  destruct (life_isolated _ _ _ _ _ HI0 Hr Hi Hok) as (pf0 & Hpf0 & Hiso).
  rewrite Hpf in Hpf0. injection Hpf0 as <-.
  assert (∀ id vf', id ∈ dom (VFs pf) → VFs pf' !! id = Some vf' → Vlan vf' = ReservedVlan) as Hlost.
  { intros id vf' [vf Hvf]%elem_of_dom Hvf'. eapply Hread; [done|].
    destruct (Hiso id vf Hvf) as [Hv _]. by rewrite Hnone in Hv. }
  pose proof (started_inv _ _ _ _ Hst) as HI. pose proof (started_name _ _ _ _ Hst) as Hname.
  exists pf'. split; [exact (Inv_monitorPF _ _ _ HI)|]. split; [done|].
  eapply wp_mono; [by eapply (@wp_StopMonitor (E' (nameOf r)))|]. cbn beta. intros [] s2 Hstop.
  intros id Hid [vf' Hvf']%elem_of_dom. cbn in Hname.
  assert (@netlink_ok (E' (nameOf r)) (IfName (mon s1))) as Hok1 by by rewrite Hname.
  pose proof (stopped_given_back _ _ _ _ HI Hstop Hok1 (started_closed _ _ _ _ Hst)) as Hres.
  rewrite Hname in Hres. destruct (Hres id vf' Hvf') as [-> ->]. by rewrite (Hlost id vf').
Qed.
End restart.

(** ** Witnesses: a link that reports what it was given *)
Definition kernelVfs (tr : Trace) (n : string) : list VfAttrs :=
  (λ a, {| VF_ID := VF_ID a; VF_Vlan := default (VF_Vlan a) (vfVlan tr n (VF_ID a)) |}) <$> demoVfs.

Definition kernel (sc : Scenario) : Sys := {|
  sysLookPath := @sysLookPath (demo sc); sysRun := @sysRun (demo sc);
  sysStat := @sysStat (demo sc); sysGlob := @sysGlob (demo sc);
  sysReadDir := @sysReadDir (demo sc);
  sysLinkByName := λ tr n, Ok {| Link_Name := n; OperState := OperUp; Vfs := kernelVfs tr n |};
  sysSetVfVlan := @sysSetVfVlan (demo sc); sysSetVfState := @sysSetVfState (demo sc);
  sysNow := @sysNow (demo sc); sysTempFile := @sysTempFile (demo sc);
  sysDial := @sysDial (demo sc); sysWrite := @sysWrite (demo sc); sysRead := @sysRead (demo sc);
  sysCloseConn := @sysCloseConn (demo sc); sysGetAuth := @sysGetAuth (demo sc);
  sysUpdateStatus := @sysUpdateStatus (demo sc); sysOrder := @sysOrder (demo sc);
  sysOrder_perm := @sysOrder_perm (demo sc);
|}.

Lemma kernel_LinkNames sc : @LinkNames (kernel sc).
Proof. intros tr n l H. cbn in H. by injection H as <-. Defined.

Lemma kernel_reports sc n : @link_reports (kernel sc) n.
Proof.
  intros tr l a v [= <-] Ha Hv. unfold Vfs, kernelVfs in Ha.
  apply list_elem_of_fmap in Ha as (b & -> & _). cbn in Hv |- *. by rewrite Hv.
Qed.

Lemma kernel_netlink_ok sc n : @netlink_ok (kernel sc) n.
Proof. split; [intros tr; by eexists|done]. Qed.

(** A process on [ens1] from a trace on; [fromTrace] has not started its monitor. *)
Definition kernelEnv (_ : string) : Sys := kernel (calm []).

Lemma kernelEnv_LinkNames n : @LinkNames (kernelEnv n).
Proof. apply kernel_LinkNames. Qed.

Definition end_of {S A} (o : outcome S A) : S :=
  match o with
  | Done _ s | Panic _ s => s
  end.

Definition succeeded {S} (o : outcome S (option error)) : bool :=
  match o with
  | Done None _ => true
  | _ => false
  end.

Lemma succeeded_eq {S} (o : outcome S (option error)) : succeeded o = true → o = Done None (end_of o).
Proof. by destruct o as [[e|] s|]. Qed.

Abbreviation kernelExec := (lifeExec kernelEnv (kernel (calm [])) ["ens1"] demoKey).
Abbreviation kernelFire := (lifeFire kernelEnv (kernel (calm [])) ["ens1"] demoKey).
Abbreviation kernelRun := (life_run kernelEnv (kernel (calm [])) ["ens1"] demoKey).

Definition setUpFrom (before : Trace) : outcome World (option error) :=
  @initInterfaces (kernel (calm [])) ["ens1"] [] [] {| trace := before; pfs := ∅ |}.

Definition fromTrace (before : Trace) : Life :=
  beginning {| p_world := end_of (setUpFrom before); p_stats := noMetrics; monitors := [];
               todo := ["ens1"] |}.

Lemma fromTrace_run before : succeeded (setUpFrom before) = true → kernelRun before [] [] (fromTrace before).
Proof.
  intros Hs. exists (fromTrace before). split; [|by apply rtc_refl]. apply begins_with.
  exact (succeeded_eq _ Hs).
Qed.

Definition startedFrom (before : Trace) : MState :=
  end_of (@startUp (kernelEnv "ens1") (newMonitor demoKey (proc (fromTrace before)) "ens1")).

Lemma startedFrom_ok before :
  succeeded (@startUp (kernelEnv "ens1") (newMonitor demoKey (proc (fromTrace before)) "ens1")) = true →
  @startUp (kernelEnv "ens1") (newMonitor demoKey (proc (fromTrace before)) "ens1") =
  Done None (startedFrom before).
Proof. unfold startedFrom. apply succeeded_eq. Qed.

(** The first process: its monitor runs; it is stopped; it has ended. *)
Definition firstLife : Life := kernelExec ([HandlerGo] ++ startSchedule 1 (λ _, [])) (fromTrace []).
Definition firstCalled : Life := default firstLife (kernelFire firstLife MainGo).
Definition firstEnd : Life :=
  calmExec kernelEnv (kernel (calm [])) ["ens1"] demoKey 0
    (tail (stopSchedule 0) ++ [MainGo; HandlerGo; MainGo]) firstCalled.

Abbreviation firstMonitor := (lifeMonitor firstLife 0).

Lemma firstLife_run : kernelRun [] [] [] firstLife.
Proof. apply lifeExec_run. apply begins_with. vm_compute. reflexivity. Qed.

Lemma firstMonitor_ok : monitors (proc firstLife) !! 0 = Some firstMonitor.
Proof. apply lifeMonitor_ok. vm_compute. reflexivity. Qed.

Lemma firstMonitor_runs : 0 ∉ stopping firstLife.
Proof. apply (bool_decide_unpack _). vm_compute. exact I. Qed.

Lemma firstMonitor_name : nameOf firstMonitor = "ens1".
Proof. vm_compute. reflexivity. Qed.

Definition firstPF : PFInfo := demoPF false [].

Lemma firstMonitor_PF : monitorPF (st (config (proc firstLife) firstMonitor)) = Some firstPF.
Proof. vm_compute. reflexivity. Qed.

Lemma firstCalled_step :
  life_step kernelEnv (kernel (calm [])) ["ens1"] demoKey firstLife MainGo firstCalled.
Proof.
  apply lifeFire_step. unfold firstCalled.
  assert (is_Some (kernelFire firstLife MainGo)) as [L ->]; [|done].
  apply (bool_decide_unpack _). vm_compute. exact I.
Qed.

Lemma firstEnd_calm :
  rtc (calm_step kernelEnv (kernel (calm [])) ["ens1"] demoKey 0) firstCalled firstEnd.
Proof.
  apply calmExec_steps; [apply kernelEnv_LinkNames|apply NoDup_singleton|].
  eapply (@life_step_inv kernelEnv); [apply kernelEnv_LinkNames|apply NoDup_singleton| |apply firstCalled_step].
  eapply (@life_run_inv kernelEnv); [apply kernelEnv_LinkNames|apply NoDup_singleton|apply firstLife_run].
Qed.

Lemma firstEnd_finished : isFinished (phase firstEnd) = true.
Proof. vm_compute. reflexivity. Qed.

Lemma isFinished_ok x : isFinished x = true → x = Finished None.
Proof. by destruct x as [| |[e|]]. Qed.

Lemma restart_after_shutdown_witness :
  ∃ pf', monitorPF (startedFrom (trace (p_world (proc firstEnd)))) = Some pf' ∧
    ∀ id vf vf', VFs firstPF !! id = Some vf → VFs pf' !! id = Some vf' → Vlan vf' = Vlan vf.
Proof.
  apply (@restart_after_shutdown kernelEnv kernelEnv (kernel (calm [])) (kernel (calm [])) ["ens1"] ["ens1"]
    demoKey demoKey kernelEnv_LinkNames kernelEnv_LinkNames (NoDup_singleton _) (NoDup_singleton _)
    [] [] [] firstLife MainGo firstCalled firstEnd 0 firstMonitor firstPF None
    (trace (p_world (proc firstEnd))) [] [] (fromTrace (trace (p_world (proc firstEnd)))) []);
    rewrite ?firstMonitor_name.
  - apply firstLife_run.
  - apply firstMonitor_ok.
  - apply firstMonitor_runs.
  - apply firstCalled_step.
  - apply (bool_decide_unpack _). vm_compute. exact I.
  - apply kernel_netlink_ok.
  - apply firstMonitor_PF.
  - apply firstEnd_calm.
  - apply isFinished_ok, firstEnd_finished.
  - reflexivity.
  - apply fromTrace_run. vm_compute. reflexivity.
  - reflexivity.
  - apply kernel_reports.
  - apply startedFrom_ok. vm_compute. reflexivity.
Defined.

Lemma restart_loses_vlans_witness :
  let s1 := startedFrom (trace (p_world (proc firstLife))) in
  ∃ pf', monitorPF s1 = Some pf' ∧
    (∀ id vf', id ∈ dom (VFs firstPF) → VFs pf' !! id = Some vf' → Vlan vf' = ReservedVlan) ∧
    wp (@StopMonitor (kernelEnv (nameOf firstMonitor))) (λ _ s2,
      ∀ id, id ∈ dom (VFs firstPF) → id ∈ dom (VFs pf') →
        vfVlan (trace (wld s2)) (nameOf firstMonitor) id = Some ReservedVlan ∧
        vfState (trace (wld s2)) (nameOf firstMonitor) id = Some VF_LINK_STATE_AUTO) s1.
Proof.
  apply (@restart_loses_vlans kernelEnv kernelEnv (kernel (calm [])) (kernel (calm [])) ["ens1"] ["ens1"]
    demoKey demoKey kernelEnv_LinkNames kernelEnv_LinkNames (NoDup_singleton _) (NoDup_singleton _)
    [] [] [] firstLife 0 firstMonitor firstPF [] []
    (fromTrace (trace (p_world (proc firstLife)))) []); rewrite ?firstMonitor_name.
  - apply firstLife_run.
  - apply firstMonitor_ok.
  - apply firstMonitor_runs.
  - apply kernel_netlink_ok.
  - apply firstMonitor_PF.
  - reflexivity.
  - apply fromTrace_run. vm_compute. reflexivity.
  - reflexivity.
  - apply kernel_reports.
  - apply kernel_netlink_ok.
  - apply startedFrom_ok. vm_compute. reflexivity.
Defined.
