(* ===== verification/EndToEnd.v ===== *)
(** * From the Authenticators to the isolation of their interfaces

    The parts put together.  The operator works off its queue; in a pod of the
    DaemonSet that it leaves on the API server the monitor starts; and in every
    state of the process from there, the interfaces of the Authenticator are open
    for clients only. *)
From S2P Require Import Prelude GoStrings Api ConfigGen HostapdConf MonitorArgs Labels.
From S2P Require Import Sys TrafficControl TrafficControlSpec Hostap ClientSpec HostapSpec HostapSteps HostapTheorems Demo.
From S2P Require Import MonitorMain Process Startup Life.
From S2P Require Import Controller ControllerSpec ControllerTheorems Fleet.

(** The pods of an object on the server have the environment and the labels of its
    specification. *)
Definition dsOf (spec : DaemonSetSpec) : DaemonSet :=
  {| Ds_Name := ""; Ds_Namespace := ""; Ds_Labels := ∅; Ds_Spec := spec |}.

Lemma podFlags_dsOf ds : podFlags (dsOf (Ds_Spec ds)) = podFlags ds.
Proof. done. Qed.

(** A specification that the generator and the monitor agree about. *)
Record servable (a : Authenticator) : Prop := {
  servable_some : Interfaces (Spec a) ≠ [];
  servable_names : Forall (λ i, ifname_ok i = true) (Interfaces (Spec a));
  servable_NoDup : NoDup (Interfaces (Spec a));
  servable_tcp : (length (specPorts Tcp (Spec a)) ≤ 1)%nat;
  servable_udp : (length (specPorts Udp (Spec a)) ≤ 1)%nat;
  servable_ports : Forall (λ p, int_ok p = true) (specPorts Tcp (Spec a) ++ specPorts Udp (Spec a));
  servable_ns : Namespace a ≠ "";
  servable_name : Name a ≠ "";
}.

(** The labels that the kubelet writes for a pod: those of the template among
    others. *)
Record pod_labels (spec : DaemonSetSpec) (labels : list (string * string)) : Prop := {
  pod_labels_ok : Forall (λ kv, label_ok kv = true) labels;
  pod_labels_NoDup : NoDup labels.*1;
  pod_labels_template : map_Forall (λ k v, (k, v) ∈ labels) (Template_Labels spec);
}.

(** A DaemonSet that is in place. *)
Lemma in_place_spec a names st :
  in_place a names st →
  ∃ o extra, st !! (KDaemonSet, (Namespace a, Name a)) = Some o ∧
    payload o = PDaemonSet (Ds_Spec (fst (Daemonset (New a names.1.1)))) extra.
Proof.
  intros [_ Hds _ _ _]. destruct (st !! (KDaemonSet, _)) as [o|]; [|done].
  injection Hds as Hds. unfold desiredDs in Hds. cbn in Hds.
  destruct (payload o) as [| | | |spec extra] eqn:Hp; try done. injection Hds as ->. by exists o, extra.
Qed.

(** What the process does from its start in that pod on, whatever the environment of
    its monitors is, and that of [main] itself. *)
Definition serves (a : Authenticator) (n : NsName) (P : Process) : Prop :=
  n = {| authNs := Namespace a; authName := Name a |} ∧ todo P = Interfaces (Spec a) ∧
  ∀ (E : string → Sys) (E0 : Sys), (∀ n, @LinkNames (E n)) → ∀ L,
    life_steps E E0 (Interfaces (Spec a)) (authNs n, authName n) (beginning P) L →
    ∀ i r, monitors (proc L) !! i = Some r →
      nameOf r ∈ Interfaces (Spec a) ∧
      (i ∉ stopping L → @netlink_ok (E (nameOf r)) (nameOf r) →
       ∃ pf, monitorPF (st (config (proc L) r)) = Some pf ∧
         isolated (trace (p_world (proc L))) (nameOf r) pf).

Lemma serves_started {E1 : Sys} a tcp udp x before w' :
  NoDup (Interfaces (Spec a)) →
  initInterfaces (Interfaces (Spec a)) tcp udp {| trace := before; pfs := ∅ |} = Done None w' →
  serves a {| authNs := Namespace a; authName := Name a |}
    {| p_world := w'; p_stats := x; monitors := []; todo := Interfaces (Spec a) |}.
Proof.
  intros Hnd Hinit. split; [done|]. split; [done|]. intros E E0 HE L Hrun i r Hr.
  set (L0 := beginning _) in Hrun.
  assert (life_inv E (Interfaces (Spec a)) L0) as HI0.
  { apply (life_run_inv E E1 _ (Namespace a, Name a) before tcp udp _ Hnd).
    exists L0. split; [apply begins_with; exact Hinit|by apply rtc_refl]. }
  pose proof (life_steps_inv E E0 _ _ _ _ Hnd HI0 Hrun) as HI.
  split; [|by eapply life_isolated].
  pose proof (pi_names _ _ _ (life_each _ _ _ HI)) as Hsub.
  eapply elem_of_submseteq; [|by apply sublist_submseteq].
  apply elem_of_app. left. apply list_elem_of_fmap_2. by eapply list_elem_of_lookup_2.
Qed.

(** The set-up of the interfaces does not panic. *)
Lemma initInterfaces_ends `{Sys} ifaces tcp udp w : wp (initInterfaces ifaces tcp udp) (λ _ _, True) w.
Proof.
  assert (PreOrder (λ _ _ : World, True)) as Hpre by by split.
  assert (∀ A (answer : Trace → A) ev, keeps True (λ _, True) (λ _ _, True) (observe answer ev))
    as Hobs by done.
  assert (∀ dirs names, keeps True (λ _, True) (λ _ _, True) (vfNamesFrom names dirs)) as Hvfs.
  { induction dirs as [|d dirs IH]; intros names; cbn [vfNamesFrom];
      unfold dirExists; repeat first [apply IH|keep_step|apply Hobs]. }
  assert (keeps True (λ _, True) (λ _ _, True) (initInterfaces ifaces tcp udp)) as Hinit.
  { unfold initInterfaces, GetAssociatedInterfaces, GetSriovVFs, IsSriovPF, InitInterfaceForEAPTraffic,
      ResetInterface, UnprotectPorts, UnprotectIPv6Ports.
    repeat first [apply Hvfs|keep_step|apply Hobs]. }
  eapply wp_mono; [by apply Hinit|done].
Qed.

(** The start in such a pod: it fails only if the set-up of the interfaces does. *)
Definition starts `{Sys} (a : Authenticator) (spec : DaemonSetSpec) : Prop :=
  ∀ labels x before, pod_labels spec labels →
    wp (startup (podFlags (dsOf spec)) (Ok tt) (Ok (labelsFile labels)) (Ok tt) (Ok tt) x)
      (λ r w', match r with
               | Ok (n, P) => serves a n P
               | Err e => initInterfaces (Interfaces (Spec a)) (specPorts Tcp (Spec a))
                   (specPorts Udp (Spec a)) {| trace := before; pfs := ∅ |} = Done (Some e) w'
               end) {| trace := before; pfs := ∅ |}.

Lemma generated_starts `{Sys} a sa :
  servable a → starts a (Ds_Spec (fst (Daemonset (New a sa)))).
Proof.
  intros [Hne Hifs Hnd Htcp Hudp Hports Hns Hname] labels x before [Hok Hndl Htempl].
  unfold wpx. rewrite podFlags_dsOf, startup_serves_authenticator; try done.
  2: { revert Htempl. unfold Daemonset. by destruct (selectNodes _). }
  cbn [a11r New].
  pose proof (initInterfaces_ends (Interfaces (Spec a)) (specPorts Tcp (Spec a))
    (specPorts Udp (Spec a)) {| trace := before; pfs := ∅ |}) as Hwp. unfold wpx in Hwp.
  destruct (initInterfaces _ _ _ _) as [[e|] w'|] eqn:Hinit; [done|by eapply serves_started|done].
Qed.

Section operator.
Context `{ApiServer} (stored : Requests → gmap ObjKey Object) (Hserved : served stored).

(** C6. From the Authenticators to the isolation of their interfaces: with the API
    server up, after any run of the operator's work queue that has come to an
    Authenticator there is a DaemonSet for it on the server; in a pod of that
    DaemonSet the program starts, unless the set-up of the interfaces fails, for that
    very Authenticator and for exactly its interfaces; and in every state of every
    run from there, whatever the monitors do and whichever are stopped, the VFs of
    each monitor that is not being stopped are closed exactly while it has no client,
    provided netlink works. *)
Theorem operator_to_isolation auths keys key a s :
  rbac_ok (rbacResources s) → holds_auths auths → responsive stored →
  key ∈ keys → auths !! key = Some a → servable a →
  wp (reconcileAll keys) (λ _ s', ∃ o spec extra,
    stored (requests s') !! (KDaemonSet, key) = Some o ∧ payload o = PDaemonSet spec extra ∧
    ∀ E0 : Sys, starts a spec) s.
Proof.
  intros Hok Hauths Hup Hkey Ha Hsv.
  eapply wp_mono; [by apply (wp_fleet stored Hserved auths)|]. cbn beta.
  intros rs s' Hin. specialize (Hin Hup key a Hkey Ha).
  pose proof (served_auth _ Hserved _ _ _ (Hauths [] _ _ Ha)) as ->.
  apply in_place_spec in Hin as (o & extra & Ho & Hp).
  exists o, (Ds_Spec (fst (Daemonset (New a (rbacNames (rbacResources s)).1.1)))), extra.
  split; [done|]. split; [done|]. intros E0. by apply generated_starts.
Qed.
End operator.

(** ** Witness *)
Lemma operator_to_isolation_witness :
  wp (@reconcileAll sampleServer fleetKeys) (λ _ s', ∃ o spec extra,
    store (requests s') !! (KDaemonSet, firstKey) = Some o ∧ payload o = PDaemonSet spec extra ∧
    ∀ E0 : Sys, starts firstAuth spec) startState.
Proof.
  apply (@operator_to_isolation sampleServer store (server_served _ _) fleetAuths fleetKeys firstKey
    firstAuth startState).
  - split; [|split]; reflexivity.
  - exact fleetAuths_held.
  - exact (server_responsive _ _).
  - by left.
  - reflexivity.
  - split; [done|by repeat constructor|apply NoDup_singleton|cbn; lia|cbn; lia|constructor|done|done].
Defined.

(** Such a pod, in which the program does start, on a machine that does as it is
    told. *)
Definition firstLabels : list (string * string) :=
  [("app", AppId); (AuthName, "first"); (AuthNamespace, "default")].

Definition firstSpec : DaemonSetSpec := Ds_Spec (fst (Daemonset (New firstAuth "authenticator"))).

Lemma firstLabels_ok : pod_labels firstSpec firstLabels.
Proof.
  split.
  - by repeat constructor.
  - apply (bool_decide_unpack _). vm_compute. exact I.
  - apply (bool_decide_unpack _). vm_compute. exact I.
Qed.

Lemma first_starts :
  match @startup (demo (calm [])) (podFlags (dsOf firstSpec)) (Ok tt) (Ok (labelsFile firstLabels))
    (Ok tt) (Ok tt) noMetrics {| trace := []; pfs := ∅ |} with
  | Done (Ok (n, P)) _ => bool_decide (authName n = "first" ∧ todo P = ["ens1"])
  | _ => false
  end = true.
Proof. vm_compute. reflexivity. Qed.
