(* ===== verification/Operator.v ===== *)
(** * The programs and their libraries: main.go, internal/k8s/k8s.go

    The operator's [main] and the clients that the monitor makes are sequences of
    calls of libraries, any of which may fail.  The calls and their answers are a
    trace as in [Sys]; what the program decides is which calls it makes, with
    which scheme, and when it gives up. *)
From S2P Require Import Prelude GoStrings Api ConfigGen HostapdConf Controller.
From S2P Require Import ControllerSpec Manifests.

(** ** Schemes: the versions of API groups whose types are registered *)
Record GroupVersion := { Group : string; Version : string }.

#[global] Instance GroupVersion_eq_dec : EqDecision GroupVersion.
Proof. solve_decision. Defined.

Abbreviation Scheme := (list GroupVersion).

Definition gv (g v : string) : GroupVersion := {| Group := g; Version := v |}.

(** api/v1/groupversion_info.go *)
Definition eapolv1 : GroupVersion := gv "eapol.eapol.openshift.io" "v1".
Definition eapolv1_AddToScheme : list GroupVersion := [eapolv1].

(** client-go/kubernetes/scheme/register.go *)
Definition localSchemeBuilder : list GroupVersion :=
  [gv "admissionregistration.k8s.io" "v1"; gv "admissionregistration.k8s.io" "v1alpha1";
   gv "admissionregistration.k8s.io" "v1beta1"; gv "internal.apiserver.k8s.io" "v1alpha1";
   gv "apps" "v1"; gv "apps" "v1beta1"; gv "apps" "v1beta2";
   gv "authentication.k8s.io" "v1"; gv "authentication.k8s.io" "v1alpha1";
   gv "authentication.k8s.io" "v1beta1";
   gv "authorization.k8s.io" "v1"; gv "authorization.k8s.io" "v1beta1";
   gv "autoscaling" "v1"; gv "autoscaling" "v2"; gv "autoscaling" "v2beta1";
   gv "autoscaling" "v2beta2"; gv "batch" "v1"; gv "batch" "v1beta1";
   gv "certificates.k8s.io" "v1"; gv "certificates.k8s.io" "v1beta1";
   gv "certificates.k8s.io" "v1alpha1";
   gv "coordination.k8s.io" "v1beta1"; gv "coordination.k8s.io" "v1"; gv "" "v1";
   gv "discovery.k8s.io" "v1"; gv "discovery.k8s.io" "v1beta1";
   gv "events.k8s.io" "v1"; gv "events.k8s.io" "v1beta1"; gv "extensions" "v1beta1";
   gv "flowcontrol.apiserver.k8s.io" "v1alpha1"; gv "flowcontrol.apiserver.k8s.io" "v1beta1";
   gv "flowcontrol.apiserver.k8s.io" "v1beta2"; gv "flowcontrol.apiserver.k8s.io" "v1beta3";
   gv "networking.k8s.io" "v1"; gv "networking.k8s.io" "v1alpha1";
   gv "networking.k8s.io" "v1beta1";
   gv "node.k8s.io" "v1"; gv "node.k8s.io" "v1alpha1"; gv "node.k8s.io" "v1beta1";
   gv "policy" "v1"; gv "policy" "v1beta1";
   gv "rbac.authorization.k8s.io" "v1"; gv "rbac.authorization.k8s.io" "v1beta1";
   gv "rbac.authorization.k8s.io" "v1alpha1"; gv "resource.k8s.io" "v1alpha2";
   gv "scheduling.k8s.io" "v1alpha1"; gv "scheduling.k8s.io" "v1beta1";
   gv "scheduling.k8s.io" "v1";
   gv "storage.k8s.io" "v1beta1"; gv "storage.k8s.io" "v1"; gv "storage.k8s.io" "v1alpha1"].

(** Where the types are that the reconciler works on. *)
Definition groupOf (k : kind) : GroupVersion :=
  match k with
  | KConfigMap | KServiceAccount => gv "" "v1"
  | KDaemonSet => gv "apps" "v1"
  | KRole | KRoleBinding => gv "rbac.authorization.k8s.io" "v1"
  end.

(** ** Calls of the libraries *)

(** The options of the manager that main.go sets. *)
Record Options := {
  o_Scheme : Scheme;
  MetricsBindAddress : string;
  Port : Z;
  HealthProbeBindAddress : string;
  LeaderElection : bool;
  LeaderElectionID : string;
}.

Inductive lib_call :=
| AddToScheme_ (what : GroupVersion)
| GetConfigOrDie
| NewManager (o : Options)
| Complete (for_ : GroupVersion) (owns : list kind)
| AddHealthzCheck
| AddReadyzCheck
| Start
| InClusterConfig
| NewClient (s : Scheme)
| NewForConfig
| StartRecordingToSink
| NewRecorder (s : Scheme) (component : string).

(** A call and whether it worked, the newest first. *)
Abbreviation Calls := (list (lib_call * option error)).

Class Lib := lib : Calls → lib_call → option error.

Definition call `{Lib} (c : lib_call) : M Calls (option error) :=
  calls ← gets id;
  let r := lib calls c in
  _ ← modify (cons (c, r));
  mret r.

(** A call that cannot fail. *)
Definition tell (c : lib_call) : M Calls unit := modify (cons (c, None)).

(** [SchemeBuilder.AddToScheme]: stops at the first error. *)
Fixpoint AddToScheme `{Lib} (b : list GroupVersion) (s : Scheme) : M Calls (result Scheme) :=
  match b with
  | [] => mret (Ok s)
  | g :: b' =>
      err ← call (AddToScheme_ g);
      match err with
      | Some e => mret (Err e)
      | None => AddToScheme b' (s ++ [g])
      end
  end.

(** ** internal/k8s/k8s.go *)
Definition getScheme `{Lib} : M Calls (result Scheme) := AddToScheme eapolv1_AddToScheme [].

Definition GetClient `{Lib} : M Calls (option error) :=
  check! call InClusterConfig ;;
  val! scheme := getScheme ;;
  call (NewClient scheme).

(** The clientset, of which only whether there is one matters. *)
Definition getClient `{Lib} : M Calls (option error) :=
  check! call InClusterConfig ;;
  call NewForConfig.

Definition EventRecorder `{Lib} : M Calls (option error) :=
  check! getClient ;;
  _ ← tell StartRecordingToSink;
  val! scheme := getScheme ;;
  _ ← tell (NewRecorder scheme "authenticator");
  mret None.

(** ** main.go *)

(** [utilruntime.Must(AddToScheme(scheme))] *)
Definition mustAdd `{Lib} (b : list GroupVersion) (s : Scheme) : M Calls Scheme :=
  r ← AddToScheme b s;
  match r with
  | Ok s' => mret s'
  | Err _ => panic "Must"
  end.

Definition init `{Lib} : M Calls Scheme :=
  scheme ← mustAdd localSchemeBuilder [];
  mustAdd eapolv1_AddToScheme scheme.

Record OperatorFlags := {
  metricsAddr : string;
  probeAddr : string;
  enableLeaderElection : bool;
}.

Definition defaultFlags : OperatorFlags :=
  {| metricsAddr := ":8080"; probeAddr := ":8081"; enableLeaderElection := false |}.

Definition AuthenticatorRbacPath : string := "./bindata/deployment/authenticator-rbac".

Section operator.
Context `{Lib}.
Variable ReadFile : string → result string.
Variable Decode : kind → string → result Decoded.
Variable rbacDir : node.

(** [(&AuthenticatorReconciler{}).SetupWithManager(mgr)], with the watches. *)
Definition setup : M Calls (option error) := λ calls,
  match SetupWithManager ReadFile Decode AuthenticatorRbacPath rbacDir with
  | Done (Ok _) _ =>
      call (Complete eapolv1 [KDaemonSet; KConfigMap; KServiceAccount; KRoleBinding; KRole]) calls
  | Done (Err e) _ => Done (Some e) calls
  | Panic why _ => Panic why calls
  end.

(** From the manager to its end; an error is [os.Exit(1)]. *)
Definition main (flags : OperatorFlags) (scheme : Scheme) : M Calls (option error) :=
  check! call GetConfigOrDie ;;
  check! call (NewManager {| o_Scheme := scheme;
                             MetricsBindAddress := metricsAddr flags;
                             Port := 9443;
                             HealthProbeBindAddress := probeAddr flags;
                             LeaderElection := enableLeaderElection flags;
                             LeaderElectionID := "060de988.eapol.openshift.io" |}) ;;
  check! setup ;;
  check! call AddHealthzCheck ;;
  check! call AddReadyzCheck ;;
  call Start.

(** The whole program: package initialisation, then [main]. *)
Definition operator (flags : OperatorFlags) : M Calls (option error) :=
  scheme ← init;
  main flags scheme.
End operator.

(** ** Specifications *)

(** Calls that all worked, the oldest first. *)
Definition worked (l : list lib_call) : Calls := reverse ((λ c, (c, None)) <$> l).

(** The last call failed, those before it worked. *)
Definition gave_up (e : error) (script : list lib_call) (calls : Calls) : Prop :=
  ∃ l c l', script = l ++ c :: l' ∧ calls = (c, Some e) :: worked l.

Lemma worked_snoc l c : worked (l ++ [c]) = (c, None) :: worked l.
Proof. unfold worked. by rewrite fmap_app, reverse_app. Qed.

Lemma gave_up_at e l c l' : gave_up e (l ++ c :: l') ((c, Some e) :: worked l).
Proof. by exists l, c, l'. Qed.

Lemma gave_up_app e script calls l : gave_up e script calls → gave_up e (script ++ l) calls.
Proof. intros (l1 & c & l2 & -> & ->). exists l1, c, (l2 ++ l). by rewrite <-app_assoc. Qed.

(** Either a further call works, or it is the last one. *)
Lemma wp_call `{Lib} P c l Q :
  Q None (worked (l ++ [c])) → (∀ e, Q (Some e) ((c, Some e) :: worked l)) →
  wpx P (call c) Q (worked l).
Proof.
  intros Hok Herr. unfold wpx, call, mbind, M_bind, gets, modify, mret, M_ret, id.
  rewrite worked_snoc in Hok. destruct (lib (worked l) c) as [e|] eqn:He; [apply Herr|apply Hok].
Qed.

Lemma wp_AddToScheme `{Lib} P b s l Q :
  Q (Ok (s ++ b)) (worked (l ++ (AddToScheme_ <$> b))) →
  (∀ e calls, gave_up e (l ++ (AddToScheme_ <$> b)) calls → Q (Err e) calls) →
  wpx P (AddToScheme b s) Q (worked l).
Proof.
  revert s l. induction b as [|g b IH]; intros s l Hok Herr; cbn [AddToScheme].
  - apply wp_ret. by rewrite !app_nil_r in Hok.
  - apply wp_bind, wp_call.
    2: { intros e. apply wp_ret, Herr, gave_up_at. }
    apply IH; rewrite <-!app_assoc; [done|]. intros e calls Hg. by apply Herr.
Qed.

(** ** What the programs do *)

(** The monitor's clients: the two constructions ask in this order and stop at the
    first failure; both know the Authenticator's group and no other. *)
Definition GetClient_script : list lib_call :=
  [InClusterConfig; AddToScheme_ eapolv1; NewClient [eapolv1]].

Definition EventRecorder_script : list lib_call :=
  [InClusterConfig; NewForConfig; StartRecordingToSink; AddToScheme_ eapolv1;
   NewRecorder [eapolv1] "authenticator"].

(** [r] is how a program that makes the calls of [script] ended. *)
Definition runs_script (script : list lib_call) (r : option error) (calls : Calls) : Prop :=
  match r with
  | None => calls = worked script
  | Some e => gave_up e script calls
  end.

Lemma wp_check_call `{Lib} P c (k : M Calls (option error)) l l' :
  wpx P k (runs_script ((l ++ [c]) ++ l')) (worked (l ++ [c])) →
  wpx P (check! call c ;; k) (runs_script (l ++ c :: l')) (worked l).
Proof.
  intros Hk. apply wp_check, wp_call; [by rewrite <-app_assoc in Hk|].
  intros e. by exists l, c, l'.
Qed.

Lemma wp_last_call `{Lib} P c l : wpx P (call c) (runs_script (l ++ [c])) (worked l).
Proof. apply wp_call; [done|]. intros e. by exists l, c, []. Qed.

Lemma GetClient_runs `{Lib} P : wpx P GetClient (runs_script GetClient_script) [].
Proof.
  apply (wp_check_call P InClusterConfig _ []), wp_checkVal, wp_AddToScheme.
  - apply (wp_last_call P (NewClient _) [_; _]).
  - intros e calls Hg. apply (gave_up_app _ [_; _] _ [_] Hg).
Qed.

Lemma wp_tell P c l Q : Q tt (worked (l ++ [c])) → wpx P (tell c) Q (worked l).
Proof. intros HQ. apply wp_modify. by rewrite <-worked_snoc. Qed.

Lemma EventRecorder_runs `{Lib} P : wpx P EventRecorder (runs_script EventRecorder_script) [].
Proof.
  unfold EventRecorder, getClient.
  apply wp_check, (wp_mono _ _ (runs_script [InClusterConfig; NewForConfig])).
  { apply (wp_check_call P InClusterConfig _ [] [_]), (wp_last_call P NewForConfig [_]). }
  intros [e|] calls Hr; cbn [runs_script] in Hr.
  { apply (gave_up_app _ [_; _] _ [_; _; _] Hr). }
  subst calls. apply wp_bind, wp_tell, wp_checkVal, wp_AddToScheme.
  - apply wp_bind, wp_tell, wp_ret. done.
  - intros e calls Hg. apply (gave_up_app _ [_; _; _; _] _ [_] Hg).
Qed.

(** The operator: what it registers before [main], and the calls of [main]. *)
Definition operatorScheme : Scheme := localSchemeBuilder ++ eapolv1_AddToScheme.

Definition init_script : list lib_call := AddToScheme_ <$> operatorScheme.

Definition managerOptions (flags : OperatorFlags) : Options :=
  {| o_Scheme := operatorScheme;
     MetricsBindAddress := metricsAddr flags;
     Port := 9443;
     HealthProbeBindAddress := probeAddr flags;
     LeaderElection := enableLeaderElection flags;
     LeaderElectionID := "060de988.eapol.openshift.io" |}.

Definition watched : list kind := [KDaemonSet; KConfigMap; KServiceAccount; KRoleBinding; KRole].

Definition operator_script (flags : OperatorFlags) : list lib_call :=
  init_script ++ [GetConfigOrDie; NewManager (managerOptions flags); Complete eapolv1 watched;
                  AddHealthzCheck; AddReadyzCheck; Start].

(** Every type of the requests that [Reconcile] makes is known to the manager's
    client, and every kind of object that it creates is watched. *)
Lemma operatorScheme_knows k : groupOf k ∈ operatorScheme ∧ k ∈ watched.
Proof. split; apply (bool_decide_unpack _); by destruct k. Qed.

Lemma init_runs `{Lib} :
  match init [] with
  | Done s calls => s = operatorScheme ∧ calls = worked init_script
  | Panic _ calls => ∃ e, gave_up e init_script calls
  end.
Proof.
  unfold init, mustAdd, init_script, operatorScheme. rewrite fmap_app.
  assert (∀ b s l, match AddToScheme b s (worked l) with
    | Done (Ok s') calls => s' = s ++ b ∧ calls = worked (l ++ (AddToScheme_ <$> b))
    | Done (Err e) calls => gave_up e (l ++ (AddToScheme_ <$> b)) calls
    | Panic _ _ => False
    end) as Hadd.
  { intros b s l. pose proof (wp_AddToScheme True b s l (λ r calls, match r with
      | Ok s' => s' = s ++ b ∧ calls = worked (l ++ (AddToScheme_ <$> b))
      | Err e => gave_up e (l ++ (AddToScheme_ <$> b)) calls
      end)) as Hwp. unfold wpx in Hwp.
    destruct (AddToScheme b s (worked l)) as [[|]|]; [by apply Hwp..|by apply Hwp]. }
  unfold mbind, M_bind. pose proof (Hadd localSchemeBuilder [] []) as H1.
  change (worked []) with (@nil (lib_call * option error)) in H1.
 
  destruct (AddToScheme localSchemeBuilder [] []) as [[s|e] calls|]; [|by exists e; apply gave_up_app|done].
  destruct H1 as [-> ->]. cbn [mret M_ret app].
  pose proof (Hadd eapolv1_AddToScheme localSchemeBuilder (AddToScheme_ <$> localSchemeBuilder)) as H2.
  destruct (AddToScheme _ _ _) as [[s|e] calls|]; [done|by exists e|done].
Qed.

Lemma check_call `{Lib} c (k : M Calls (option error)) l :
  (∃ e, check (call c) k (worked l) = Done (Some e) ((c, Some e) :: worked l)) ∨
  check (call c) k (worked l) = k (worked (l ++ [c])).
Proof.
  rewrite worked_snoc.
  unfold check, call, mbind, M_bind, gets, modify, mret, M_ret, id.
  destruct (lib (worked l) c) as [e|]; [left; by exists e|by right].
Qed.

Ltac next_call :=
  match goal with
  | |- context [check (call ?c) ?k (worked ?l)] => destruct (check_call c k l) as [[? ->]| ->]
  end.

Definition operator_rest : list lib_call :=
  [Complete eapolv1 watched; AddHealthzCheck; AddReadyzCheck; Start].

(** The operator makes the calls of its script in order, and ends early only
    because one of them failed or because of its manifests: an error of theirs
    is the last thing that happens, and no manager is started without them. *)
Lemma operator_runs `{Lib} ReadFile Decode rbacDir flags :
  let before := init_script ++ [GetConfigOrDie; NewManager (managerOptions flags)] in
  let manifests := SetupWithManager ReadFile Decode AuthenticatorRbacPath rbacDir in
  match operator ReadFile Decode rbacDir flags [] with
  | Done None calls =>
      calls = worked (operator_script flags) ∧ ∃ st l, manifests = Done (Ok st) l
  | Done (Some e) calls =>
      gave_up e (operator_script flags) calls ∨
      (calls = worked before ∧ ∃ l, manifests = Done (Err e) l)
  | Panic why calls =>
      (∃ e, gave_up e init_script calls) ∨
      (calls = worked before ∧ ∃ l, manifests = Panic why l)
  end.
Proof.
  intros before manifests. unfold operator, mbind, M_bind.
  pose proof init_runs as Hinit. destruct (init []) as [s calls|why calls]; [|by left].
  destruct Hinit as [-> ->]. unfold main. fold (managerOptions flags).
  assert (operator_script flags = before ++ operator_rest) as ->.
  { unfold before. by rewrite <-app_assoc. }
  next_call. { left. exists init_script. by eexists _, _. }
  next_call. { left. exists (init_script ++ [GetConfigOrDie]). eexists _, _. split; [|done].
    unfold before. by rewrite <-!app_assoc. }
  rewrite <-app_assoc. change (_ ++ ([GetConfigOrDie] ++ _)) with before.
  unfold check at 1, setup, mbind, M_bind. fold manifests.
  destruct manifests as [[st|e] l|why l]; [|by right; eauto..].
  assert (wpx True (check! call (Complete eapolv1 watched) ;; check! call AddHealthzCheck ;;
    check! call AddReadyzCheck ;; call Start) (runs_script (before ++ operator_rest))
    (worked before)) as Hrun.
  { apply wp_check_call. do 2 apply wp_check_call. apply wp_last_call. }
  unfold wpx, check at 1, mbind, M_bind in Hrun. fold watched.
  destruct (call (Complete eapolv1 watched) (worked before)) as [[e|] calls|]; [by left| |done].
  destruct (check _ _ _) as [[e|] calls'|]; [by left| |done].
  split; [done|]. by eexists _, _.
Qed.
