(* ===== verification/Serving.v ===== *)
(** * The metrics server and the error variable of main: monitor/main.go

    [main] starts the HTTP server for the metrics in a goroutine that assigns the
    same variable [err] in which [main] keeps the outcome of each of its own
    steps.  Here the two run concurrently, every access to [err] being a step of
    its own.  [Process] is about the runs in which the server keeps listening; what
    else can happen is the subject of this file.  The names of the metrics are
    those of internal/metrics/metrics.go and pkg/hostap/stats.go. *)
From S2P Require Import Prelude GoStrings Api ConfigGen.
From Stdlib Require Import Ascii.

(** ** The metrics *)
Definition Namespace : string := "authenticator".
Definition Subsystem : string := "hostapd".

Record metric := { metric_Name : string; Help : string }.

Definition AuthSuccess : metric :=
  {| metric_Name := "auth_success_total";
     Help := "total successful authentications for wpa supplicants" |}.
Definition AuthFailed : metric :=
  {| metric_Name := "auth_failure_total";
     Help := "total failed authentications for wpa supplicants" |}.

Definition statsLabels : list string := ["interface"].

(** [prometheus.BuildFQName] *)
Definition BuildFQName (namespace subsystem name : string) : string :=
  if bool_decide (name = "") then ""
  else if negb (bool_decide (namespace = "")) && negb (bool_decide (subsystem = ""))
       then Join [namespace; subsystem; name] "_"
  else if negb (bool_decide (namespace = "")) then Join [namespace; name] "_"
  else if negb (bool_decide (subsystem = "")) then Join [subsystem; name] "_"
  else name.

(** The registry: the labels and the help of each name. *)
Abbreviation Registry := (gmap string (list string * string)).

(** [prometheus.MustRegister] of a vector, whose descriptor is valid. *)
Definition MustRegister (name help : string) (labels : list string) : M Registry unit :=
  r ← gets id;
  match r !! name with
  | Some _ => panic "duplicate metrics collector registration attempted"
  | None => modify <[name := (labels, help)]>
  end.

(** stats.go: [stats] and [init] *)
Definition stats_init : M Registry unit :=
  _ ← MustRegister (BuildFQName Namespace Subsystem (metric_Name AuthSuccess)) (Help AuthSuccess)
        statsLabels;
  MustRegister (BuildFQName Namespace Subsystem (metric_Name AuthFailed)) (Help AuthFailed)
    statsLabels.

(** ** The server *)

(** [net.JoinHostPort] *)
Definition JoinHostPort (host port : string) : string :=
  if Contains host ":" || Contains host "%"
  then "[" +:+ host +:+ "]:" +:+ port else host +:+ ":" +:+ port.

Record Server := { Addr : string; patterns : list string; ReadHeaderTimeout : Z }.

(** [registerPromHandler] up to [ListenAndServe], which returns only with an
    error. *)
Definition registerPromHandler (host : string) (port : Z) (enablePprof : bool) : Server :=
  {| Addr := JoinHostPort host (Itoa port);
     patterns := ["/metrics"] ++
       (if enablePprof
        then ["/debug/pprof/"; "/debug/pprof/cmdline"; "/debug/pprof/profile";
              "/debug/pprof/symbol"; "/debug/pprof/trace"] else []);
     ReadHeaderTimeout := 3 |}.

Definition defaultPort : Z := 7472.

(** ** The variable [err] *)

(** The goroutine: it serves, has stored its error, or has logged and returned. *)
Inductive http := Serving | Stored | Returned.

(** What [main] does to [err] from the start of the goroutine to the end of the
    loop over the interfaces, each line one access. *)
Inductive access :=
| StoreInit
| TestInit
| StoreStart (n : string)
| TestStart (n : string).

Definition main_accesses (ifaces : list string) : list access :=
  [StoreInit; TestInit] ++ (n ← ifaces; [StoreStart n; TestStart n]).

Record MainState := {
  err : option error;
  server : http;
  todo : list access;
  (** The interfaces of the list [monitors], which are stopped at the end. *)
  kept : list string;
  (** [os.Exit(1)] *)
  exited : bool;
  (** The errors that the goroutine has logged. *)
  logged : list error;
}.

Definition main_starts (before : option error) (ifaces : list string) : MainState :=
  {| err := before; server := Serving; todo := main_accesses ifaces; kept := [];
     exited := false; logged := [] |}.

Inductive actor := Main | ServerFails (e : error) | ServerLogs.

Section race.
(** How the set-up of the interfaces and each start of a monitor end. *)
Variable initErr : option error.
Variable startErr : string → option error.

(** A step of [main]. *)
Definition main_access (a : access) (rest : list access) (s : MainState) : MainState :=
  let store v := {| err := v; server := server s; todo := rest; kept := kept s;
                    exited := exited s; logged := logged s |} in
  let go exit keep := {| err := err s; server := server s;
                         todo := if exit : bool then [] else rest; kept := kept s ++ keep;
                         exited := exit; logged := logged s |} in
  match a with
  | StoreInit => store initErr
  | TestInit => go (bool_decide (err s ≠ None)) []
  | StoreStart n => store (startErr n)
  | TestStart n => go false (if bool_decide (err s = None) then [n] else [])
  end.

Definition main_race_step (w : actor) (s : MainState) : option MainState :=
  if exited s then None
  else
    match w, server s, todo s with
    | Main, _, a :: rest => Some (main_access a rest s)
    | ServerFails e, Serving, _ =>
        Some {| err := Some e; server := Stored; todo := todo s; kept := kept s;
                exited := false; logged := logged s |}
    | ServerLogs, Stored, _ =>
        Some {| err := err s; server := Returned; todo := todo s; kept := kept s;
                exited := false; logged := logged s ++ option_list (err s) |}
    | _, _, _ => None
    end.

Fixpoint main_race (ws : list actor) (s : MainState) : option MainState :=
  match ws with
  | [] => Some s
  | w :: ws' => s' ← main_race_step w s; main_race ws' s'
  end.

Definition starts (ifaces : list string) : list string :=
  filter (λ n, startErr n = None) ifaces.

(** ** The invariant of the race *)
Definition bodies (ifaces : list string) : list access :=
  n ← ifaces; [StoreStart n; TestStart n].

(** [err] is what [main] last stored, or has been overwritten since. *)
Definition holds (v : option error) (s : MainState) : Prop :=
  err s = v ∨ (is_Some (err s) ∧ server s ≠ Serving).

(** Of the monitors started among [seen] at most one is missing, and none while
    the server listens. *)
Definition keeps (seen : list string) (s : MainState) : Prop :=
  kept s `sublist_of` starts seen ∧ (length (starts seen) ≤ S (length (kept s)))%nat ∧
  (server s = Serving → kept s = starts seen).

Inductive stage (ifaces : list string) (s : MainState) : Prop :=
| at_exit :
    exited s = true → todo s = [] → kept s = [] → initErr ≠ None ∨ server s ≠ Serving →
    stage ifaces s
| at_start :
    exited s = false → todo s = StoreInit :: TestInit :: bodies ifaces → kept s = [] →
    stage ifaces s
| at_init :
    exited s = false → todo s = TestInit :: bodies ifaces → kept s = [] → holds initErr s →
    stage ifaces s
| at_next seen rest :
    exited s = false → ifaces = seen ++ rest → initErr = None → todo s = bodies rest →
    keeps seen s → stage ifaces s
| at_test seen n rest :
    exited s = false → ifaces = seen ++ n :: rest → initErr = None →
    todo s = TestStart n :: bodies rest →
    (err s = startErr n ∧ keeps seen s) ∨
    (is_Some (err s) ∧ server s ≠ Serving ∧ kept s = starts seen) →
    stage ifaces s.

Lemma starts_snoc l n :
  starts (l ++ [n]) = starts l ++ (if bool_decide (startErr n = None) then [n] else []).
Proof.
  unfold starts. rewrite filter_app. f_equal. rewrite filter_cons, filter_nil.
  by case_bool_decide; destruct (decide _).
Qed.

(** A test adds the monitor that was started, unless [err] was overwritten. *)
Lemma keeps_test seen n (s s' : MainState) :
  (err s = startErr n ∧ keeps seen s) ∨
  (is_Some (err s) ∧ server s ≠ Serving ∧ kept s = starts seen) →
  kept s' = kept s ++ (if bool_decide (err s = None) then [n] else []) →
  server s' = server s → keeps (seen ++ [n]) s'.
Proof.
  intros [[He (Hsub & Hlen & Heq)]|([e He] & Hsrv & Hk)] Hk' Hs'; unfold keeps;
    rewrite Hk', Hs', starts_snoc, He.
  - split; [by apply sublist_app|]. split; [rewrite !length_app; lia|].
    intros Hs. by rewrite Heq.
  - rewrite (bool_decide_false (Some e = None)), app_nil_r, Hk by done.
    split; [by apply sublist_inserts_r|]. split; [|done].
    rewrite length_app. destruct (bool_decide (startErr n = None)); cbn [length]; lia.
Qed.

Lemma stage_main ifaces a rest s :
  exited s = false → todo s = a :: rest → stage ifaces s →
  stage ifaces (main_access a rest s).
Proof.
  intros Hex Htodo [He|_ Ht Hk|_ Ht Hk Hh|seen l _ -> Hi Ht Hk|seen n l _ -> Hi Ht Hk];
    [congruence|rewrite Htodo in Ht..].
  - injection Ht as -> ->. apply at_init; try done. by left.
  - injection Ht as -> ->. cbn [main_access]. case_bool_decide as Hb.
    + apply at_exit; cbn; rewrite ?Hk; try done. destruct Hh as [<-|[_ ?]]; auto.
    + assert (err s = None) as He by (by destruct (err s); [destruct Hb|]).
      destruct Hh as [Hh|[[? ?] _]]; [|congruence].
      apply (at_next _ _ [] ifaces); cbn; rewrite ?Hk; try done; [congruence|].
      split; [done|]. split; [cbn; lia|done].
  - destruct l as [|n l]; [done|]. injection Ht as -> ->.
    apply (at_test _ _ seen n l); try done. by left.
  - injection Ht as -> ->. apply (at_next _ _ (seen ++ [n]) l); try done.
    { by rewrite <-app_assoc. }
    by eapply keeps_test.
Qed.

(** The goroutine changes [err] once, and then the server does not listen. *)
Lemma stage_server ifaces (s s' : MainState) :
  exited s' = exited s → todo s' = todo s → kept s' = kept s → server s' ≠ Serving →
  (is_Some (err s') ∧ server s = Serving) ∨ (err s' = err s ∧ server s ≠ Serving) →
  stage ifaces s → stage ifaces s'.
Proof.
  intros He Ht Hk Hs Herr.
  assert (∀ v, holds v s → holds v s') as Hholds.
  { intros v Hv. destruct Herr as [[? _]|[Heq _]]; [by right|].
    destruct Hv as [<-|[? _]]; [by left|]. right. by rewrite Heq. }
  assert (∀ seen, keeps seen s → keeps seen s') as Hkeeps.
  { intros seen (? & ? & _). unfold keeps. by rewrite Hk. }
  intros [Hx H1 H2 ?|Hx H1 H2|Hx H1 H2 ?|seen l Hx ? ? H1 ?|seen n l Hx ? ? H1 Hn];
    rewrite <-He in Hx; rewrite <-Ht in H1; try rewrite <-Hk in H2.
  - apply at_exit; auto.
  - by apply at_start.
  - apply at_init; auto.
  - eapply at_next; eauto.
  - eapply at_test; eauto. destruct Herr as [[Hsome Hsrv]|[Heq Hsrv]].
    + right. destruct Hn as [(_ & _ & _ & Hall)|(_ & ? & _)]; [|done].
      by rewrite Hk, Hall.
    + rewrite Heq. destruct Hn as [[Hn Hseen]|(? & _ & Hall)]; [by left; auto|].
      right. by rewrite Hk.
Qed.

Lemma stage_run ifaces ws s s' : main_race ws s = Some s' → stage ifaces s → stage ifaces s'.
Proof.
  revert s. induction ws as [|w ws IH]; intros s; cbn [main_race]; [by intros [= ->]|].
  intros Hrun Hst. apply bind_Some in Hrun as (s1 & Hstep & Hrun). apply (IH s1); [done|].
  unfold main_race_step in Hstep. destruct (exited s) eqn:Hex; [done|].
  destruct w as [|e|]; [destruct (todo s) as [|a rest] eqn:Ht|..];
    [|injection Hstep as <-; by apply stage_main|..];
    destruct (server s) eqn:Hsrv; try discriminate; injection Hstep as <-;
    (eapply stage_server; [..|done]); try done; cbn.
  - left. split; [by eexists|done].
  - right. by rewrite Hsrv.
Qed.
End race.

(** C12. What the metrics server can do to [main]: in every run that gets to the end
    of the loop, or to an exit, [main] exits only if the interfaces could not be set
    up or the server failed; otherwise the monitors it keeps, in order, are those
    that were started, all of them while the server listens and all but at most one
    when it has failed. *)
Theorem main_err_shared initErr startErr ifaces ws s :
  main_race initErr startErr ws (main_starts None ifaces) = Some s → todo s = [] →
  if exited s then kept s = [] ∧ (initErr ≠ None ∨ server s ≠ Serving)
  else
    initErr = None ∧ kept s `sublist_of` starts startErr ifaces ∧
    (length (starts startErr ifaces) ≤ S (length (kept s)))%nat ∧
    (server s = Serving → kept s = starts startErr ifaces).
Proof.
  intros Hrun Hend. eapply (stage_run _ _ ifaces) in Hrun; [|by apply at_start].
  destruct Hrun as [Hx ? ? ?|Hx Ht ?|Hx Ht ? ?|seen [|n l] Hx Hi ? Ht Hk|seen n l Hx ? ? Ht ?];
    rewrite Hx; rewrite Hend in *; try done.
  rewrite app_nil_r in Hi. subst seen.
  done.
Qed.

(** When the server fails at the wrong moment, a program that has nothing wrong
    leaves, a monitor that runs is forgotten at the shutdown, and nothing is logged. *)
Lemma main_err_race (n : string) (e : error) :
  let ok := λ _ : string, @None error in
  (∃ ws s, main_race None ok ws (main_starts None [n]) = Some s ∧ exited s = true) ∧
  (∃ ws s, main_race None ok ws (main_starts None [n]) = Some s ∧ todo s = [] ∧
     exited s = false ∧ server s = Returned ∧ starts ok [n] = [n] ∧ kept s = []) ∧
  (∃ ws s, main_race None ok ws (main_starts None [n]) = Some s ∧ todo s = [] ∧
     server s = Returned ∧ kept s = [n] ∧ logged s = []).
Proof.
  split; [|split].
  - exists [Main; ServerFails e; Main]. by eexists.
  - exists [Main; Main; Main; ServerFails e; ServerLogs; Main]. by eexists.
  - exists [Main; Main; ServerFails e; Main; ServerLogs; Main]. by eexists.
Qed.

(** The two metrics have names of their own. *)
Lemma stats_init_registers r :
  r !! "authenticator_hostapd_auth_success_total" = None →
  r !! "authenticator_hostapd_auth_failure_total" = None →
  stats_init r =
  Done tt
    (<["authenticator_hostapd_auth_failure_total" := (statsLabels, Help AuthFailed)]>
      (<["authenticator_hostapd_auth_success_total" := (statsLabels, Help AuthSuccess)]> r)).
Proof.
  intros Hs Hf. unfold stats_init, MustRegister, mbind, M_bind, gets, modify, id.
  change (BuildFQName Namespace Subsystem (metric_Name AuthSuccess))
    with "authenticator_hostapd_auth_success_total".
  change (BuildFQName Namespace Subsystem (metric_Name AuthFailed))
    with "authenticator_hostapd_auth_failure_total".
  rewrite Hs. by rewrite lookup_insert_ne, Hf.
Qed.

(** All pods use the network of their node and the port is fixed: of the monitors
    of two Authenticators on one node only one can listen. *)
Lemma metrics_address_shared g g' sel sel' host pprof pprof' :
  HostNetwork (podSpec g sel) = true ∧ HostNetwork (podSpec g' sel') = true ∧
  Addr (registerPromHandler host defaultPort pprof) =
  Addr (registerPromHandler host defaultPort pprof').
Proof. done. Qed.

(** ** Witness: the server fails between the two accesses for the first interface *)
Lemma main_err_shared_witness :
  let startErr := λ n, if bool_decide (n = "ens1") then Some (Error ROther "no such link") else None in
  let ifaces := ["ens0"; "ens1"; "ens2"] in
  let busy := Error ROther "address already in use" in
  let s := {| err := None; server := Returned; todo := []; kept := ["ens2"]; exited := false;
              logged := [Error ROther "no such link"] |} in
  main_race None startErr
    [Main; Main; Main; ServerFails busy; Main; Main; ServerLogs; Main; Main; Main]
    (main_starts None ifaces) = Some s ∧
  kept s `sublist_of` starts startErr ifaces ∧
  (length (starts startErr ifaces) ≤ S (length (kept s)))%nat.
Proof.
  intros startErr ifaces busy s. split; [reflexivity|].
  destruct (main_err_shared None startErr ifaces
    [Main; Main; Main; ServerFails busy; Main; Main; ServerLogs; Main; Main; Main] s)
    as (_ & Hsub & Hlen & _); [reflexivity..|]. by split.
Defined.
